(* ===== verification/_CoqProject ===== *)
-Q . S2P
Prelude.v
PyFloat.v
PyStr.v
PyNum.v
PyRound.v
PyBounds.v
PyDict.v
PyJson.v
JsonText.v
ApiModels.v
Leases.v
Registry.v
Health.v
Scheduling.v
Routing.v
LoadProbe.v
Throughput.v
Metrics.v
MetricsText.v
Diagnostics.v
LoadCharts.v
DashboardView.v
Dashboard.v
DashboardSafety.v
Alerts.v
Nodes.v
DashboardGateway.v
NodeForm.v
Gateway.v
GatewayFrames.v
GatewaySafety.v
GatewayProgress.v
Backends.v
Streams.v
LeasePath.v
LeaseRunner.v
Security.v
Context.v
State.v
Managers.v
Startup.v
Adapters.v
Lifetime.v
Serving.v
Outage.v
Poller.v
NodeActions.v
Demo.v
LeaseRun.v
Wire.v
