(* ===== verification/Prelude.v ===== *)
(** * llm-home-lab: a verified model of the orchestrator

    llm-home-lab is a gateway in front of a few machines that run language models.  It keeps
    a registry of hosts, watches their health, leases hosts to tests, and sends every chat
    request to a host that serves its model, queueing requests while all of them are full.
    Around the gateway are an operator dashboard in the terminal, a wrapper that runs a
    command on a leased host, a tool that rotates API keys and a load generator.  This library
    models the Python package [src/src/llm_home_lab] and the script in [src/scripts], and
    proves what their parts promise.  Paths below are relative to that package.

    ** The parts and how they interact

    [main.py] reads the environment and builds the gateway.  A request passes the lease-path
    rewriting, the authentication and the request log before a handler sees it.  A chat request
    ([api/app.py], [chat_completions]) asks the backends which models they have, asks the lease
    book which hosts it may use, and the health monitor and the registry which of those are up
    and have room.  If none has, it waits in the scheduling queue, which holds a callback that
    looks for hosts again at every poll; otherwise the routing engine picks a host, the request
    takes one of its slots, runs on the HTTP backend and gives the slot back.  What came of it
    goes to the metrics, the completion log and the health monitor.  The node and lease
    endpoints and the background probes change the same state in between.  The dashboard, the
    wrapper, the load generator and a second gateway in front of this one are its clients:
    they read what it writes.

    ** The files

    Foundations:
    - [Prelude]: time, the effect type [prog], lists, stable sorting, sums over maps;
    - [PyFloat], [PyStr], [PyDict], [PyJson]: the Python types the code uses: binary64
      floats, strings with the methods used here, dictionaries in insertion order, JSON
      values with the codec interface [JsonCodec];
    - [PyNum], [PyRound], [PyBounds]: numbers as text, with the proof that a float is read back
      from its shortest text, and how large a result can get;
    - [JsonText]: [json.dumps] and [json.loads]; what the first writes the second reads.

    Components of the gateway, each with its state, its operations and what they guarantee:
    - [ApiModels] ([api/models.py]): the chat request and its field constraints;
    - [Leases] ([leases/book.py], [leases/models.py]): the lease book.  Its two indexes stay
      inverse to each other, leases stay within ttl and ceiling, [reserve] takes exactly the
      host it should and never the last active one, and only a live token opens a host;
    - [Registry] ([registry/]): hosts, slots and the SQLite mirror.  [HostInfo] objects live
      in a heap, because requests keep references to them; a restart restores the hosts, in
      whatever order SQLite selects the rows;
    - [Health] ([health/]): the monitor refines a two-phase circuit breaker, and agrees with
      the policy of the failover specification where no probe fails inside a cooldown;
    - [Scheduling] ([scheduling/queue.py]): priorities, sessions in rotation, callbacks;
      [dispatch] equals a reference search, sessions take turns and entries stay in order;
    - [Routing] ([routing/], the policy of [main.py]): the best score wins, sticky sessions;
    - [LoadProbe] ([registry/external_load.py], [registry/llamaserver_load.py],
      [registry/multi_backend_load_probe.py]): the load probes behind the class [LoadProbe];
    - [Throughput], [Metrics], [Alerts] ([observability/]): the completion log, the windowed
      indicators and the alert rules; counts are exact, the percentile is the nearest rank,
      alerts fire and resolve with the breaches;
    - [MetricsText] ([observability/metrics.py], [render_prometheus]) and [Diagnostics]
      ([diagnostics/]): the text of [GET /metrics] and its reader, with the round trip;
    - [Nodes] ([api/app.py]): the state the handlers share ([World]), the helpers of
      [create_app], the node and lease endpoints, the steps of the background probes;
    - [Gateway] ([api/app.py], [chat_completions]): the chat handler, cut at its awaits;
      [run_op] is one step of a request or of the rest of the system, and a list of
      operations is an interleaving.  [GatewayFrames] says what a step leaves alone;
      [GatewaySafety] has the invariants of every run: slots are counted right, requests run
      only where leases and limits allow, the queue holds the waiting requests, no request
      waits forever; [GatewayProgress] says what a request finds when it looks for hosts, whose
      turn a poll is, and that room is used: one round of polls serves the first head a host
      has room for;
    - [Backends] ([backends/]): aliases, payloads, retries, parsing and summing of streams;
    - [Streams] ([api/app.py], [_stream_chunks]; [api/lifetime.py]): the relay of chunks and
      the owner of a streaming slot, released exactly once;
    - [Adapters] ([backends/], the generators of a streamed response): the two adapter classes
      and their generators, resumed item by item; every connection is closed before its slot
      is released, and the whole gives what [Backends] and [Streams] say of it;
    - [Lifetime] ([api/lifetime.py], [RequestLifetimeMiddleware]): the two tasks of a request
      and their cancellations; a disconnect always reaches the request;
    - [LeasePath] ([leases/path.py]): leases in the path of a request;
    - [Security] ([security/], [enforce_auth]): API keys, authorisation, key rotation;
    - [Serving] ([api/app.py]): the middlewares around the handlers, probe rounds, readiness,
      metrics and alerts, joined to the gateway's world;
    - [Poller] ([api/app.py], [_health_poll_loop], [_lifespan]): the background task that
      probes the hosts; it survives every failure and ends with the application;
    - [Outage] ([api/app.py], [_backend_for]): what one host whose backend cannot be built does
      to every chat request and every round of probes;
    - [Startup] ([main.py], [leases/settings.py]): the environment and the files, the gateway
      that is built from them, restarts; [deployment_is_sound] carries the safety of
      [GatewaySafety] to it;
    - [Context] ([context/]): assembling a session within a token budget, and its cache;
    - [State] and [Managers] ([state/]): the SQLite stores of sessions, tool invocations and
      workspaces, first each call alone, then the statements of many calls interleaved.

    The clients:
    - [LoadCharts], [DashboardView] ([tui/rates.py], [tui/load_history.py],
      [tui/load_chart.py], the functions of [tui/app.py]): what the dashboard draws;
    - [Dashboard], [DashboardSafety] ([tui/app.py], [tui/client.py]): its state from poll to
      poll and key to key; its widgets stay consistent;
    - [DashboardGateway]: the dashboard with the gateway's own handlers behind it; what is
      shown is what the gateway holds;
    - [NodeForm], [NodeActions] ([tui/app.py]): the node form, the dialogs and the keys, down to
      the requests they send and what those do to the hosts;
    - [LeaseRunner], [LeaseRun] ([leases/runner.py]): the wrapper in sequence, and its two
      threads interleaved; the first refines the second's runs;
    - [Demo] ([scripts/demo_workload.py]): the load generator and its workers;
    - [Wire]: what one part writes as text and another reads: completions, streams, the key
      file.

    ** The theorems

    Theorems numbered C1, C2, ... are the main properties; their comments say in words what
    they state.  A property with hypotheses has a [_witness] next to it, at a concrete
    input.  Some theorems, not all of them numbered, describe what the code does where it does
    not do what it means to: [unknown_type_stops_gateway], [update_race_overadmits],
    [append_after_full_trim_is_lost], [snapshot_failure_blinds],
    [late_heartbeat_masks_success], [torn_read].

    ** Conventions

    A stateful operation is a [prog S E A]: it takes the state and gives a result or an
    exception, and the state, which survives the exception.  Methods that hold a lock or run
    between two awaits are single steps; where steps of several tasks, threads or clients
    interleave, a step relation or a step function is run by a list of events or a schedule.
    A [datetime] or [timedelta] is its number of microseconds.  A float is a binary64 value of
    [SpecFloat], rounded as Python rounds.  Integers are unbounded, as in Python.  A string is
    a sequence of code points below 256.  Outside [JsonText] and [Wire], where the code stores
    or sends JSON text, the model keeps the value the text denotes.  A dictionary is an
    association list where its order can be observed and a [gmap] where it cannot.  What comes
    from outside is an argument: clocks, random tokens and ids, answers of servers and
    subprocesses.

    ** Bounds and fuel

    [Backends.try_attempts] runs on [max_retries + 1] units of fuel, the number of attempts
    the code's [range] allows.  [Nodes.resume_scan] gets one unit per host, and
    [model_capable_exact] shows that this suffices.  A waiting request polls at most 300
    times: 30 seconds in steps of the float 0.1, computed in binary64 ([wait_is_bounded]).
    [JsonText.loads] has twice the length of the text and one more, and [loads_terminates]
    shows that more fuel changes nothing.  The search for the shortest text of a float tries up
    to 17 digits, which always suffice ([PyRound]).  The search for a free widget id tries one
    candidate more than there are ids in use.  All other recursion is structural.

    ** What is not modelled

    The text of log lines, except the audit lines and those a theorem counts; [argparse]; the
    style sheets, key bindings and layout of the dashboard, whose widgets are the record of the
    commands sent to them; a second cancellation while [RequestLifetimeMiddleware] joins its tasks; the
    parsing of URLs and headers, which are arguments of [Serving]; what [httpx] says
    of a URL, an argument of [Startup], which builds the table of backend factories that
    [Nodes] is given; the order in which SQLite selects rows without [ORDER BY], an argument of
    [Registry]; the busy time-out of SQLite; code points above 255 and the recursion limit of
    [json]; token counts that are not integers.  The awaits inside the rendering of the load
    charts are not points of interleaving; in [LeaseRun] setting the stop flag and writing the
    log line before it are one step, and in [Gateway] the bookkeeping of a stream and the release
    of its slot, whose yields are apart in [Adapters].  Client paths are taken to name
    the host they quote.  A [PATCH] with an explicit [null] for a required field, and sizes
    beyond what a [timedelta] holds, are left out of the requests.

    ** What could come next

    A bound on how many rounds a request waits for its turn while the other requests come and
    go; host ids that need quoting, from the path of a request to the labels of the metrics;
    the steps of [Poller] among the operations of [Gateway], whose other steps are arbitrary
    changes of the service there. *)

From stdpp Require Export base gmap strings list fin_maps sets sorting.
From Stdlib Require Export ZArith Lia.

#[export] Set Warnings "-notation-overridden,-clear-no-such-hyp".

(** ** Python time: [datetime] and [timedelta]

    Python's [timedelta] counts whole microseconds and an aware UTC [datetime] is a
    whole number of microseconds from a fixed origin; both are [Z] here. *)
Abbreviation datetime := Z (only parsing).
Abbreviation timedelta := Z (only parsing).

Definition td_seconds (n : Z) : timedelta := (n * 1000000)%Z.
Definition td_minutes (n : Z) : timedelta := td_seconds (n * 60).
Definition td_hours (n : Z) : timedelta := td_minutes (n * 60).

(** ** Effects

    A Python operation that mutates an object and may raise is a state-passing
    function.  The state survives an exception: Python does not roll back. *)
Inductive outcome (E A : Type) : Type :=
  | Ret (a : A)
  | Raise (e : E).
Arguments Ret {_ _} _.
Arguments Raise {_ _} _.

Definition prog (S E A : Type) : Type := S → outcome E A * S.

#[global] Instance prog_ret {S E} : MRet (prog S E) := λ A a s, (Ret a, s).
#[global] Instance prog_bind {S E} : MBind (prog S E) := λ A B k m s,
  match m s with
  | (Ret a, s') => k a s'
  | (Raise e, s') => (Raise e, s')
  end.

Definition get {S E} : prog S E S := λ s, (Ret s, s).
Definition put {S E} (s : S) : prog S E unit := λ _, (Ret tt, s).
Definition modify {S E} (f : S → S) : prog S E unit := λ s, (Ret tt, f s).
Definition raise {S E A} (e : E) : prog S E A := λ s, (Raise e, s).
Definition gets {S E A} (f : S → A) : prog S E A := λ s, (Ret (f s), s).

(** [m] always leaves a state satisfying [I] when started in one, whether it
    returns or raises. *)
Definition preserves {S E A} (I : S → Prop) (m : prog S E A) : Prop :=
  ∀ s, I s → I (m s).2.

(** Hoare triple with a normal and an exceptional postcondition. *)
Definition triple {S E A} (P : S → Prop) (m : prog S E A)
    (Q : A → S → Prop) (X : E → S → Prop) : Prop :=
  ∀ s, P s →
    match m s with
    | (Ret a, s') => Q a s'
    | (Raise e, s') => X e s'
    end.

Section effects.
Context {S E : Type} (I : S → Prop).

Lemma preserves_ret {A} (a : A) : preserves (E:=E) I (mret a).
Proof. by intros s Hs. Qed.

Lemma preserves_raise {A} (e : E) : preserves (A:=A) I (raise e).
Proof. by intros s Hs. Qed.

Lemma preserves_gets {A} (f : S → A) : preserves (E:=E) I (gets f).
Proof. by intros s Hs. Qed.

Lemma preserves_get : preserves (E:=E) I get.
Proof. by intros s Hs. Qed.

Lemma preserves_modify (f : S → S) :
  (∀ s, I s → I (f s)) → preserves (E:=E) I (modify f).
Proof. intros Hf s Hs. by apply Hf. Qed.

Lemma preserves_bind {A B} (m : prog S E A) (k : A → prog S E B) :
  preserves I m → (∀ a, preserves I (k a)) → preserves I (m ≫= k).
Proof.
  intros Hm Hk s Hs. specialize (Hm s Hs). unfold mbind, prog_bind.
  destruct (m s) as [[a|e] s']; [by apply Hk | done].
Qed.

Lemma triple_bind {A B} P (m : prog S E A) (k : A → prog S E B) R Q X :
  triple P m R X → (∀ a, triple (R a) (k a) Q X) → triple P (m ≫= k) Q X.
Proof.
  intros Hm Hk s Hs. specialize (Hm s Hs). unfold mbind, prog_bind.
  destruct (m s) as [[a|e] s']; [by apply Hk | done].
Qed.
End effects.

Create HintDb effects.
#[export] Hint Resolve preserves_ret preserves_raise preserves_gets preserves_get
  preserves_modify preserves_bind : effects.

(** Closes a decidable goal by evaluating its decision procedure. *)
Ltac vm_decide := apply (bool_decide_unpack _); vm_compute; exact I.

(** ** Lists *)

Lemma filter_true {A} (P : A → Prop) `{!∀ x, Decision (P x)} (l : list A) :
  (∀ x, x ∈ l → P x) → filter P l = l.
Proof.
  induction l as [|x l IH]; intros HP; [done|]. rewrite filter_cons, decide_True by (apply HP; left).
  f_equal. apply IH. intros y Hy. apply HP. by right.
Qed.

Lemma filter_false {A} (P : A → Prop) `{!∀ x, Decision (P x)} (l : list A) :
  (∀ x, x ∈ l → ¬ P x) → filter P l = [].
Proof.
  induction l as [|x l IH]; intros HP; [done|]. rewrite filter_cons, decide_False by (apply HP; left).
  apply IH. intros y Hy. apply HP. by right.
Qed.

Lemma length_filter_perm {A} (P : A → Prop) `{!∀ x, Decision (P x)} (l k : list A) :
  l ≡ₚ k → length (filter P l) = length (filter P k).
Proof. by intros ->. Qed.

Lemma find_ext {A} (f g : A → bool) (l : list A) : (∀ x, f x = g x) → find f l = find g l.
Proof. intros E. induction l as [|x l IH]; simpl; [done|]. by rewrite E, IH. Qed.

Lemma find_app {A} (f : A → bool) (l k : list A) :
  find f (l ++ k) = match find f l with Some x => Some x | None => find f k end.
Proof. induction l as [|x l IH]; simpl; [done|]. by destruct (f x). Qed.

Lemma find_fmap {A B} (f : B → bool) (g : A → B) (l : list A) :
  find f (g <$> l) = g <$> find (λ x, f (g x)) l.
Proof. induction l as [|x l IH]; simpl; [done|]. by destruct (f (g x)). Qed.

(** The first element that satisfies [f] comes after elements that do not. *)
Lemma find_split {A} (f : A → bool) (l : list A) x :
  find f l = Some x → ∃ l1 l2, l = l1 ++ x :: l2 ∧ f x = true ∧ Forall (λ y, f y = false) l1.
Proof.
  induction l as [|y l IH]; simpl; [done|]. destruct (f y) eqn:E.
  - intros [= ->]. by exists [], l.
  - intros (l1 & l2 & -> & ? & ?)%IH. exists (y :: l1), l2. split_and!; [done..|]. by constructor.
Qed.

Lemma find_first {A} (f : A → bool) (l1 l2 : list A) x :
  Forall (λ y, f y = false) l1 → f x = true → find f (l1 ++ x :: l2) = Some x.
Proof. intros H E. induction H as [|y l1 Hy _ IH]; simpl; [by rewrite E|by rewrite Hy]. Qed.

(** [xs.remove(x)]: drop the first occurrence. *)
Fixpoint remove_first {A} `{!EqDecision A} (x : A) (l : list A) : list A :=
  match l with
  | [] => []
  | y :: l => if decide (x = y) then l else y :: remove_first x l
  end.

Lemma elem_of_remove_first {A} `{!EqDecision A} (x y : A) l :
  NoDup l → y ∈ remove_first x l ↔ y ≠ x ∧ y ∈ l.
Proof.
  induction l as [|z l IH]; simpl; [set_solver|]. intros [Hz Hl]%NoDup_cons.
  case_decide as E; [subst|]; rewrite !elem_of_cons; [|rewrite IH by done]; split.
  - intros Hy. split; [by intros ->|by right].
  - intros [? [?|?]]; done.
  - intros [->|[? ?]]; [split; [done|by left]|split; [done|by right]].
  - intros [? [->|?]]; [by left|by right].
Qed.

Lemma remove_first_NoDup {A} `{!EqDecision A} (x : A) l : NoDup l → NoDup (remove_first x l).
Proof.
  induction l as [|z l IH]; simpl; [done|]. intros [Hz Hl]%NoDup_cons. case_decide; [done|].
  apply NoDup_cons. rewrite elem_of_remove_first by done. split; [tauto|by apply IH].
Qed.

Lemma remove_first_not_in {A} `{!EqDecision A} (x : A) l : x ∉ l → remove_first x l = l.
Proof.
  induction l as [|z l IH]; simpl; [done|]. rewrite not_elem_of_cons. intros [? ?].
  rewrite decide_False by done. by rewrite IH.
Qed.

Lemma remove_first_app {A} `{!EqDecision A} (x : A) l k :
  x ∉ l → remove_first x (l ++ x :: k) = l ++ k.
Proof.
  induction l as [|z l IH]; simpl; [by rewrite decide_True|]. rewrite not_elem_of_cons.
  intros [? ?]. rewrite decide_False by done. by rewrite IH.
Qed.

(** ** Sums over finite maps *)

Section map_sum.
Context {K A : Type} `{Countable K} (f : A → nat).

Definition map_sum (m : gmap K A) : nat := sum_list_with f (map_to_list m).*2.

Lemma map_sum_empty : map_sum ∅ = 0.
Proof. unfold map_sum. by rewrite map_to_list_empty. Qed.

Lemma sum_list_with_perm (l k : list A) : l ≡ₚ k → sum_list_with f l = sum_list_with f k.
Proof. induction 1; simpl; lia. Qed.

Lemma map_sum_fresh m k x : m !! k = None → map_sum (<[k := x]> m) = f x + map_sum m.
Proof.
  intros Hk. unfold map_sum.
  by rewrite (sum_list_with_perm _ ((k, x) :: map_to_list m).*2) by (by rewrite map_to_list_insert).
Qed.

Lemma map_sum_delete m k x : m !! k = Some x → map_sum m = f x + map_sum (delete k m).
Proof.
  intros Hk. rewrite <-(insert_delete_id m k x Hk) at 1.
  rewrite map_sum_fresh by apply lookup_delete_eq. done.
Qed.

Lemma map_sum_insert m k x :
  map_sum (<[k := x]> m) + from_option f 0 (m !! k) = f x + map_sum m.
Proof.
  destruct (m !! k) as [y|] eqn:E; simpl; [|rewrite map_sum_fresh by done; lia].
  rewrite (map_sum_delete m k y) by done. rewrite <-insert_delete_eq.
  rewrite map_sum_fresh by apply lookup_delete_eq. lia.
Qed.
Lemma map_sum_zero m : (∀ k x, m !! k = Some x → f x = 0) → map_sum m = 0.
Proof.
  intros Hm. unfold map_sum.
  assert (Hl : ∀ l : list A, (∀ x, x ∈ l → f x = 0) → sum_list_with f l = 0).
  { induction l as [|x l IH]; intros Hl; simpl; [done|].
    rewrite Hl by left. rewrite IH; [done|]. intros y Hy. apply Hl. by right. }
  apply Hl. intros x ([k y] & -> & Hk%elem_of_map_to_list)%list_elem_of_fmap. by apply (Hm k).
Qed.
End map_sum.

(** ** Bounded deques and slices *)

(** [deque(maxlen=n).append(x)]: the oldest entries fall off on the left. *)
Definition deque_append {A} (maxlen : nat) (q : list A) (x : A) : list A :=
  drop (S (length q) - maxlen) (q ++ [x]).

(** [xs[-n:]] for a positive [n]. *)
Definition last_n {A} (n : nat) (xs : list A) : list A := drop (length xs - n) xs.

Lemma last_n_length {A} n (xs : list A) : length (last_n n xs) = n `min` length xs.
Proof. unfold last_n. rewrite length_drop. lia. Qed.

Lemma last_n_app {A} n (xs ys : list A) :
  n ≤ length ys → last_n n (xs ++ ys) = last_n n ys.
Proof.
  intros Hn. unfold last_n. rewrite length_app, drop_app_ge by lia.
  f_equal. lia.
Qed.

Lemma deque_append_last_n {A} n (xs : list A) x :
  deque_append n (last_n n xs) x = last_n n (xs ++ [x]).
Proof.
  unfold deque_append, last_n. rewrite length_drop, length_app. simpl.
  rewrite <-(drop_app_le xs [x] (length xs - n)) by lia. rewrite drop_drop. f_equal. lia.
Qed.

Lemma deque_append_length {A} n (q : list A) x :
  length q ≤ n → length (deque_append n q x) = S (length q) `min` n.
Proof. unfold deque_append. intros. rewrite length_drop, length_app. cbn [length]. lia. Qed.

(** ** Stable sorting

    [sorted(xs, key=...)] with [le] the order on keys: an element goes before the first
    element it is not above, so equal keys keep their order. *)
Section sort.
Context {A : Type} (le : A → A → Prop) `{!RelDecision le}.

Fixpoint insert_by (x : A) (l : list A) : list A :=
  match l with
  | [] => [x]
  | y :: l => if decide (le x y) then x :: y :: l else y :: insert_by x l
  end.

Definition sort_by (l : list A) : list A := foldr insert_by [] l.

Lemma insert_by_perm x l : insert_by x l ≡ₚ x :: l.
Proof.
  induction l as [|y l IH]; simpl; [done|]. case_decide; [done|].
  rewrite IH. apply Permutation_swap.
Qed.

Lemma sort_by_perm l : sort_by l ≡ₚ l.
Proof. induction l as [|x l IH]; simpl; [done|]. by rewrite insert_by_perm, IH. Qed.

Lemma elem_of_sort_by x l : x ∈ sort_by l ↔ x ∈ l.
Proof. by rewrite sort_by_perm. Qed.

Lemma length_sort_by l : length (sort_by l) = length l.
Proof. by rewrite sort_by_perm. Qed.

Lemma insert_by_sorted `{!Total le} x l : Sorted le l → Sorted le (insert_by x l).
Proof.
  induction l as [|y l IH]; simpl; intros Hl; [by repeat constructor|].
  case_decide as Hxy; [by constructor; [|constructor]|].
  destruct (total le x y) as [|Hyx]; [done|].
  apply Sorted_inv in Hl as [Hl Hy]. constructor; [by apply IH|].
  destruct l as [|z l]; simpl; [by constructor|]. case_decide; constructor; [done|].
  by inversion Hy.
Qed.

Lemma sort_by_sorted `{!Total le} l : Sorted le (sort_by l).
Proof. induction l as [|x l IH]; simpl; [constructor|by apply insert_by_sorted]. Qed.

(** Elements of one class of equal keys keep their order. *)
Lemma insert_by_filter (P : A → Prop) `{!∀ x, Decision (P x)} x l :
  (P x → ∀ y, P y → le x y) → filter P (insert_by x l) = filter P (x :: l).
Proof.
  intros HP. induction l as [|y l IH]; simpl; [done|]. case_decide as Hxy; [done|].
  rewrite filter_cons, IH, !filter_cons.
  destruct (decide (P x)), (decide (P y)); try done. exfalso. eauto.
Qed.

Lemma sort_by_stable (P : A → Prop) `{!∀ x, Decision (P x)} l :
  (∀ x y, P x → P y → le x y) → filter P (sort_by l) = filter P l.
Proof.
  intros HP. induction l as [|x l IH]; simpl; [done|].
  rewrite insert_by_filter by eauto. by rewrite !filter_cons, IH.
Qed.

(** The head of a sorted list is a minimum. *)
Lemma sort_by_head `{!Total le, !Transitive le} l x l' :
  sort_by l = x :: l' → x ∈ l ∧ ∀ y, y ∈ l → y = x ∨ le x y.
Proof.
  intros E. pose proof (sort_by_sorted l) as Hs. rewrite E in Hs.
  apply Sorted_StronglySorted in Hs; [|intros ???; apply transitivity].
  apply StronglySorted_cons in Hs as [Hs _]. rewrite Forall_forall in Hs. split.
  - apply elem_of_sort_by. rewrite E. left.
  - intros y Hy. apply elem_of_sort_by in Hy. rewrite E in Hy.
    apply elem_of_cons in Hy as [->|Hy]; [by left|right]. by apply Hs.
Qed.

Lemma sort_by_id l : StronglySorted le l → sort_by l = l.
Proof.
  induction 1 as [|x l Hs IH Hx]; [done|]. simpl. rewrite IH. destruct l as [|y l]; [done|].
  simpl. apply Forall_cons in Hx as [Hxy _]. by rewrite decide_True.
Qed.

(** Sorted by a relation that is transitive on the elements at hand. *)
Lemma sort_by_strongly_sorted `{!Total le} (P : A → Prop) l :
  (∀ x y z, P x → P y → P z → le x y → le y z → le x z) → Forall P l → StronglySorted le (sort_by l).
Proof.
  intros Htrans HP. pose proof (sort_by_sorted l) as Hs. rewrite <-(sort_by_perm l) in HP.
  induction (sort_by l) as [|x s IH]; [constructor|].
  apply Sorted_inv in Hs as [Hs Hx]. apply Forall_cons in HP as [Hpx HP]. specialize (IH HP Hs).
  constructor; [done|]. destruct s as [|y s]; [done|]. inversion Hx as [|? ? Hxy]; subst. constructor; [done|].
  apply Forall_cons in HP as [Hy HP]. apply StronglySorted_cons in IH as [Hall _].
  rewrite Forall_forall in Hall, HP |- *. intros z Hz. apply (Htrans x y z); auto.
Qed.

Lemma sort_by_nil l : sort_by l = [] → l = [].
Proof. intros E. apply Permutation_nil_r. by rewrite <-E, sort_by_perm. Qed.

(** An element that nothing follows is sorted last. *)
Lemma sort_by_snoc_max l x : (∀ y, y ∈ l → le y x) → sort_by (l ++ [x]) = sort_by l ++ [x].
Proof.
  induction l as [|y l IH]; intros Hx; [done|]. cbn [app sort_by foldr].
  change (foldr insert_by [] (l ++ [x])) with (sort_by (l ++ [x])). change (foldr insert_by [] l) with (sort_by l).
  rewrite IH by (intros z Hz; apply Hx; by right). generalize (sort_by l) as k.
  induction k as [|z k IHk]; cbn [app insert_by]; [by rewrite decide_True by (apply Hx; left)|].
  case_decide; [done|]. simpl. by rewrite IHk.
Qed.

(** A map that keeps the order commutes with sorting. *)
Lemma sort_by_fmap (f : A → A) l :
  (∀ x y, x ∈ l → y ∈ l → le (f x) (f y) ↔ le x y) → sort_by (f <$> l) = f <$> sort_by l.
Proof.
  induction l as [|x l IH]; intros Hf; [done|]. change (f <$> x :: l) with (f x :: (f <$> l)).
  change (insert_by (f x) (sort_by (f <$> l)) = f <$> insert_by x (sort_by l)).
  rewrite IH by (intros; apply Hf; by right).
  assert (Hk : ∀ y, y ∈ sort_by l → le (f x) (f y) ↔ le x y).
  { intros y Hy. rewrite sort_by_perm in Hy. apply Hf; [left|by right]. }
  revert Hk. generalize (sort_by l) as k. induction k as [|y k IHk]; intros Hk; [done|].
  change (f <$> y :: k) with (f y :: (f <$> k)). cbn [insert_by]. pose proof (Hk y ltac:(left)) as Hy.
  destruct (decide (le x y)) as [Hc|Hc].
  - by rewrite decide_True by (by apply Hy).
  - rewrite decide_False by (by rewrite Hy). rewrite IHk; [done|]. intros z Hz. apply Hk. by right.
Qed.

(** Elements with distinct keys have one order only, whatever order they come in. *)
Lemma sort_by_unique `{!Total le, !Transitive le} l k :
  l ≡ₚ k → (∀ x y, x ∈ l → y ∈ l → le x y → le y x → x = y) → sort_by l = sort_by k.
Proof.
  intros Hp Ha.
  assert (Hs : ∀ l, StronglySorted le (sort_by l)).
  { intros l'. apply Sorted_StronglySorted; [intros ???; apply transitivity|apply sort_by_sorted]. }
  apply (StronglySorted_unique_strong le); [|apply Hs..|by rewrite !sort_by_perm].
  intros x y Hx Hy. rewrite elem_of_sort_by in Hx. rewrite elem_of_sort_by, <-Hp in Hy. by apply Ha.
Qed.
End sort.
