(* ===== verification/PyFloat.v ===== *)
(** * Python floats

    Python's [float] is IEEE 754 binary64.  The model uses the executable
    specification of the standard library, [SpecFloat], at precision 53 and maximal
    exponent 1024; it needs no axiom.  Values are the canonical ones (those that
    [valid_binary 53 1024] accepts), which is what every operation below returns.
    The order lemmas hold for all values that are not NaN. *)

From S2P Require Import Prelude.
From Stdlib Require Export SpecFloat.

Abbreviation float := spec_float (only parsing).

#[export] Instance spec_float_eq_dec : EqDecision spec_float.
Proof. solve_decision. Defined.

Definition f_prec : Z := 53.
Definition f_emax : Z := 1024.

Definition f_add : float → float → float := SFadd f_prec f_emax.
Definition f_sub : float → float → float := SFsub f_prec f_emax.
Definition f_mul : float → float → float := SFmul f_prec f_emax.
Definition f_div : float → float → float := SFdiv f_prec f_emax.
Definition f_opp : float → float := SFopp.
Definition f_lt : float → float → bool := SFltb.
Definition f_le : float → float → bool := SFleb.
Definition f_zero : float := S754_zero false.

(** [float(n)] for an integer [n]: the nearest binary64, ties to even. *)
Definition f_of_Z (n : Z) : float := binary_normalize f_prec f_emax n 0 false.

(** An exact integer as a (not yet rounded) significand with exponent 0. *)
Definition f_exact (n : Z) : float :=
  match n with
  | Z0 => S754_zero false
  | Zpos p => S754_finite false p 0
  | Zneg p => S754_finite true p 0
  end.

Inductive arith_error := ZeroDivisionError | OverflowError.

(** [a / b] on Python integers: the correctly rounded quotient of the two exact
    integers. [0 / b] is [0.0] for a positive and [-0.0] for a negative [b]. *)
Definition int_truediv (a b : Z) : outcome arith_error float :=
  match b with
  | Z0 => Raise ZeroDivisionError
  | _ => match f_div (f_exact a) (f_exact b) with
         | S754_infinity _ => Raise OverflowError
         | q => Ret q
         end
  end.

(** [x / y] on Python floats: division by zero raises, it does not give an infinity. *)
Definition float_truediv (x y : float) : outcome arith_error float :=
  match y with
  | S754_zero _ => Raise ZeroDivisionError
  | _ => Ret (f_div x y)
  end.

(** [math.ceil(x)] of a finite float. *)
Definition f_ceil (x : float) : Z :=
  match x with
  | S754_finite s m e =>
      let n := if s then Z.neg m else Z.pos m in
      if (0 <=? e)%Z then n * 2 ^ e else - (- n / 2 ^ (- e))
  | _ => 0
  end.

(** The literal [a/b] as the nearest float. *)
Definition f_lit (a b : Z) : float := f_div (f_exact a) (f_exact b).

Definition is_nan (x : float) : bool :=
  match x with S754_nan => true | _ => false end.

(** ** The order of the floats that are not NaN

    Each value has a key of three integers whose lexicographic order is the order of
    the floats; both zeros share a key. *)
Definition f_key (x : float) : Z * Z * Z :=
  match x with
  | S754_nan => (0, 0, 0)
  | S754_infinity true => (-2, 0, 0)
  | S754_infinity false => (2, 0, 0)
  | S754_zero _ => (0, 0, 0)
  | S754_finite true m e => (-1, - e, Z.neg m)
  | S754_finite false m e => (1, e, Z.pos m)
  end%Z.

Definition key_lt (a b : Z * Z * Z) : Prop :=
  let '(a1, a2, a3) := a in
  let '(b1, b2, b3) := b in
  (a1 < b1 ∨ a1 = b1 ∧ (a2 < b2 ∨ a2 = b2 ∧ a3 < b3))%Z.

Lemma f_lt_key x y :
  is_nan x = false → is_nan y = false → f_lt x y = true ↔ key_lt (f_key x) (f_key y).
Proof.
  intros Hx Hy. unfold f_lt, SFltb.
  destruct x as [[]|[]| |[] m e], y as [[]|[]| |[] m' e']; try discriminate;
    simpl; try (split; [discriminate|lia]); try (split; [lia|done]).
  all: change (Pos.compare_cont Eq m m') with (Pos.compare m m').
  all: destruct (Z.compare_spec e e'), (Pos.compare_spec m m'); simpl;
    split; try discriminate; try done; lia.
Qed.

Lemma f_lt_nan_l x y : is_nan x = true → f_lt x y = false.
Proof. by destruct x. Qed.

Lemma f_lt_nan_r x y : is_nan y = true → f_lt x y = false.
Proof. by destruct x as [[]|[]| |[] ? ?], y. Qed.

Lemma f_lt_irrefl x : f_lt x x = false.
Proof.
  destruct (is_nan x) eqn:Hx; [by apply f_lt_nan_l|].
  destruct (f_lt x x) eqn:E; [|done]. apply f_lt_key in E; [|done..].
  destruct (f_key x) as [[??]?]. simpl in E. lia.
Qed.

(** [<] is a strict weak order away from NaN: if [x < z] then every [y] is
    above [x] or below [z]. *)
Lemma f_lt_cotrans x y z :
  is_nan y = false → f_lt x z = true → f_lt x y = true ∨ f_lt y z = true.
Proof.
  intros Hy Hxz.
  destruct (is_nan x) eqn:Hx; [by rewrite f_lt_nan_l in Hxz|].
  destruct (is_nan z) eqn:Hz; [by rewrite f_lt_nan_r in Hxz|].
  rewrite !f_lt_key in * by done. revert Hxz.
  destruct (f_key x) as [[??]?], (f_key y) as [[??]?], (f_key z) as [[??]?]. simpl. lia.
Qed.

Lemma f_lt_trans x y z : f_lt x y = true → f_lt y z = true → f_lt x z = true.
Proof.
  intros Hxy Hyz.
  destruct (is_nan x) eqn:Hx; [by rewrite f_lt_nan_l in Hxy|].
  destruct (is_nan y) eqn:Hy; [by rewrite f_lt_nan_r in Hxy|].
  destruct (is_nan z) eqn:Hz; [by rewrite f_lt_nan_r in Hyz|].
  rewrite !f_lt_key in * by done. revert Hxy Hyz.
  destruct (f_key x) as [[??]?], (f_key y) as [[??]?], (f_key z) as [[??]?]. simpl. lia.
Qed.

Lemma f_lt_asym x y : f_lt x y = true → f_lt y x = false.
Proof.
  intros H. destruct (f_lt y x) eqn:E; [|done].
  rewrite <-(f_lt_irrefl x). symmetry. by eapply f_lt_trans.
Qed.

(** [f_le] is the negation of the converse of [f_lt] away from NaN. *)
Lemma f_le_lt x y :
  is_nan x = false → is_nan y = false → f_le x y = negb (f_lt y x).
Proof.
  intros Hx Hy. unfold f_le, f_lt, SFleb, SFltb.
  destruct x as [[]|[]| |[] m e], y as [[]|[]| |[] m' e']; try discriminate; try done.
  all: simpl; change (Pos.compare_cont Eq ?a ?b) with (Pos.compare a b).
  all: rewrite (Z.compare_antisym e e'), (Pos.compare_antisym m m').
  all: by destruct (e ?= e')%Z, (m ?= m')%positive.
Qed.

#[export] Hint Resolve f_lt_irrefl f_lt_asym : core.

Example truediv_half : int_truediv 1 2 = Ret (S754_finite false 4503599627370496 (-53)).
Proof. reflexivity. Qed.

Example truediv_third : int_truediv 1 3 = Ret (S754_finite false 6004799503160661 (-54)).
Proof. reflexivity. Qed.
