(* ===== verification/PyStr.v ===== *)
(** * Python strings

    A Python [str] is modelled by [string], a sequence of characters 0 to 255 read as
    Unicode code points, so length and order are those of the code points.  The
    functions follow the built-in methods on that range. *)

From S2P Require Import Prelude.
From stdpp Require Export pretty.
From Stdlib Require Export Ascii.
#[export] Set Warnings "-notation-overridden".

Open Scope string_scope.

Definition code (c : ascii) : N := N_of_ascii c.

(** [c.isspace()] on code points below 256. *)
Definition py_isspace (c : ascii) : bool :=
  let n := code c in
  ((9 <=? n) && (n <=? 13) || (28 <=? n) && (n <=? 32) || (n =? 133) || (n =? 160))%N.

Fixpoint str_lstrip (s : string) : string :=
  match s with
  | String c s' => if py_isspace c then str_lstrip s' else s
  | EmptyString => s
  end.

(** [s.rstrip()] removes the spaces with nothing but spaces after them. *)
Fixpoint str_rstrip (s : string) : string :=
  match s with
  | String c s' =>
      match str_rstrip s' with
      | EmptyString => if py_isspace c then EmptyString else String c EmptyString
      | t => String c t
      end
  | EmptyString => s
  end.

Definition str_strip (s : string) : string := str_rstrip (str_lstrip s).

Fixpoint str_all (p : ascii → bool) (s : string) : bool :=
  match s with EmptyString => true | String c s => p c && str_all p s end.

(** [s.startswith(p)] *)
Definition str_startswith (s p : string) : bool := String.prefix p s.

Fixpoint str_drop (n : nat) (s : string) : string :=
  match n, s with
  | O, _ => s
  | S n, String _ s => str_drop n s
  | S _, EmptyString => EmptyString
  end.

Fixpoint str_take (n : nat) (s : string) : string :=
  match n, s with
  | O, _ => EmptyString
  | S n, String c s => String c (str_take n s)
  | S _, EmptyString => EmptyString
  end.

(** [s.removeprefix(p)] *)
Definition str_removeprefix (s p : string) : string :=
  if str_startswith s p then str_drop (String.length p) s else s.

(** [s.endswith(p)] *)
Definition str_endswith (s p : string) : bool :=
  (String.length p <=? String.length s)%nat &&
  bool_decide (str_drop (String.length s - String.length p) s = p).

(** [c.lower()] on code points below 256: A to Z and the Latin-1 capitals. *)
Definition py_lower_char (c : ascii) : ascii :=
  let n := code c in
  if ((65 <=? n) && (n <=? 90) || (192 <=? n) && (n <=? 222) && negb (n =? 215))%N
  then ascii_of_N (n + 32) else c.

Fixpoint str_lower (s : string) : string :=
  match s with EmptyString => s | String c s => String (py_lower_char c) (str_lower s) end.

(** [s < t] on strings. *)
Definition str_lt (s t : string) : bool := bool_decide (¬ String.le t s).

(** [sep.join(parts)] *)
Fixpoint str_join (sep : string) (parts : list string) : string :=
  match parts with
  | [] => ""
  | [p] => p
  | p :: parts => p +:+ sep +:+ str_join sep parts
  end.

(** [str(n)] *)
Definition str_of_Z (n : Z) : string := pretty n.

Definition newline : string := String (ascii_of_N 10) "".

(** ** [repr] *)

Definition hex_digit (n : N) : ascii :=
  ascii_of_N (if n <? 10 then 48 + n else 87 + n)%N.

Definition str_contains (c : ascii) (s : string) : bool :=
  negb (str_all (λ d, negb (bool_decide (d = c))) s).

Definition quote_char : ascii := ascii_of_N 39.
Definition dquote_char : ascii := ascii_of_N 34.

Definition repr_char (q c : ascii) : string :=
  let n := code c in
  if bool_decide (c = q) || (n =? 92)%N then String (ascii_of_N 92) (String c "")
  else if (n =? 9)%N then "\t"
  else if (n =? 10)%N then "\n"
  else if (n =? 13)%N then "\r"
  else if ((n <? 32) || (127 <=? n) && (n <=? 160) || (n =? 173))%N
  then "\x" +:+ String (hex_digit (n / 16)) (String (hex_digit (n mod 16)) "")
  else String c "".

Fixpoint repr_chars (q : ascii) (s : string) : string :=
  match s with EmptyString => "" | String c s => repr_char q c +:+ repr_chars q s end.

(** [repr(s)]: single quotes unless the string has a single and no double quote. *)
Definition str_repr (s : string) : string :=
  let q := if str_contains quote_char s && negb (str_contains dquote_char s)
           then dquote_char else quote_char in
  String q (repr_chars q s +:+ String q "").

(** ** [isoformat] of an aware UTC datetime *)

(** Proleptic Gregorian date of a day number counted from 1970-01-01. *)
Definition civil_of_days (days : Z) : Z * Z * Z :=
  (let z := days + 719468 in
  let era := z / 146097 in
  let doe := z mod 146097 in
  let yoe := (doe - doe / 1460 + doe / 36524 - doe / 146096) / 365 in
  let doy := doe - (365 * yoe + yoe / 4 - yoe / 100) in
  let mp := (5 * doy + 2) / 153 in
  let d := doy - (153 * mp + 2) / 5 + 1 in
  let m := if mp <? 10 then mp + 3 else mp - 9 in
  let y := yoe + era * 400 in
  ((if m <=? 2 then y + 1 else y), m, d))%Z.

Fixpoint zeros (n : nat) : string :=
  match n with O => "" | S n => String (ascii_of_N 48) (zeros n) end.

(** Decimal padded with zeros to [w] digits. *)
Definition pad (w : nat) (n : Z) : string :=
  let s := str_of_Z n in zeros (w - String.length s) +:+ s.

Definition isoformat (t : datetime) : string :=
  let us := (t mod 1000000)%Z in
  let secs := (t / 1000000)%Z in
  let '(y, m, d) := civil_of_days (secs / 86400) in
  let s := (secs mod 86400)%Z in
  pad 4 y +:+ "-" +:+ pad 2 m +:+ "-" +:+ pad 2 d +:+ "T" +:+
  pad 2 (s / 3600) +:+ ":" +:+ pad 2 (s / 60 mod 60) +:+ ":" +:+ pad 2 (s mod 60) +:+
  (if (us =? 0)%Z then "" else "." +:+ pad 6 us) +:+ "+00:00".

Example isoformat_example : isoformat 1709210096000123 = "2024-02-29T12:34:56.000123+00:00".
Proof. vm_compute. reflexivity. Qed.

Example repr_example : str_repr "it's" = String dquote_char ("it's" +:+ String dquote_char "").
Proof. vm_compute. reflexivity. Qed.

(** ** Lemmas *)

Lemma str_prefix_spec p s : str_startswith s p = true ↔ ∃ t, s = p +:+ t.
Proof.
  unfold str_startswith. revert s. induction p as [|c p IH]; intros s; simpl.
  - split; intros _; [by exists s|by destruct s].
  - destruct s as [|c' s]; simpl; [split; [done|by intros (? & ?)]|].
    destruct (ascii_dec c c') as [->|Hc].
    + rewrite IH. split; intros (t & Ht); exists t; [by rewrite Ht|by injection Ht].
    + split; [done|]. intros (t & Ht). by injection Ht.
Qed.

Lemma str_drop_app p t : str_drop (String.length p) (p +:+ t) = t.
Proof. induction p; simpl; auto. Qed.

Lemma str_removeprefix_app p t : str_removeprefix (p +:+ t) p = t.
Proof.
  unfold str_removeprefix. replace (str_startswith (p +:+ t) p) with true;
    [apply str_drop_app|]. symmetry. apply str_prefix_spec. by exists t.
Qed.

Lemma str_all_app p s t : str_all p (s +:+ t) = str_all p s && str_all p t.
Proof. induction s as [|a s IH]; [done|]. change (String a s +:+ t) with (String a (s +:+ t)). simpl. by rewrite IH, andb_assoc. Qed.

Lemma str_lstrip_empty s : str_lstrip s = "" ↔ str_all py_isspace s = true.
Proof.
  induction s as [|c s IH]; simpl; [done|].
  by destruct (py_isspace c).
Qed.

Lemma str_rstrip_empty s : str_rstrip s = "" ↔ str_all py_isspace s = true.
Proof.
  induction s as [|c s IH]; simpl; [done|].
  rewrite andb_true_iff, <-IH.
  destruct (str_rstrip s); destruct (py_isspace c); simpl; split; try done; by intros [? ?].
Qed.

Lemma str_lstrip_nonspace s c t : str_lstrip s = String c t → py_isspace c = false.
Proof.
  induction s as [|c' s IH]; simpl; [done|].
  destruct (py_isspace c') eqn:E; [done|]. by intros [= -> ->].
Qed.

(** Stripping leaves nothing exactly when there are only spaces. *)
Lemma str_strip_empty s : str_strip s = "" ↔ str_all py_isspace s = true.
Proof.
  unfold str_strip. rewrite str_rstrip_empty, <-(str_lstrip_empty s).
  destruct (str_lstrip s) as [|c t] eqn:E; [done|]. simpl.
  rewrite (str_lstrip_nonspace _ _ _ E). done.
Qed.
