(* ===== verification/PyNum.v ===== *)
(** * Numbers as text

    [int(s)], [float(s)] and [str(x)] of integers and floats.  [float(s)] rounds the decimal
    correctly; [str] of a float is the shortest decimal that reads back as that float
    ([repr]).  The formats [.0f] and [.1f] round the exact binary value, ties to even. *)

From S2P Require Import Prelude.
From S2P Require Import PyFloat.
From S2P Require Import PyStr.

(** ** Digits *)

Definition is_digit (c : ascii) : bool := ((48 <=? code c) && (code c <=? 57))%N.
Definition digit_value (c : ascii) : Z := (Z.of_N (code c) - 48)%Z.

Fixpoint read_digits (acc : Z) (s : string) : Z :=
  match s with
  | EmptyString => acc
  | String c s => read_digits (10 * acc + digit_value c) s
  end.

Definition all_digits (s : string) : bool := str_all is_digit s && negb (bool_decide (s = "")).

(** The longest prefix of digits, and what follows it. *)
Fixpoint span_digits (s : string) : string * string :=
  match s with
  | EmptyString => ("", "")
  | String c s' => if is_digit c then let '(d, r) := span_digits s' in (String c d, r) else ("", s)
  end.

(** The whitespace [int] and [float] accept around a number.  The separators 28 to 31, which
    [str.strip] removes, are not among it. *)
Definition number_space (c : ascii) : bool :=
  let n := code c in ((9 <=? n) && (n <=? 13) || (n =? 32) || (n =? 133) || (n =? 160))%N.

Fixpoint lstrip_by (p : ascii → bool) (s : string) : string :=
  match s with
  | String c s' => if p c then lstrip_by p s' else s
  | EmptyString => s
  end.

Fixpoint rstrip_by (p : ascii → bool) (s : string) : string :=
  match s with
  | String c s' =>
      match rstrip_by p s' with
      | EmptyString => if p c then EmptyString else String c EmptyString
      | t => String c t
      end
  | EmptyString => s
  end.

Definition trim_number (s : string) : string := rstrip_by number_space (lstrip_by number_space s).

(** An underscore may stand between two digits, and is dropped. *)
Fixpoint drop_underscores (after_digit : bool) (s : string) : option string :=
  match s with
  | EmptyString => Some EmptyString
  | String c s' =>
      if bool_decide (c = "_"%char) then
        match s' with
        | String d _ => if after_digit && is_digit d then drop_underscores false s' else None
        | EmptyString => None
        end
      else String c <$> drop_underscores (is_digit c) s'
  end.

Definition split_sign (s : string) : bool * string :=
  match s with
  | String c r =>
      if bool_decide (c = "-"%char) then (true, r)
      else if bool_decide (c = "+"%char) then (false, r) else (false, s)
  | EmptyString => (false, s)
  end.

(** ** [int(s)] *)

(** The interpreter refuses to convert longer digit strings. *)
Definition max_str_digits : Z := 4300.

(** [None] is the [ValueError]. *)
Definition int_of_str (s : string) : option Z :=
  let '(neg, body) := split_sign (trim_number s) in
  ds ← drop_underscores false body;
  if all_digits ds && (Z.of_nat (String.length ds) <=? max_str_digits)%Z
  then Some (if neg then - read_digits 0 ds else read_digits 0 ds)%Z
  else None.

(** ** [float(s)] *)

(** The float nearest to [m * 10 ^ e], ties to even. *)
Definition f_dec (neg : bool) (m e : Z) : float :=
  match m with
  | Zpos p =>
      if (0 <=? e)%Z then f_div (S754_finite neg (p * Z.to_pos (10 ^ e)) 0) (S754_finite false 1 0)
      else f_div (S754_finite neg p 0) (S754_finite false (Z.to_pos (10 ^ (- e))) 0)
  | _ => S754_zero neg
  end.

(** Trailing zeros, dropped and counted. *)
Fixpoint rstrip_zeros (s : string) : string * Z :=
  match s with
  | EmptyString => ("", 0%Z)
  | String c s' =>
      let '(t, k) := rstrip_zeros s' in
      if bool_decide (t = "") && bool_decide (c = "0"%char) then ("", (k + 1)%Z) else (String c t, k)
  end.

(** The decimal whose last digit has the weight [10 ^ e]. *)
Definition f_of_digits (neg : bool) (ds : string) (e : Z) : float :=
  let '(t, k) := rstrip_zeros ds in f_dec neg (read_digits 0 t) (e + k).

Definition read_exponent (s : string) : option Z :=
  match s with
  | EmptyString => Some 0%Z
  | String c r =>
      if bool_decide (c = "e"%char) || bool_decide (c = "E"%char) then
        let '(neg, ds) := split_sign r in
        if all_digits ds then Some (if neg then - read_digits 0 ds else read_digits 0 ds)%Z else None
      else None
  end.

(** The fractional digits, if there is a point, and what follows. *)
Definition split_point (s : string) : string * string :=
  match s with
  | String c r => if bool_decide (c = "."%char) then span_digits r else ("", s)
  | EmptyString => ("", s)
  end.

Definition unsigned_float (neg : bool) (s : string) : option float :=
  let w := str_lower s in
  if bool_decide (w = "inf") || bool_decide (w = "infinity") then Some (S754_infinity neg)
  else if bool_decide (w = "nan") then Some S754_nan
  else
    let '(ip, r) := span_digits s in
    let '(fp, r) := split_point r in
    if bool_decide (ip +:+ fp = "") then None
    else e ← read_exponent r; Some (f_of_digits neg (ip +:+ fp) (e - Z.of_nat (String.length fp))).

Definition float_of_str (s : string) : option float :=
  body ← drop_underscores false (trim_number s);
  let '(neg, u) := split_sign body in unsigned_float neg u.

(** [int(x)] of a float truncates; NaN and the infinities raise. *)
Definition int_of_float (x : float) : option Z :=
  match x with
  | S754_zero _ => Some 0%Z
  | S754_finite s m e =>
      let a := if (0 <=? e)%Z then (Z.pos m * 2 ^ e)%Z else (Z.pos m / 2 ^ (- e))%Z in
      Some (if s then - a else a)%Z
  | _ => None
  end.

(** ** [str(x)] of a float *)

Definition ndigits (n : Z) : Z := Z.of_nat (String.length (str_of_Z n)).

(** [m * 2 ^ e] as a fraction. *)
Definition f_fraction (m : positive) (e : Z) : Z * Z :=
  if (0 <=? e)%Z then (Z.pos m * 2 ^ e, 1)%Z else (Z.pos m, 2 ^ (- e))%Z.

(** The [k] with [10 ^ (k - 1) <= num / den < 10 ^ k]. *)
Definition dec_point (num den : Z) : Z :=
  if (den <=? num)%Z then ndigits (num / den) else (1 - ndigits ((den + num - 1) / num - 1))%Z.

(** [num / den * 10 ^ p] as a fraction. *)
Definition scale10 (num den p : Z) : Z * Z :=
  if (0 <=? p)%Z then (num * 10 ^ p, den)%Z else (num, den * 10 ^ (- p))%Z.

Definition reads_back (x : float) (d e : Z) : bool := bool_decide (f_of_digits false (str_of_Z d) e = x).

(** The decimal of [n] digits for [x], if one of the two neighbours reads back as [x]; if
    both do, the nearer one. *)
Definition try_digits (x : float) (num den k : Z) (n : Z) : option Z :=
  let '(a, b) := scale10 num den (n - k) in
  let d := (a / b)%Z in
  match reads_back x d (k - n), reads_back x (d + 1) (k - n) with
  | true, false => Some d
  | false, true => Some (d + 1)%Z
  | false, false => None
  | true, true =>
      let r := (2 * (a mod b))%Z in
      Some (if (r <? b)%Z then d else if (b <? r)%Z then (d + 1)%Z
            else if Z.even d then d else (d + 1)%Z)
  end.

(** The fewest digits, from [n] on, with at most [fuel] more; 17 always suffice. *)
Fixpoint fewest_digits (fuel : nat) (x : float) (num den k n : Z) : Z * Z :=
  match try_digits x num den k n, fuel with
  | Some d, _ => (d, k - n)%Z
  | None, O => (0, 0)%Z
  | None, S fuel => fewest_digits fuel x num den k (n + 1)
  end.

(** Digits without trailing zeros, and the weight of the last one. *)
Definition shortest (m : positive) (e : Z) : string * Z :=
  let '(num, den) := f_fraction m e in
  let k := dec_point num den in
  let '(d, w) := fewest_digits 16 (S754_finite false m e) num den k 1 in
  let '(t, z) := rstrip_zeros (str_of_Z d) in (t, (w + z)%Z).

(** The layout of [repr]: positional unless the number is very small or large. *)
Definition layout (ds : string) (e : Z) : string :=
  let n := Z.of_nat (String.length ds) in
  let point := (e + n)%Z in
  if ((-4 <? point) && (point <=? 16))%Z then
    if (point <=? 0)%Z then "0." +:+ zeros (Z.to_nat (- point)) +:+ ds
    else if (point <? n)%Z then str_take (Z.to_nat point) ds +:+ "." +:+ str_drop (Z.to_nat point) ds
    else ds +:+ zeros (Z.to_nat e) +:+ ".0"
  else
    let x := (point - 1)%Z in
    str_take 1 ds +:+ (if (n =? 1)%Z then "" else "." +:+ str_drop 1 ds) +:+ "e" +:+
    (if (x <? 0)%Z then "-" else "+") +:+ pad 2 (Z.abs x).

Definition str_of_float (x : float) : string :=
  match x with
  | S754_nan => "nan"
  | S754_infinity neg => (if neg then "-" else "") +:+ "inf"
  | S754_zero neg => (if neg then "-" else "") +:+ "0.0"
  | S754_finite neg m e =>
      let '(ds, w) := shortest m e in (if neg then "-" else "") +:+ layout ds w
  end.

(** ** Rounding and fixed formats *)

(** The integer nearest to [a / b], ties to even. *)
Definition div_half_even (a b : Z) : Z :=
  let d := (a / b)%Z in
  let r := (2 * (a mod b))%Z in
  if (r <? b)%Z then d else if (b <? r)%Z then (d + 1)%Z else if Z.even d then d else (d + 1)%Z.

(** [round(x)] of a finite float. *)
Definition f_round (x : float) : Z :=
  match x with
  | S754_finite s m e =>
      let '(num, den) := f_fraction m e in
      let n := div_half_even num den in if s then (- n)%Z else n
  | _ => 0%Z
  end.

(** [format(x, '.pf')] for [p] 0 or more. *)
Definition format_fixed (p : nat) (x : float) : string :=
  let digits neg num den :=
    let n := div_half_even (num * 10 ^ Z.of_nat p) den in
    (if neg : bool then "-" else "") +:+
    match p with
    | O => str_of_Z n
    | _ => str_of_Z (n / 10 ^ Z.of_nat p) +:+ "." +:+ pad p (n mod 10 ^ Z.of_nat p)
    end in
  match x with
  | S754_nan => "nan"
  | S754_infinity neg => (if neg then "-" else "") +:+ "inf"
  | S754_zero neg => digits neg 0%Z 1%Z
  | S754_finite neg m e => let '(num, den) := f_fraction m e in digits neg num den
  end.

Example repr_tenth : str_of_float (f_lit 1 10) = "0.1".
Proof. by vm_compute. Qed.
Example repr_third : str_of_float (f_lit 1 3) = "0.3333333333333333".
Proof. by vm_compute. Qed.
Example repr_power : str_of_float (S754_finite false 4503599627370496 (-96)) = "5.684341886080802e-14".
Proof. by vm_compute. Qed.
Example repr_large : str_of_float (f_of_Z (10 ^ 16)) = "1e+16".
Proof. by vm_compute. Qed.
Example repr_below_large : str_of_float (f_of_Z 1234567890123456) = "1234567890123456.0".
Proof. by vm_compute. Qed.
Example repr_denormal : str_of_float (S754_finite false 1 (-1074)) = "5e-324".
Proof. by vm_compute. Qed.
Example read_tenth : float_of_str " -1_0.5e-1 " = Some (f_opp (f_lit 105 100)).
Proof. by vm_compute. Qed.
Example read_overflow : float_of_str "1e400" = Some (S754_infinity false).
Proof. by vm_compute. Qed.
Example format_tie : format_fixed 1 (f_lit 25 100) = "0.2".
Proof. by vm_compute. Qed.

(** ** Reading what was written *)

#[local] Open Scope Z_scope.

Lemma str_cons_app c (s t : string) : String c s +:+ t = String c (s +:+ t).
Proof. done. Qed.

Lemma str_app_nil_l (s : string) : "" +:+ s = s.
Proof. done. Qed.

Lemma str_app_nil_r (s : string) : s +:+ "" = s.
Proof. induction s as [|c s IH]; [done|]. by rewrite ?str_cons_app, IH. Qed.

Lemma str_app_assoc (a b c : string) : (a +:+ b) +:+ c = a +:+ b +:+ c.
Proof. induction a as [|x a IH]; [done|]. by rewrite !str_cons_app, IH. Qed.

Lemma str_length_app (a b : string) :
  String.length (a +:+ b) = (String.length a + String.length b)%nat.
Proof. induction a as [|x a IH]; [done|]. rewrite str_cons_app. cbn [String.length]. by rewrite IH. Qed.

Lemma str_take_drop n s : str_take n s +:+ str_drop n s = s.
Proof. revert s. induction n as [|n IH]; intros [|c s]; [done..|]. cbn [str_take str_drop]. by rewrite str_cons_app, IH. Qed.

Lemma str_length_take n s : String.length (str_take n s) = (n `min` String.length s)%nat.
Proof. revert s. induction n as [|n IH]; intros [|c s]; simpl; [done..|by rewrite IH]. Qed.

Lemma str_length_drop n s : String.length (str_drop n s) = (String.length s - n)%nat.
Proof. revert s. induction n as [|n IH]; intros [|c s]; simpl; [done..|by rewrite IH]. Qed.

Lemma str_all_impl (p q : ascii → bool) s :
  (∀ c, p c = true → q c = true) → str_all p s = true → str_all q s = true.
Proof.
  intros Hpq. induction s as [|c s IH]; simpl; [done|].
  rewrite !andb_true_iff. naive_solver.
Qed.

Lemma str_all_take_drop p n s :
  str_all p s = true → str_all p (str_take n s) = true ∧ str_all p (str_drop n s) = true.
Proof. rewrite <-(str_take_drop n s) at 1. by rewrite str_all_app, andb_true_iff. Qed.

Lemma zeros_length n : String.length (zeros n) = n.
Proof. induction n as [|n IH]; simpl; [done|by rewrite IH]. Qed.

Lemma zeros_digits n : str_all is_digit (zeros n) = true.
Proof. by induction n. Qed.

Lemma zeros_snoc n : zeros n +:+ "0" = zeros (S n).
Proof. induction n as [|n IH]; [done|]. cbn [zeros]. by rewrite str_cons_app, IH. Qed.

(** *** The value of a string of digits *)

Lemma read_app acc a b : read_digits acc (a +:+ b) = read_digits (read_digits acc a) b.
Proof. revert acc. induction a as [|c a IH]; intros acc; [done|]. rewrite str_cons_app. cbn [read_digits]. by rewrite IH. Qed.

Lemma read_zeros n s : read_digits 0 (zeros n +:+ s) = read_digits 0 s.
Proof. induction n as [|n IH]; [done|]. cbn [zeros]. by rewrite str_cons_app. Qed.

Lemma digit_bounds c : is_digit c = true → 0 <= digit_value c <= 9.
Proof. unfold is_digit, digit_value. rewrite andb_true_iff, N.leb_le, N.leb_le. lia. Qed.

Lemma read_nonneg acc s : str_all is_digit s = true → 0 <= acc → 0 <= read_digits acc s.
Proof.
  revert acc. induction s as [|c s IH]; intros acc; simpl; [done|].
  rewrite andb_true_iff. intros [Hc%digit_bounds Hs] Ha. apply IH; [done|lia].
Qed.

Lemma pretty_char_digit x :
  (x < 10)%N → is_digit (pretty_N_char x) = true ∧ digit_value (pretty_N_char x) = Z.of_N x.
Proof.
  intros Hx. assert (x ∈ [0;1;2;3;4;5;6;7;8;9]%N) as Hin.
  { rewrite !elem_of_cons. lia. }
  repeat (apply elem_of_cons in Hin as [->|Hin]; [done|]). by apply not_elem_of_nil in Hin.
Qed.

Lemma read_pretty_go x s : read_digits 0 (pretty_N_go x s) = read_digits (Z.of_N x) s.
Proof.
  revert s. induction (N.lt_wf_0 x) as [x _ IH]; intros s.
  destruct (decide (x = 0%N)) as [->|Hx]; [by rewrite pretty_N_go_0|].
  rewrite pretty_N_go_step by lia. rewrite IH by (apply N.div_lt; lia). simpl.
  destruct (pretty_char_digit (x mod 10)) as [_ ->]; [by apply N.mod_lt|]. f_equal.
  rewrite N2Z.inj_div, N2Z.inj_mod. change (Z.of_N 10) with 10.
  pose proof (Z.div_mod (Z.of_N x) 10). lia.
Qed.

Lemma pretty_go_digits x s : str_all is_digit (pretty_N_go x s) = str_all is_digit s.
Proof.
  revert s. induction (N.lt_wf_0 x) as [x _ IH]; intros s.
  destruct (decide (x = 0%N)) as [->|Hx]; [by rewrite pretty_N_go_0|].
  rewrite pretty_N_go_step by lia. rewrite IH by (apply N.div_lt; lia). simpl.
  destruct (pretty_char_digit (x mod 10)) as [-> _]; [by apply N.mod_lt|done].
Qed.

Lemma pretty_go_nonempty x s : s ≠ "" → pretty_N_go x s ≠ "".
Proof.
  revert s. induction (N.lt_wf_0 x) as [x _ IH]; intros s Hs.
  destruct (decide (x = 0%N)) as [->|Hx]; [by rewrite pretty_N_go_0|].
  rewrite pretty_N_go_step by lia. by apply IH; [apply N.div_lt; lia|].
Qed.

Lemma str_of_N_spec x :
  str_all is_digit (pretty x) = true ∧ pretty x ≠ "" ∧ read_digits 0 (pretty x) = Z.of_N x.
Proof.
  unfold pretty, pretty_N. case_decide as Hx; [by subst|].
  rewrite pretty_go_digits, read_pretty_go. split_and!; [done| |done].
  rewrite pretty_N_go_step by lia. by apply pretty_go_nonempty.
Qed.

Lemma str_of_Z_nonneg n : 0 <= n → str_of_Z n = pretty (Z.to_N n).
Proof. by destruct n. Qed.

Lemma str_of_Z_neg n : n < 0 → str_of_Z n = String "-"%char (pretty (Z.to_N (- n))).
Proof. by destruct n. Qed.

Lemma read_str_of_Z n : 0 <= n → read_digits 0 (str_of_Z n) = n.
Proof.
  intros Hn. rewrite str_of_Z_nonneg by done. destruct (str_of_N_spec (Z.to_N n)) as (_ & _ & ->). lia.
Qed.

Lemma all_digits_str_of_Z n : 0 <= n → all_digits (str_of_Z n) = true.
Proof.
  intros Hn. rewrite str_of_Z_nonneg by done. unfold all_digits.
  destruct (str_of_N_spec (Z.to_N n)) as (-> & Hne & _). by rewrite bool_decide_eq_false_2.
Qed.

Lemma all_digits_inv s : all_digits s = true → str_all is_digit s = true ∧ s ≠ "".
Proof. unfold all_digits. rewrite andb_true_iff, negb_true_iff, bool_decide_eq_false. done. Qed.

(** *** Trimming, underscores and signs do not touch a plain number *)

Definition plain (c : ascii) : bool := negb (number_space c) && negb (bool_decide (c = "_"%char)).

Lemma lstrip_plain s : str_all plain s = true → lstrip_by number_space s = s.
Proof.
  destruct s as [|c s]; simpl; [done|]. unfold plain at 1. rewrite !andb_true_iff.
  intros [[Hc%negb_true_iff _] _]. by rewrite Hc.
Qed.

Lemma rstrip_plain s : str_all plain s = true → rstrip_by number_space s = s.
Proof.
  induction s as [|c s IH]; simpl; [done|]. unfold plain at 1. rewrite !andb_true_iff.
  intros [[Hc%negb_true_iff _] Hs]. rewrite (IH Hs), Hc. by destruct s.
Qed.

Lemma trim_plain s : str_all plain s = true → trim_number s = s.
Proof. intros H. unfold trim_number. by rewrite lstrip_plain, rstrip_plain. Qed.

Lemma drop_underscores_plain b s : str_all plain s = true → drop_underscores b s = Some s.
Proof.
  revert b. induction s as [|c s IH]; intros b; simpl; [done|]. unfold plain at 1.
  rewrite !andb_true_iff. intros [[_ Hc%negb_true_iff] Hs]. by rewrite Hc, IH.
Qed.

Lemma digit_plain c : is_digit c = true → plain c = true.
Proof.
  unfold is_digit, plain, number_space. rewrite andb_true_iff, N.leb_le, N.leb_le. intros H.
  rewrite andb_true_iff, negb_true_iff, negb_true_iff, bool_decide_eq_false. split.
  - repeat (apply orb_false_iff; split); rewrite ?andb_false_iff, ?N.leb_gt, ?N.eqb_neq; lia.
  - intros ->. vm_compute in H. by destruct H.
Qed.

Lemma split_sign_digits s : str_all is_digit s = true → split_sign s = (false, s).
Proof.
  destruct s as [|c s]; simpl; [done|]. rewrite andb_true_iff. intros [Hc _].
  case_bool_decide as H1; [by subst c|]. by case_bool_decide; [subst c|].
Qed.

(** [int(str(n)) = n], as long as the interpreter converts at all. *)
Lemma int_of_str_of_Z n : Z.of_nat (String.length (str_of_Z (Z.abs n))) <= max_str_digits → int_of_str (str_of_Z n) = Some n.
Proof.
  intros Hlen.
  assert (Hd : ∀ m, 0 <= m → str_all plain (str_of_Z m) = true).
  { intros m Hm. eapply str_all_impl; [apply digit_plain|]. by apply all_digits_inv, all_digits_str_of_Z. }
  unfold int_of_str. destruct (decide (0 <= n)) as [Hn|Hn].
  - rewrite Z.abs_eq in Hlen by done. rewrite trim_plain by auto.
    rewrite split_sign_digits by (by apply all_digits_inv, all_digits_str_of_Z).
    rewrite drop_underscores_plain by auto. simpl.
    rewrite all_digits_str_of_Z, (proj2 (Z.leb_le _ _) Hlen) by done. simpl. by rewrite read_str_of_Z.
  - rewrite Z.abs_neq in Hlen by lia.
    assert (E : str_of_Z n = String "-"%char (str_of_Z (- n))).
    { rewrite str_of_Z_neg, str_of_Z_nonneg by lia. done. }
    rewrite E, trim_plain by (simpl; apply Hd; lia). simpl.
    rewrite drop_underscores_plain by (apply Hd; lia). simpl.
    rewrite all_digits_str_of_Z, (proj2 (Z.leb_le _ _) Hlen) by lia. simpl. rewrite read_str_of_Z by lia. f_equal. lia.
Qed.

(** *** Trailing zeros *)

(** The last digit is not a zero. *)
Definition stripped (s : string) : Prop := rstrip_zeros s = (s, 0).

Lemma rstrip_spec s t k : rstrip_zeros s = (t, k) → 0 <= k ∧ s = t +:+ zeros (Z.to_nat k) ∧ stripped t.
Proof.
  revert t k. induction s as [|c s IH]; intros t k; simpl; [by intros [= <- <-]|].
  destruct (rstrip_zeros s) as [t' k'] eqn:E. destruct (IH t' k' eq_refl) as (Hk & -> & Ht).
  destruct (bool_decide_reflect (t' = "")) as [->|Hne]; simpl.
  - case_bool_decide as Hc; intros [= <- <-].
    + subst c. split_and!; [lia| |done]. rewrite str_app_nil_l. rewrite Z2Nat.inj_add by lia.
      by rewrite Nat.add_comm.
    + split_and!; [lia| |].
      * by rewrite str_cons_app, str_app_nil_l.
      * unfold stripped. simpl. by rewrite bool_decide_eq_false_2 by done.
  - intros [= <- <-]. split_and!; [done|by rewrite str_cons_app|]. unfold stripped in *. simpl. rewrite Ht.
    by rewrite bool_decide_eq_false_2.
Qed.

Lemma rstrip_app_zeros s n :
  rstrip_zeros (s +:+ zeros n) = let '(t, k) := rstrip_zeros s in (t, k + Z.of_nat n).
Proof.
  induction s as [|c s IH].
  - rewrite str_app_nil_l. cbn [rstrip_zeros]. rewrite Z.add_0_l. induction n as [|n IHn]; [done|].
    cbn [zeros rstrip_zeros]. rewrite IHn. rewrite bool_decide_eq_true_2 by done. simpl. f_equal. lia.
  - rewrite str_cons_app. cbn [rstrip_zeros]. rewrite IH. destruct (rstrip_zeros s) as [t k].
    case_bool_decide; [case_bool_decide|]; simpl; f_equal; lia.
Qed.

Lemma stripped_app a b : stripped b → b ≠ "" → stripped (a +:+ b).
Proof.
  intros Hb Hne. induction a as [|c a IH]; [done|]. unfold stripped in *. rewrite str_cons_app.
  cbn [rstrip_zeros]. rewrite IH. rewrite bool_decide_eq_false_2; [done|]. intros E. apply Hne. by destruct a, b.
Qed.

Lemma f_of_digits_stripped neg ds e : stripped ds → f_of_digits neg ds e = f_dec neg (read_digits 0 ds) e.
Proof. unfold f_of_digits. intros ->. by rewrite Z.add_0_r. Qed.

Lemma f_of_digits_trailing neg ds n e : f_of_digits neg (ds +:+ zeros n) e = f_of_digits neg ds (e + Z.of_nat n).
Proof.
  unfold f_of_digits. rewrite rstrip_app_zeros. destruct (rstrip_zeros ds) as [t k]. f_equal. lia.
Qed.

Lemma f_of_digits_leading neg ds n e :
  stripped ds → ds ≠ "" → f_of_digits neg (zeros n +:+ ds) e = f_of_digits neg ds e.
Proof. intros H Hne. rewrite !f_of_digits_stripped by auto using stripped_app. by rewrite read_zeros. Qed.

(** *** Reading a layout *)

Lemma span_digits_app s r :
  str_all is_digit s = true → match r with String c _ => is_digit c = false | EmptyString => True end →
  span_digits (s +:+ r) = (s, r).
Proof.
  intros Hs Hr. induction s as [|c s IH].
  - rewrite str_app_nil_l. destruct r as [|c r]; [done|]. simpl. by rewrite Hr.
  - simpl in Hs. apply andb_true_iff in Hs as [Hc Hs]. rewrite str_cons_app. simpl. by rewrite Hc, IH.
Qed.

Lemma digit_lower c : is_digit c = true → py_lower_char c = c.
Proof.
  unfold is_digit, py_lower_char. rewrite andb_true_iff, N.leb_le, N.leb_le. intros H.
  destruct (_ || _) eqn:E; [|done]. rewrite orb_true_iff, !andb_true_iff, !N.leb_le in E. lia.
Qed.

(** A number that begins with a digit is not one of the named values. *)
Lemma unsigned_float_digits neg s : match s with String c _ => is_digit c = true | EmptyString => False end →
  unsigned_float neg s =
    (let '(ip, r) := span_digits s in
     let '(fp, r) := split_point r in
     if bool_decide (ip +:+ fp = "") then None
     else e ← read_exponent r; Some (f_of_digits neg (ip +:+ fp) (e - Z.of_nat (String.length fp)))).
Proof.
  destruct s as [|c s]; [done|]. intros Hc. unfold unsigned_float.
  assert (Hw : ∀ d t, is_digit d = false → bool_decide (str_lower (String c s) = String d t) = false).
  { intros d t Hd. apply bool_decide_eq_false. simpl. rewrite (digit_lower c Hc). intros [= -> _]. congruence. }
  by rewrite !Hw.
Qed.

(** Digits with a point among them, and an exponent. *)
Lemma unsigned_float_point neg ip fp r e :
  all_digits ip = true → str_all is_digit fp = true →
  match r with String c _ => is_digit c = false | EmptyString => True end → read_exponent r = Some e →
  unsigned_float neg (ip +:+ "." +:+ fp +:+ r) = Some (f_of_digits neg (ip +:+ fp) (e - Z.of_nat (String.length fp))).
Proof.
  intros [Hi Hne]%all_digits_inv Hf Hr He.
  assert (Hs : match ip +:+ "." +:+ fp +:+ r with String c _ => is_digit c = true | EmptyString => False end).
  { destruct ip as [|c ip]; [done|]. simpl in Hi. apply andb_true_iff in Hi as [Hc _]. exact Hc. }
  rewrite unsigned_float_digits by done. rewrite span_digits_app by done.
  change (split_point ("." +:+ fp +:+ r)) with (span_digits (fp +:+ r)).
  rewrite span_digits_app by done. rewrite bool_decide_eq_false_2, He; [done|].
  intros E. apply Hne. by destruct ip, fp.
Qed.

Lemma unsigned_float_no_point neg ip r e :
  all_digits ip = true →
  match r with String c _ => is_digit c = false ∧ c ≠ "."%char | EmptyString => True end → read_exponent r = Some e →
  unsigned_float neg (ip +:+ r) = Some (f_of_digits neg ip e).
Proof.
  intros [Hi Hne]%all_digits_inv Hr He.
  assert (Hs : match ip +:+ r with String c _ => is_digit c = true | EmptyString => False end).
  { destruct ip as [|c ip]; [done|]. simpl in Hi. apply andb_true_iff in Hi as [Hc _]. exact Hc. }
  rewrite unsigned_float_digits by done. rewrite span_digits_app; [|done|by destruct r; [|apply Hr]].
  assert (E : split_point r = ("", r)).
  { destruct r as [|c r]; [done|]. destruct Hr as [_ Hc]. simpl. by rewrite bool_decide_eq_false_2. }
  rewrite E, str_app_nil_r, bool_decide_eq_false_2, He by done. simpl. by rewrite Z.sub_0_r.
Qed.

Lemma pad_spec w n : 0 <= n → all_digits (pad w n) = true ∧ read_digits 0 (pad w n) = n.
Proof.
  intros Hn. unfold pad. rewrite read_zeros, read_str_of_Z by done. split; [|done].
  destruct (all_digits_inv _ (all_digits_str_of_Z n Hn)) as [Hd Hne]. unfold all_digits.
  rewrite str_all_app, zeros_digits, Hd. simpl. apply negb_true_iff, bool_decide_eq_false.
  intros E. apply Hne. by destruct (zeros _), (str_of_Z n).
Qed.

Lemma read_exponent_layout x :
  read_exponent ("e" +:+ (if x <? 0 then "-" else "+") +:+ pad 2 (Z.abs x)) = Some x.
Proof.
  destruct (pad_spec 2 (Z.abs x)) as [Hd Hr]; [lia|].
  change ("e" +:+ (if x <? 0 then "-" else "+") +:+ pad 2 (Z.abs x)) with
    (String "e"%char ((if x <? 0 then "-" else "+") +:+ pad 2 (Z.abs x))).
  simpl. destruct (Z.ltb_spec x 0).
  - change ("-" +:+ pad 2 (Z.abs x)) with (String "-"%char (pad 2 (Z.abs x))). simpl. rewrite Hd, Hr. f_equal. lia.
  - change ("+" +:+ pad 2 (Z.abs x)) with (String "+"%char (pad 2 (Z.abs x))). simpl. rewrite Hd, Hr. f_equal. lia.
Qed.

(** What [layout] writes is read as the same decimal. *)
Lemma unsigned_float_layout neg ds e :
  str_all is_digit ds = true → ds ≠ "" → stripped ds →
  unsigned_float neg (layout ds e) = Some (f_of_digits neg ds e).
Proof.
  intros Hd Hne Hs. unfold layout. set (n := Z.of_nat (String.length ds)).
  assert (Hn : 0 < n) by (unfold n; destruct ds; [done|simpl; lia]).
  destruct (andb _ _).
  - destruct (Z.leb_spec (e + n) 0); [|destruct (Z.ltb_spec (e + n) n)].
    + rewrite <-(str_app_nil_r ds) at 1. rewrite <-(str_app_assoc _ ds "").
      change ("0." +:+ (zeros (Z.to_nat (- (e + n))) +:+ ds) +:+ "") with
        ("0" +:+ "." +:+ (zeros (Z.to_nat (- (e + n))) +:+ ds) +:+ "").
      rewrite (unsigned_float_point _ _ _ _ 0); [|done|by rewrite str_all_app, zeros_digits|done|done].
      change ("0" +:+ (zeros (Z.to_nat (- (e + n))) +:+ ds)) with (zeros (S (Z.to_nat (- (e + n)))) +:+ ds).
      rewrite f_of_digits_leading by done. rewrite str_length_app, zeros_length. do 2 f_equal. lia.
    + destruct (str_all_take_drop _ (Z.to_nat (e + n)) _ Hd) as [Ht Hdr].
      rewrite <-(str_app_nil_r (str_drop _ ds)).
      rewrite (unsigned_float_point _ _ _ _ 0); [| |done|done|done].
      * rewrite str_take_drop, str_length_drop. do 2 f_equal. lia.
      * unfold all_digits. rewrite Ht. simpl. apply negb_true_iff, bool_decide_eq_false. intros E.
        apply (f_equal String.length) in E. rewrite str_length_take in E. simpl in E. lia.
    + rewrite <-str_app_assoc. change (".0") with ("." +:+ "0" +:+ "").
      rewrite (unsigned_float_point _ _ _ _ 0); [| |done|done|done].
      * rewrite str_app_assoc, zeros_snoc, f_of_digits_trailing. do 2 f_equal. simpl. lia.
      * unfold all_digits. rewrite str_all_app, Hd, zeros_digits. simpl.
        apply negb_true_iff, bool_decide_eq_false. intros E. apply Hne. by destruct ds, (zeros _).
  - destruct (str_all_take_drop _ 1 _ Hd) as [Ht Hdr].
    assert (Ha : all_digits (str_take 1 ds) = true).
    { unfold all_digits. rewrite Ht. destruct ds; [done|]. done. }
    destruct (Z.eqb_spec n 1) as [E|E].
    + rewrite str_app_nil_l. rewrite (unsigned_float_no_point _ _ _ (e + n - 1)); [|done|done|apply read_exponent_layout].
      destruct ds as [|c [|]]; [done| |unfold n in E; simpl in E; lia]. simpl. do 2 f_equal. lia.
    + rewrite str_app_assoc. rewrite (unsigned_float_point _ _ _ _ (e + n - 1)); [|done|done|done|apply read_exponent_layout].
      rewrite str_take_drop, str_length_drop. do 2 f_equal. lia.
Qed.
