(* ===== verification/PyRound.v ===== *)
(** * Rounding, and why 17 digits are enough

    [f_div] of two integers gives the float next to their quotient ([round_near]).  A decimal
    of 17 digits next to a float is closer to it than half the distance to its neighbours, so
    [shortest] always finds digits that read back, and [float(str(x)) = x] ([float_of_str_of_float]). *)

From S2P Require Import Prelude.
From S2P Require Import PyFloat.
From S2P Require Import PyStr.
From S2P Require Import PyNum.

#[local] Open Scope Z_scope.

(** ** What a shift record stands for

    [mrs] holds the quotient [T / U], whether the rest is at least half of [U], and whether it
    is neither nothing nor half. *)
Record stands (mrs : shr_record) (T U : Z) : Prop := {
  st_m : shr_m mrs = T / U;
  st_r : shr_r mrs = true ↔ U <= 2 * (T mod U);
  st_s : shr_s mrs = true ↔ T mod U ≠ 0 ∧ 2 * (T mod U) ≠ U;
}.

Lemma div_double T U : 0 < U → T / (2 * U) = T / U / 2 ∧ T mod (2 * U) = T mod U + U * ((T / U) mod 2).
Proof.
  intros HU. rewrite (Z.mul_comm 2 U). rewrite <-Zdiv.Zdiv_Zdiv by lia. split; [done|].
  rewrite Z.rem_mul_r by lia. done.
Qed.

Lemma stands_shr_1 mrs T U : 0 <= T → 0 < U → stands mrs T U → stands (shr_1 mrs) T (2 * U).
Proof.
  intros HT HU [Hm Hr Hs]. destruct (div_double T U HU) as [Ed Em].
  pose proof (Z.mod_pos_bound T U HU) as Hb. pose proof (Z.div_pos T U HT HU) as Hq.
  destruct mrs as [q r s]. simpl in *. rewrite <-Hm in Ed, Em, Hq. set (R := T mod U) in *.
  assert (Hs' : r || s = true ↔ R ≠ 0).
  { rewrite orb_true_iff, Hr, Hs. lia. }
  destruct q as [|[p|p|]|p]; try lia.
  - rewrite Z.div_0_l, Z.mod_0_l in * by lia. split; simpl; [done|split; [done|lia]|rewrite Hs'; lia].
  - replace (Z.pos p~1 / 2) with (Z.pos p) in Ed by (apply (Z.div_unique _ _ _ 1); lia).
    replace (Z.pos p~1 mod 2) with 1 in Em by (apply (Z.mod_unique _ _ (Z.pos p)); lia).
    split; simpl; [done|split; [lia|done]|rewrite Hs'; lia].
  - replace (Z.pos p~0 / 2) with (Z.pos p) in Ed by (apply (Z.div_unique _ _ _ 0); lia).
    replace (Z.pos p~0 mod 2) with 0 in Em by (apply (Z.mod_unique _ _ (Z.pos p)); lia).
    split; simpl; [done|split; [done|lia]|rewrite Hs'; lia].
  - change (1 / 2) with 0 in Ed. change (1 mod 2) with 1 in Em.
    split; simpl; [done|split; [lia|done]|rewrite Hs'; lia].
Qed.

Lemma stands_iter p mrs T U :
  0 <= T → 0 < U → stands mrs T U → stands (SpecFloat.iter_pos shr_1 p mrs) T (2 ^ Z.pos p * U).
Proof.
  intros HT. revert mrs U. induction p as [p IH|p IH|]; intros mrs U HU Hs; simpl.
  - replace (2 ^ Z.pos p~1 * U) with (2 ^ Z.pos p * (2 ^ Z.pos p * (2 * U))).
    { apply IH; [lia|]. apply IH; [lia|]. by apply stands_shr_1. }
    replace (Z.pos p~1) with (Z.pos p + Z.pos p + 1) by lia. rewrite !Z.pow_add_r by lia. ring.
  - replace (2 ^ Z.pos p~0 * U) with (2 ^ Z.pos p * (2 ^ Z.pos p * U)).
    { apply IH; [lia|]. by apply IH. }
    replace (Z.pos p~0) with (Z.pos p + Z.pos p) by lia. rewrite !Z.pow_add_r by lia. ring.
  - by apply stands_shr_1.
Qed.

(** A location says where the rest is. *)
Lemma stands_location T U : 0 < U →
  stands (shr_record_of_loc (T / U) (new_location U (T mod U))) T U.
Proof.
  intros HU. pose proof (Z.mod_pos_bound T U HU) as Hb. set (R := T mod U) in *.
  assert (Hc : ∀ c, new_location U R = c →
    match c with
    | loc_Exact => R = 0
    | loc_Inexact Lt => 0 < R ∧ 2 * R < U
    | loc_Inexact Eq => 0 < R ∧ 2 * R = U
    | loc_Inexact Gt => U < 2 * R
    end).
  { intros c <-. unfold new_location. destruct (Z.even U) eqn:Ev.
    - unfold new_location_even. destruct (Z.eqb_spec R 0); [done|].
      destruct (Z.compare_spec (2 * R) U); lia.
    - unfold new_location_odd. destruct (Z.eqb_spec R 0); [done|].
      assert (2 * R ≠ U). { intros E. rewrite <-E, Z.even_mul in Ev. done. }
      destruct (Z.compare_spec (2 * R + 1) U); lia. }
  specialize (Hc _ eq_refl).
  destruct (new_location U R) as [|[]]; split; simpl; first [done | split; [done|lia] | split; [lia|done] | lia].
Qed.

(** Rounding a record is rounding the quotient. *)
Lemma stands_round mrs T U : 0 < U → stands mrs T U →
  round_nearest_even (shr_m mrs) (loc_of_shr_record mrs) = div_half_even T U.
Proof.
  intros HU [Hm Hr Hs]. pose proof (Z.mod_pos_bound T U HU) as Hb. unfold div_half_even.
  destruct mrs as [q r s]. simpl in *. rewrite Hm. set (R := T mod U) in *.
  destruct (Z.ltb_spec (2 * R) U), (Z.ltb_spec U (2 * R)); try lia; destruct r, s; simpl; try done;
    exfalso; naive_solver lia.
Qed.

Lemma div_half_even_near T U n : 0 < U → (2 * n - 1) * U < 2 * T → 2 * T < (2 * n + 1) * U → div_half_even T U = n.
Proof.
  intros HU Hlo Hhi. pose proof (Z.mod_pos_bound T U HU) as Hb. pose proof (Z.div_mod T U ltac:(lia)) as E.
  unfold div_half_even. set (R := T mod U) in *. set (q := T / U) in *.
  assert (q = n ∨ q = n - 1) as [-> | ->] by nia.
  - destruct (Z.ltb_spec (2 * R) U); [done|]. nia.
  - destruct (Z.ltb_spec (2 * R) U); [nia|]. destruct (Z.ltb_spec U (2 * R)); [lia|]. nia.
Qed.

(** ** The size of a mantissa *)

Lemma digits2_bounds p : 2 ^ (Z.pos (digits2_pos p) - 1) <= Z.pos p < 2 ^ Z.pos (digits2_pos p).
Proof.
  induction p as [p IH|p IH|]; simpl digits2_pos; [| |done].
  - rewrite Pos2Z.inj_succ. replace (Z.succ (Z.pos (digits2_pos p)) - 1) with (Z.succ (Z.pos (digits2_pos p) - 1)) by lia.
    rewrite !Z.pow_succ_r by lia. lia.
  - rewrite Pos2Z.inj_succ. replace (Z.succ (Z.pos (digits2_pos p)) - 1) with (Z.succ (Z.pos (digits2_pos p) - 1)) by lia.
    rewrite !Z.pow_succ_r by lia. lia.
Qed.

(** The number of binary digits of [n] is [j] when [n] lies between the powers. *)
Lemma Zdigits2_unique n j : 0 < j → 2 ^ (j - 1) <= n < 2 ^ j → Zdigits2 n = j.
Proof.
  intros Hj Hn. pose proof (Z.pow_pos_nonneg 2 (j - 1)). destruct n as [|p|p]; simpl; try lia.
  pose proof (digits2_bounds p) as Hp. set (d := Z.pos (digits2_pos p)) in *.
  assert (d - 1 < j) by (apply (Z.pow_lt_mono_r_iff 2); lia).
  assert (j - 1 < d) by (apply (Z.pow_lt_mono_r_iff 2); lia). lia.
Qed.

Lemma Zdigits2_le n j : 0 <= j → 0 <= n < 2 ^ j → 0 <= Zdigits2 n <= j.
Proof.
  intros Hj Hn. destruct n as [|p|p]; simpl; try lia.
  pose proof (digits2_bounds p) as Hp. split; [lia|].
  assert (Z.pos (digits2_pos p) - 1 < j); [|lia]. apply (Z.pow_lt_mono_r_iff 2); lia.
Qed.

(** ** Shifting to an exponent *)

Lemma shr_fexp_stands q l e T U E :
  0 <= T → 0 < U → stands (shr_record_of_loc q l) T U →
  fexp f_prec f_emax (Zdigits2 q + e) = E → e <= E →
  stands (shr_fexp f_prec f_emax q e l).1 T (2 ^ (E - e) * U) ∧ (shr_fexp f_prec f_emax q e l).2 = E.
Proof.
  intros HT HU Hs HE Hle. unfold shr_fexp. rewrite HE. unfold shr.
  destruct (E - e) as [|p|p] eqn:Ed; [|split|lia]; simpl.
  - rewrite Z.mul_1_l. split; [done|lia].
  - by apply stands_iter.
  - lia.
Qed.

(** The second rounding step, from an exact mantissa. *)
Lemma shr_fexp_exact n e E m :
  fexp f_prec f_emax (Zdigits2 n + e) = E → e <= E → n = m * 2 ^ (E - e) → 0 <= n →
  shr_m (shr_fexp f_prec f_emax n e loc_Exact).1 = m ∧ (shr_fexp f_prec f_emax n e loc_Exact).2 = E.
Proof.
  intros HE Hle Hn Hp.
  assert (Hs : stands (shr_record_of_loc n loc_Exact) n 1).
  { split; simpl; rewrite ?Z.div_1_r, ?Z.mod_1_r; [done|split; [done|lia]|split; [done|lia]]. }
  destruct (shr_fexp_stands n loc_Exact e n 1 E Hp ltac:(lia) Hs HE Hle) as [[Hm _ _] H2].
  split; [|done]. rewrite Hm, Hn, Z.mul_1_r. apply Z.div_mul.
  pose proof (Z.pow_pos_nonneg 2 (E - e)). lia.
Qed.

(** ** The rounded quotient *)

(** [A / B] is strictly closer to [m * 2 ^ e] than half the distance to the next float; below
    a power of two the next float is only half as far. *)
Definition near (A B m e : Z) : Prop :=
  (4 * m - (if m =? 2 ^ 52 then 1 else 2)) * (2 ^ (e + 1100) * B) < 4 * (A * 2 ^ 1100) ∧
  4 * (A * 2 ^ 1100) < (4 * m + 2) * (2 ^ (e + 1100) * B).

Lemma near_proportional A B A' B' m e :
  0 < B → 0 < B' → A * B' = A' * B → near A B m e → near A' B' m e.
Proof.
  unfold near. generalize (2 ^ 1100) (2 ^ (e + 1100)) (4 * m - (if m =? 2 ^ 52 then 1 else 2)).
  intros Y X L HB HB' E [H1 H2]. split; apply (Zmult_lt_reg_r _ _ B HB).
  - replace (4 * (A' * Y) * B) with (4 * (A * Y) * B') by (transitivity (4 * Y * (A * B')); [ring|rewrite E; ring]).
    replace (L * (X * B') * B) with (L * (X * B) * B') by ring. by apply Zmult_lt_compat_r.
  - replace (4 * (A' * Y) * B) with (4 * (A * Y) * B') by (transitivity (4 * Y * (A * B')); [ring|rewrite E; ring]).
    replace ((4 * m + 2) * (X * B') * B) with ((4 * m + 2) * (X * B) * B') by ring. by apply Zmult_lt_compat_r.
Qed.

(** The division gives a quotient with 53 digits or more: the mantissa [quo] at the exponent
    [quo_exp], of the fraction [quo_num / B]. *)
Definition quo_mag (A B : positive) : Z := Z.pos (digits2_pos A) - Z.pos (digits2_pos B).
Definition quo_exp (A B : positive) : Z := Z.min (fexp f_prec f_emax (quo_mag A B)) 0.
Definition quo_num (A B : positive) : Z := Z.pos A * 2 ^ (- quo_exp A B).
Definition quo (A B : positive) : Z := quo_num A B / Z.pos B.

Section division.
Context (A B : positive).

#[local] Abbreviation d := (quo_mag A B).
#[local] Abbreviation e1 := (quo_exp A B).
#[local] Abbreviation T := (quo_num A B).
#[local] Abbreviation q := (quo A B).

Lemma div_core :
  SFdiv_core_binary f_prec f_emax (Z.pos A) 0 (Z.pos B) 0 = (q, e1, new_location (Z.pos B) (T mod Z.pos B)).
Proof.
  unfold SFdiv_core_binary. cbn [Zdigits2]. rewrite !Z.add_0_r. change (0 - 0) with 0. fold d e1.
  assert (Em : match 0 - e1 with Z.pos _ => Z.shiftl (Z.pos A) (0 - e1) | 0 => Z.pos A | Z.neg _ => 0 end = T).
  { unfold quo_num. assert (e1 <= 0) by (unfold quo_exp; lia). destruct (0 - e1) as [|p|p] eqn:E; [| |lia].
    - replace (- e1) with 0 by lia. lia.
    - rewrite Z.shiftl_mul_pow2 by lia. f_equal. f_equal. lia. }
  rewrite Em. unfold quo. unfold Z.div, Z.modulo. by destruct (Z.div_eucl T (Z.pos B)).
Qed.

Lemma e1_bounds : -1074 <= e1 <= 0.
Proof. unfold quo_exp, fexp. change (emin f_prec f_emax) with (-1074). lia. Qed.

Lemma T_pos : 0 < T.
Proof. unfold quo_num. pose proof (Z.pow_pos_nonneg 2 (- e1)). pose proof e1_bounds. nia. Qed.

(** Comparisons at the exponent [e1] are comparisons at the exponent 1100. *)
Lemma T_scale n E : -1100 <= E → e1 <= E →
  (n * (2 ^ (E - e1) * Z.pos B) < 2 * T ↔ n * (2 ^ (E + 1100) * Z.pos B) < 2 * (Z.pos A * 2 ^ 1100)) ∧
  (2 * T < n * (2 ^ (E - e1) * Z.pos B) ↔ 2 * (Z.pos A * 2 ^ 1100) < n * (2 ^ (E + 1100) * Z.pos B)).
Proof.
  intros H1 H2. pose proof e1_bounds.
  assert (E1 : 2 ^ (E + 1100) = 2 ^ (E - e1) * 2 ^ (e1 + 1100)) by (rewrite <-Z.pow_add_r by lia; f_equal; lia).
  assert (E2 : 2 ^ 1100 = 2 ^ (- e1) * 2 ^ (e1 + 1100)) by (rewrite <-Z.pow_add_r by lia; f_equal; lia).
  rewrite E1, E2. unfold quo_num. pose proof (Z.pow_pos_nonneg 2 (e1 + 1100) ltac:(lia) ltac:(lia)) as HK.
  revert HK. generalize (2 ^ (e1 + 1100)) (2 ^ (- e1)) (2 ^ (E - e1)). intros K V W HK. split.
  - rewrite (Z.mul_lt_mono_pos_r K _ _ HK). by replace (n * (W * Z.pos B) * K) with (n * (W * K * Z.pos B)) by ring;
      replace (2 * (Z.pos A * V) * K) with (2 * (Z.pos A * (V * K))) by ring.
  - rewrite (Z.mul_lt_mono_pos_r K _ _ HK). by replace (n * (W * Z.pos B) * K) with (n * (W * K * Z.pos B)) by ring;
      replace (2 * (Z.pos A * V) * K) with (2 * (Z.pos A * (V * K))) by ring.
Qed.

Lemma d_le j : -1100 <= j → Z.pos A * 2 ^ 1100 < 2 ^ (j + 1100) * Z.pos B → d <= j.
Proof.
  intros Hj H. pose proof (digits2_bounds A) as HA. pose proof (digits2_bounds B) as HB.
  unfold quo_mag in *. set (dA := Z.pos (digits2_pos A)) in *. set (dB := Z.pos (digits2_pos B)) in *.
  assert (2 ^ (dA - 1 + 1100) < 2 ^ (j + 1100 + dB)) as Hlt%Z.pow_lt_mono_r_iff; [|lia|lia|lia].
  rewrite (Z.pow_add_r 2 (dA - 1) 1100), (Z.pow_add_r 2 (j + 1100) dB) by lia.
  pose proof (Z.pow_pos_nonneg 2 1100 ltac:(lia) ltac:(lia)) as HY.
  pose proof (Z.pow_pos_nonneg 2 (j + 1100) ltac:(lia) ltac:(lia)) as HX.
  eapply Z.le_lt_trans; [apply Z.mul_le_mono_nonneg_r; [lia|apply HA]|].
  eapply Z.lt_trans; [exact H|]. apply Z.mul_lt_mono_pos_l; [exact HX|apply HB].
Qed.

Lemma q_digits j : 0 < j → 2 ^ (j - 1) * Z.pos B <= T → T < 2 ^ j * Z.pos B → Zdigits2 q = j.
Proof.
  intros Hj H1 H2. apply Zdigits2_unique; [done|]. unfold quo. split.
  - apply Z.div_le_lower_bound; lia.
  - apply Z.div_lt_upper_bound; lia.
Qed.

(** The two rounding steps, once the exponent after the first one is known. *)
Lemma round_to neg E n m e :
  e1 <= E → fexp f_prec f_emax (Zdigits2 q + e1) = E →
  (2 * n - 1) * (2 ^ (E - e1) * Z.pos B) < 2 * T → 2 * T < (2 * n + 1) * (2 ^ (E - e1) * Z.pos B) →
  fexp f_prec f_emax (Zdigits2 n + E) = e → E <= e → n = Z.pos m * 2 ^ (e - E) → e <= 971 →
  f_div (S754_finite neg A 0) (S754_finite false B 0) = S754_finite neg m e.
Proof.
  intros H1 HE Hlo Hhi He Hle Hn Hmax. unfold f_div, SFdiv. rewrite div_core. unfold binary_round_aux.
  assert (HU : 0 < 2 ^ (E - e1) * Z.pos B) by (pose proof (Z.pow_pos_nonneg 2 (E - e1)); lia).
  destruct (shr_fexp_stands q (new_location (Z.pos B) (T mod Z.pos B)) e1 T (Z.pos B) E) as [Hs H2];
    [pose proof T_pos; lia|lia|by apply stands_location|done|done|].
  destruct (shr_fexp f_prec f_emax q e1 _) as [mrs E']. simpl in Hs, H2. subst E'.
  rewrite (stands_round _ _ _ HU Hs), (div_half_even_near _ _ n HU Hlo Hhi).
  assert (0 <= n) by (pose proof (Z.pow_pos_nonneg 2 (e - E)); nia).
  destruct (shr_fexp_exact n E e (Z.pos m)) as [Hm2 H2]; [done..|].
  destruct (shr_fexp f_prec f_emax n E loc_Exact) as [mrs' e']. simpl in Hm2, H2. subst e'. rewrite Hm2.
  change (f_emax - f_prec) with 971. rewrite (proj2 (Z.leb_le _ _) Hmax). by rewrite xorb_false_r.
Qed.
End division.

Lemma fexp_spec n : fexp f_prec f_emax n = Z.max (n - 53) (-1074).
Proof. done. Qed.

(** A canonical mantissa is normal, or the exponent is the smallest. *)
Lemma bounded_inv m e :
  bounded f_prec f_emax m e = true →
  fexp f_prec f_emax (Zdigits2 (Z.pos m) + e) = e ∧ -1074 <= e <= 971 ∧
  (2 ^ 52 <= Z.pos m < 2 ^ 53 ∨ Z.pos m < 2 ^ 52 ∧ e = -1074).
Proof.
  unfold bounded, canonical_mantissa. rewrite andb_true_iff, Z.eqb_eq, Z.leb_le. cbn [Zdigits2].
  rewrite fexp_spec. change (f_emax - f_prec) with 971. intros [He Hmax]. split_and!; [done|lia|done|].
  pose proof (digits2_bounds m) as Hm. set (dm := Z.pos (digits2_pos m)) in *.
  assert (dm = 53 ∨ dm <= 52 ∧ e = -1074) as [->|[Hd ->]] by lia; [left; exact Hm|right].
  split; [|done]. eapply Z.lt_le_trans; [apply Hm|]. apply Z.pow_le_mono_r; lia.
Qed.

Section near.
Context (A B m : positive) (e : Z) (neg : bool).
Hypothesis (Hb : bounded f_prec f_emax m e = true) (Hnear : near (Z.pos A) (Z.pos B) (Z.pos m) e).

Let X := 2 ^ (e + 1100) * Z.pos B.
Let V := Z.pos A * 2 ^ 1100.

Lemma near_scaled :
  (4 * Z.pos m - (if Z.pos m =? 2 ^ 52 then 1 else 2)) * X < 4 * V ∧ 4 * V < (4 * Z.pos m + 2) * X ∧ 0 < X.
Proof.
  destruct Hnear as [H1 H2]. split_and!; [exact H1|exact H2|]. unfold X.
  pose proof (Z.pow_pos_nonneg 2 (e + 1100) ltac:(lia)). destruct (bounded_inv m e Hb). lia.
Qed.

Lemma X_at j : -1100 <= e + j → 0 <= j → 2 ^ (e + j + 1100) * Z.pos B = 2 ^ j * X.
Proof.
  intros H1 H2. destruct (bounded_inv m e Hb) as (_ & He & _). unfold X.
  replace (e + j + 1100) with (j + (e + 1100)) by lia. rewrite Z.pow_add_r by lia. ring.
Qed.

Lemma exp_le j : -1100 <= e + j → 0 <= j → V < 2 ^ j * X → quo_exp A B <= fexp f_prec f_emax (e + j).
Proof.
  intros H1 H2 H3. assert (quo_mag A B <= e + j).
  { apply d_le; [done|]. by rewrite X_at. }
  unfold quo_exp. rewrite !fexp_spec. lia.
Qed.

(** The quotient has [j] digits above the exponent [e]. *)
Lemma digits_at j :
  -1074 <= e + j → 0 < j → quo_exp A B < e + j → 2 ^ (j - 1) * X <= V → V < 2 ^ j * X →
  Zdigits2 (quo A B) + quo_exp A B = e + j.
Proof.
  intros H1 H2 H3 Hlo Hhi. enough (Zdigits2 (quo A B) = e + j - quo_exp A B) by lia.
  destruct (T_scale A B 2 (e + j) ltac:(lia) ltac:(lia)) as [_ S1].
  destruct (T_scale A B 2 (e + (j - 1)) ltac:(lia) ltac:(lia)) as [_ S2].
  rewrite X_at in S1 by lia. rewrite X_at in S2 by lia. fold V in S1, S2. apply q_digits; [lia| |].
  - replace (e + j - quo_exp A B - 1) with (e + (j - 1) - quo_exp A B) by lia. lia.
  - lia.
Qed.

(** The first rounding step already ends at the exponent [e]. *)
Lemma round_same :
  quo_exp A B <= e → fexp f_prec f_emax (Zdigits2 (quo A B) + quo_exp A B) = e →
  f_div (S754_finite neg A 0) (S754_finite false B 0) = S754_finite neg m e.
Proof.
  intros H1 H2. destruct near_scaled as (Hlo & Hhi & HX). destruct (bounded_inv m e Hb) as (He & Hr & _).
  destruct (T_scale A B (2 * Z.pos m - 1) e ltac:(lia) H1) as [S1 _].
  destruct (T_scale A B (2 * Z.pos m + 1) e ltac:(lia) H1) as [_ S2]. fold X V in S1, S2.
  apply (round_to A B neg e (Z.pos m)); [done|done| | |done|done|by rewrite Z.sub_diag, Z.mul_1_r|lia].
  - apply S1. destruct (Z.pos m =? 2 ^ 52); lia.
  - apply S2. lia.
Qed.

(** Just below a power of two the first step ends one exponent lower. *)
Lemma round_below :
  Z.pos m = 2 ^ 52 → -1074 < e → quo_exp A B <= e - 1 → V < 2 ^ 52 * X →
  fexp f_prec f_emax (Zdigits2 (quo A B) + quo_exp A B) = e - 1 →
  f_div (S754_finite neg A 0) (S754_finite false B 0) = S754_finite neg m e.
Proof.
  intros Hm He1 H1 H2 H3. destruct near_scaled as (Hlo & _ & HX). destruct (bounded_inv m e Hb) as (_ & Hr & _).
  rewrite Hm, Z.eqb_refl in Hlo.
  assert (EX : 2 * (2 ^ (e - 1 + 1100) * Z.pos B) = X).
  { unfold X. replace (e + 1100) with (1 + (e - 1 + 1100)) by lia. rewrite (Z.pow_add_r 2 1) by lia. ring. }
  destruct (T_scale A B (2 * 2 ^ 53 - 1) (e - 1) ltac:(lia) H1) as [S1 _].
  destruct (T_scale A B (2 * 2 ^ 53 + 1) (e - 1) ltac:(lia) H1) as [_ S2]. fold V in S1, S2.
  apply (round_to A B neg (e - 1) (2 ^ 53)); [done|done| | | |lia| |lia].
  - apply S1. lia.
  - apply S2. lia.
  - change (Zdigits2 (2 ^ 53)) with 54. rewrite fexp_spec. lia.
  - rewrite Hm. replace (e - (e - 1)) with 1 by lia. done.
Qed.

(** The float next to [A / B]. *)
Lemma round_near : f_div (S754_finite neg A 0) (S754_finite false B 0) = S754_finite neg m e.
Proof.
  destruct near_scaled as (Hlo & Hhi & HX). destruct (bounded_inv m e Hb) as (_ & Hr & [Hn|[Hn He]]).
  - assert (H53 : V < 2 ^ 53 * X) by nia.
    pose proof (exp_le 53 ltac:(lia) ltac:(lia) H53) as H1. rewrite fexp_spec in H1.
    destruct (Z.le_gt_cases (2 ^ 52 * X) V) as [Hc|Hc].
    + apply round_same; [lia|]. rewrite (digits_at 53), fexp_spec by lia. lia.
    + assert (Hm : Z.pos m = 2 ^ 52). { destruct (Z.eqb_spec (Z.pos m) (2 ^ 52)); [done|]. nia. }
      rewrite Hm, Z.eqb_refl in Hlo.
      pose proof (exp_le 52 ltac:(lia) ltac:(lia) Hc) as H2. rewrite fexp_spec in H2.
      destruct (decide (e = -1074)) as [E|E].
      * apply round_same; [lia|]. rewrite (digits_at 52), fexp_spec by lia. lia.
      * apply round_below; [done|lia|lia|done|]. rewrite (digits_at 52), fexp_spec by lia. lia.
  - assert (H52 : V < 2 ^ 52 * X) by nia.
    pose proof (exp_le 52 ltac:(lia) ltac:(lia) H52) as H1. rewrite fexp_spec in H1.
    apply round_same; [lia|]. pose proof (e1_bounds A B).
    assert (0 <= Zdigits2 (quo A B) <= 52); [|rewrite fexp_spec; lia].
    apply Zdigits2_le; [lia|]. unfold quo. pose proof (T_pos A B). split; [apply Z.div_pos; lia|].
    apply Z.div_lt_upper_bound; [lia|].
    destruct (T_scale A B 2 (e + 52) ltac:(lia) ltac:(lia)) as [_ S1]. rewrite X_at in S1 by lia.
    replace (e + 52 - quo_exp A B) with 52 in S1 by lia. fold V in S1. lia.
Qed.
End near.

(** ** Decimals as quotients *)

(** [m * 10 ^ w] as a fraction. *)
Definition dec_fraction (c w : Z) : Z * Z :=
  if 0 <=? w then (c * 10 ^ w, 1) else (c, 10 ^ (- w)).

Lemma f_dec_fraction neg c w : 0 < c →
  f_dec neg c w = f_div (S754_finite neg (Z.to_pos (dec_fraction c w).1) 0)
                        (S754_finite false (Z.to_pos (dec_fraction c w).2) 0).
Proof.
  intros Hc. destruct c as [|p|p]; [lia| |lia]. unfold f_dec, dec_fraction.
  destruct (Z.leb_spec 0 w); simpl; [|done]. pose proof (Z.pow_pos_nonneg 10 w ltac:(lia) ltac:(lia)).
  destruct (10 ^ w); [lia|done|lia].
Qed.

Lemma dec_fraction_pos c w : 0 < c → 0 < (dec_fraction c w).1 ∧ 0 < (dec_fraction c w).2.
Proof.
  intros Hc. unfold dec_fraction. destruct (Z.leb_spec 0 w); simpl.
  - pose proof (Z.pow_pos_nonneg 10 w). lia.
  - pose proof (Z.pow_pos_nonneg 10 (- w)). lia.
Qed.

(** Shifting the decimal point does not change the value. *)
Lemma dec_fraction_shift c w z : 0 <= z →
  (dec_fraction (c * 10 ^ z) w).1 * (dec_fraction c (w + z)).2 =
  (dec_fraction c (w + z)).1 * (dec_fraction (c * 10 ^ z) w).2.
Proof.
  intros Hz. unfold dec_fraction. destruct (Z.leb_spec 0 w), (Z.leb_spec 0 (w + z)); simpl; try lia.
  - rewrite Z.pow_add_r by lia. ring.
  - replace (10 ^ z) with (10 ^ (w + z) * 10 ^ (- w)) by (rewrite <-Z.pow_add_r by lia; f_equal; lia). ring.
  - replace (10 ^ (- w)) with (10 ^ z * 10 ^ (- (w + z))) by (rewrite <-Z.pow_add_r by lia; f_equal; lia). ring.
Qed.

Lemma read_trailing ds n : read_digits 0 (ds +:+ zeros n) = read_digits 0 ds * 10 ^ Z.of_nat n.
Proof.
  rewrite read_app. generalize (read_digits 0 ds). induction n as [|n IH]; intros a; [simpl; lia|].
  cbn [zeros read_digits]. rewrite IH. rewrite Nat2Z.inj_succ, Z.pow_succ_r by lia.
  change (digit_value (ascii_of_N 48)) with 0. ring.
Qed.

(** A decimal close to a float reads as that float. *)
Lemma decimal_near neg c w m e :
  0 < c → bounded f_prec f_emax m e = true →
  near (dec_fraction c w).1 (dec_fraction c w).2 (Z.pos m) e →
  f_of_digits neg (str_of_Z c) w = S754_finite neg m e.
Proof.
  intros Hc Hb Hn. unfold f_of_digits. destruct (rstrip_zeros (str_of_Z c)) as [t z] eqn:Et.
  destruct (rstrip_spec _ _ _ Et) as (Hz & Es & _).
  assert (Ec : c = read_digits 0 t * 10 ^ z).
  { rewrite <-(read_str_of_Z c) at 1 by lia. rewrite Es, read_trailing. do 2 f_equal. lia. }
  assert (Ht : 0 < read_digits 0 t) by (pose proof (Z.pow_pos_nonneg 10 z); nia).
  rewrite f_dec_fraction by done.
  destruct (dec_fraction_pos c w Hc) as [P1 P2].
  destruct (dec_fraction_pos (read_digits 0 t) (w + z) Ht) as [P3 P4].
  apply round_near; [done|]. rewrite !Z2Pos.id by done.
  eapply near_proportional; [exact P2|exact P4| |exact Hn].
  rewrite Ec. by apply dec_fraction_shift.
Qed.

(** ** The decimal point *)

Lemma pretty_go_length x s :
  (0 < x)%N → ∃ n, String.length (pretty_N_go x s) = (n + String.length s)%nat ∧ (0 < n)%nat ∧
    10 ^ (Z.of_nat n - 1) <= Z.of_N x < 10 ^ Z.of_nat n.
Proof.
  revert s. induction (N.lt_wf_0 x) as [x _ IH]; intros s Hx. rewrite pretty_N_go_step by done.
  destruct (decide (x < 10)%N) as [H|H].
  - rewrite N.div_small, pretty_N_go_0 by done. exists 1%nat. split_and!; [done|lia|simpl; lia|simpl; lia].
  - destruct (IH (x `div` 10)%N) with (s := String (pretty_N_char (x `mod` 10)) s) as (n & E & Hn & Hlo & Hhi);
      [apply N.div_lt; lia|apply N.div_str_pos; lia|].
    exists (S n). split_and!; [rewrite E; simpl; lia|lia| |].
    + rewrite N2Z.inj_div in Hlo. change (Z.of_N 10) with 10 in Hlo.
      replace (Z.of_nat (S n) - 1) with (Z.succ (Z.of_nat n - 1)) by lia. rewrite Z.pow_succ_r by lia.
      pose proof (Z.mul_div_le (Z.of_N x) 10). lia.
    + rewrite N2Z.inj_div in Hhi. change (Z.of_N 10) with 10 in Hhi.
      rewrite Nat2Z.inj_succ, Z.pow_succ_r by lia. pose proof (Z.mul_succ_div_gt (Z.of_N x) 10). lia.
Qed.

Lemma ndigits_bounds n : 0 < n → 0 < ndigits n ∧ 10 ^ (ndigits n - 1) <= n < 10 ^ ndigits n.
Proof.
  intros Hn. unfold ndigits. rewrite str_of_Z_nonneg by lia. unfold pretty, pretty_N.
  rewrite decide_False by lia. destruct (pretty_go_length (Z.to_N n) "") as (k & E & Hk & Hb); [lia|].
  simpl in E. rewrite E, Nat.add_0_r. rewrite Z2N.id in Hb by lia. lia.
Qed.

(** The number has its first digit at the decimal point [dec_point] or above. *)
Lemma dec_point_lower num den : 0 < num → 0 < den →
  let k := dec_point num den in
  if 0 <? k then 10 ^ (k - 1) * den <= num else den <= num * 10 ^ (1 - k).
Proof.
  intros Hn Hd. cbv zeta. unfold dec_point. destruct (Z.leb_spec den num) as [H|H].
  - destruct (ndigits_bounds (num / den)) as (Hk & Hlo & _); [apply Z.div_str_pos; lia|].
    rewrite (proj2 (Z.ltb_lt _ _) Hk). pose proof (Z.mul_div_le num den Hd). nia.
  - set (c := (den + num - 1) / num). assert (Hc : den <= c * num ∧ 2 <= c).
    { pose proof (Z.mul_succ_div_gt (den + num - 1) num Hn). fold c in H0.
      assert (2 <= c) by (unfold c; apply Z.div_le_lower_bound; lia). lia. }
    destruct (ndigits_bounds (c - 1)) as (Hk & _ & Hhi); [lia|].
    destruct (Z.ltb_spec 0 (1 - ndigits (c - 1))); [lia|].
    replace (1 - (1 - ndigits (c - 1))) with (ndigits (c - 1)) by lia. nia.
Qed.

(** ** Seventeen digits *)

Section seventeen.
Context (m : positive) (e : Z).
Hypothesis (Hb : bounded f_prec f_emax m e = true).

#[local] Abbreviation num := (f_fraction m e).1.
#[local] Abbreviation den := (f_fraction m e).2.

Lemma fraction_pos : 0 < num ∧ 0 < den.
Proof.
  unfold f_fraction. pose proof (Z.pow_pos_nonneg 2 e). pose proof (Z.pow_pos_nonneg 2 (- e)).
  destruct (Z.leb_spec 0 e); simpl; lia.
Qed.

Lemma fraction_scaled : num * 2 ^ 1100 = Z.pos m * (2 ^ (e + 1100) * den).
Proof.
  destruct (bounded_inv m e Hb) as (_ & He & _). unfold f_fraction. destruct (Z.leb_spec 0 e); simpl.
  - rewrite Z.pow_add_r by lia. ring.
  - replace (2 ^ 1100) with (2 ^ (e + 1100) * 2 ^ (- e)) by (rewrite <-Z.pow_add_r by lia; f_equal; lia). ring.
Qed.

Let k := dec_point num den.
Let a := (scale10 num den (17 - k)).1.
Let b := (scale10 num den (17 - k)).2.

Lemma scaled_lower : 0 < b ∧ 10 ^ 16 * b <= a.
Proof.
  destruct fraction_pos as [Hn Hd]. pose proof (dec_point_lower num den Hn Hd) as H. cbv zeta in H. fold k in H.
  unfold a, b, scale10. destruct (Z.leb_spec 0 (17 - k)); simpl.
  - split; [done|]. destruct (Z.ltb_spec 0 k).
    + replace (10 ^ 16) with (10 ^ (k - 1) * 10 ^ (17 - k)) by (rewrite <-Z.pow_add_r by lia; f_equal; lia).
      pose proof (Z.pow_pos_nonneg 10 (17 - k)). nia.
    + replace (10 ^ (17 - k)) with (10 ^ 16 * 10 ^ (1 - k)) by (rewrite <-Z.pow_add_r by lia; f_equal; lia).
      pose proof (Z.pow_pos_nonneg 10 16). nia.
  - pose proof (Z.pow_pos_nonneg 10 (- (17 - k)) ltac:(lia) ltac:(lia)). split; [nia|].
    rewrite (proj2 (Z.ltb_lt 0 k)) in H by lia.
    replace (10 ^ (k - 1)) with (10 ^ 16 * 10 ^ (- (17 - k))) in H by (rewrite <-Z.pow_add_r by lia; f_equal; lia). nia.
Qed.

(** A float has at most 53 bits, a decimal of 17 digits more than 53.15. *)
Lemma gap_bound P X Y : 0 < Y → 10 ^ 16 * (P * Y) <= Z.pos m * X → 0 <= P →
  2 * (P * Y) * (if Z.pos m =? 2 ^ 52 then 2 else 1) < 2 * X ∨ P = 0 ∧ 0 <= X.
Proof.
  intros HY H HP. destruct (bounded_inv m e Hb) as (_ & _ & Hm).
  destruct (decide (P = 0)) as [->|]; [right; split; [done|]; nia|left].
  assert (0 < P * Y) by nia. destruct (Z.eqb_spec (Z.pos m) (2 ^ 52)) as [E|E]; nia.
Qed.

Lemma candidate_near c :
  0 < c → Z.abs (2 * a - 2 * c * b) <= b →
  near (dec_fraction c (k - 17)).1 (dec_fraction c (k - 17)).2 (Z.pos m) e.
Proof.
  intros Hc Habs. destruct scaled_lower as [Hbp Hlow]. destruct fraction_pos as [Hn Hd].
  pose proof fraction_scaled as Ef. unfold near. revert Ef.
  pose proof (Z.pow_pos_nonneg 2 1100 ltac:(lia) ltac:(lia)) as HY. revert HY.
  generalize (2 ^ 1100) (2 ^ (e + 1100)). intros Y X HY Ef.
  unfold a, b, scale10 in Habs, Hlow, Hbp. unfold dec_fraction.
  set (lo := if Z.pos m =? 2 ^ 52 then 1 else 2).
  destruct (Z.leb_spec 0 (17 - k)) as [Hk|Hk]; simpl in Habs, Hlow, Hbp.
  - assert (E2 : (if 0 <=? k - 17 then (c * 10 ^ (k - 17), 1) else (c, 10 ^ (- (k - 17)))) = (c, 10 ^ (17 - k))).
    { destruct (Z.leb_spec 0 (k - 17)).
      - replace (k - 17) with 0 by lia. replace (17 - k) with 0 by lia. f_equal. lia.
      - do 2 f_equal. lia. }
    rewrite E2. cbn [fst snd]. pose proof (Z.pow_pos_nonneg 10 (17 - k) ltac:(lia) ltac:(lia)) as HP.
    revert Habs Hlow HP. generalize (10 ^ (17 - k)). intros P Habs Hlow HP.
    assert (Hg : 10 ^ 16 * (1 * Y) <= Z.pos m * (X * P)).
    { apply (Zmult_lt_0_le_reg_r _ _ den Hd). nia. }
    destruct (gap_bound 1 (X * P) Y HY Hg) as [Hgap|[? ?]]; [lia| |lia]. subst lo.
    split; apply (Zmult_lt_reg_r _ _ den Hd); destruct (Z.pos m =? 2 ^ 52); nia.
  - rewrite (proj2 (Z.leb_le 0 (k - 17))) by lia. cbn [fst snd].
    replace (- (17 - k)) with (k - 17) in * by lia.
    pose proof (Z.pow_pos_nonneg 10 (k - 17) ltac:(lia) ltac:(lia)) as HP.
    revert Habs Hlow Hbp HP. generalize (10 ^ (k - 17)). intros P Habs Hlow Hbp HP.
    assert (Hg : 10 ^ 16 * (P * Y) <= Z.pos m * X).
    { apply (Zmult_lt_0_le_reg_r _ _ den Hd). nia. }
    destruct (gap_bound P X Y HY Hg) as [Hgap|[? ?]]; [lia| |lia]. subst lo.
    split; apply (Zmult_lt_reg_r _ _ den Hd); destruct (Z.pos m =? 2 ^ 52); nia.
Qed.

Lemma seventeen_digits : is_Some (try_digits (S754_finite false m e) num den k 17).
Proof.
  unfold try_digits. destruct scaled_lower as [Hbp Hlow]. unfold a, b in Hbp, Hlow.
  pose proof candidate_near as Hcand. unfold a, b in Hcand.
  destruct (scale10 num den (17 - k)) as [a' b']. cbn [fst snd] in *.
  pose proof (Z.mod_pos_bound a' b' Hbp) as Hr. pose proof (Z.div_mod a' b' ltac:(lia)) as Ed.
  assert (Hd : 10 ^ 16 <= a' / b') by (apply Z.div_le_lower_bound; lia).
  assert (Hok : ∀ c, 0 < c → Z.abs (2 * a' - 2 * c * b') <= b' →
    reads_back (S754_finite false m e) c (k - 17) = true).
  { intros c Hc Habs. unfold reads_back. apply bool_decide_eq_true. by apply decimal_near; [| |apply Hcand]. }
  destruct (Z.leb_spec (2 * (a' mod b')) b').
  - rewrite (Hok (a' / b')) by lia. by destruct (reads_back _ _ _).
  - rewrite (Hok (a' / b' + 1)) by lia. by destruct (reads_back _ _ _).
Qed.
End seventeen.

Lemma try_digits_reads x num den k n d : try_digits x num den k n = Some d → reads_back x d (k - n) = true.
Proof.
  unfold try_digits. destruct (scale10 num den (n - k)) as [a b].
  destruct (reads_back x (a / b) (k - n)) eqn:E1, (reads_back x (a / b + 1) (k - n)) eqn:E2; try done;
    intros [= <-]; [by destruct (2 * (a mod b) <? b); [|destruct (b <? 2 * (a mod b)); [|destruct (Z.even (a / b))]]|exact E1|exact E2].
Qed.

Lemma fewest_reads fuel x num den k n :
  is_Some (try_digits x num den k (n + Z.of_nat fuel)) →
  let '(d, w) := fewest_digits fuel x num den k n in reads_back x d w = true.
Proof.
  revert n. induction fuel as [|fuel IH]; intros n H; simpl.
  - rewrite Z.add_0_r in H. destruct H as [d E]. rewrite E. by eapply try_digits_reads.
  - destruct (try_digits x num den k n) as [d|] eqn:E; [by eapply try_digits_reads|].
    apply IH. by replace (n + 1 + Z.of_nat fuel) with (n + Z.of_nat (S fuel)) by lia.
Qed.

(** ** Reading what [str] writes *)

(** The shortest digits of a positive float read back as it. *)
Lemma shortest_spec m e :
  bounded f_prec f_emax m e = true →
  str_all is_digit (shortest m e).1 = true ∧ (shortest m e).1 ≠ "" ∧ stripped (shortest m e).1 ∧
  f_of_digits false (shortest m e).1 (shortest m e).2 = S754_finite false m e.
Proof.
  intros Hb. unfold shortest. pose proof (seventeen_digits m e Hb) as H17.
  destruct (f_fraction m e) as [num den]. cbn [fst snd] in H17.
  pose proof (fewest_reads 16 (S754_finite false m e) num den (dec_point num den) 1 H17) as H.
  destruct (fewest_digits _ _ _ _ _ _) as [d w]. unfold reads_back in H. apply bool_decide_eq_true in H.
  unfold f_of_digits in H. destruct (rstrip_zeros (str_of_Z d)) as [t z] eqn:Et. cbn [fst snd].
  destruct (rstrip_spec _ _ _ Et) as (Hz & Es & Ht).
  assert (Hpos : 0 < read_digits 0 t) by (unfold f_dec in H; destruct (read_digits 0 t); done).
  assert (Hd : 0 <= d).
  { destruct (Z.le_gt_cases 0 d) as [|Hneg]; [done|exfalso].
    (* a minus sign is worth less than nothing *)
    rewrite (str_of_Z_neg d Hneg) in Et. simpl in Et.
    destruct (rstrip_zeros (pretty (Z.to_N (- d)))) as [t' z'] eqn:Et'.
    destruct (rstrip_spec _ _ _ Et') as (Hz' & Es' & _).
    assert (E : (String "-" t', z') = (t, z)) by (rewrite <- Et; by destruct (bool_decide (t' = ""))).
    injection E as <- <-.
    destruct (str_of_N_spec (Z.to_N (- d))) as (Hdig & _ & _). rewrite Es', str_all_app, andb_true_iff in Hdig.
    destruct Hdig as [Hdig _]. simpl in Hpos. change (digit_value "-") with (-3) in Hpos.
    clear -Hpos Hdig. assert (Hle : ∀ s acc, str_all is_digit s = true → acc < 0 → read_digits acc s < 0).
    { induction s as [|c s IH]; intros acc; simpl; [done|]. rewrite andb_true_iff.
      intros [Hc%digit_bounds Hs] Ha. apply IH; [done|lia]. }
    specialize (Hle t' (-3) Hdig ltac:(lia)). change (10 * 0 + -3) with (-3) in Hpos. lia. }
  destruct (all_digits_inv _ (all_digits_str_of_Z d Hd)) as [Hdig _].
  rewrite Es, str_all_app, andb_true_iff in Hdig. destruct Hdig as [Hdig _].
  split_and!; [done|by intros ->|done|]. by rewrite f_of_digits_stripped.
Qed.

Lemma f_dec_opp m w : f_dec true m w = f_opp (f_dec false m w).
Proof.
  assert (H : ∀ A B, f_div (S754_finite true A 0) (S754_finite false B 0) =
    f_opp (f_div (S754_finite false A 0) (S754_finite false B 0))).
  { intros A B. unfold f_div, f_opp, SFdiv. destruct (SFdiv_core_binary _ _ _ _ _ _) as [[q e] l]. simpl.
    unfold binary_round_aux. destruct (shr_fexp _ _ _ _ _) as [mrs e']. destruct (shr_fexp _ _ _ _ _) as [mrs' e''].
    destruct (shr_m mrs'); simpl; [done| |done]. by destruct (e'' <=? _). }
  destruct m; simpl; [done| |done]. destruct (0 <=? w); apply H.
Qed.

Lemma f_of_digits_opp ds w : f_of_digits true ds w = f_opp (f_of_digits false ds w).
Proof. unfold f_of_digits. destruct (rstrip_zeros ds). apply f_dec_opp. Qed.

(** The characters of a printed number. *)
Definition number_chars (p : ascii → bool) : Prop := (∀ c, is_digit c = true → p c = true) ∧ str_all p ".e+-" = true.

Lemma layout_all p ds w : number_chars p → str_all is_digit ds = true → str_all p (layout ds w) = true.
Proof.
  intros [Hdigit Hother] Hd. simpl in Hother. rewrite !andb_true_iff in Hother.
  destruct Hother as (Hdot & He & Hplus & Hminus & _).
  assert (Hp : ∀ s, str_all is_digit s = true → str_all p s = true) by (intros s; by apply str_all_impl).
  assert (Hz : ∀ n, str_all p (zeros n) = true) by (intros; apply Hp, zeros_digits).
  assert (Ht : ∀ n, str_all p (str_take n ds) = true) by (intros; by apply Hp, str_all_take_drop).
  assert (Hr : ∀ n, str_all p (str_drop n ds) = true) by (intros; by apply Hp, str_all_take_drop).
  assert (Hpad : ∀ x, str_all p (pad 2 (Z.abs x)) = true).
  { intros x. apply Hp. apply all_digits_inv, pad_spec. lia. }
  pose proof (Hdigit "0"%char eq_refl) as H0. pose proof (Hr 1%nat) as Hr1. simpl in Hr1.
  unfold layout. destruct (andb _ _); [destruct (_ <=? 0); [|destruct (_ <? _)]|];
    rewrite ?str_all_app, ?Hz, ?(Hp ds Hd), ?Ht, ?Hr; simpl; rewrite ?Hdot, ?H0; [done..|].
  destruct (_ =? 1); destruct (_ <? 0); rewrite ?str_all_app, ?Hr, ?Hpad; simpl;
    by rewrite ?Hdot, ?He, ?Hplus, ?Hminus, ?Hr1.
Qed.

Lemma plain_number : number_chars plain.
Proof. split; [exact digit_plain|done]. Qed.

Lemma layout_head ds w : str_all is_digit ds = true → ds ≠ "" →
  match layout ds w with String c _ => is_digit c = true | EmptyString => False end.
Proof.
  intros Hd Hne. destruct ds as [|c ds]; [done|]. simpl in Hd. apply andb_true_iff in Hd as [Hc _].
  unfold layout. destruct (andb _ _); [destruct (Z.leb_spec (w + Z.of_nat (String.length (String c ds))) 0);
    [|destruct (_ <? _)]|]; try exact Hc; [done|].
  destruct (Z.to_nat _) eqn:E; [lia|exact Hc].
Qed.

(** [float(str(x)) = x] for every float but NaN, and NaN reads as NaN. *)
Lemma float_of_str_of_float x :
  valid_binary f_prec f_emax x = true → float_of_str (str_of_float x) = Some x.
Proof.
  destruct x as [[]|[]| |neg m e]; try done. simpl. intros Hb.
  destruct (shortest_spec m e Hb) as (Hd & Hne & Hs & Hf). destruct (shortest m e) as [ds w]. cbn [fst snd] in *.
  pose proof (layout_all _ ds w plain_number Hd) as Hp. pose proof (layout_head ds w Hd Hne) as Hh.
  unfold float_of_str. destruct neg.
  - change ("-" +:+ layout ds w) with (String "-"%char (layout ds w)).
    rewrite trim_plain, drop_underscores_plain by exact Hp. simpl.
    by rewrite unsigned_float_layout, f_of_digits_opp, Hf.
  - rewrite str_app_nil_l. rewrite trim_plain, drop_underscores_plain by exact Hp. simpl.
    assert (E : split_sign (layout ds w) = (false, layout ds w)).
    { destruct (layout ds w) as [|c r]; [done|]. simpl.
      case_bool_decide as H1; [by subst c|]. by case_bool_decide; [subst c|]. }
    by rewrite E, unsigned_float_layout, Hf.
Qed.

(** [str(x)] has no spaces and is not empty. *)
Definition nonspace (c : ascii) : bool := negb (py_isspace c).

Lemma nonspace_number : number_chars nonspace.
Proof.
  split; [|done]. intros c. unfold is_digit, nonspace, py_isspace. rewrite andb_true_iff, N.leb_le, N.leb_le. intros H.
  rewrite negb_true_iff. repeat (apply orb_false_iff; split); rewrite ?andb_false_iff, ?N.leb_gt, ?N.eqb_neq; lia.
Qed.

Definition is_word (s : string) : bool := str_all nonspace s && negb (bool_decide (s = "")).

Lemma digits_word s : all_digits s = true → is_word s = true.
Proof.
  intros [Hd Hne]%all_digits_inv. unfold is_word. rewrite bool_decide_eq_false_2 by done.
  rewrite andb_true_r. apply (str_all_impl is_digit); [apply nonspace_number|done].
Qed.

Lemma str_of_Z_word n : is_word (str_of_Z n) = true.
Proof.
  destruct (decide (0 <= n)) as [Hn|Hn]; [by apply digits_word, all_digits_str_of_Z|].
  rewrite str_of_Z_neg by lia. unfold is_word. simpl. rewrite andb_true_r.
  apply (str_all_impl is_digit); [apply nonspace_number|apply str_of_N_spec].
Qed.

Lemma str_of_float_word x : valid_binary f_prec f_emax x = true → is_word (str_of_float x) = true.
Proof.
  destruct x as [[]|[]| |neg m e]; try done. simpl. intros Hb.
  destruct (shortest_spec m e Hb) as (Hd & Hne & _). destruct (shortest m e) as [ds w]. cbn [fst snd] in *.
  pose proof (layout_all _ ds w nonspace_number Hd) as Hp. pose proof (layout_head ds w Hd Hne) as Hh.
  unfold is_word. rewrite str_all_app, Hp. destruct neg; simpl; [done|].
  destruct (layout ds w); [done|]. by rewrite str_app_nil_l.
Qed.

(** ** Integers up to 2^53 survive the way through [float] *)

Lemma exact_float n : 0 < n <= 2 ^ 53 → ∃ m e, bounded f_prec f_emax m e = true ∧ -52 <= e <= 1 ∧
  Z.pos m * 2 ^ (e + 52) = n * 2 ^ 52 ∧ int_of_float (S754_finite false m e) = Some n.
Proof.
  intros Hn. destruct (decide (n = 2 ^ 53)) as [->|Hne].
  { exists (2 ^ 52)%positive, 1. by vm_compute. }
  destruct n as [|p|]; [lia| |lia]. pose proof (digits2_bounds p) as Hp.
  set (k := Z.pos (digits2_pos p)) in *.
  assert (Hk : 1 <= k <= 53).
  { split; [lia|]. destruct (Z.le_gt_cases k 53) as [|H]; [done|].
    pose proof (Z.pow_le_mono_r 2 53 (k - 1)). lia. }
  assert (HP : 0 < 2 ^ (53 - k)) by (apply Z.pow_pos_nonneg; lia).
  exists (Z.to_pos (Z.pos p * 2 ^ (53 - k))), (k - 53).
  rewrite Z2Pos.id by nia. split_and!; [|lia..| |].
  - unfold bounded, canonical_mantissa. apply andb_true_iff. split; [|apply Z.leb_le; unfold f_prec, f_emax; lia].
    apply Z.eqb_eq. rewrite fexp_spec.
    assert (E : Zdigits2 (Z.pos p * 2 ^ (53 - k)) = 53).
    { apply Zdigits2_unique; [lia|]. split.
      - replace (53 - 1) with (k - 1 + (53 - k)) by lia. rewrite Z.pow_add_r by lia. nia.
      - replace 53 with (k + (53 - k)) at 2 by lia. rewrite Z.pow_add_r by lia. nia. }
    destruct (Z.pos p * 2 ^ (53 - k)) as [|q|] eqn:Eq; [lia| |lia]. simpl in *. lia.
  - rewrite <-Z.mul_assoc, <-Z.pow_add_r by lia. do 2 f_equal. lia.
  - unfold int_of_float. rewrite Z2Pos.id by nia. destruct (Z.leb_spec 0 (k - 53)).
    + replace (k - 53) with 0 by lia. replace (53 - k) with 0 by lia. f_equal. lia.
    + replace (- (k - 53)) with (53 - k) by lia. f_equal. by rewrite Z.div_mul by lia.
Qed.

Lemma int_of_float_opp x n : int_of_float x = Some n → int_of_float (f_opp x) = Some (- n).
Proof. destruct x as [| | |[]]; simpl; try done; intros [= <-]; f_equal; lia. Qed.

Lemma shl_align_down p e : e <= 0 → Z.pos (shl_align p 0 e).1 = Z.pos p * 2 ^ (- e) ∧ (shl_align p 0 e).2 = e.
Proof.
  intros He. unfold shl_align. destruct (e - 0) as [|q|q] eqn:E; [|lia|]; simpl.
  - replace e with 0 by lia. simpl. lia.
  - split; [|done]. replace (- e) with (Z.pos q) by lia. clear.
    induction q as [|q IH] using Pos.peano_ind; [simpl; lia|].
    rewrite Pos.iter_succ, Pos2Z.inj_xO, IH, Pos2Z.inj_succ, Z.pow_succ_r by lia. lia.
Qed.

(** A canonical mantissa passes the rounding unchanged. *)
Lemma round_aux_canonical s m e :
  bounded f_prec f_emax m e = true → binary_round_aux f_prec f_emax s (Z.pos m) e loc_Exact = S754_finite s m e.
Proof.
  intros Hb. destruct (bounded_inv m e Hb) as (He & Hr & _). unfold binary_round_aux.
  assert (Em : Z.pos m = Z.pos m * 2 ^ (e - e)) by (rewrite Z.sub_diag; lia).
  destruct (shr_fexp_stands (Z.pos m) loc_Exact e (Z.pos m) 1 e) as [Hs E2]; [lia|lia| |done|lia|].
  { split; simpl; rewrite ?Z.div_1_r, ?Z.mod_1_r; [done|split; [done|lia]|split; [done|lia]]. }
  rewrite Z.sub_diag, Z.mul_1_l in Hs. destruct (shr_fexp f_prec f_emax (Z.pos m) e loc_Exact) as [mrs' e']. simpl in *.
  subst e'. pose proof (stands_round mrs' (Z.pos m) 1 ltac:(lia) Hs) as Hn.
  assert (En : round_nearest_even (shr_m mrs') (loc_of_shr_record mrs') = Z.pos m) by (rewrite Hn; unfold div_half_even; by rewrite Z.div_1_r, Z.mod_1_r).
  rewrite En. destruct (shr_fexp_exact (Z.pos m) e e (Z.pos m) He ltac:(lia) Em ltac:(lia)) as [H1 H2].
  destruct (shr_fexp f_prec f_emax (Z.pos m) e loc_Exact) as [mrs'' e'']. simpl in *. rewrite H1, H2.
  by rewrite (proj2 (Z.leb_le e (f_emax - f_prec))) by (unfold f_emax, f_prec; lia).
Qed.

(** The float of an integer that fits a mantissa. *)
Lemma f_of_Z_value n : 0 < n <= 2 ^ 53 → ∃ m e, f_of_Z n = S754_finite false m e ∧ f_of_Z (- n) = S754_finite true m e ∧
  bounded f_prec f_emax m e = true ∧ -52 <= e <= 1 ∧ Z.pos m * 2 ^ (e + 52) = n * 2 ^ 52 ∧
  int_of_float (S754_finite false m e) = Some n.
Proof.
  intros Hn. destruct (decide (n = 2 ^ 53)) as [->|Hne].
  { exists (2 ^ 52)%positive, 1. split_and!; by vm_compute. }
  destruct (exact_float n Hn) as (m & e & Hb & He & Heq & Hint).
  assert (He0 : e <= 0).
  { destruct (decide (e = 1)) as [->|]; [|lia]. change (2 ^ (1 + 52)) with (2 ^ 53) in Heq.
    destruct (bounded_inv _ _ Hb) as (_ & _ & [[Hm _]|[_ Hm]]); nia. }
  destruct n as [|p|]; [lia| |lia]. exists m, e.
  assert (Em : Z.pos m = Z.pos p * 2 ^ (- e)).
  { assert (H2 : 2 ^ 52 = 2 ^ (- e) * 2 ^ (e + 52)) by (rewrite <-Z.pow_add_r by lia; f_equal; lia).
    rewrite H2, Z.mul_assoc in Heq. apply Z.mul_reg_r in Heq; [done|].
    pose proof (Z.pow_pos_nonneg 2 (e + 52)). lia. }
  assert (E : ∀ s, binary_round f_prec f_emax s p 0 = S754_finite s m e).
  { intros s. unfold binary_round.
    assert (Ef : fexp f_prec f_emax (Z.pos (digits2_pos p) + 0) = e).
    { destruct (bounded_inv _ _ Hb) as (Hf & _ & _). etransitivity; [|exact Hf]. f_equal.
      assert (Ed : Zdigits2 (Z.pos m) = Z.pos (digits2_pos p) - e); [|lia].
      pose proof (digits2_bounds p) as [Hp1 Hp2]. pose proof (Z.pow_pos_nonneg 2 (- e) ltac:(lia) ltac:(lia)).
      apply Zdigits2_unique; [lia|]. rewrite Em. split.
      - replace (Z.pos (digits2_pos p) - e - 1) with (Z.pos (digits2_pos p) - 1 + - e) by lia.
        rewrite Z.pow_add_r by lia. by apply Z.mul_le_mono_nonneg_r; [lia|].
      - replace (Z.pos (digits2_pos p) - e) with (Z.pos (digits2_pos p) + - e) by lia.
        rewrite Z.pow_add_r by lia. by apply Zmult_lt_compat_r. }
    rewrite Ef. destruct (shl_align_down p e He0) as [H1 H2]. destruct (shl_align p 0 e) as [m' e']. simpl in *.
    subst e'. rewrite H1, <-Em. by apply round_aux_canonical. }
  split_and!; [apply E|apply E|done|lia|lia|done|done].
Qed.

Lemma int_of_float_of_Z n : - 2 ^ 53 <= n <= 2 ^ 53 → int_of_float (f_of_Z n) = Some n.
Proof.
  intros Hn. destruct (Z.lt_trichotomy n 0) as [H0|[->|H0]]; [|done|].
  - destruct (f_of_Z_value (- n)) as (m & e & _ & E & _ & _ & _ & Hi); [lia|]. rewrite Z.opp_involutive in E.
    rewrite E. apply int_of_float_opp in Hi. simpl in Hi |- *. rewrite Hi. f_equal. lia.
  - destruct (f_of_Z_value n) as (m & e & E & _ & _ & _ & _ & Hi); [lia|]. by rewrite E.
Qed.

(** [float(str(n))] is exact. *)
Lemma float_of_str_of_Z n : - 2 ^ 53 <= n <= 2 ^ 53 → float_of_str (str_of_Z n) = Some (f_of_Z n).
Proof.
  intros Hn.
  assert (Hpos : ∀ p neg, 0 < p <= 2 ^ 53 →
    f_of_digits neg (str_of_Z p) 0 = if neg : bool then f_of_Z (- p) else f_of_Z p).
  { intros p neg Hp. destruct (f_of_Z_value p Hp) as (m & e & E1 & E2 & Hb & He & Heq & Hint).
    rewrite (decimal_near neg _ _ m e); [by destruct neg; rewrite ?E1, ?E2|lia|done|]. unfold dec_fraction. simpl.
    apply (near_proportional (p * 2 ^ 52) (2 ^ 52)); [lia..|]. unfold near.
    assert (H2 : 0 < 2 ^ (e + 1100)) by (apply Z.pow_pos_nonneg; lia).
    assert (E : Z.pos m * 2 ^ (e + 1100) * 2 ^ 52 = p * 2 ^ 52 * 2 ^ 1100).
    { replace (e + 1100) with ((e + 52) + 1048) by lia. rewrite Z.pow_add_r by lia.
      change (2 ^ 1100) with (2 ^ 1048 * 2 ^ 52). nia. }
    revert E H2. generalize (2 ^ (e + 1100)), (2 ^ 1100). intros X Y E HX.
    destruct (Z.pos m =? 2 ^ 52); nia. }
  assert (Hread : ∀ neg p, 0 <= p → unsigned_float neg (str_of_Z p) = Some (f_of_digits neg (str_of_Z p) 0)).
  { intros neg p Hp. rewrite <-(str_app_nil_r (str_of_Z p)) at 1. apply unsigned_float_no_point; [|done..].
    by apply all_digits_str_of_Z. }
  assert (Hplain : ∀ p, 0 <= p → str_all plain (str_of_Z p) = true).
  { intros p Hp. eapply str_all_impl; [apply digit_plain|]. by apply all_digits_inv, all_digits_str_of_Z. }
  unfold float_of_str. destruct (decide (0 <= n)) as [H0|H0].
  - rewrite trim_plain, drop_underscores_plain by auto. simpl.
    rewrite split_sign_digits by (by apply all_digits_inv, all_digits_str_of_Z).
    rewrite Hread by done. destruct (decide (n = 0)) as [->|Hne]; [done|]. by rewrite Hpos by lia.
  - assert (E : str_of_Z n = String "-"%char (str_of_Z (- n))) by (rewrite str_of_Z_neg, str_of_Z_nonneg by lia; done).
    rewrite E, trim_plain, drop_underscores_plain by (simpl; apply Hplain; lia). simpl.
    rewrite Hread, Hpos by lia. do 2 f_equal. lia.
Qed.

(** [int(float(str(n))) = n]. *)
Lemma int_of_float_of_str n : - 2 ^ 53 <= n <= 2 ^ 53 → float_of_str (str_of_Z n) ≫= int_of_float = Some n.
Proof. intros Hn. rewrite float_of_str_of_Z by done. by apply int_of_float_of_Z. Qed.
