(* ===== verification/PyBounds.v ===== *)
(** * How large a result can get

    A float is at most about [2 ^ k] ([mag]).  Rounding adds at most one to [k], so a
    quotient of moderate integers, a product of moderate floats and a moderate integer made
    a float are finite: none of the conversions [LoadCharts] and [Dashboard] use overflows. *)

From S2P Require Import Prelude.
From S2P Require Import PyFloat.
From S2P Require Import PyRound.

#[local] Open Scope Z_scope.

(** [n * 2 ^ e] is below [2 ^ K]. *)
Record below (n e K : Z) : Prop := {
  bl_pos : 0 <= n;
  bl_exp : -3000 <= e <= K;
  bl_lt : n * 2 ^ (e + 3000) < 2 ^ (K + 3000);
}.

Definition mag (K : Z) (x : float) : Prop :=
  match x with
  | S754_zero _ => True
  | S754_finite _ m e => below (Z.pos m) e K ∧ -1074 <= e
  | _ => False
  end.

Definition is_finite (x : float) : bool :=
  match x with S754_zero _ | S754_finite _ _ _ => true | _ => false end.

Lemma mag_finite K x : mag K x → is_finite x = true.
Proof. by destruct x. Qed.

Lemma pow_split e n : -3000 <= e → 0 <= n → 2 ^ (e + n + 3000) = 2 ^ (e + 3000) * 2 ^ n.
Proof. intros. rewrite <-Z.pow_add_r by lia. f_equal. lia. Qed.

Lemma below_weaken n e K K' : below n e K → K <= K' → below n e K'.
Proof.
  intros [? ? H] HK. split; [done|lia|]. pose proof (Z.pow_le_mono_r 2 (K + 3000) (K' + 3000)). lia.
Qed.

(** A shift to the right makes the number no larger. *)
Lemma shr_1_m mrs : 0 <= shr_m mrs → shr_m (shr_1 mrs) = shr_m mrs / 2.
Proof.
  destruct mrs as [[|[p|p|]|p] r s]; simpl; intros H; try done; try lia.
  - rewrite Pos2Z.inj_xI. apply (Z.div_unique _ _ _ 1); lia.
  - rewrite Pos2Z.inj_xO, Z.mul_comm. by rewrite Z.div_mul.
Qed.

Lemma iter_shr_m p mrs : 0 <= shr_m mrs →
  shr_m (SpecFloat.iter_pos shr_1 p mrs) = shr_m mrs / 2 ^ Z.pos p.
Proof.
  revert mrs. induction p as [p IH|p IH|]; intros mrs H; simpl;
    try (pose proof (Z.pow_pos_nonneg 2 (Z.pos p) ltac:(lia) ltac:(lia))).
  - assert (H1 : 0 <= shr_m (shr_1 mrs)) by (rewrite shr_1_m by done; by apply Z.div_pos).
    assert (H2 : 0 <= shr_m (SpecFloat.iter_pos shr_1 p (shr_1 mrs)))
      by (rewrite IH by done; apply Z.div_pos; lia).
    rewrite !IH, shr_1_m by done. rewrite !Z.div_div by nia. f_equal.
    replace (Z.pos p~1) with (1 + Z.pos p + Z.pos p) by lia. rewrite !Z.pow_add_r by lia. lia.
  - assert (H2 : 0 <= shr_m (SpecFloat.iter_pos shr_1 p mrs)) by (rewrite IH by done; apply Z.div_pos; lia).
    rewrite !IH by done. rewrite Z.div_div by lia. f_equal.
    replace (Z.pos p~0) with (Z.pos p + Z.pos p) by lia. by rewrite Z.pow_add_r by lia.
  - by apply shr_1_m.
Qed.

Lemma digits_below n e K : below n e K → Zdigits2 n + e <= K.
Proof.
  intros [Hn He Hlt]. destruct n as [|p|p]; simpl; [lia| |lia].
  pose proof (digits2_bounds p) as [Hp _].
  assert (Hd0 : 0 < Z.pos (digits2_pos p)) by lia. set (d := Z.pos (digits2_pos p)) in *.
  destruct (Z.le_gt_cases (d + e) K) as [|H]; [done|].
  pose proof (Z.pow_le_mono_r 2 (K + 3000) (d - 1 + (e + 3000)) ltac:(lia) ltac:(lia)) as Hm.
  rewrite (Z.pow_add_r 2 (d - 1)) in Hm by lia. pose proof (Z.pow_pos_nonneg 2 (e + 3000)). nia.
Qed.

Lemma shr_fexp_exp n e l : -1074 <= (shr_fexp f_prec f_emax n e l).2.
Proof.
  unfold shr_fexp, shr. rewrite fexp_spec.
  destruct (Z.max (Zdigits2 n + e - 53) (-1074) - e) as [|p|p] eqn:E; simpl; lia.
Qed.

(** One rounding step. *)
Lemma shr_fexp_below n e l K :
  -1074 <= K → below n e K →
  below (shr_m (shr_fexp f_prec f_emax n e l).1) (shr_fexp f_prec f_emax n e l).2 K.
Proof.
  intros HK Hb. pose proof (digits_below _ _ _ Hb) as Hd. destruct Hb as [Hn He Hlt].
  assert (Hm : shr_m (shr_record_of_loc n l) = n) by by destruct l as [|[]].
  unfold shr_fexp, shr. rewrite fexp_spec.
  destruct (Z.max (Zdigits2 n + e - 53) (-1074) - e) as [|p|p] eqn:E; cbn [fst snd]; rewrite ?Hm; [by split..| |by split].
  assert (Hm0 : 0 <= shr_m (shr_record_of_loc n l)) by by rewrite Hm.
  rewrite iter_shr_m, Hm by done. split; [apply Z.div_pos; lia|lia|].
  rewrite pow_split by lia. pose proof (Z.mul_div_le n (2 ^ Z.pos p)).
  pose proof (Z.pow_pos_nonneg 2 (e + 3000)). pose proof (Z.pow_pos_nonneg 2 (Z.pos p)). nia.
Qed.

Lemma round_even_below n e l K : below n e K → below (round_nearest_even n l) e (K + 1).
Proof.
  intros [Hn He Hlt].
  assert (Hup : (n + 1) * 2 ^ (e + 3000) <= 2 ^ (K + 3000)).
  { assert (E : 2 ^ (K + 3000) = 2 ^ (e + 3000) * 2 ^ (K - e)) by (rewrite <-pow_split by lia; f_equal; lia).
    rewrite E in *. pose proof (Z.pow_pos_nonneg 2 (e + 3000) ltac:(lia) ltac:(lia)) as HX.
    assert (n < 2 ^ (K - e)); nia. }
  assert (HK : 2 ^ (K + 1 + 3000) = 2 * 2 ^ (K + 3000)).
  { rewrite <-Z.pow_succ_r by lia. f_equal. lia. }
  assert (Hr : n <= round_nearest_even n l <= n + 1).
  { destruct l as [|[]]; simpl; try lia. destruct (Z.even n); lia. }
  pose proof (Z.pow_pos_nonneg 2 (e + 3000)). split; [lia|lia|]. nia.
Qed.

Lemma round_aux_mag s n e l K :
  -1074 <= K <= 900 → below n e K → mag (K + 1) (binary_round_aux f_prec f_emax s n e l).
Proof.
  intros HK Hb. unfold binary_round_aux. pose proof (shr_fexp_below n e l K) as H1.
  destruct (shr_fexp f_prec f_emax n e l) as [mrs e1]. cbn [fst snd] in H1.
  pose proof (round_even_below _ _ (loc_of_shr_record mrs) _ (H1 ltac:(lia) Hb)) as Hr.
  pose proof (shr_fexp_below _ _ loc_Exact (K + 1) ltac:(lia) Hr) as H2.
  pose proof (shr_fexp_exp (round_nearest_even (shr_m mrs) (loc_of_shr_record mrs)) e1 loc_Exact) as He.
  destruct (shr_fexp f_prec f_emax (round_nearest_even _ _) e1 loc_Exact) as [mrs' e2]. cbn [fst snd] in H2, He.
  pose proof (bl_exp _ _ _ H2). pose proof (bl_pos _ _ _ H2). destruct (shr_m mrs') as [|p|p]; [done| |lia].
  rewrite (proj2 (Z.leb_le e2 (f_emax - f_prec))) by (unfold f_emax, f_prec; lia). by split.
Qed.

(** *** Operations *)

Lemma f_mul_mag x y K L :
  mag K x → mag L y → -1074 <= K + L <= 900 → mag (K + L + 1) (f_mul x y).
Proof.
  destruct x as [| | |s m e], y as [| | |t n f]; try done. simpl. intros [[_ He Hm] Ex] [[_ Hf Hn] Ef] HKL. apply round_aux_mag; [lia|]. split; [lia|lia|].
  rewrite Pos2Z.inj_mul.
  assert (E1 : 2 ^ (e + 3000) * 2 ^ (f + 3000) = 2 ^ (e + f + 3000) * 2 ^ 3000)
    by (rewrite <-!Z.pow_add_r by lia; f_equal; lia).
  assert (E2 : 2 ^ (K + 3000) * 2 ^ (L + 3000) = 2 ^ (K + L + 3000) * 2 ^ 3000)
    by (rewrite <-!Z.pow_add_r by lia; f_equal; lia).
  apply (Zmult_lt_reg_r _ _ (2 ^ 3000)); [apply Z.pow_pos_nonneg; lia|].
  rewrite <-Z.mul_assoc, <-E1, <-E2.
  replace (Z.pos m * Z.pos n * (2 ^ (e + 3000) * 2 ^ (f + 3000))) with
    (Z.pos m * 2 ^ (e + 3000) * (Z.pos n * 2 ^ (f + 3000))) by ring.
  pose proof (Z.pow_pos_nonneg 2 (e + 3000)). pose proof (Z.pow_pos_nonneg 2 (f + 3000)).
  apply Z.mul_lt_mono_nonneg; [nia|done|nia|done].
Qed.

(** An integer below [2 ^ K] as a float. *)
Lemma shl_align_below p e e' K :
  below (Z.pos p) e K → -3000 <= e' → below (Z.pos (shl_align p e e').1) (shl_align p e e').2 K.
Proof.
  intros [Hn He Hlt] He'. unfold shl_align. destruct (e' - e) as [|q|q] eqn:E; [by split..|]. cbn [fst snd].
  assert (Hi : Z.pos (Pos.iter xO p q) = Z.pos p * 2 ^ Z.pos q).
  { clear. induction q as [|q IH] using Pos.peano_ind; [simpl; lia|].
    rewrite Pos.iter_succ, Pos2Z.inj_xO, IH, Pos2Z.inj_succ, Z.pow_succ_r by lia. lia. }
  split; [lia|lia|]. rewrite Hi. replace (e + 3000) with (Z.pos q + (e' + 3000)) in Hlt by lia.
  rewrite Z.pow_add_r in Hlt by lia. by rewrite Z.mul_assoc in Hlt.
Qed.

Lemma f_of_Z_mag n K : 0 <= K <= 900 → Z.abs n < 2 ^ K → mag (K + 1) (f_of_Z n).
Proof.
  intros HK Hn. assert (Hround : ∀ s p, Z.pos p < 2 ^ K → mag (K + 1) (binary_round f_prec f_emax s p 0)).
  { intros s p Hp. unfold binary_round. set (e' := fexp _ _ _).
    pose proof (shl_align_below p 0 e' K) as Hs. destruct (shl_align p 0 e') as [m e]. apply round_aux_mag; [lia|].
    apply Hs; [split; [lia|lia|]|unfold e'; rewrite fexp_spec; lia].
    rewrite (Z.pow_add_r 2 K) by lia. apply Zmult_lt_compat_r; [lia|done]. }
  unfold f_of_Z, binary_normalize. destruct n as [|p|p]; [done|by apply Hround|by apply Hround].
Qed.

(** A quotient of integers. *)
Lemma f_div_mag A B s t K :
  0 <= K <= 900 → Z.pos A < 2 ^ K → mag (K + 1) (f_div (S754_finite s A 0) (S754_finite t B 0)).
Proof.
  intros HK HA. unfold f_div, SFdiv. rewrite div_core. apply round_aux_mag; [lia|].
  pose proof (e1_bounds A B) as He. split.
  - apply Z.div_pos; [|lia]. pose proof (T_pos A B). lia.
  - lia.
  - rewrite (Z.pow_add_r 2 K) by lia.
    assert (Hq : quo A B <= quo_num A B).
    { unfold quo. apply Z.div_le_upper_bound; [lia|]. pose proof (T_pos A B). nia. }
    assert (E : quo_num A B * 2 ^ (quo_exp A B + 3000) = Z.pos A * 2 ^ 3000).
    { unfold quo_num. rewrite <-Z.mul_assoc, <-Z.pow_add_r by lia. do 2 f_equal. lia. }
    pose proof (Z.pow_pos_nonneg 2 (quo_exp A B + 3000)). apply Z.le_lt_trans with (Z.pos A * 2 ^ 3000).
    + rewrite <-E. apply Zmult_le_compat_r; lia.
    + apply Zmult_lt_compat_r; [lia|done].
Qed.

Lemma int_truediv_mag n d K :
  0 <= K <= 900 → Z.abs n < 2 ^ K → d ≠ 0 → ∃ x, int_truediv n d = Ret x ∧ mag (K + 1) x.
Proof.
  intros HK Hn Hd. assert (H : mag (K + 1) (f_div (f_exact n) (f_exact d))).
  { destruct n as [|A|A], d as [|B|B]; try done; by apply f_div_mag. }
  unfold int_truediv. destruct d; [done| |];
    (destruct (f_div _ _); [by eexists|done|done|by eexists]).
Qed.
