(* ===== verification/PyDict.v ===== *)
(** * Python dictionaries

    A [dict] remembers the order in which its keys were first inserted; assigning to
    an existing key keeps its place.  [dict K V] is an association list with that
    behaviour; a SQLite table read in row order and written by primary key behaves the
    same way.  Where no code observes the order the development uses [gmap] instead. *)

From S2P Require Import Prelude.

Abbreviation dict K V := (list (K * V)%type) (only parsing).

Section dict.
Context {K : Type} `{!EqDecision K}.

Fixpoint d_get {V} (d : dict K V) (k : K) : option V :=
  match d with
  | [] => None
  | (k', v) :: d => if decide (k' = k) then Some v else d_get d k
  end.

(** [d[k] = v] *)
Fixpoint d_set {V} (d : dict K V) (k : K) (v : V) : dict K V :=
  match d with
  | [] => [(k, v)]
  | (k', v') :: d => if decide (k' = k) then (k, v) :: d else (k', v') :: d_set d k v
  end.

(** [d.pop(k, None)] *)
Fixpoint d_pop {V} (d : dict K V) (k : K) : dict K V :=
  match d with
  | [] => []
  | (k', v') :: d => if decide (k' = k) then d else (k', v') :: d_pop d k
  end.

Definition d_keys {V} (d : dict K V) : list K := d.*1.
Definition d_values {V} (d : dict K V) : list V := d.*2.
Definition d_map {V W} (f : V → W) (d : dict K V) : dict K W := (λ p, (p.1, f p.2)) <$> d.

(** A dictionary comprehension [{k: v for ...}]: a later pair overwrites. *)
Definition d_of_list {V} (ps : list (K * V)) : dict K V :=
  foldl (λ d p, d_set d p.1 p.2) [] ps.

Section lemmas.
Context {V : Type}.
Implicit Types d : dict K V.

Lemma d_get_set d k v k' :
  d_get (d_set d k v) k' = if decide (k = k') then Some v else d_get d k'.
Proof.
  induction d as [|[k1 v1] d IH]; simpl; [done|].
  repeat (case_decide; simpl; try congruence).
Qed.

Lemma d_get_set_eq d k v : d_get (d_set d k v) k = Some v.
Proof. rewrite d_get_set. by rewrite decide_True. Qed.

Lemma d_get_set_ne d k v k' : k ≠ k' → d_get (d_set d k v) k' = d_get d k'.
Proof. intros. rewrite d_get_set. by rewrite decide_False. Qed.

Lemma d_get_None d k : d_get d k = None ↔ k ∉ d_keys d.
Proof.
  unfold d_keys. induction d as [|[k1 v1] d IH]; simpl.
  { split; [intros _; apply not_elem_of_nil|done]. }
  rewrite not_elem_of_cons. case_decide; naive_solver.
Qed.

Lemma d_get_is_Some d k : is_Some (d_get d k) ↔ k ∈ d_keys d.
Proof. rewrite <-not_eq_None_Some, d_get_None. destruct (decide (k ∈ d_keys d)); tauto. Qed.

Lemma d_get_elem d k v : d_get d k = Some v → (k, v) ∈ d.
Proof.
  induction d as [|[k1 v1] d IH]; simpl; [done|].
  case_decide; intros; simplify_eq; [left|right; auto].
Qed.

Lemma d_get_elem_iff d k v : NoDup (d_keys d) → d_get d k = Some v ↔ (k, v) ∈ d.
Proof.
  intros Hnd. split; [apply d_get_elem|].
  induction d as [|[k1 v1] d IH]; simpl in *; [by intros ?%not_elem_of_nil|].
  apply NoDup_cons in Hnd as [Hn Hnd]. intros [[= -> ->]|Hin]%elem_of_cons.
  - by rewrite decide_True.
  - rewrite decide_False; [by apply IH|]. intros ->.
    apply Hn, (list_elem_of_fmap_2 fst _ _ Hin).
Qed.

Lemma d_keys_cons d k v : d_keys ((k, v) :: d) = k :: d_keys d.
Proof. done. Qed.

Lemma d_keys_set d k v :
  d_keys (d_set d k v) = if decide (k ∈ d_keys d) then d_keys d else d_keys d ++ [k].
Proof.
  induction d as [|[k1 v1] d IH]; cbn [d_set].
  - by rewrite decide_False by apply not_elem_of_nil.
  - destruct (decide (k1 = k)) as [->|Hk]; rewrite !d_keys_cons.
    + by rewrite decide_True by left.
    + rewrite IH. destruct (decide (k ∈ d_keys d)) as [Hin|Hin].
      * by rewrite decide_True by (by right).
      * rewrite decide_False; [done|]. rewrite not_elem_of_cons. naive_solver.
Qed.

Lemma d_set_new d k v : k ∉ d_keys d → d_set d k v = d ++ [(k, v)].
Proof.
  induction d as [|[k' v'] d IH]; [done|]. rewrite d_keys_cons, not_elem_of_cons. intros [Hne Hk].
  cbn [d_set]. rewrite decide_False by congruence. by rewrite IH.
Qed.

Lemma d_keys_set_NoDup d k v : NoDup (d_keys d) → NoDup (d_keys (d_set d k v)).
Proof.
  intros. rewrite d_keys_set. case_decide; [done|].
  apply NoDup_app. split_and!; [done|set_solver|apply NoDup_singleton].
Qed.

Lemma d_keys_pop_sublist d k : sublist (d_keys (d_pop d k)) (d_keys d).
Proof.
  induction d as [|[k1 v1] d IH]; simpl; [done|].
  case_decide; simpl; [by apply sublist_cons|by apply sublist_skip].
Qed.

Lemma d_keys_pop_NoDup d k : NoDup (d_keys d) → NoDup (d_keys (d_pop d k)).
Proof. intros Hnd. eapply sublist_NoDup; [done|apply d_keys_pop_sublist]. Qed.

Lemma d_get_pop d k k' :
  NoDup (d_keys d) → d_get (d_pop d k) k' = if decide (k = k') then None else d_get d k'.
Proof.
  induction d as [|[k1 v1] d IH]; simpl; [by intros; case_decide|].
  intros [Hn Hnd]%NoDup_cons. destruct (decide (k1 = k)) as [->|H1]; simpl.
  - case_decide; [subst; by apply d_get_None|done].
  - rewrite (IH Hnd). repeat case_decide; congruence.
Qed.

Lemma d_get_pop_eq d k : NoDup (d_keys d) → d_get (d_pop d k) k = None.
Proof. intros. rewrite d_get_pop by done. by rewrite decide_True. Qed.

Lemma d_get_pop_ne d k k' :
  NoDup (d_keys d) → k ≠ k' → d_get (d_pop d k) k' = d_get d k'.
Proof. intros. rewrite d_get_pop by done. by rewrite decide_False. Qed.

Lemma d_pop_absent d k : k ∉ d_keys d → d_pop d k = d.
Proof.
  induction d as [|[k1 v1] d IH]; simpl; [done|].
  intros. rewrite decide_False by set_solver. f_equal. set_solver.
Qed.

Lemma d_keys_pop d k :
  NoDup (d_keys d) → d_keys (d_pop d k) = filter (λ k', k' ≠ k) (d_keys d).
Proof.
  induction d as [|[k1 v1] d IH]; simpl; [done|].
  intros [Hn Hnd]%NoDup_cons. rewrite filter_cons. case_decide as H1; simpl.
  - subst. rewrite decide_False by tauto. symmetry. apply filter_true.
    intros x Hx ->. by apply Hn.
  - rewrite decide_True by done. f_equal. by apply IH.
Qed.
End lemmas.

Section map.
Context {V W : Type} (f : V → W).

Lemma d_map_set d k v : d_map f (d_set d k v) = d_set (d_map f d) k (f v).
Proof.
  induction d as [|[k1 v1] d IH]; simpl; [done|].
  case_decide; simpl; [done|]. f_equal. apply IH.
Qed.

Lemma d_map_pop d k : d_map f (d_pop d k) = d_pop (d_map f d) k.
Proof.
  induction d as [|[k1 v1] d IH]; simpl; [done|].
  case_decide; simpl; [done|]. f_equal. apply IH.
Qed.

Lemma d_get_map d k : d_get (d_map f d) k = f <$> d_get d k.
Proof. induction d as [|[k1 v1] d IH]; simpl; [done|]. by case_decide. Qed.

Lemma d_keys_map (d : dict K V) : d_keys (d_map f d) = d_keys d.
Proof. unfold d_keys, d_map. rewrite <-list_fmap_compose. done. Qed.
End map.

Lemma d_map_ext {V W} (f g : V → W) (d : dict K V) :
  (∀ k v, (k, v) ∈ d → f v = g v) → d_map f d = d_map g d.
Proof.
  intros H. apply list_fmap_ext. intros i [k v] Hi. simpl.
  by rewrite (H k v) by (by eapply list_elem_of_lookup_2).
Qed.
End dict.

Section update.
Context {K : Type} `{!EqDecision K} {V W : Type}.

(** Changing the value function at one key only is an assignment. *)
Lemma d_map_update (f g : V → W) (d : dict K V) k v :
  NoDup (d_keys d) → d_get d k = Some v →
  (∀ k' v', (k', v') ∈ d → k' ≠ k → f v' = g v') →
  d_map f d = d_set (d_map g d) k (f v).
Proof.
  induction d as [|[k1 v1] d IH]; simpl; [done|].
  intros [Hn Hnd]%NoDup_cons Hget Hext.
  destruct (decide (k1 = k)) as [->|Hk].
  - simplify_eq. f_equal. apply d_map_ext. intros k' v' Hin. apply (Hext k'); [by right|].
    intros ->. apply Hn, (list_elem_of_fmap_2 fst _ _ Hin).
  - rewrite (Hext k1 v1) by (done || left). f_equal. apply IH; [done..|].
    intros k' v' Hin. apply Hext. by right.
Qed.

Lemma d_map_inj_id (f : V → option W) (d : dict K V) (e : dict K W) :
  d_map f d = d_map Some e → omap f (d_values d) = d_values e.
Proof.
  revert e. induction d as [|[k v] d IH]; intros [|[k' w] e]; simpl; try done.
  intros [= -> -> He]. simpl. f_equal. by apply IH.
Qed.
End update.

Create HintDb pydict.
Create Rewrite HintDb pydict.
#[export] Hint Resolve d_keys_set_NoDup d_keys_pop_NoDup : pydict.
#[export] Hint Rewrite @d_get_set_eq @d_keys_map @d_map_set @d_map_pop : pydict.
