(* ===== verification/PyJson.v ===== *)
(** * JSON values and codecs

    The values that [json.dumps] writes and [json.loads] reads back.  Text columns of the
    SQLite tables, the key file and HTTP bodies hold JSON text; the model keeps the value
    the text denotes ([json.loads] inverts [json.dumps] on these values).

    [JsonCodec] is the interface between a stored type and its JSON form: what is written
    can be read back, and only the option codec writes [null]. *)

From S2P Require Import Prelude.
From S2P Require Import PyFloat.
From S2P Require Import PyDict.

#[local] Set Warnings "-register-all".

Inductive json :=
  | JNull
  | JBool (b : bool)
  | JInt (n : Z)
  | JFloat (x : float)
  | JStr (s : string)
  | JList (l : list json)
  | JObj (o : list (string * json)).

(** [obj.get(key)] on a JSON object; [None] when it is not an object or lacks the key. *)
Definition j_get (j : json) (key : string) : option json :=
  match j with JObj o => d_get o key | _ => None end.

(** [bool(value)] of a JSON value. *)
Definition j_truthy (j : json) : bool :=
  match j with
  | JNull => false
  | JBool b => b
  | JInt n => negb (n =? 0)%Z
  | JFloat x => negb (SFeqb x f_zero)
  | JStr s => negb (bool_decide (s = ""))
  | JList l => negb (bool_decide (length l = 0))
  | JObj o => negb (bool_decide (length o = 0))
  end.

(** [T( **obj)] raises on a key that is not a field. *)
Definition j_only_keys (j : json) (fields : list string) : bool :=
  match j with
  | JObj o => forallb (λ k, bool_decide (k ∈ fields)) (d_keys o)
  | _ => false
  end.

Class JsonCodec (A : Type) := {
  to_json : A → json;
  of_json : json → option A;
  of_to_json : ∀ a, of_json (to_json a) = Some a;
}.

(** A codec that never writes [null], so that [None] can. *)
Class JsonNonNull (A : Type) `{JsonCodec A} := to_json_non_null (a : A) : to_json a ≠ JNull.

#[export] Instance Z_codec : JsonCodec Z := {|
  to_json := JInt;
  of_json j := match j with JInt n => Some n | _ => None end;
  of_to_json _ := eq_refl;
|}.

#[export] Instance float_codec : JsonCodec float := {|
  to_json := JFloat;
  of_json j := match j with JFloat x => Some x | _ => None end;
  of_to_json _ := eq_refl;
|}.

#[export] Instance string_codec : JsonCodec string := {|
  to_json := JStr;
  of_json j := match j with JStr s => Some s | _ => None end;
  of_to_json _ := eq_refl;
|}.

#[export] Instance bool_codec : JsonCodec bool := {|
  to_json := JBool;
  of_json j := match j with JBool b => Some b | _ => None end;
  of_to_json _ := eq_refl;
|}.

#[export] Instance json_codec : JsonCodec json := {|
  to_json := id; of_json := Some; of_to_json _ := eq_refl;
|}.

#[export] Instance Z_non_null : JsonNonNull Z. Proof. done. Qed.
#[export] Instance float_non_null : JsonNonNull float. Proof. done. Qed.
#[export] Instance string_non_null : JsonNonNull string. Proof. done. Qed.
#[export] Instance bool_non_null : JsonNonNull bool. Proof. done. Qed.

Section containers.
Context {A : Type} `{!JsonCodec A}.

Lemma mapM_of_to_json (l : list A) : mapM of_json (to_json <$> l) = Some l.
Proof. apply mapM_fmap_Some, of_to_json. Qed.

#[export] Instance list_codec : JsonCodec (list A) := {|
  to_json l := JList (to_json <$> l);
  of_json j := match j with JList l => mapM of_json l | _ => None end;
  of_to_json := mapM_of_to_json;
|}.

#[export] Instance list_non_null : JsonNonNull (list A). Proof. done. Qed.

Definition map_of_json (j : json) : option (gmap string A) :=
  match j with
  | JObj o => list_to_map <$> mapM (λ p, pair p.1 <$> of_json p.2) o
  | _ => None
  end.

Lemma map_of_to_json (m : gmap string A) :
  map_of_json (JObj ((λ p, (p.1, to_json p.2)) <$> map_to_list m)) = Some m.
Proof.
  unfold map_of_json. rewrite mapM_fmap_Some; simpl; [by rewrite list_to_map_to_list|].
  intros [k a]. simpl. by rewrite of_to_json.
Qed.

#[export] Instance map_codec : JsonCodec (gmap string A) := {|
  to_json m := JObj ((λ p, (p.1, to_json p.2)) <$> map_to_list m);
  of_json := map_of_json;
  of_to_json := map_of_to_json;
|}.

#[export] Instance map_non_null : JsonNonNull (gmap string A). Proof. done. Qed.

#[export, refine] Instance option_codec `{!JsonNonNull A} : JsonCodec (option A) := {|
  to_json o := match o with None => JNull | Some a => to_json a end;
  of_json j := match j with JNull => Some None | _ => Some <$> of_json j end;
|}.
Proof.
  intros [a|]; [|done]. pose proof (to_json_non_null a) as Hn.
  destruct (to_json a) eqn:E; [done|rewrite <-E, of_to_json; done..].
Defined.
End containers.

(** A required field of an object, decoded. *)
Definition j_field (A : Type) `{JsonCodec A} (j : json) (key : string) : option A :=
  j_get j key ≫= of_json.

(** An optional field: absent means the dataclass default. *)
Definition j_field_or {A : Type} `{JsonCodec A} (d : A) (j : json) (key : string) : option A :=
  match j_get j key with None => Some d | Some v => of_json v end.

(** Read the fields of an object written out literally, through its codecs. *)
Ltac json_simpl :=
  repeat (cbn -[to_json of_json decide];
    first [rewrite decide_True by done | rewrite decide_False by done | rewrite of_to_json]);
  cbn -[to_json of_json decide].
