(* ===== verification/JsonText.v ===== *)
(** * JSON text

    [json.dumps] and [json.loads] of the standard library, for the calls the stores, the key
    file and the streams make: [dumps] writes with [ensure_ascii], with or without [indent];
    [loads] is the scanner of the module, with its escapes, its numbers and its last value
    for a repeated key.  What is written is printable ASCII, and is read back as it was
    ([loads_dumps]).

    Outside the model: escapes of code points above 255 (a string has none here; [loads]
    refuses them), and the recursion limit of the interpreter. *)

From S2P Require Import Prelude.
From S2P Require Import PyFloat.
From S2P Require Import PyStr.
From S2P Require Import PyNum.
From S2P Require Import PyRound.
From S2P Require Import PyDict.
From S2P Require Import PyJson.

#[local] Open Scope list_scope.

(** ** Writing *)

Definition backslash : ascii := ascii_of_N 92.

(** [ESCAPE_ASCII] *)
Definition escape_char (c : ascii) : string :=
  let n := code c in
  let two d := String backslash (String d "") in
  if (n =? 34)%N || (n =? 92)%N then two c
  else if (n =? 8)%N then two "b"%char
  else if (n =? 9)%N then two "t"%char
  else if (n =? 10)%N then two "n"%char
  else if (n =? 12)%N then two "f"%char
  else if (n =? 13)%N then two "r"%char
  else if ((n <? 32) || (127 <=? n))%N
  then String backslash ("u00" +:+ String (hex_digit (n / 16)) (String (hex_digit (n mod 16)) ""))
  else String c "".

Fixpoint escape_chars (s : string) : string :=
  match s with EmptyString => "" | String c s => escape_char c +:+ escape_chars s end.

Definition dump_str (s : string) : string := String dquote_char (escape_chars s +:+ String dquote_char "").

(** [floatstr] *)
Definition dump_float (x : float) : string :=
  match x with
  | S754_nan => "NaN"
  | S754_infinity neg => if neg then "-Infinity" else "Infinity"
  | _ => str_of_float x
  end.

Fixpoint blanks (n : nat) : string := match n with O => "" | S n => String " "%char (blanks n) end.

Section dumps.
(** The [indent] argument. *)
Context (indent : option nat).

(** What stands after the opening bracket, between items, and before the closing one. *)
Definition line_break (level : nat) : string :=
  match indent with None => "" | Some k => newline +:+ blanks (k * level) end.
Definition item_separator (level : nat) : string :=
  match indent with None => ", " | Some _ => "," +:+ line_break level end.

Definition bracketed (opening closing : string) (level : nat) (items : list string) : string :=
  match items with
  | [] => opening +:+ closing
  | _ => opening +:+ line_break (S level) +:+ str_join (item_separator (S level)) items +:+ line_break level +:+ closing
  end.

Fixpoint dumps_at (level : nat) (j : json) : string :=
  match j with
  | JNull => "null"
  | JBool b => if b then "true" else "false"
  | JInt n => str_of_Z n
  | JFloat x => dump_float x
  | JStr s => dump_str s
  | JList l => bracketed "[" "]" level (List.map (dumps_at (S level)) l)
  | JObj o => bracketed "{" "}" level
                (List.map (λ p, match p with (k, v) => dump_str k +:+ ": " +:+ dumps_at (S level) v end) o)
  end.

Definition dumps_with : json → string := dumps_at 0.
End dumps.

(** [json.dumps(value)] *)
Definition dumps : json → string := dumps_with None.

(** ** Reading *)

Definition is_ws (c : ascii) : bool :=
  let n := code c in ((n =? 32) || (n =? 9) || (n =? 10) || (n =? 13))%N.

Fixpoint skip_ws (s : string) : string :=
  match s with
  | String c r => if is_ws c then skip_ws r else s
  | EmptyString => s
  end.

Definition hex_value (c : ascii) : option N :=
  let n := code c in
  if ((48 <=? n) && (n <=? 57))%N then Some (n - 48)%N
  else if ((97 <=? n) && (n <=? 102))%N then Some (n - 87)%N
  else if ((65 <=? n) && (n <=? 70))%N then Some (n - 55)%N
  else None.

(** The character a backslash and one more stand for. *)
Definition short_escape (c : ascii) : option ascii :=
  if bool_decide (c = dquote_char) || bool_decide (c = backslash) || bool_decide (c = "/"%char) then Some c
  else if bool_decide (c = "b"%char) then Some (ascii_of_N 8)
  else if bool_decide (c = "f"%char) then Some (ascii_of_N 12)
  else if bool_decide (c = "n"%char) then Some (ascii_of_N 10)
  else if bool_decide (c = "r"%char) then Some (ascii_of_N 13)
  else if bool_decide (c = "t"%char) then Some (ascii_of_N 9)
  else None.

Definition code_point (a b c d : ascii) : option ascii :=
  a ← hex_value a; b ← hex_value b; c ← hex_value c; d ← hex_value d;
  let n := (((a * 16 + b) * 16 + c) * 16 + d)%N in
  if (n <? 256)%N then Some (ascii_of_N n) else None.

(** [scanstring] after the opening quote, strict: the string, and what follows the closing
    quote. *)
Fixpoint scan_string (s : string) : option (string * string) :=
  match s with
  | EmptyString => None
  | String c r =>
      if bool_decide (c = dquote_char) then Some ("", r)
      else if bool_decide (c = backslash) then
        match r with
        | EmptyString => None
        | String e r =>
            if bool_decide (e = "u"%char) then
              match r with
              | String h1 (String h2 (String h3 (String h4 r))) =>
                  x ← code_point h1 h2 h3 h4; t ← scan_string r; Some (String x t.1, t.2)
              | _ => None
              end
            else x ← short_escape e; t ← scan_string r; Some (String x t.1, t.2)
        end
      else if (code c <? 32)%N then None
      else t ← scan_string r; Some (String c t.1, t.2)
  end.

(** [NUMBER_RE]: an integer part without leading zeros, a fraction, an exponent. *)
Definition scan_int_part (s : string) : option (string * string) :=
  match s with
  | String c r =>
      if bool_decide (c = "0"%char) then Some ("0", r)
      else if is_digit c then Some (span_digits s) else None
  | EmptyString => None
  end.

Definition scan_fraction (s : string) : string * string :=
  match s with
  | String c r =>
      if bool_decide (c = "."%char) then
        let '(d, r') := span_digits r in
        if bool_decide (d = "") then ("", s) else (String c d, r')
      else ("", s)
  | EmptyString => ("", s)
  end.

Definition scan_exponent (s : string) : string * string :=
  match s with
  | String c r =>
      if bool_decide (c = "e"%char) || bool_decide (c = "E"%char) then
        let '(sign, r1) := match r with
                           | String d r1 => if bool_decide (d = "-"%char) || bool_decide (d = "+"%char)
                                            then (String d "", r1) else ("", r)
                           | EmptyString => ("", r)
                           end in
        let '(d, r2) := span_digits r1 in
        if bool_decide (d = "") then ("", s) else (String c (sign +:+ d), r2)
      else ("", s)
  | EmptyString => ("", s)
  end.

Definition scan_number (s : string) : option (json * string) :=
  let '(sign, r) := match s with
                    | String c r => if bool_decide (c = "-"%char) then ("-", r) else ("", s)
                    | EmptyString => ("", s)
                    end in
  ip ← scan_int_part r;
  let '(frac, r) := scan_fraction ip.2 in
  let '(exp, r) := scan_exponent r in
  if bool_decide (frac = "") && bool_decide (exp = "")
  then n ← int_of_str (sign +:+ ip.1); Some (JInt n, r)
  else x ← float_of_str (sign +:+ ip.1 +:+ frac +:+ exp); Some (JFloat x, r).

Definition literals : list (string * json) :=
  [("null", JNull); ("true", JBool true); ("false", JBool false); ("NaN", JFloat S754_nan);
   ("Infinity", JFloat (S754_infinity false)); ("-Infinity", JFloat (S754_infinity true))].

Fixpoint scan_literal (ls : list (string * json)) (s : string) : option (json * string) :=
  match ls with
  | [] => scan_number s
  | (w, j) :: ls => if str_startswith s w then Some (j, str_removeprefix s w) else scan_literal ls s
  end.

(** [scan_once], and the loops of [JSONArray] and [JSONObject] with what they have so far;
    [None] is an exception. *)
Fixpoint scan_value (fuel : nat) (s : string) : option (json * string) :=
  match fuel, s with
  | O, _ | _, EmptyString => None
  | S n, String c r =>
      if bool_decide (c = dquote_char) then t ← scan_string r; Some (JStr t.1, t.2)
      else if bool_decide (c = "["%char) then
        match skip_ws r with
        | EmptyString => None
        | String d r' => if bool_decide (d = "]"%char) then Some (JList [], r')
                         else scan_items n [] (skip_ws r)
        end
      else if bool_decide (c = "{"%char) then
        match skip_ws r with
        | EmptyString => None
        | String d r' => if bool_decide (d = "}"%char) then Some (JObj [], r')
                         else scan_members n [] (skip_ws r)
        end
      else scan_literal literals s
  end
with scan_items (fuel : nat) (items : list json) (s : string) : option (json * string) :=
  match fuel with
  | O => None
  | S n =>
      v ← scan_value n s;
      match skip_ws v.2 with
      | EmptyString => None
      | String c r =>
          if bool_decide (c = "]"%char) then Some (JList (items ++ [v.1]), r)
          else if bool_decide (c = ","%char) then scan_items n (items ++ [v.1]) (skip_ws r)
          else None
      end
  end
with scan_members (fuel : nat) (members : dict string json) (s : string) : option (json * string) :=
  match fuel, s with
  | O, _ | _, EmptyString => None
  | S n, String q r =>
      if bool_decide (q = dquote_char) then
        k ← scan_string r;
        match skip_ws k.2 with
        | EmptyString => None
        | String c r =>
            if bool_decide (c = ":"%char) then
              v ← scan_value n (skip_ws r);
              match skip_ws v.2 with
              | EmptyString => None
              | String c r =>
                  if bool_decide (c = "}"%char) then Some (JObj (d_set members k.1 v.1), r)
                  else if bool_decide (c = ","%char) then scan_members n (d_set members k.1 v.1) (skip_ws r)
                  else None
              end
            else None
        end
      else None
  end.

(** Every call but that of an item takes a character. *)
Definition scan_fuel (s : string) : nat := 2 * String.length s + 1.

(** [json.loads(text)] *)
Definition loads (s : string) : option json :=
  let s := skip_ws s in
  v ← scan_value (scan_fuel s) s;
  match skip_ws v.2 with EmptyString => Some v.1 | _ => None end.

Example loads_sample :
  loads (dumps (JObj [("a", JList [JInt (-5); JFloat (f_lit 5 2); JNull]); ("é", JStr newline)]))
  = Some (JObj [("a", JList [JInt (-5); JFloat (f_lit 5 2); JNull]); ("é", JStr newline)]).
Proof. vm_compute. reflexivity. Qed.

(** ** Strings *)

(** The 256 characters, one by one. *)
Ltac every_char c := destruct c as [[] [] [] [] [] [] [] []].

Definition printable_char (c : ascii) : bool := ((32 <=? code c) && (code c <=? 126))%N.

Lemma escape_char_printable c : str_all printable_char (escape_char c) = true.
Proof. every_char c; vm_compute; reflexivity. Qed.

Lemma scan_escape c t :
  scan_string (escape_char c +:+ t) = x ← scan_string t; Some (String c x.1, x.2).
Proof. every_char c; reflexivity. Qed.

Lemma scan_escapes s r : scan_string (escape_chars s +:+ String dquote_char r) = Some (s, r).
Proof.
  induction s as [|c s IH]; [done|]. cbn [escape_chars]. by rewrite str_app_assoc, scan_escape, IH.
Qed.

Lemma escape_chars_printable s : str_all printable_char (escape_chars s) = true.
Proof. induction s as [|c s IH]; [done|]. cbn [escape_chars]. by rewrite str_all_app, escape_char_printable, IH. Qed.

Lemma dump_str_app s r : dump_str s +:+ r = String dquote_char (escape_chars s +:+ String dquote_char r).
Proof. unfold dump_str. by rewrite str_cons_app, str_app_assoc. Qed.

(** ** Numbers *)

(** What may follow a number: nothing that would continue it. *)
Definition number_ends (r : string) : bool :=
  match r with
  | String c _ => negb (is_digit c || bool_decide (c = "."%char) || bool_decide (c = "e"%char) || bool_decide (c = "E"%char))
  | EmptyString => true
  end.

Definition leading_digit (s : string) : bool :=
  match s with String c _ => is_digit c && negb (bool_decide (c = "0"%char)) | EmptyString => false end.

Definition int_part (s : string) : bool :=
  str_all is_digit s && (bool_decide (s = "0") || leading_digit s).
Definition fraction (s : string) : bool :=
  match s with
  | EmptyString => true
  | String c d => bool_decide (c = "."%char) && all_digits d
  end.
Definition exponent (s : string) : bool :=
  match s with
  | EmptyString => true
  | String c (String g d) => bool_decide (c = "e"%char) && (bool_decide (g = "-"%char) || bool_decide (g = "+"%char)) && all_digits d
  | String _ EmptyString => false
  end.

Lemma ends_digit r : number_ends r = true → match r with String c _ => is_digit c = false | EmptyString => True end.
Proof. destruct r as [|c r]; [done|]. cbn. rewrite negb_true_iff, !orb_false_iff. tauto. Qed.

Lemma scan_int_part_app ip r :
  int_part ip = true → match r with String c _ => is_digit c = false | EmptyString => True end →
  scan_int_part (ip +:+ r) = Some (ip, r).
Proof.
  unfold int_part. rewrite andb_true_iff, orb_true_iff, bool_decide_eq_true. intros [Hd Hh] Hr.
  destruct Hh as [->|Hh]; [done|]. destruct ip as [|c ip]; [done|]. cbn [leading_digit] in Hh.
  rewrite andb_true_iff, negb_true_iff, bool_decide_eq_false in Hh. destruct Hh as [Hc H0].
  rewrite str_cons_app. cbn [scan_int_part]. rewrite bool_decide_eq_false_2, Hc by done.
  change (String c (ip +:+ r)) with (String c ip +:+ r). by rewrite (span_digits_app _ _ Hd Hr).
Qed.

Lemma scan_fraction_app f r :
  fraction f = true → match r with String c _ => is_digit c = false ∧ c ≠ "."%char | EmptyString => True end →
  scan_fraction (f +:+ r) = (f, r).
Proof.
  intros Hf Hr. destruct f as [|c d].
  - rewrite str_app_nil_l. destruct r as [|c r]; [done|]. cbn [scan_fraction].
    rewrite bool_decide_eq_false_2; [done|apply Hr].
  - cbn [fraction] in Hf. rewrite andb_true_iff, bool_decide_eq_true in Hf. destruct Hf as [-> Hd].
    destruct (all_digits_inv _ Hd) as [Ha Hne]. rewrite str_cons_app. cbn [scan_fraction].
    rewrite bool_decide_eq_true_2, span_digits_app by (done || by destruct r; [|apply Hr]).
    by rewrite bool_decide_eq_false_2.
Qed.

Lemma scan_exponent_app x r :
  exponent x = true → number_ends r = true → scan_exponent (x +:+ r) = (x, r).
Proof.
  intros Hx Hr. destruct x as [|c [|g d]]; [|done|].
  - rewrite str_app_nil_l. destruct r as [|c r]; [done|]. cbn in Hr |- *.
    rewrite negb_true_iff, !orb_false_iff, !bool_decide_eq_false in Hr.
    by rewrite !bool_decide_eq_false_2 by tauto.
  - cbn [exponent] in Hx. rewrite !andb_true_iff, bool_decide_eq_true in Hx. destruct Hx as [[-> Hg] Hd].
    destruct (all_digits_inv _ Hd) as [Ha Hne]. rewrite !str_cons_app. cbn [scan_exponent].
    rewrite bool_decide_eq_true_2 by done. cbn [orb]. rewrite Hg, (span_digits_app _ _ Ha (ends_digit r Hr)).
    by rewrite bool_decide_eq_false_2.
Qed.

(** A number of either sign, as [scan_number] takes it apart. *)
Lemma scan_number_parts (neg : bool) ip f x r :
  int_part ip = true → fraction f = true → exponent x = true → number_ends r = true →
  scan_number ((if neg then "-" else "") +:+ ip +:+ f +:+ x +:+ r) =
    (let text := (if neg then "-" else "") +:+ ip +:+ f +:+ x in
     if bool_decide (f = "") && bool_decide (x = "")
     then n ← int_of_str ((if neg then "-" else "") +:+ ip); Some (JInt n, r)
     else v ← float_of_str text; Some (JFloat v, r)).
Proof.
  intros Hi Hf Hx Hr. unfold scan_number.
  assert (Hsign : match (if neg then "-" else "") +:+ ip +:+ f +:+ x +:+ r with
    | String c r' => if bool_decide (c = "-"%char) then ("-", r') else ("", (if neg then "-" else "") +:+ ip +:+ f +:+ x +:+ r)
    | EmptyString => ("", (if neg then "-" else "") +:+ ip +:+ f +:+ x +:+ r)
    end = ((if neg then "-" else ""), ip +:+ f +:+ x +:+ r)).
  { destruct neg; [done|]. rewrite str_app_nil_l. destruct ip as [|c ip]; [done|]. rewrite str_cons_app.
    unfold int_part in Hi. cbn in Hi. rewrite !andb_true_iff in Hi. destruct Hi as [[Hc _] _].
    rewrite bool_decide_eq_false_2; [done|]. by intros ->. }
  rewrite Hsign.
  assert (Hr1 : match x +:+ r with String c _ => is_digit c = false ∧ c ≠ "."%char | EmptyString => True end).
  { destruct x as [|c [|g d]]; [|done|].
    - rewrite str_app_nil_l. destruct r as [|c r]; [done|]. cbn in Hr.
      rewrite negb_true_iff, !orb_false_iff, !bool_decide_eq_false in Hr. tauto.
    - cbn [exponent] in Hx. rewrite !andb_true_iff, bool_decide_eq_true in Hx. by destruct Hx as [[-> _] _]. }
  assert (Hr2 : match f +:+ x +:+ r with String c _ => is_digit c = false | EmptyString => True end).
  { destruct f as [|c d].
    - rewrite str_app_nil_l. destruct (x +:+ r); [done|apply Hr1].
    - cbn [fraction] in Hf. rewrite andb_true_iff, bool_decide_eq_true in Hf. by destruct Hf as [-> _]. }
  rewrite (scan_int_part_app ip _ Hi Hr2). cbn [mbind option_bind fst snd].
  by rewrite (scan_fraction_app f _ Hf Hr1), (scan_exponent_app x r Hx Hr).
Qed.

Lemma pretty_go_head x s : (0 < x)%N → leading_digit (pretty_N_go x s) = true.
Proof.
  revert s. induction (N.lt_wf_0 x) as [x _ IH]; intros s Hx. rewrite pretty_N_go_step by lia.
  destruct (decide (x / 10 = 0)%N) as [E|E]; [|apply IH; [apply N.div_lt|apply N.neq_0_lt_0]; first [done|lia]].
  rewrite E, pretty_N_go_0. apply N.div_small_iff in E; [|done]. rewrite N.mod_small by done. cbn [leading_digit].
  assert (Hc : (x = 1 ∨ x = 2 ∨ x = 3 ∨ x = 4 ∨ x = 5 ∨ x = 6 ∨ x = 7 ∨ x = 8 ∨ x = 9)%N) by lia.
  by repeat (destruct Hc as [->|Hc]; [done|]); subst.
Qed.

Lemma pretty_head (x : N) : (0 < x)%N → leading_digit (pretty x) = true.
Proof. intros Hx. unfold pretty, pretty_N. rewrite decide_False by lia. by apply pretty_go_head. Qed.

Lemma int_part_pretty (x : N) : int_part (pretty x) = true.
Proof.
  unfold int_part. destruct (str_of_N_spec x) as (Hd & _ & _). rewrite Hd. cbn [andb].
  destruct (decide (x = 0%N)) as [->|Hx]; [done|]. rewrite pretty_head by lia. by rewrite orb_true_r.
Qed.

Definition int_ok (n : Z) : bool := (Z.of_nat (String.length (str_of_Z (Z.abs n))) <=? max_str_digits)%Z.

Lemma scan_number_int n r :
  int_ok n = true → number_ends r = true → scan_number (str_of_Z n +:+ r) = Some (JInt n, r).
Proof.
  intros Hn%Z.leb_le Hr. pose proof (int_of_str_of_Z n Hn) as Hi.
  assert (E : str_of_Z n = (if (n <? 0)%Z then "-" else "") +:+ pretty (Z.to_N (Z.abs n))).
  { destruct (Z.ltb_spec n 0) as [Hneg|Hpos].
    - rewrite str_of_Z_neg by done. by replace (Z.abs n) with (- n)%Z by lia.
    - rewrite str_of_Z_nonneg by done. by rewrite Z.abs_eq. }
  rewrite E, str_app_assoc. pose proof (scan_number_parts (n <? 0)%Z (pretty (Z.to_N (Z.abs n))) "" "" r
    (int_part_pretty _) eq_refl eq_refl Hr) as H. rewrite !str_app_nil_l in H. rewrite H.
  cbn [andb bool_decide]. rewrite <- E, Hi. done.
Qed.

(** The shortest digits do not begin with a zero. *)
Lemma shortest_head m e : bounded f_prec f_emax m e = true → leading_digit (shortest m e).1 = true.
Proof.
  intros Hb. destruct (shortest_spec m e Hb) as (Hd & Hne & _). revert Hd Hne.
  unfold shortest. destruct (f_fraction m e) as [num den]. destruct (fewest_digits _ _ _ _ _ _) as [d w].
  destruct (rstrip_zeros (str_of_Z d)) as [t z] eqn:Et. cbn [fst].
  destruct (rstrip_spec _ _ _ Et) as (_ & Es & _). intros Hd Hne.
  destruct t as [|c t]; [done|]. rewrite str_cons_app in Es.
  destruct (Z.lt_trichotomy d 0) as [Hneg|[->|Hpos]].
  - rewrite str_of_Z_neg in Es by done. injection Es as <- _. done.
  - done.
  - rewrite str_of_Z_nonneg in Es by lia. pose proof (pretty_head (Z.to_N d) ltac:(lia)) as Hh. by rewrite Es in Hh.
Qed.

Lemma leading_int_part s : str_all is_digit s = true → leading_digit s = true → int_part s = true.
Proof. unfold int_part. intros -> ->. by rewrite orb_true_r. Qed.

Lemma all_digits_intro s : str_all is_digit s = true → s ≠ "" → all_digits s = true.
Proof. unfold all_digits. intros -> Hs. by rewrite bool_decide_eq_false_2. Qed.

Lemma leading_take n s : (0 < n)%nat → leading_digit s = true → leading_digit (str_take n s) = true.
Proof. destruct n; [lia|]. by destruct s. Qed.

Lemma leading_app s t : leading_digit s = true → leading_digit (s +:+ t) = true.
Proof. by destruct s. Qed.

(** The layout of a float: an integer part with a fraction or an exponent. *)
Lemma layout_parts ds w :
  str_all is_digit ds = true → leading_digit ds = true →
  ∃ ip f x, layout ds w = ip +:+ f +:+ x ∧ int_part ip = true ∧ fraction f = true ∧ exponent x = true ∧
            bool_decide (f = "") && bool_decide (x = "") = false.
Proof.
  intros Hd Hh. assert (Hne : ds ≠ "") by (by intros ->). unfold layout.
  assert (Hlen : (0 < String.length ds)%nat) by (destruct ds; [done|simpl; lia]).
  set (point := (w + Z.of_nat (String.length ds))%Z).
  assert (Hpart : ∀ n, str_all is_digit (str_take n ds) = true ∧ str_all is_digit (str_drop n ds) = true)
    by (intros; by apply str_all_take_drop).
  destruct (andb _ _); [destruct (Z.leb_spec point 0); [|destruct (Z.ltb_spec point (Z.of_nat (String.length ds)))]|].
  - exists "0", ("." +:+ zeros (Z.to_nat (- point)) +:+ ds), "". rewrite str_app_nil_r. split_and!; [done|done| |done|done].
    change (all_digits (zeros (Z.to_nat (- point)) +:+ ds) = true). apply all_digits_intro.
    + by rewrite str_all_app, zeros_digits.
    + by destruct (zeros _); [rewrite str_app_nil_l|].
  - exists (str_take (Z.to_nat point) ds), ("." +:+ str_drop (Z.to_nat point) ds), "". rewrite str_app_nil_r.
    split_and!; [done| | |done|done].
    + apply leading_int_part; [apply Hpart|apply leading_take; [lia|done]].
    + change (all_digits (str_drop (Z.to_nat point) ds) = true). apply all_digits_intro; [apply Hpart|].
      intros E. pose proof (str_length_drop (Z.to_nat point) ds) as Hl. rewrite E in Hl. simpl in Hl. lia.
  - exists (ds +:+ zeros (Z.to_nat w)), ".0", "". split_and!; [|  |done|done|done].
    + by rewrite str_app_assoc.
    + apply leading_int_part; [by rewrite str_all_app, Hd, zeros_digits|by apply leading_app].
  - exists (str_take 1 ds), (if (Z.of_nat (String.length ds) =? 1)%Z then "" else "." +:+ str_drop 1 ds),
      ("e" +:+ (if (point - 1 <? 0)%Z then "-" else "+") +:+ pad 2 (Z.abs (point - 1))).
    destruct (pad_spec 2 (Z.abs (point - 1)) ltac:(lia)) as [Hpad _].
    split_and!; [done| | | |].
    + apply leading_int_part; [apply Hpart|apply leading_take; [lia|done]].
    + destruct (Z.eqb_spec (Z.of_nat (String.length ds)) 1); [done|].
      change (all_digits (str_drop 1 ds) = true). apply all_digits_intro; [apply Hpart|].
      intros E. pose proof (str_length_drop 1 ds) as Hl. rewrite E in Hl. simpl in Hl. lia.
    + destruct (point - 1 <? 0)%Z; exact Hpad.
    + rewrite andb_false_iff. right. by rewrite bool_decide_eq_false.
Qed.

(** Floats that [repr] writes as a number. *)
Definition number_float (x : float) : bool :=
  match x with S754_zero _ | S754_finite _ _ _ => valid_binary f_prec f_emax x | _ => false end.

Lemma str_of_float_parts x :
  number_float x = true →
  ∃ neg ip f e, str_of_float x = (if neg : bool then "-" else "") +:+ ip +:+ f +:+ e ∧ int_part ip = true ∧
    fraction f = true ∧ exponent e = true ∧ bool_decide (f = "") && bool_decide (e = "") = false.
Proof.
  destruct x as [neg|neg| |neg m e]; [|done..|]; intros Hx.
  - by exists neg, "0", ".0", "".
  - cbn [str_of_float]. destruct (shortest_spec m e Hx) as (Hd & _). pose proof (shortest_head m e Hx) as Hh.
    destruct (shortest m e) as [ds w]. destruct (layout_parts ds w Hd Hh) as (ip & f & x & -> & H).
    by exists neg, ip, f, x.
Qed.

Lemma scan_number_float x r :
  number_float x = true → number_ends r = true → scan_number (str_of_float x +:+ r) = Some (JFloat x, r).
Proof.
  intros Hx Hr. destruct (str_of_float_parts x Hx) as (neg & ip & f & e & E & Hi & Hf & He & Hfe).
  rewrite E, !str_app_assoc, (scan_number_parts neg ip f e r Hi Hf He Hr), Hfe, <- E. cbv zeta.
  rewrite float_of_str_of_float; [done|]. by destruct x.
Qed.

(** ** Values *)

Lemma json_induction (P : json → Prop) :
  P JNull → (∀ b, P (JBool b)) → (∀ n, P (JInt n)) → (∀ x, P (JFloat x)) → (∀ s, P (JStr s)) →
  (∀ l, Forall P l → P (JList l)) → (∀ o, Forall (λ p, P p.2) o → P (JObj o)) → ∀ j, P j.
Proof.
  intros Hnull Hbool Hint Hfloat Hstr Hlist Hobj. fix IH 1. intros [|b|n|x|s|l|o]; [done|done|done|done|done| |].
  - apply Hlist. induction l as [|j l IHl]; constructor; [apply IH|apply IHl].
  - apply Hobj. induction o as [|[k j] o IHo]; constructor; [apply IH|apply IHo].
Qed.

(** What text can carry: integers the interpreter converts, floats that are floats, and one
    value for a key. *)
Fixpoint json_ok (j : json) : bool :=
  match j with
  | JInt n => int_ok n
  | JFloat x => valid_binary f_prec f_emax x
  | JList l => forallb json_ok l
  | JObj o => bool_decide (NoDup (d_keys o)) && forallb (λ p, match p with (_, v) => json_ok v end) o
  | _ => true
  end.

(** Calls of the scanner for a value. *)
Fixpoint size (j : json) : nat :=
  match j with
  | JList l => S (list_sum (List.map (λ v, S (size v)) l))
  | JObj o => S (list_sum (List.map (λ p, match p with (_, v) => S (size v) end) o))
  | _ => 1
  end.

Definition all_ws (s : string) : bool := str_all is_ws s.

Lemma skip_ws_app w s : all_ws w = true → skip_ws (w +:+ s) = skip_ws s.
Proof.
  induction w as [|c w IH]; [done|]. unfold all_ws. cbn [str_all]. rewrite andb_true_iff, str_cons_app. intros [Hc Hw].
  cbn [skip_ws]. rewrite Hc. by apply IH.
Qed.

Lemma line_break_ws indent level : all_ws (line_break indent level) = true.
Proof.
  destruct indent as [k|]; [|done]. cbn. generalize (k * level)%nat. intros n. by induction n as [|n IH].
Qed.

(** The first character of a value: not a space, not a closing bracket. *)
Definition opens (s : string) : bool :=
  match s with
  | String c _ => negb (is_ws c || bool_decide (c = "]"%char) || bool_decide (c = "}"%char))
  | EmptyString => false
  end.

Lemma skip_ws_opens s : opens s = true → skip_ws s = s.
Proof. destruct s as [|c s]; [done|]. cbn [skip_ws opens]. rewrite negb_true_iff, !orb_false_iff. by intros [[-> _] _]. Qed.

Lemma opens_app s t : opens s = true → opens (s +:+ t) = true.
Proof. by destruct s. Qed.

(** A digit is none of the characters the scanner looks for. *)
Lemma digit_no_mark c d : is_digit c = true → is_digit d = false → bool_decide (c = d) = false.
Proof. intros Hc Hd. apply bool_decide_eq_false. intros ->. congruence. Qed.

Lemma number_opens (neg : bool) ip t :
  int_part ip = true → opens ((if neg then "-" else "") +:+ ip +:+ t) = true.
Proof.
  intros Hi. destruct neg; [done|]. rewrite str_app_nil_l. destruct ip as [|c ip]; [done|].
  unfold int_part in Hi. cbn [str_all] in Hi. rewrite !andb_true_iff in Hi. destruct Hi as [[Hc _] _].
  rewrite str_cons_app. cbn [opens]. rewrite !(digit_no_mark c) by done. rewrite !orb_false_r, negb_true_iff.
  unfold is_digit in Hc. rewrite andb_true_iff, !N.leb_le in Hc. unfold is_ws.
  rewrite !orb_false_iff, !N.eqb_neq. lia.
Qed.

Lemma scan_value_number n (neg : bool) ip t :
  int_part ip = true →
  scan_value (S n) ((if neg then "-" else "") +:+ ip +:+ t) = scan_number ((if neg then "-" else "") +:+ ip +:+ t).
Proof.
  intros Hi. destruct ip as [|c ip]; [done|]. unfold int_part in Hi. cbn [str_all] in Hi.
  rewrite !andb_true_iff in Hi. destruct Hi as [[Hc _] _].
  assert (Hw : ∀ w j, (w, j) ∈ literals → str_startswith ((if neg then "-" else "") +:+ String c ip +:+ t) w = false).
  { intros w j Hw. apply not_true_is_false. rewrite str_prefix_spec. intros [u Hu].
    repeat (apply elem_of_cons in Hw as [Hw|Hw]; [injection Hw as -> _; destruct neg; rewrite ?str_app_nil_l, ?str_cons_app in Hu;
      cbn in Hu; injection Hu; intros; subst; discriminate|]). by apply elem_of_nil in Hw. }
  assert (Hl : ∀ ls, (∀ p, p ∈ ls → p ∈ literals) →
    scan_literal ls ((if neg then "-" else "") +:+ String c ip +:+ t) = scan_number ((if neg then "-" else "") +:+ String c ip +:+ t)).
  { induction ls as [|[w j] ls IH]; intros Hls; [done|]. cbn [scan_literal].
    rewrite (Hw w j) by (apply Hls; left). apply IH. intros p Hp. apply Hls. by right. }
  rewrite <- (Hl literals) by done. clear Hw Hl. destruct neg; [done|].
  rewrite str_app_nil_l, str_cons_app. cbn [scan_value]. by rewrite !(digit_no_mark c).
Qed.

Section round_trip.
Context (indent : option nat).

Definition opens_as_number (s : string) : Prop :=
  ∃ (neg : bool) ip t, s = (if neg then "-" else "") +:+ ip +:+ t ∧ int_part ip = true.

Lemma int_opens n : opens_as_number (str_of_Z n).
Proof.
  destruct (Z.lt_ge_cases n 0) as [Hn|Hn].
  - exists true, (pretty (Z.to_N (- n))), "". by rewrite str_app_nil_r, str_of_Z_neg, int_part_pretty.
  - exists false, (pretty (Z.to_N n)), "". by rewrite str_app_nil_r, str_of_Z_nonneg, int_part_pretty.
Qed.

Lemma float_opens x : number_float x = true → opens_as_number (str_of_float x).
Proof. intros Hx. destruct (str_of_float_parts x Hx) as (neg & ip & f & e & -> & Hi & _). by exists neg, ip, (f +:+ e). Qed.

Lemma opens_number s r : opens_as_number s → opens (s +:+ r) = true.
Proof. intros (neg & ip & t & -> & Hi). rewrite !str_app_assoc. by apply number_opens. Qed.

Lemma scan_number_value n s r :
  opens_as_number s → scan_value (S n) (s +:+ r) = scan_number (s +:+ r).
Proof. intros (neg & ip & t & -> & Hi). rewrite !str_app_assoc. by apply scan_value_number. Qed.

Lemma bracketed_head o c level items : ∃ t, bracketed indent (String o "") c level items = String o t.
Proof. unfold bracketed. destruct items; eexists; by rewrite str_cons_app. Qed.

Lemma dumps_opens level j : json_ok j = true → opens (dumps_at indent level j) = true.
Proof.
  destruct j as [|[]|n|x|s|l|o]; intros Hj; try done.
  - rewrite <- (str_app_nil_r (dumps_at _ _ _)). apply opens_number, int_opens.
  - destruct x as [neg|[]| |neg m e]; [by destruct neg|done..|]. cbn [dumps_at dump_float].
    rewrite <- (str_app_nil_r (str_of_float _)). by apply opens_number, float_opens.
  - cbn [dumps_at]. by destruct (bracketed_head "[" "]" level (List.map (dumps_at indent (S level)) l)) as [t ->].
  - cbn [dumps_at]. edestruct (bracketed_head "{" "}" level) as [t ->]. done.
Qed.

Lemma bracketed_app o c level items r :
  items ≠ [] →
  bracketed indent (String o "") c level items +:+ r =
    String o (line_break indent (S level) +:+ str_join (item_separator indent (S level)) items +:+
              line_break indent level +:+ c +:+ r).
Proof. intros Hne. unfold bracketed. destruct items; [done|]. by rewrite !str_app_assoc. Qed.

(** A separator, and a closing bracket on its line. *)
Lemma item_separator_spec level : ∃ w, item_separator indent level = "," +:+ w ∧ all_ws w = true.
Proof. unfold item_separator. destruct indent; [|by exists " "]. eexists. split; [done|apply line_break_ws]. Qed.

Lemma ends_ws w c r : all_ws w = true → number_ends (String c r) = true → number_ends (w +:+ String c r) = true.
Proof.
  destruct w as [|d w]; [done|]. unfold all_ws. cbn [str_all]. rewrite andb_true_iff. intros [Hd _] _. by every_char d.
Qed.

Lemma str_join_next sep p q ps : str_join sep (p :: q :: ps) = p +:+ sep +:+ str_join sep (q :: ps).
Proof. done. Qed.

Lemma join_opens sep p ps : opens p = true → opens (str_join sep (p :: ps)) = true.
Proof. destruct ps; [done|]. rewrite str_join_next. apply opens_app. Qed.

Lemma skip_ws_comma s : skip_ws ("," +:+ s) = String ","%char s.
Proof. done. Qed.

Lemma skip_ws_colon s : skip_ws (": " +:+ s) = String ":"%char (String " "%char s).
Proof. done. Qed.

Lemma skip_ws_space s : skip_ws (String " "%char s) = skip_ws s.
Proof. done. Qed.

(** The scanner sees that a bracket is not closed at once. *)
Lemma open_bracket {A} c s (yes : string → A) no :
  opens s = true → (c = "]"%char ∨ c = "}"%char) →
  match s with EmptyString => None | String d r => if bool_decide (d = c) then Some (yes r) else no end =
  match s with EmptyString => None | String d r => no end.
Proof.
  destruct s as [|d s]; [done|]. cbn. rewrite negb_true_iff, !orb_false_iff, !bool_decide_eq_false.
  intros [[_ H1] H2] Hc. rewrite bool_decide_eq_false_2; [done|]. destruct Hc; congruence.
Qed.

Lemma list_sum_cons n ns : list_sum (n :: ns) = (n + list_sum ns)%nat.
Proof. done. Qed.

Definition read_back (j : json) : Prop :=
  ∀ level n r, json_ok j = true → number_ends r = true → (size j ≤ n)%nat →
    scan_value n (dumps_at indent level j +:+ r) = Some (j, r).

Lemma scan_items_app level l acc n r :
  l ≠ [] → Forall read_back l → forallb json_ok l = true → (list_sum (List.map (λ v, S (size v)) l) ≤ n)%nat →
  scan_items n acc (str_join (item_separator indent (S level)) (List.map (dumps_at indent (S level)) l) +:+
                    line_break indent level +:+ "]" +:+ r) = Some (JList (acc ++ l), r).
Proof.
  destruct (item_separator_spec (S level)) as (w & -> & Hw).
  revert acc n. induction l as [|j l IH]; [done|]. intros acc n _ [Hj Hl]%Forall_cons [Hok Hoks]%andb_true_iff Hn.
  cbn [List.map] in Hn. rewrite list_sum_cons in Hn. destruct n as [|n]; [lia|]. cbn [scan_items].
  pose proof (line_break_ws indent level) as Hb. destruct l as [|j' l].
  - cbn [List.map str_join]. rewrite (Hj (S level)) by (done || lia || by apply ends_ws).
    cbn [mbind option_bind fst snd]. by rewrite skip_ws_app.
  - cbn [List.map] in IH, Hn |- *. rewrite str_join_next, !str_app_assoc.
    rewrite (Hj (S level)) by (done || lia). cbn [mbind option_bind fst snd].
    rewrite skip_ws_comma, bool_decide_eq_false_2, bool_decide_eq_true_2 by done. rewrite skip_ws_app, skip_ws_opens by
      first [done|apply opens_app, join_opens, dumps_opens; by apply andb_true_iff in Hoks as [-> _]].
    rewrite IH by (done || lia). by rewrite <- app_assoc.
Qed.

Lemma scan_members_app level o acc n r :
  o ≠ [] → Forall (λ p, read_back p.2) o → forallb (λ p, match p with (_, v) => json_ok v end) o = true →
  NoDup (d_keys (acc ++ o)) →
  (list_sum (List.map (λ p, match p with (_, v) => S (size v) end) o) ≤ n)%nat →
  scan_members n acc (str_join (item_separator indent (S level))
    (List.map (λ p, match p with (k, v) => dump_str k +:+ ": " +:+ dumps_at indent (S level) v end) o) +:+
    line_break indent level +:+ "}" +:+ r) = Some (JObj (acc ++ o), r).
Proof.
  destruct (item_separator_spec (S level)) as (w & -> & Hw).
  revert acc n. induction o as [|[k v] o IH]; [done|]. intros acc n _ [Hv Ho]%Forall_cons [Hok Hoks]%andb_true_iff Hk Hn.
  cbn [snd] in Hv. cbn [List.map] in Hn. rewrite list_sum_cons in Hn. destruct n as [|n]; [lia|].
  pose proof (line_break_ws indent level) as Hb.
  assert (Hset : d_set acc k v = acc ++ [(k, v)]).
  { apply d_set_new. unfold d_keys in Hk. rewrite fmap_app, NoDup_app in Hk. destruct Hk as (_ & Hk & _).
    intros Hin. apply (Hk k Hin). left. }
  assert (Hrest : ∀ t, scan_members (S n) acc ((dump_str k +:+ ": " +:+ dumps_at indent (S level) v) +:+ t) =
    u ← scan_value n (dumps_at indent (S level) v +:+ t);
    match skip_ws u.2 with
    | EmptyString => None
    | String c r =>
        if bool_decide (c = "}"%char) then Some (JObj (d_set acc k u.1), r)
        else if bool_decide (c = ","%char) then scan_members n (d_set acc k u.1) (skip_ws r)
        else None
    end).
  { intros t. rewrite !str_app_assoc, dump_str_app. cbn [scan_members]. rewrite bool_decide_eq_true_2 by done.
    rewrite scan_escapes. cbn [mbind option_bind fst snd]. rewrite skip_ws_colon, bool_decide_eq_true_2 by done.
    by rewrite skip_ws_space, skip_ws_opens by by apply opens_app, dumps_opens. }
  destruct o as [|[k' v'] o].
  - cbn [List.map str_join]. rewrite Hrest, (Hv (S level)) by (done || lia || by apply ends_ws).
    cbn [mbind option_bind fst snd]. by rewrite skip_ws_app, Hset.
  - cbn [List.map] in IH, Hn |- *. rewrite str_join_next, str_app_assoc, Hrest.
    rewrite str_app_assoc, (Hv (S level)) by (done || lia). cbn [mbind option_bind fst snd].
    rewrite str_app_assoc, skip_ws_comma, bool_decide_eq_false_2, bool_decide_eq_true_2 by done.
    rewrite skip_ws_app, skip_ws_opens by first [done|by apply opens_app, join_opens; unfold dump_str].
    rewrite Hset, IH by (done || lia || by rewrite <- app_assoc). by rewrite <- app_assoc.
Qed.

(** A word is read as itself, since no earlier one begins like it. *)
Lemma scan_literal_app w j r : (w, j) ∈ literals → scan_literal literals (w +:+ r) = Some (j, r).
Proof.
  intros Hw. assert (Hyes : str_startswith (w +:+ r) w = true) by (apply str_prefix_spec; by exists r).
  assert (Hno : ∀ c d s t, c ≠ d → str_startswith (String c s) (String d t) = false).
  { intros c d s t Hne. apply not_true_is_false. rewrite str_prefix_spec. intros [u Hu]. rewrite str_cons_app in Hu. congruence. }
  repeat (apply elem_of_cons in Hw as [Hw|Hw]; [injection Hw as -> ->; cbn [scan_literal literals];
    rewrite ?str_cons_app, ?Hno by done; rewrite <- ?str_cons_app; by rewrite Hyes, str_removeprefix_app|]).
  by apply elem_of_nil in Hw.
Qed.

Lemma scan_value_app j : read_back j.
Proof.
  induction j as [|b|m|x|s|l IH|o IH] using json_induction; intros level n r Hj Hr Hn; cbn [size] in Hn;
    (destruct n as [|n]; [lia|]).
  - by apply (scan_literal_app "null" JNull r); left.
  - destruct b; cbn [dumps_at]; [apply (scan_literal_app "true" (JBool true) r)|apply (scan_literal_app "false" (JBool false) r)];
      by repeat constructor.
  - cbn [dumps_at]. rewrite scan_number_value by apply int_opens. by apply scan_number_int.
  - destruct x as [neg|[]| |neg m e]; cbn [dumps_at dump_float];
      [|apply (scan_literal_app "-Infinity" _ r); by repeat constructor|apply (scan_literal_app "Infinity" _ r); by repeat constructor
       |apply (scan_literal_app "NaN" _ r); by repeat constructor|];
      (rewrite scan_number_value by by apply float_opens); by apply scan_number_float.
  - cbn [dumps_at]. rewrite dump_str_app. cbn [scan_value]. by rewrite bool_decide_eq_true_2, scan_escapes.
  - cbn [dumps_at json_ok] in *. destruct l as [|j l]; [reflexivity|].
    rewrite (bracketed_app "["%char "]" level _ r) by done. cbn [scan_value].
    rewrite bool_decide_eq_false_2, bool_decide_eq_true_2 by done.
    rewrite skip_ws_app by apply line_break_ws. cbn [List.map].
    assert (Ho : ∀ t, opens (str_join (item_separator indent (S level))
      (dumps_at indent (S level) j :: List.map (dumps_at indent (S level)) l) +:+ t) = true).
    { intros t. apply opens_app, join_opens, dumps_opens. by apply andb_true_iff in Hj as [-> _]. }
    rewrite skip_ws_opens, open_bracket by first [apply Ho|by left].
    pose proof (scan_items_app level (j :: l) [] n r ltac:(done) IH Hj ltac:(lia)) as Hs. cbn [List.map app] in Hs.
    rewrite Hs. specialize (Ho (line_break indent level +:+ "]" +:+ r)).
    by destruct (_ +:+ _).
  - cbn [dumps_at json_ok] in *. apply andb_true_iff in Hj as [Hk Hj]. apply bool_decide_eq_true in Hk.
    destruct o as [|[k v] o]; [reflexivity|].
    rewrite (bracketed_app "{"%char "}" level _ r) by done. cbn [scan_value].
    rewrite !bool_decide_eq_false_2, bool_decide_eq_true_2 by done.
    rewrite skip_ws_app by apply line_break_ws. cbn [List.map].
    match goal with |- context [skip_ws (?s +:+ _)] => assert (Ho : ∀ u, opens (s +:+ u) = true) by
      (intros u; by apply opens_app, join_opens) end.
    rewrite skip_ws_opens, open_bracket by first [apply Ho|by right].
    pose proof (scan_members_app level ((k, v) :: o) [] n r ltac:(done) IH Hj Hk ltac:(lia)) as Hs.
    cbn [List.map app] in Hs. rewrite Hs. specialize (Ho (line_break indent level +:+ "}" +:+ r)).
    by destruct (_ +:+ _).
Qed.
End round_trip.

(** ** The scanner ends *)

Lemma skip_ws_length s : (String.length (skip_ws s) ≤ String.length s)%nat.
Proof. induction s as [|c s IH]; [done|]. cbn [skip_ws]. destruct (is_ws c); simpl; lia. Qed.

Lemma span_digits_eq s : s = (span_digits s).1 +:+ (span_digits s).2.
Proof.
  induction s as [|c s IH]; [done|]. cbn [span_digits]. destruct (is_digit c); [|done].
  destruct (span_digits s) as [d r]. cbn [fst snd] in *. by rewrite IH at 1.
Qed.

Lemma span_digits_length s : (String.length (span_digits s).2 ≤ String.length s)%nat.
Proof. rewrite (span_digits_eq s) at 2. rewrite str_length_app. lia. Qed.

Lemma scan_string_length s t : scan_string s = Some t → (String.length t.2 < String.length s)%nat.
Proof.
  revert t. induction s as [s IH] using (induction_ltof1 _ String.length). unfold ltof in IH. intros t.
  destruct s as [|c s]; [done|]. cbn [scan_string].
  assert (Hnext : ∀ (x : ascii) r u, (String.length r ≤ String.length s)%nat →
    (t ← scan_string r; Some (String x t.1, t.2)) = Some u → (String.length u.2 < String.length (String c s))%nat).
  { intros x r u Hr. destruct (scan_string r) as [v|] eqn:E; [|done]. intros [= <-]. cbn [snd].
    specialize (IH r ltac:(simpl; lia) v E). simpl. lia. }
  case_bool_decide; [intros [= <-]; simpl; lia|]. case_bool_decide.
  - destruct s as [|e s]; [done|]. case_bool_decide.
    + destruct s as [|h1 [|h2 [|h3 [|h4 s]]]]; try done. destruct (code_point h1 h2 h3 h4) as [x|]; [|done].
      intros Ht. eapply Hnext, Ht. simpl. lia.
    + destruct (short_escape e) as [x|]; [|done]. intros Ht. eapply Hnext, Ht. simpl. lia.
  - destruct (_ <? _)%N; [done|]. intros Ht. by eapply Hnext, Ht.
Qed.

Lemma scan_fraction_length s : (String.length (scan_fraction s).2 ≤ String.length s)%nat.
Proof.
  destruct s as [|c s]; [done|]. cbn [scan_fraction]. case_bool_decide; [|done].
  pose proof (span_digits_length s). destruct (span_digits s) as [d r]. case_bool_decide; simpl in *; lia.
Qed.

Lemma scan_exponent_length s : (String.length (scan_exponent s).2 ≤ String.length s)%nat.
Proof.
  destruct s as [|c s]; [done|]. cbn [scan_exponent]. destruct (_ || _); [|done].
  assert (H : ∀ g s', (String.length s' ≤ String.length s)%nat →
    (String.length (let '(d, r2) := span_digits s' in
       if bool_decide (d = "") then ("", String c s) else (String c (g +:+ d), r2)).2 ≤ String.length (String c s))%nat).
  { intros g s' Hs. pose proof (span_digits_length s'). destruct (span_digits s') as [d r].
    case_bool_decide; simpl in *; lia. }
  destruct s as [|d s]; [by apply H|]. destruct (_ || _); apply H; simpl; lia.
Qed.

Lemma scan_number_length s v : scan_number s = Some v → (String.length v.2 < String.length s)%nat.
Proof.
  unfold scan_number.
  assert (H : ∀ sign s', (String.length s' ≤ String.length s)%nat →
    (ip ← scan_int_part s';
     let '(frac, r) := scan_fraction ip.2 in
     let '(exp, r) := scan_exponent r in
     if bool_decide (frac = "") && bool_decide (exp = "")
     then n ← int_of_str (sign +:+ ip.1); Some (JInt n, r)
     else x ← float_of_str (sign +:+ ip.1 +:+ frac +:+ exp); Some (JFloat x, r)) = Some v →
    (String.length v.2 < String.length s)%nat).
  { intros sign s' Hs. destruct (scan_int_part s') as [ip|] eqn:Ei; [|done]. cbn [mbind option_bind].
    assert (Hi : (String.length ip.2 < String.length s')%nat).
    { destruct s' as [|c s']; [done|]. cbn [scan_int_part] in Ei. case_bool_decide; [injection Ei as <-; simpl; lia|].
      destruct (is_digit c) eqn:Ec; [|done]. injection Ei as <-. cbn [span_digits]. rewrite Ec.
      pose proof (span_digits_length s'). destruct (span_digits s'). simpl in *. lia. }
    pose proof (scan_fraction_length ip.2). destruct (scan_fraction ip.2) as [f r]. cbn [snd] in *.
    pose proof (scan_exponent_length r). destruct (scan_exponent r) as [e r']. cbn [snd] in *.
    destruct (_ && _); [destruct (int_of_str _)|destruct (float_of_str _)]; intros [= <-]; cbn [snd]; lia. }
  destruct s as [|c s]; [apply H; simpl; lia|]. case_bool_decide; apply H; simpl; lia.
Qed.

Lemma scan_literal_length s v : scan_literal literals s = Some v → (String.length v.2 < String.length s)%nat.
Proof.
  assert (Hls : Forall (λ p, p.1 ≠ "") literals) by (by repeat constructor).
  induction Hls as [|[w j] ls Hw _ IH]; [apply scan_number_length|]. cbn [scan_literal].
  destruct (str_startswith s w) eqn:E; [|apply IH]. intros [= <-]. cbn [snd].
  apply str_prefix_spec in E as [t ->]. rewrite str_removeprefix_app, str_length_app.
  cbn [fst] in Hw. destruct w; [done|]. simpl. lia.
Qed.

Lemma scan_length n :
  (∀ s v, scan_value n s = Some v → (String.length v.2 < String.length s)%nat) ∧
  (∀ l s v, scan_items n l s = Some v → (String.length v.2 < String.length s)%nat) ∧
  (∀ o s v, scan_members n o s = Some v → (String.length v.2 < String.length s)%nat).
Proof.
  induction n as [|n (IHv & IHi & IHm)]; [split_and!; [by intros []|done|by intros ? []]|]. split_and!.
  - intros [|c r] v; [done|]. cbn [scan_value]. pose proof (skip_ws_length r) as Hw.
    case_bool_decide.
    { destruct (scan_string r) as [t|] eqn:E; [|done]. intros [= <-]. apply scan_string_length in E. simpl. lia. }
    case_bool_decide.
    { destruct (skip_ws r) as [|d r'] eqn:E; [done|]. case_bool_decide; [intros [= <-]; simpl in *; lia|].
      intros Hr%IHi. simpl in *. lia. }
    case_bool_decide; [|by apply scan_literal_length].
    destruct (skip_ws r) as [|d r'] eqn:E; [done|]. case_bool_decide; [intros [= <-]; simpl in *; lia|].
    intros Hr%IHm. simpl in *. lia.
  - intros l s v. cbn [scan_items]. destruct (scan_value n s) as [u|] eqn:Ev; [|done]. apply IHv in Ev.
    cbn [mbind option_bind]. pose proof (skip_ws_length u.2) as Hw. destruct (skip_ws u.2) as [|c r]; [done|].
    case_bool_decide; [intros [= <-]; simpl in *; lia|]. case_bool_decide; [|done].
    intros Hr%IHi. pose proof (skip_ws_length r). simpl in *. lia.
  - intros o [|q r] v; [done|]. cbn [scan_members]. case_bool_decide; [|done].
    destruct (scan_string r) as [k|] eqn:Ek; [|done]. apply scan_string_length in Ek. cbn [mbind option_bind].
    pose proof (skip_ws_length k.2) as Hw. destruct (skip_ws k.2) as [|c r1]; [done|]. case_bool_decide; [|done].
    pose proof (skip_ws_length r1) as Hw1. destruct (scan_value n (skip_ws r1)) as [u|] eqn:Ev; [|done]. apply IHv in Ev.
    cbn [mbind option_bind]. pose proof (skip_ws_length u.2) as Hw2. destruct (skip_ws u.2) as [|c2 r2]; [done|].
    case_bool_decide; [intros [= <-]; simpl in *; lia|]. case_bool_decide; [|done].
    intros Hr%IHm. pose proof (skip_ws_length r2). simpl in *. lia.
Qed.

(** More fuel than [scan_fuel] changes nothing. *)
Lemma scan_enough n :
  (∀ s m, (scan_fuel s ≤ n)%nat → (scan_fuel s ≤ m)%nat → scan_value n s = scan_value m s) ∧
  (∀ l s m, (scan_fuel s < n)%nat → (scan_fuel s < m)%nat → scan_items n l s = scan_items m l s) ∧
  (∀ o s m, (scan_fuel s ≤ n)%nat → (scan_fuel s ≤ m)%nat → scan_members n o s = scan_members m o s).
Proof.
  unfold scan_fuel. induction n as [|n (IHv & IHi & IHm)]; [split_and!; intros; lia|]. split_and!.
  - intros [|c r] [|m] Hn Hm; [lia|done|lia|]. cbn [scan_value]. pose proof (skip_ws_length r) as Hw.
    simpl in Hn, Hm.
    by rewrite (IHi [] (skip_ws r) m), (IHm [] (skip_ws r) m) by lia.
  - intros l s [|m] Hn Hm; [lia|]. cbn [scan_items]. rewrite (IHv s m) by lia.
    destruct (scan_value m s) as [u|] eqn:Ev; [|done]. apply scan_length in Ev. cbn [mbind option_bind].
    pose proof (skip_ws_length u.2) as Hw. destruct (skip_ws u.2) as [|c r]; [done|].
    case_bool_decide; [done|]. case_bool_decide; [|done]. pose proof (skip_ws_length r). simpl in *. apply IHi; lia.
  - intros o [|q r] [|m] Hn Hm; [lia|done|lia|]. cbn [scan_members]. case_bool_decide; [|done].
    destruct (scan_string r) as [k|] eqn:Ek; [|done]. apply scan_string_length in Ek. cbn [mbind option_bind].
    pose proof (skip_ws_length k.2) as Hw. destruct (skip_ws k.2) as [|c r1]; [done|]. case_bool_decide; [|done].
    pose proof (skip_ws_length r1) as Hw1. simpl in *. rewrite (IHv (skip_ws r1) m) by lia.
    destruct (scan_value m (skip_ws r1)) as [u|] eqn:Ev; [|done]. apply scan_length in Ev.
    cbn [mbind option_bind]. pose proof (skip_ws_length u.2) as Hw2. destruct (skip_ws u.2) as [|c2 r2]; [done|].
    case_bool_decide; [done|]. case_bool_decide; [|done]. pose proof (skip_ws_length r2). simpl in *. apply IHm; lia.
Qed.

(** ** Properties *)

(** Reading text always ends: [2 n + 1] nested calls are enough for [n] characters, and
    more change nothing. *)
Theorem loads_terminates s n :
  (scan_fuel (skip_ws s) ≤ n)%nat →
  loads s = (v ← scan_value n (skip_ws s); match skip_ws v.2 with EmptyString => Some v.1 | _ => None end).
Proof. intros Hn. unfold loads. by rewrite (proj1 (scan_enough n) _ (scan_fuel (skip_ws s))). Qed.

Lemma loads_terminates_witness :
  loads "[1]" = (v ← scan_value 100 "[1]"; match skip_ws v.2 with EmptyString => Some v.1 | _ => None end).
Proof. apply (loads_terminates "[1]" 100). vm_compute. lia. Defined.

Lemma loads_dumps_ws indent j w : json_ok j = true → all_ws w = true → loads (dumps_with indent j +:+ w) = Some j.
Proof.
  intros Hj Hw. unfold loads, dumps_with. rewrite (skip_ws_opens (dumps_at indent 0 j +:+ w)) by
    (apply opens_app, dumps_opens, Hj).
  set (text := dumps_at indent 0 j +:+ w).
  rewrite (proj1 (scan_enough _) text (max (scan_fuel text) (size j))) by lia.
  assert (Hends : number_ends w = true).
  { destruct w as [|c w]; [done|]. unfold all_ws in Hw. cbn [str_all] in Hw. apply andb_true_iff in Hw as [Hc _].
    by every_char c. }
  unfold text at 2. rewrite (scan_value_app indent j 0) by (done || lia).
  cbn [mbind option_bind fst snd]. rewrite <- (str_app_nil_r w), skip_ws_app by done. done.
Qed.

(** What [json.dumps] writes, [json.loads] reads back: every value whose integers the
    interpreter converts and whose objects give each key once comes back unchanged, floats to
    the last bit and members in order, with or without [indent] and with blanks after it. *)
Theorem loads_dumps indent j w :
  json_ok j = true → all_ws w = true → loads (dumps_with indent j +:+ w) = Some j.
Proof. apply loads_dumps_ws. Qed.

Lemma loads_dumps_witness :
  loads (dumps_with (Some 2) (JObj [("keys", JList [JStr "a"; JFloat (f_lit 1 10)]); ("n", JNull)]) +:+ newline)
  = Some (JObj [("keys", JList [JStr "a"; JFloat (f_lit 1 10)]); ("n", JNull)]).
Proof. apply loads_dumps; by vm_compute. Defined.

Lemma printable_number : number_chars printable_char.
Proof.
  split; [|done]. intros c. unfold is_digit, printable_char. rewrite !andb_true_iff, !N.leb_le. lia.
Qed.

Lemma str_of_Z_printable n : str_all printable_char (str_of_Z n) = true.
Proof.
  destruct (decide (0 <= n)%Z) as [Hn|Hn].
  - rewrite str_of_Z_nonneg by done. eapply str_all_impl; [apply printable_number|apply str_of_N_spec].
  - rewrite str_of_Z_neg by lia. cbn [str_all]. eapply str_all_impl; [apply printable_number|apply str_of_N_spec].
Qed.

Lemma dump_float_printable x : valid_binary f_prec f_emax x = true → str_all printable_char (dump_float x) = true.
Proof.
  destruct x as [[]|[]| |neg m e]; try done. cbn [dump_float str_of_float]. intros Hb.
  destruct (shortest_spec m e Hb) as (Hd & _). destruct (shortest m e) as [ds w]. cbn [fst] in Hd.
  rewrite str_all_app, (layout_all _ ds w printable_number Hd). by destruct neg.
Qed.

Lemma join_all p sep ps : str_all p sep = true → Forall (λ s, str_all p s = true) ps → str_all p (str_join sep ps) = true.
Proof.
  intros Hsep. induction 1 as [|s ps Hs Hps IH]; [done|]. destruct ps as [|t ps]; [done|].
  by rewrite str_join_next, !str_all_app, Hs, Hsep.
Qed.

Lemma bracketed_printable o c level items :
  str_all printable_char o = true → str_all printable_char c = true →
  Forall (λ s, str_all printable_char s = true) items →
  str_all printable_char (bracketed None o c level items) = true.
Proof.
  intros Ho Hc Hi. unfold bracketed. destruct items as [|s items]; rewrite !str_all_app, Ho, ?Hc; [done|].
  by rewrite (join_all printable_char (item_separator None (S level)) _ eq_refl Hi).
Qed.

Lemma dumps_at_printable j level : json_ok j = true → str_all printable_char (dumps_at None level j) = true.
Proof.
  revert level. induction j as [|[]|n|x|s|l IH|o IH] using json_induction; intros level Hj; try done.
  - apply str_of_Z_printable.
  - by apply dump_float_printable.
  - cbn [dumps_at]. unfold dump_str. cbn [str_all]. by rewrite str_all_app, escape_chars_printable.
  - cbn [dumps_at json_ok] in *. apply bracketed_printable; [done..|]. induction IH as [|j l Hv _ IHl]; [constructor|].
    apply andb_true_iff in Hj as [Hj Hl]. constructor; [by apply Hv|by apply IHl].
  - cbn [dumps_at json_ok] in *. apply andb_true_iff in Hj as [_ Hj].
    apply bracketed_printable; [done..|]. induction IH as [|[k v] o Hv _ IHo]; [constructor|].
    apply andb_true_iff in Hj as [Hj Ho]. constructor; [|by apply IHo].
    unfold dump_str. rewrite !str_all_app. cbn [str_all]. rewrite str_all_app, escape_chars_printable. by apply Hv.
Qed.

Lemma dumps_printable j : json_ok j = true → str_all printable_char (dumps j) = true.
Proof. apply dumps_at_printable. Qed.

Lemma loads_dumps_plain j : json_ok j = true → loads (dumps j) = Some j.
Proof. intros Hj. rewrite <- (str_app_nil_r (dumps j)). by apply loads_dumps_ws. Qed.
