(* ===== verification/ApiModels.v ===== *)
(** * Chat requests ([api/models.py])

    The request body after pydantic has parsed it.  [ChatCompletionRequest_valid] is what
    the field constraints accept; every request a handler sees satisfies it. *)

From S2P Require Import Prelude.
From S2P Require Import PyFloat.
From S2P Require Import PyStr.
From S2P Require Import PyJson.

Record Message := { role : string; content : string }.

Record ChatCompletionRequest := {
  model : string;
  messages : list Message;
  stream : bool;
  req_session_id : option string;
  task_type : option string;
  temperature : option float;
  max_tokens : option Z;
  chat_template_kwargs : option (list (string * json));
  response_format : option (list (string * json));
}.

Definition GENERATION_FIELDS : list string :=
  ["temperature"; "max_tokens"; "chat_template_kwargs"; "response_format"].

(** [getattr(self, name) is None] for the optional generation parameters. *)
Definition generation_field_unset (r : ChatCompletionRequest) (name : string) : bool :=
  if decide (name = "temperature") then bool_decide (temperature r = None)
  else if decide (name = "max_tokens") then bool_decide (max_tokens r = None)
  else if decide (name = "chat_template_kwargs")
  then match chat_template_kwargs r with None => true | Some _ => false end
  else if decide (name = "response_format")
  then match response_format r with None => true | Some _ => false end
  else false.

Definition unset_generation_fields (r : ChatCompletionRequest) : list string :=
  filter (λ name, generation_field_unset r name = true) GENERATION_FIELDS.

Definition ChatCompletionRequest_valid (r : ChatCompletionRequest) : bool :=
  negb (bool_decide (length (messages r) = 0)) &&
  match temperature r with None => true | Some t => f_le f_zero t && f_le t (f_of_Z 2) end &&
  match max_tokens r with None => true | Some n => (0 <? n)%Z end.

(** [request.model_dump()]: the fields in declaration order. *)
Definition message_dump (m : Message) : json :=
  JObj [("role", JStr (role m)); ("content", JStr (content m))].

Definition opt_json {A} (f : A → json) (o : option A) : json :=
  match o with None => JNull | Some a => f a end.

Definition model_dump (r : ChatCompletionRequest) : list (string * json) :=
  [("model", JStr (model r));
   ("messages", JList (message_dump <$> messages r));
   ("stream", JBool (stream r));
   ("session_id", opt_json JStr (req_session_id r));
   ("task_type", opt_json JStr (task_type r));
   ("temperature", opt_json JFloat (temperature r));
   ("max_tokens", opt_json JInt (max_tokens r));
   ("chat_template_kwargs", opt_json JObj (chat_template_kwargs r));
   ("response_format", opt_json JObj (response_format r))].
