(* ===== verification/Leases.v ===== *)
(** * Node leases ([leases/models.py], [leases/book.py])

    [NodeLeaseBook] keeps the live leases twice, by host and by token.  Every public
    method runs under the book's lock, so each is one atomic step.  [reserve] draws its
    token from [secrets.token_urlsafe]; here the token is an argument. *)

From S2P Require Import Prelude.
From S2P Require Import PyStr.
From S2P Require Import PyDict.

(** ** Data *)

Record LeaseSettings := {
  ls_ttl : timedelta;
  ls_default_ceiling : timedelta;
  ls_max_ceiling : timedelta;
  ls_min_active_nodes : Z;
  ls_expiring_soon : timedelta;
}.

Definition default_lease_settings : LeaseSettings :=
  {| ls_ttl := td_minutes 3; ls_default_ceiling := td_hours 3; ls_max_ceiling := td_hours 3;
     ls_min_active_nodes := 1; ls_expiring_soon := td_seconds 60 |}.

(** [__post_init__]: the message of the [ValueError] it raises, if any. *)
Definition lease_settings_error (s : LeaseSettings) : option string :=
  if (ls_ttl s <=? 0)%Z then Some "lease ttl must be positive"
  else if ((ls_default_ceiling s <=? 0) || (ls_max_ceiling s <? ls_default_ceiling s))%Z then
    Some ("lease max ceiling must be greater than or equal to the default ceiling, " +:+
          "and both must be positive")
  else if (ls_min_active_nodes s <? 0)%Z then Some "min active nodes must be >= 0"
  else if (ls_expiring_soon s <? 0)%Z then Some "expiring soon window must be >= 0"
  else None.

Record ReservableHost := {
  rh_host_id : string;
  rh_status : string;
  rh_healthy : bool;
  rh_serves_requested_model : bool;
}.

Record NodeLease := {
  nl_host_id : string;
  nl_holder : string;
  nl_token : string;
  nl_expires_at : datetime;
  nl_hard_expires_at : datetime;
  nl_created_at : datetime;
}.

(** [public_dict]; [pd_token] is the key that only [include_token=True] adds. *)
Record LeaseView := {
  pd_host_id : string;
  pd_holder : string;
  pd_expires_at : string;
  pd_hard_expires_at : string;
  pd_expiring_soon : bool;
  pd_token : option string;
}.

Definition public_dict (l : NodeLease) (include_token expiring_soon : bool) : LeaseView :=
  {| pd_host_id := nl_host_id l; pd_holder := nl_holder l;
     pd_expires_at := isoformat (nl_expires_at l);
     pd_hard_expires_at := isoformat (nl_hard_expires_at l);
     pd_expiring_soon := expiring_soon;
     pd_token := if include_token then Some (nl_token l) else None |}.

Inductive lease_error :=
  | LeaseInvalidError (msg : string)
  | LeaseRefusedError (msg : string)
  | LeaseNotHeldError (msg : string)
  | LeaseEndedError (msg : string)
  | LeaseNotFoundError (msg : string)
  | LeaseHostNotRegisteredError (host_id : string).

Record NodeLeaseBook := {
  lb_by_host : gmap string NodeLease;
  lb_by_token : gmap string NodeLease;
}.

Definition NodeLeaseBook_new : NodeLeaseBook := {| lb_by_host := ∅; lb_by_token := ∅ |}.

Abbreviation book_prog A := (prog NodeLeaseBook lease_error A).

(** ** Helpers under the lock *)

(** [now >= lease.expires_at or now >= lease.hard_expires_at] *)
Definition has_ended (now : datetime) (l : NodeLease) : bool :=
  ((nl_expires_at l <=? now) || (nl_hard_expires_at l <=? now))%Z.

Definition drop_unlocked (l : NodeLease) (b : NodeLeaseBook) : NodeLeaseBook :=
  {| lb_by_host := delete (nl_host_id l) (lb_by_host b);
     lb_by_token := delete (nl_token l) (lb_by_token b) |}.

Definition purge_unlocked (now : datetime) (b : NodeLeaseBook) : NodeLeaseBook :=
  foldl (λ b l, drop_unlocked l b) b
    (filter (λ l, has_ended now l = true) (map_to_list (lb_by_host b)).*2).

Definition live_unlocked (token : string) (now : datetime) : book_prog NodeLease := λ b,
  match lb_by_token b !! token with
  | None => (Raise (LeaseNotHeldError "lease token is not valid"), b)
  | Some l =>
      if has_ended now l then
        (Raise (LeaseEndedError ("lease on " +:+ nl_host_id l +:+ " held by " +:+
                                 nl_holder l +:+ " has ended")), drop_unlocked l b)
      else (Ret l, b)
  end.

Definition is_free (b : NodeLeaseBook) (h : ReservableHost) : bool :=
  bool_decide (lb_by_host b !! rh_host_id h = None).

Definition active_count (b : NodeLeaseBook) (hosts : list ReservableHost) : Z :=
  Z.of_nat (length (filter (λ h, rh_healthy h && is_free b h = true) hosts)).

Definition roster_line (b : NodeLeaseBook) (h : ReservableHost) : string :=
  match lb_by_host b !! rh_host_id h with
  | None => "- " +:+ rh_host_id h +:+ " status=" +:+ rh_status h +:+ " holder=free"
  | Some l =>
      "- " +:+ rh_host_id h +:+ " status=" +:+ rh_status h +:+ " holder=" +:+ nl_holder l +:+ " " +:+
      "until " +:+ isoformat (nl_expires_at l) +:+ " " +:+
      "ceiling " +:+ isoformat (nl_hard_expires_at l)
  end.

Definition roster (b : NodeLeaseBook) (hosts : list ReservableHost) : string :=
  match hosts with
  | [] => "nodes: (none registered)"
  | _ => str_join newline ("nodes:" :: (roster_line b <$> hosts))
  end.

Definition refuse {A} (hosts : list ReservableHost) (reason : string) : book_prog A := λ b,
  (Raise (LeaseRefusedError (reason +:+ newline +:+ roster b hosts)), b).

(** ** Granting *)

Section settings.
Context (cfg : LeaseSettings).

Definition new_lease (host_id holder token : string) (ceiling : timedelta) (now : datetime)
    : NodeLease :=
  let hard_expires_at := (now + ceiling)%Z in
  {| nl_host_id := host_id; nl_holder := holder; nl_token := token;
     nl_expires_at := Z.min (now + ls_ttl cfg) hard_expires_at;
     nl_hard_expires_at := hard_expires_at; nl_created_at := now |}.

(** [self._by_host[...] = lease; self._by_token[...] = lease] *)
Definition store_lease (l : NodeLease) (b : NodeLeaseBook) : NodeLeaseBook :=
  {| lb_by_host := <[nl_host_id l := l]> (lb_by_host b);
     lb_by_token := <[nl_token l := l]> (lb_by_token b) |}.

Definition grant (host_id holder token : string) (ceiling : timedelta) (now : datetime)
    : book_prog NodeLease := λ b,
  let l := new_lease host_id holder token ceiling now in (Ret l, store_lease l b).

(** [if c: self._refuse(hosts, reason)] *)
Definition refuse_if (c : bool) (hosts : list ReservableHost) (reason : string) : book_prog unit :=
  if c then refuse hosts reason else mret ().

Definition reserve_specific (host : ReservableHost) (hosts : list ReservableHost)
    (holder : string) (model : option string) (ceiling : timedelta) (now : datetime)
    (token : string) : book_prog NodeLease :=
  b ← get;
  refuse_if (bool_decide (is_Some model) && negb (rh_serves_requested_model host)) hosts
    (rh_host_id host +:+ " does not serve model " +:+ str_repr (default "" model)) ;;
  match lb_by_host b !! rh_host_id host with
  | Some existing =>
      refuse hosts (rh_host_id host +:+ " is already reserved by " +:+ nl_holder existing +:+
                    " until " +:+ isoformat (nl_expires_at existing))
  | None =>
      refuse_if (rh_healthy host && (active_count b hosts - 1 <? ls_min_active_nodes cfg)%Z) hosts
        ("reserving " +:+ rh_host_id host +:+ " would leave " +:+
         str_of_Z (active_count b hosts - 1) +:+ " active node(s) in routing (minimum " +:+
         str_of_Z (ls_min_active_nodes cfg) +:+ ")") ;;
      grant (rh_host_id host) holder token ceiling now
  end.

(** [sorted(..., key=lambda host: host.host_id)] *)
Definition host_id_le (h1 h2 : ReservableHost) : Prop := String.le (rh_host_id h1) (rh_host_id h2).

#[export] Instance host_id_le_dec : RelDecision host_id_le.
Proof. intros ??. unfold host_id_le. apply _. Defined.

Definition serves (model : option string) (h : ReservableHost) : bool :=
  match model with None => true | Some _ => rh_serves_requested_model h end.

Definition no_spare : string :=
  "no node can be reserved without leaving routing below the minimum of " +:+
  str_of_Z (ls_min_active_nodes cfg) +:+ " active node(s)".

Definition reserve_any (hosts : list ReservableHost) (holder : string) (model : option string)
    (ceiling : timedelta) (now : datetime) (token : string) : book_prog NodeLease :=
  b ← get;
  let matching := filter (λ h, serves model h = true) hosts in
  refuse_if (bool_decide (matching = [])) hosts
    (match model with
     | Some m => "no node serves model " +:+ str_repr m
     | None => "no node is registered"
     end) ;;
  let free := filter (λ h, is_free b h = true) matching in
  refuse_if (bool_decide (free = [])) hosts "no node is free" ;;
  let active_free := sort_by host_id_le (filter (λ h, rh_healthy h = true) free) in
  let spare := (active_count b hosts - ls_min_active_nodes cfg)%Z in
  match active_free with
  | h :: _ =>
      if (0 <? spare)%Z then grant (rh_host_id h) holder token ceiling now
      else refuse hosts no_spare
  | [] => refuse hosts no_spare
  end.

(** [reserve]: the checks before the lock leave the book alone. *)
Definition reserve (holder : string) (hosts : list ReservableHost) (host_id model : option string)
    (ceiling : option timedelta) (now : datetime) (token : string) : book_prog NodeLease :=
  let cleaned := str_strip holder in
  let ceiling := default (ls_default_ceiling cfg) ceiling in
  if bool_decide (cleaned = "") then raise (LeaseInvalidError "holder must not be empty")
  else if (ceiling <=? 0)%Z then raise (LeaseInvalidError "ceiling must be positive")
  else if (ls_max_ceiling cfg <? ceiling)%Z then
    raise (LeaseInvalidError
      ("ceiling of " +:+ str_of_Z (Z.quot ceiling 1000000) +:+ "s exceeds the server maximum of " +:+
       str_of_Z (Z.quot (ls_max_ceiling cfg) 1000000) +:+ "s"))
  else
    modify (purge_unlocked now) ;;
    match host_id with
    | Some id =>
        match d_get (d_of_list ((λ h, (rh_host_id h, h)) <$> hosts)) id with
        | None => raise (LeaseHostNotRegisteredError id)
        | Some host => reserve_specific host hosts cleaned model ceiling now token
        end
    | None => reserve_any hosts cleaned model ceiling now token
    end.

(** ** Using and ending a lease *)

Definition require (token : string) (now : datetime) : book_prog NodeLease :=
  live_unlocked token now.

Definition is_held (host_id : string) (now : datetime) (b : NodeLeaseBook) : bool * NodeLeaseBook :=
  match lb_by_host b !! host_id with
  | None => (false, b)
  | Some l => if has_ended now l then (false, drop_unlocked l b) else (true, b)
  end.

Definition renew (now : datetime) (l : NodeLease) : NodeLease :=
  {| nl_host_id := nl_host_id l; nl_holder := nl_holder l; nl_token := nl_token l;
     nl_expires_at := Z.min (now + ls_ttl cfg) (nl_hard_expires_at l);
     nl_hard_expires_at := nl_hard_expires_at l; nl_created_at := nl_created_at l |}.

Definition heartbeat (token : string) (now : datetime) : book_prog NodeLease :=
  l ← live_unlocked token now;
  modify (store_lease (renew now l)) ;;
  mret (renew now l).

Definition release (token : string) (now : datetime) : book_prog NodeLease :=
  l ← live_unlocked token now;
  modify (drop_unlocked l) ;;
  mret l.

Definition force_release (host_id : string) (now : datetime) : book_prog NodeLease :=
  modify (purge_unlocked now) ;;
  b ← get;
  match lb_by_host b !! host_id with
  | None => raise (LeaseNotFoundError (host_id +:+ " has no lease"))
  | Some l => modify (drop_unlocked l) ;; mret l
  end.

Definition view (host_id : string) (now : datetime) (b : NodeLeaseBook)
    : option LeaseView * NodeLeaseBook :=
  match lb_by_host b !! host_id with
  | None => (None, b)
  | Some l =>
      if has_ended now l then (None, drop_unlocked l b)
      else
        let remaining := (Z.min (nl_expires_at l) (nl_hard_expires_at l) - now)%Z in
        (Some (public_dict l false (remaining <=? ls_expiring_soon cfg)%Z), b)
  end.
End settings.

(** ** The two indexes agree *)

(** The abstract book is one map from hosts to leases; the token index is its inverse. *)
Record book_wf (b : NodeLeaseBook) : Prop := {
  wf_by_host h l : lb_by_host b !! h = Some l → nl_host_id l = h ∧ lb_by_token b !! nl_token l = Some l;
  wf_by_token t l : lb_by_token b !! t = Some l → nl_token l = t ∧ lb_by_host b !! nl_host_id l = Some l;
}.

(** The bounds every stored lease respects. *)
Definition lease_ok (cfg : LeaseSettings) (l : NodeLease) : Prop :=
  (nl_expires_at l ≤ nl_hard_expires_at l ∧
   nl_created_at l < nl_hard_expires_at l ≤ nl_created_at l + ls_max_ceiling cfg)%Z.

Definition book_inv (cfg : LeaseSettings) (b : NodeLeaseBook) : Prop :=
  book_wf b ∧ map_Forall (λ _ l, lease_ok cfg l) (lb_by_host b).

Lemma book_wf_new : book_wf NodeLeaseBook_new.
Proof. split; simpl; intros ?? H; by rewrite lookup_empty in H. Qed.

Lemma drop_wf b l : book_wf b → lb_by_host b !! nl_host_id l = Some l → book_wf (drop_unlocked l b).
Proof.
  intros Hwf Hl. split; simpl.
  - intros h l' [Hne Hl']%lookup_delete_Some.
    destruct (wf_by_host _ Hwf _ _ Hl') as [<- Ht]. split; [done|].
    rewrite lookup_delete_ne; [done|]. intros E. apply Hne.
    destruct (wf_by_host _ Hwf _ _ Hl) as [_ Ht0]. congruence.
  - intros t l' [Hne Hl']%lookup_delete_Some.
    destruct (wf_by_token _ Hwf _ _ Hl') as [<- Hh]. split; [done|].
    rewrite lookup_delete_ne; [done|]. intros E. apply Hne. congruence.
Qed.

Lemma store_fresh_wf b l :
  book_wf b → lb_by_host b !! nl_host_id l = None → lb_by_token b !! nl_token l = None →
  book_wf (store_lease l b).
Proof.
  intros Hwf Hh Ht. split; simpl.
  - intros h l' [[<- <-]|[Hne Hl']]%lookup_insert_Some; [by rewrite lookup_insert_eq|].
    destruct (wf_by_host _ Hwf _ _ Hl') as [<- Ht']. split; [done|].
    rewrite lookup_insert_ne; congruence.
  - intros t l' [[<- <-]|[Hne Hl']]%lookup_insert_Some; [by rewrite lookup_insert_eq|].
    destruct (wf_by_token _ Hwf _ _ Hl') as [<- Hh']. split; [done|].
    rewrite lookup_insert_ne; congruence.
Qed.

(** Overwriting a lease by one with the same host and token. *)
Lemma store_same_wf b l l' :
  book_wf b → lb_by_host b !! nl_host_id l = Some l →
  nl_host_id l' = nl_host_id l → nl_token l' = nl_token l → book_wf (store_lease l' b).
Proof.
  intros Hwf Hl Eh Et. split; simpl.
  - intros h k [[<- <-]|[Hne Hk]]%lookup_insert_Some; [by rewrite lookup_insert_eq|].
    destruct (wf_by_host _ Hwf _ _ Hk) as [<- Ht']. split; [done|].
    rewrite lookup_insert_ne; [done|]. intros E. apply Hne.
    destruct (wf_by_host _ Hwf _ _ Hl) as [_ Ht0]. congruence.
  - intros t k [[<- <-]|[Hne Hk]]%lookup_insert_Some; [by rewrite lookup_insert_eq|].
    destruct (wf_by_token _ Hwf _ _ Hk) as [<- Hh']. split; [done|].
    rewrite lookup_insert_ne; congruence.
Qed.

(** *** Purging *)

Definition live (now : datetime) (l : NodeLease) : Prop := has_ended now l = false.

#[export] Instance live_dec now l : Decision (live now l).
Proof. unfold live. apply _. Defined.

Definition keep_live (now : datetime) (m : gmap string NodeLease) : gmap string NodeLease :=
  filter (λ p, live now p.2) m.

Lemma keep_live_lookup now m k l : keep_live now m !! k = Some l ↔ m !! k = Some l ∧ live now l.
Proof. apply (map_lookup_filter_Some (λ p, live now p.2)). Qed.

Lemma decide_None {P} `{!Decision P} {A} : (if decide P then None else None) = @None A.
Proof. by case_decide. Qed.

Lemma drop_all_lookup ls b k :
  (lb_by_host (foldl (λ b l, drop_unlocked l b) b ls) !! k =
    if decide (k ∈ nl_host_id <$> ls) then None else lb_by_host b !! k) ∧
  (lb_by_token (foldl (λ b l, drop_unlocked l b) b ls) !! k =
    if decide (k ∈ nl_token <$> ls) then None else lb_by_token b !! k).
Proof.
  revert b. induction ls as [|l ls IH]; intros b; rewrite ?fmap_nil, ?fmap_cons; cbn [foldl].
  { by rewrite !decide_False by apply not_elem_of_nil. }
  destruct (IH (drop_unlocked l b)) as [-> ->].
  cbn [drop_unlocked lb_by_host lb_by_token]. split.
  - destruct (decide (k = nl_host_id l)) as [->|Hne].
    + rewrite lookup_delete_eq, decide_None. by rewrite (decide_True (P := _ ∈ _ :: _)) by left.
    + rewrite lookup_delete_ne by done. apply decide_ext. rewrite elem_of_cons. tauto.
  - destruct (decide (k = nl_token l)) as [->|Hne].
    + rewrite lookup_delete_eq, decide_None. by rewrite (decide_True (P := _ ∈ _ :: _)) by left.
    + rewrite lookup_delete_ne by done. apply decide_ext. rewrite elem_of_cons. tauto.
Qed.

Lemma ended_leases_spec now b l :
  l ∈ filter (λ l, has_ended now l = true) (map_to_list (lb_by_host b)).*2 ↔
    has_ended now l = true ∧ ∃ h, lb_by_host b !! h = Some l.
Proof.
  rewrite list_elem_of_filter, list_elem_of_fmap. split.
  - intros (He & (h & l') & -> & Hin). split; [done|]. exists h. by apply elem_of_map_to_list.
  - intros (He & h & Hh). split; [done|]. exists (h, l). split; [done|]. by apply elem_of_map_to_list.
Qed.

(** Purging keeps exactly the leases that have not ended, in both indexes. *)
Lemma purge_spec now b :
  book_wf b →
  purge_unlocked now b =
    {| lb_by_host := keep_live now (lb_by_host b); lb_by_token := keep_live now (lb_by_token b) |}.
Proof.
  intros Hwf. set (ended := filter (λ l, has_ended now l = true) (map_to_list (lb_by_host b)).*2).
  assert (Hend : ∀ l, l ∈ ended ↔ has_ended now l = true ∧ ∃ h, lb_by_host b !! h = Some l)
    by (intros; apply ended_leases_spec).
  assert (E : ∀ b1 b2, lb_by_host b1 = lb_by_host b2 → lb_by_token b1 = lb_by_token b2 → b1 = b2)
    by (intros [] []; simpl; congruence).
  apply E; simpl; apply map_eq; intros k; apply option_eq; intros l; rewrite keep_live_lookup;
    unfold purge_unlocked; fold ended; destruct (drop_all_lookup ended b k) as [Hh Ht];
    rewrite ?Hh, ?Ht; clear Hh Ht; unfold live;
    case_decide as Hk; rewrite list_elem_of_fmap in Hk.
  - destruct Hk as (l' & -> & (He & h & Hl')%Hend). split; [done|].
    destruct (wf_by_host _ Hwf _ _ Hl') as [<- _]. intros [? ?]. congruence.
  - split; [|tauto]. intros Hl. split; [done|]. apply not_true_is_false. intros He.
    apply Hk. exists l. split; [by destruct (wf_by_host _ Hwf _ _ Hl)|]. apply Hend. eauto.
  - destruct Hk as (l' & -> & (He & h & Hl')%Hend). split; [done|].
    destruct (wf_by_host _ Hwf _ _ Hl') as [_ Ht]. intros [? ?]. congruence.
  - split; [|tauto]. intros Hl. split; [done|]. apply not_true_is_false. intros He.
    apply Hk. destruct (wf_by_token _ Hwf _ _ Hl) as [<- Hh]. exists l. split; [done|]. apply Hend. eauto.
Qed.

Lemma purge_wf now b : book_wf b → book_wf (purge_unlocked now b).
Proof.
  intros Hwf. rewrite purge_spec by done. split; simpl; intros k l [Hl Hlive]%keep_live_lookup.
  - destruct (wf_by_host _ Hwf _ _ Hl). rewrite keep_live_lookup. done.
  - destruct (wf_by_token _ Hwf _ _ Hl). rewrite keep_live_lookup. done.
Qed.

Lemma purge_by_host now b h l :
  book_wf b → lb_by_host (purge_unlocked now b) !! h = Some l ↔ lb_by_host b !! h = Some l ∧ live now l.
Proof. intros Hwf. rewrite purge_spec by done. apply keep_live_lookup. Qed.

Lemma purge_by_token now b t l :
  book_wf b → lb_by_token (purge_unlocked now b) !! t = Some l ↔ lb_by_token b !! t = Some l ∧ live now l.
Proof. intros Hwf. rewrite purge_spec by done. apply keep_live_lookup. Qed.

Create HintDb leases.
#[export] Hint Resolve book_wf_new purge_wf drop_wf store_fresh_wf : leases.

(** ** What each operation does *)

Lemma live_unlocked_spec t now b l b' :
  live_unlocked t now b = (Ret l, b') ↔ b' = b ∧ lb_by_token b !! t = Some l ∧ live now l.
Proof.
  unfold live_unlocked, live. destruct (lb_by_token b !! t) as [l'|]; [|naive_solver].
  destruct (has_ended now l') eqn:E; [naive_solver congruence|]. naive_solver.
Qed.

(** The state after a failed lookup: unchanged, or without the ended lease. *)
Lemma live_unlocked_state t now b :
  (live_unlocked t now b).2 = b ∨
  ∃ l, lb_by_token b !! t = Some l ∧ has_ended now l = true ∧ (live_unlocked t now b).2 = drop_unlocked l b.
Proof.
  unfold live_unlocked. destruct (lb_by_token b !! t) as [l|]; [|by left].
  destruct (has_ended now l) eqn:E; [right; eauto|by left].
Qed.

Section reserve.
Context (cfg : LeaseSettings).

Lemma refuse_if_false {A} hosts reason (k : unit → book_prog A) b :
  (refuse_if false hosts reason ≫= k) b = k () b.
Proof. done. Qed.

(** What a granted reservation guarantees about the book [b] it was granted on (the
    purged one). *)
Record granted (hosts : list ReservableHost) (model : option string) (holder token : string)
    (c : timedelta) (now : datetime) (b : NodeLeaseBook) (h : ReservableHost)
    (l : NodeLease) (b' : NodeLeaseBook) : Prop := {
  gr_free : lb_by_host b !! rh_host_id h = None;
  gr_serves : serves model h = true;
  gr_active : rh_healthy h = true → (ls_min_active_nodes cfg ≤ active_count b hosts - 1)%Z;
  gr_lease : l = new_lease cfg (rh_host_id h) holder token c now;
  gr_book : b' = store_lease l b;
}.

Lemma reserve_specific_inv h hosts holder model c now token b l b' :
  reserve_specific cfg h hosts holder model c now token b = (Ret l, b') ↔
  granted hosts model holder token c now b h l b'.
Proof.
  unfold reserve_specific, refuse_if, refuse, grant, mbind, prog_bind, get, mret, prog_ret.
  assert (Hs : bool_decide (is_Some model) && negb (rh_serves_requested_model h) = negb (serves model h)).
  { by destruct model. }
  rewrite Hs. destruct (serves model h) eqn:Es; simpl;
    [|split; [done|intros [? Hs' _ _ _]; congruence]].
  destruct (lb_by_host b !! rh_host_id h) eqn:Eh; simpl;
    [split; [done|intros [? _ _ _ _]; congruence]|].
  destruct (rh_healthy h) eqn:Hh; simpl.
  - destruct (Z.ltb_spec (active_count b hosts - 1) (ls_min_active_nodes cfg)); simpl.
    + split; [done|]. intros [_ _ Ha _ _]. specialize (Ha Hh). lia.
    + split; [intros [= <- <-]; by split|by intros [_ _ _ -> ->]].
  - split; [intros [= <- <-]; split; congruence|by intros [_ _ _ -> ->]].
Qed.

Definition eligible (hosts : list ReservableHost) (model : option string) (b : NodeLeaseBook)
    (h : ReservableHost) : Prop :=
  h ∈ hosts ∧ serves model h = true ∧ lb_by_host b !! rh_host_id h = None ∧ rh_healthy h = true.

Lemma reserve_any_pool hosts model b h :
  h ∈ filter (λ h, rh_healthy h = true) (filter (λ h, is_free b h = true)
    (filter (λ h, serves model h = true) hosts)) ↔ eligible hosts model b h.
Proof.
  rewrite !list_elem_of_filter. unfold eligible, is_free. rewrite bool_decide_eq_true. tauto.
Qed.

#[local] Instance host_id_le_total : Total host_id_le.
Proof. intros x y. unfold host_id_le. apply total, _. Qed.

#[local] Instance host_id_le_trans : Transitive host_id_le.
Proof. intros x y z. unfold host_id_le. apply transitivity. Qed.

Lemma reserve_any_inv hosts holder model c now token b l b' :
  reserve_any cfg hosts holder model c now token b = (Ret l, b') →
  ∃ h, eligible hosts model b h ∧ (∀ h', eligible hosts model b h' → host_id_le h h') ∧
    granted hosts model holder token c now b h l b'.
Proof.
  unfold reserve_any, refuse_if, refuse, grant, mbind, prog_bind, get, mret, prog_ret. simpl.
  case_bool_decide; [done|]. case_bool_decide; [done|].
  destruct (sort_by _ _) as [|h hs] eqn:E; [done|].
  destruct (Z.ltb_spec 0 (active_count b hosts - ls_min_active_nodes cfg)); [|done].
  intros [= <- <-]. apply sort_by_head in E as [Hin Hmin]; [|apply _..].
  apply reserve_any_pool in Hin. exists h. split_and!; [done| |].
  - intros h' Hh'%reserve_any_pool. destruct (Hmin h' Hh') as [->|]; [|done].
    unfold host_id_le. reflexivity.
  - destruct Hin as (? & ? & ? & ?). split; [done..| | |]; [lia|done|done].
Qed.

Lemma reserve_any_complete hosts holder model c now token b h :
  eligible hosts model b h → (ls_min_active_nodes cfg < active_count b hosts)%Z →
  ∃ l b', reserve_any cfg hosts holder model c now token b = (Ret l, b').
Proof.
  intros Hel Hspare. pose proof Hel as (Hin & Hserves & Hfree & Hh).
  unfold reserve_any, refuse_if, refuse, grant, mbind, prog_bind, get, mret, prog_ret. simpl.
  assert (Hm : h ∈ filter (λ h, serves model h = true) hosts) by (by apply list_elem_of_filter).
  assert (Hf : h ∈ filter (λ h, is_free b h = true) (filter (λ h, serves model h = true) hosts)).
  { apply list_elem_of_filter. split; [|done]. unfold is_free. by apply bool_decide_eq_true. }
  rewrite bool_decide_false by (intros E; rewrite E in Hm; by apply not_elem_of_nil in Hm).
  simpl. rewrite bool_decide_false by (intros E; rewrite E in Hf; by apply not_elem_of_nil in Hf).
  simpl. destruct (sort_by _ _) as [|h' hs] eqn:E.
  - apply sort_by_nil in E. apply reserve_any_pool in Hel. rewrite E in Hel.
    by apply not_elem_of_nil in Hel.
  - destruct (Z.ltb_spec 0 (active_count b hosts - ls_min_active_nodes cfg)); [eauto|lia].
Qed.
End reserve.

(** *** [reserve] as a whole *)

Lemma known_host (hosts : list ReservableHost) id h :
  d_get (d_of_list ((λ h, (rh_host_id h, h)) <$> hosts)) id = Some h → h ∈ hosts ∧ rh_host_id h = id.
Proof.
  assert (H : ∀ ps (d : dict string ReservableHost) (P : string → ReservableHost → Prop),
    (∀ k v, d_get d k = Some v → P k v) → Forall (λ p, P p.1 p.2) ps →
    ∀ k v, d_get (foldl (λ d p, d_set d p.1 p.2) d ps) k = Some v → P k v).
  { induction ps as [|[k0 v0] ps IH]; intros d P Hd Hps; simpl; [done|].
    apply Forall_cons in Hps as [H0 Hps]. apply IH; [|done].
    intros k v. rewrite d_get_set. case_decide; [intros; by simplify_eq|apply Hd]. }
  intros Hg. apply (H _ [] (λ k v, v ∈ hosts ∧ rh_host_id v = k)) in Hg; [done|done|].
  apply Forall_fmap, Forall_forall. simpl. done.
Qed.

Definition reserve_pick (hosts : list ReservableHost) (host_id model : option string)
    (b : NodeLeaseBook) (h : ReservableHost) : Prop :=
  match host_id with
  | Some id => rh_host_id h = id
  | None => eligible hosts model b h ∧ ∀ h', eligible hosts model b h' → host_id_le h h'
  end.

Lemma reserve_inv cfg holder hosts host_id model ceiling now token b l b' :
  reserve cfg holder hosts host_id model ceiling now token b = (Ret l, b') →
  let c := default (ls_default_ceiling cfg) ceiling in
  str_strip holder ≠ "" ∧ (0 < c ≤ ls_max_ceiling cfg)%Z ∧
  ∃ h, h ∈ hosts ∧ reserve_pick hosts host_id model (purge_unlocked now b) h ∧
    granted cfg hosts model (str_strip holder) token c now (purge_unlocked now b) h l b'.
Proof.
  unfold reserve. cbv zeta. set (c := default _ _).
  case_bool_decide as Hn; [done|].
  destruct (Z.leb_spec c 0); [done|]. destruct (Z.ltb_spec (ls_max_ceiling cfg) c); [done|].
  unfold mbind at 1, prog_bind at 1, modify. intros H1. split; [done|]. split; [lia|].
  destruct host_id as [id|].
  - destruct (d_get _ id) as [h|] eqn:E; [|done]. apply known_host in E as [Hin Hid].
    apply reserve_specific_inv in H1. exists h. done.
  - apply reserve_any_inv in H1 as (h & Hel & Hmin & Hg). exists h. split; [by apply Hel|]. done.
Qed.

(** An operation that leaves the state alone when it raises, and one that never
    changes it. *)
Definition fails_clean {A} (m : book_prog A) : Prop := ∀ b e b', m b = (Raise e, b') → b' = b.
Definition pure_prog {A} (m : book_prog A) : Prop := ∀ b, (m b).2 = b.

Lemma fails_clean_bind {A B} (m : book_prog A) (k : A → book_prog B) :
  pure_prog m → (∀ a, fails_clean (k a)) → fails_clean (m ≫= k).
Proof.
  intros Hm Hk b e b'. specialize (Hm b). unfold mbind, prog_bind.
  destruct (m b) as [[a|e0] b1]; simpl in Hm; subst; [apply Hk|by intros [= _ <-]].
Qed.

Lemma fails_clean_pure {A} (m : book_prog A) : pure_prog m → fails_clean m.
Proof. intros Hm b e b' E. specialize (Hm b). by rewrite E in Hm. Qed.

Lemma pure_refuse_if c hosts reason : pure_prog (refuse_if c hosts reason).
Proof. by destruct c. Qed.

Lemma reserve_specific_clean cfg h hosts holder model c now token :
  fails_clean (reserve_specific cfg h hosts holder model c now token).
Proof.
  unfold reserve_specific. apply fails_clean_bind; [done|intros b].
  apply fails_clean_bind; [apply pure_refuse_if|intros _].
  destruct (lb_by_host b !! rh_host_id h); [by apply fails_clean_pure|].
  apply fails_clean_bind; [apply pure_refuse_if|by intros _ ???].
Qed.

Lemma reserve_any_clean cfg hosts holder model c now token :
  fails_clean (reserve_any cfg hosts holder model c now token).
Proof.
  unfold reserve_any. apply fails_clean_bind; [done|intros b].
  apply fails_clean_bind; [apply pure_refuse_if|intros _].
  apply fails_clean_bind; [apply pure_refuse_if|intros _].
  destruct (sort_by _ _); [by apply fails_clean_pure|].
  destruct (_ <? _)%Z; [by intros ???|by apply fails_clean_pure].
Qed.

(** What [reserve_any] raises is a refusal. *)
Lemma reserve_any_refused cfg hosts holder model c now token b e b' :
  reserve_any cfg hosts holder model c now token b = (Raise e, b') → ∃ m, e = LeaseRefusedError m.
Proof.
  unfold reserve_any, refuse_if, refuse, grant, mbind, prog_bind, get, mret, prog_ret, raise. simpl.
  repeat case_bool_decide; simpl; try (intros [= <- _]; by eexists).
  destruct (sort_by _ _); [intros [= <- _]; by eexists|]. destruct (_ <? _)%Z; [done|intros [= <- _]; by eexists].
Qed.

(** A reservation that fails leaves the book as it was, or purged. *)
Lemma reserve_fail_state cfg holder hosts host_id model ceiling now token b e b' :
  reserve cfg holder hosts host_id model ceiling now token b = (Raise e, b') →
  b' = b ∨ b' = purge_unlocked now b.
Proof.
  unfold reserve. cbv zeta. case_bool_decide; [intros [= <- <-]; by left|].
  destruct (_ <=? 0)%Z; [intros [= <- <-]; by left|].
  destruct (_ <? _)%Z; [intros [= <- <-]; by left|].
  unfold mbind at 1, prog_bind at 1, modify. intros H1. right. revert H1.
  destruct host_id as [id|]; [destruct (d_get _ id) as [h|]; [|by intros [= _ <-]]|].
  - apply reserve_specific_clean.
  - apply reserve_any_clean.
Qed.

(** ** Traces *)

Inductive book_op :=
  | BReserve (holder : string) (hosts : list ReservableHost) (host_id model : option string)
      (ceiling : option timedelta) (now : datetime) (token : string)
  | BRequire (token : string) (now : datetime)
  | BIsHeld (host_id : string) (now : datetime)
  | BHeartbeat (token : string) (now : datetime)
  | BRelease (token : string) (now : datetime)
  | BForceRelease (host_id : string) (now : datetime)
  | BView (host_id : string) (now : datetime).

Definition run_book_op (cfg : LeaseSettings) (b : NodeLeaseBook) (o : book_op) : NodeLeaseBook :=
  match o with
  | BReserve holder hosts host_id model ceiling now token =>
      (reserve cfg holder hosts host_id model ceiling now token b).2
  | BRequire token now => (require token now b).2
  | BIsHeld host_id now => (is_held host_id now b).2
  | BHeartbeat token now => (heartbeat cfg token now b).2
  | BRelease token now => (release token now b).2
  | BForceRelease host_id now => (force_release host_id now b).2
  | BView host_id now => (view cfg host_id now b).2
  end.

(** [secrets.token_urlsafe(32)] does not return a token that is already in the book. *)
Definition fresh_token (b : NodeLeaseBook) (o : book_op) : Prop :=
  match o with BReserve _ _ _ _ _ _ token => lb_by_token b !! token = None | _ => True end.

Inductive reachable (cfg : LeaseSettings) : NodeLeaseBook → Prop :=
  | reachable_new : reachable cfg NodeLeaseBook_new
  | reachable_step b o :
      reachable cfg b → fresh_token b o → reachable cfg (run_book_op cfg b o).

Section invariant.
Context (cfg : LeaseSettings).

Lemma inv_drop b l : book_inv cfg b → lb_by_host b !! nl_host_id l = Some l → book_inv cfg (drop_unlocked l b).
Proof.
  intros [Hwf Hok] Hl. split; [by apply drop_wf|]. by apply map_Forall_delete.
Qed.

Lemma inv_purge b now : book_inv cfg b → book_inv cfg (purge_unlocked now b).
Proof.
  intros [Hwf Hok]. split; [by apply purge_wf|].
  intros h l [Hl _]%purge_by_host; [|done]. by apply (Hok h).
Qed.

Lemma inv_grant b h holder token c now :
  book_inv cfg b → (0 < c ≤ ls_max_ceiling cfg)%Z →
  lb_by_host b !! h = None → lb_by_token b !! token = None →
  book_inv cfg (store_lease (new_lease cfg h holder token c now) b).
Proof.
  intros [Hwf Hok] Hc Hh Ht. split; [by apply store_fresh_wf|].
  apply map_Forall_insert_2; [|done]. unfold lease_ok, new_lease. simpl. lia.
Qed.

Lemma inv_renew b l now :
  book_inv cfg b → lb_by_host b !! nl_host_id l = Some l →
  book_inv cfg (store_lease (renew cfg now l) b).
Proof.
  intros [Hwf Hok] Hl. split; [by eapply store_same_wf|].
  apply map_Forall_insert_2; [|done]. pose proof (Hok _ _ Hl) as Hl'.
  unfold lease_ok, renew in *. simpl. lia.
Qed.

Lemma fresh_purged b token now :
  book_wf b → lb_by_token b !! token = None → lb_by_token (purge_unlocked now b) !! token = None.
Proof.
  intros Hwf Ht. apply eq_None_not_Some. intros [l [Hl _]%purge_by_token]; [congruence|done].
Qed.

Lemma token_host b t l : book_wf b → lb_by_token b !! t = Some l → lb_by_host b !! nl_host_id l = Some l.
Proof. intros Hwf Ht. by apply (wf_by_token _ Hwf t). Qed.

Lemma inv_live b token now : book_inv cfg b → book_inv cfg (live_unlocked token now b).2.
Proof.
  intros Hinv. destruct (live_unlocked_state token now b) as [->|(l & Ht & _ & ->)]; [done|].
  eapply inv_drop; [done|]. eapply token_host; [apply Hinv|done].
Qed.

Lemma inv_step b o : book_inv cfg b → fresh_token b o → book_inv cfg (run_book_op cfg b o).
Proof.
  intros Hinv. pose proof Hinv as [Hwf _].
  destruct o as [holder hosts id model ceiling now token|t now|h now|t now|t now|h now|h now]; simpl.
  - intros Hfresh.
    destruct (reserve cfg holder hosts id model ceiling now token b) as [[l|e] b'] eqn:E; simpl.
    + apply reserve_inv in E as (_ & Hc & h & _ & _ & [Hfree _ _ -> ->]).
      apply inv_grant; [by apply inv_purge|done..|]. by apply fresh_purged.
    + apply reserve_fail_state in E as [->| ->]; [done|]. by apply inv_purge.
  - intros _. by apply inv_live.
  - intros _. unfold is_held. destruct (lb_by_host b !! h) as [l|] eqn:E; [|done].
    destruct (has_ended now l); [|done]. apply inv_drop; [done|].
    by destruct (wf_by_host _ Hwf _ _ E) as [-> _].
  - intros _. unfold heartbeat, mbind, prog_bind, modify, mret, prog_ret.
    pose proof (inv_live b t now Hinv) as Hl.
    destruct (live_unlocked t now b) as [[l|e] b'] eqn:E; simpl in *; [|done].
    apply live_unlocked_spec in E as (-> & Ht & _). apply inv_renew; [done|]. by eapply token_host.
  - intros _. unfold release, mbind, prog_bind, modify, mret, prog_ret.
    pose proof (inv_live b t now Hinv) as Hl.
    destruct (live_unlocked t now b) as [[l|e] b'] eqn:E; simpl in *; [|done].
    apply live_unlocked_spec in E as (-> & Ht & _). apply inv_drop; [done|]. by eapply token_host.
  - intros _. unfold force_release, mbind, prog_bind, modify, get, mret, prog_ret. simpl.
    pose proof (inv_purge b now Hinv) as Hp.
    destruct (lb_by_host (purge_unlocked now b) !! h) as [l|] eqn:E; simpl; [|done].
    apply inv_drop; [done|]. destruct Hp as [Hpwf _]. by destruct (wf_by_host _ Hpwf _ _ E) as [-> _].
  - intros _. unfold view. destruct (lb_by_host b !! h) as [l|] eqn:E; [|done].
    destruct (has_ended now l); [|done]. apply inv_drop; [done|].
    by destruct (wf_by_host _ Hwf _ _ E) as [-> _].
Qed.

Lemma reachable_inv b : reachable cfg b → book_inv cfg b.
Proof.
  induction 1 as [|b o _ IH Hf]; [|by apply inv_step].
  split; [apply book_wf_new|apply map_Forall_empty].
Qed.
End invariant.

#[export] Hint Resolve reachable_inv inv_drop inv_purge inv_grant inv_renew inv_live : leases.

(** ** Looking drops only what has ended *)

(** The book is still well formed and the leases that have not ended are the same. *)
Definition same_live (now : datetime) (b b' : NodeLeaseBook) : Prop :=
  book_wf b → book_wf b' ∧ purge_unlocked now b' = purge_unlocked now b.

#[export] Instance same_live_preorder now : PreOrder (same_live now).
Proof.
  split; [by intros b|]. intros b1 b2 b3 H12 H23 Hwf.
  destruct (H12 Hwf) as [Hwf2 E12]. destruct (H23 Hwf2) as [Hwf3 E23]. split; [done|congruence].
Qed.

Lemma same_live_drop now b l :
  lb_by_host b !! nl_host_id l = Some l → has_ended now l = true → same_live now b (drop_unlocked l b).
Proof.
  intros Hl He Hwf. pose proof (drop_wf b l Hwf Hl) as Hwf'. split; [done|].
  rewrite !purge_spec by done. unfold keep_live, drop_unlocked. simpl. f_equal.
  - apply map_filter_delete_not. intros l' Hl'. simpl. unfold live. congruence.
  - apply map_filter_delete_not. intros l' Hl'. simpl. unfold live.
    destruct (wf_by_host _ Hwf _ _ Hl) as [_ Ht]. congruence.
Qed.

Lemma is_held_look h now b : same_live now b (is_held h now b).2.
Proof.
  intros Hwf. unfold is_held. destruct (lb_by_host b !! h) as [l|] eqn:E; [|done].
  destruct (has_ended now l) eqn:Ee; [|done].
  destruct (wf_by_host _ Hwf _ _ E) as [<- _]. by apply same_live_drop.
Qed.

Lemma require_look t now b : same_live now b (require t now b).2.
Proof.
  intros Hwf. unfold require. destruct (live_unlocked_state t now b) as [->|(l & Ht & He & ->)]; [done|].
  destruct (wf_by_token _ Hwf _ _ Ht) as [_ Hh]. by apply same_live_drop.
Qed.

Lemma is_held_purge h now b :
  book_wf b → (is_held h now b).1 = false ↔ lb_by_host (purge_unlocked now b) !! h = None.
Proof.
  intros Hwf. unfold is_held. rewrite eq_None_not_Some. unfold is_Some.
  setoid_rewrite (purge_by_host now b h); [|done].
  destruct (lb_by_host b !! h) as [l|] eqn:E; [|split; [intros _ (? & ? & ?); congruence|done]].
  unfold live. destruct (has_ended now l) eqn:Ee; simpl.
  - split; [|done]. intros _ (? & [= <-] & ?). congruence.
  - split; [done|]. intros Hn. exfalso. apply Hn. by exists l.
Qed.

(** ** Routing keeps its minimum *)

Lemma active_count_cons b h hosts :
  active_count b (h :: hosts) = ((if rh_healthy h && is_free b h then 1 else 0) + active_count b hosts)%Z.
Proof.
  unfold active_count. rewrite filter_cons. unfold andb.
  destruct (rh_healthy h), (is_free b h); case_decide; cbn [length]; try lia; naive_solver.
Qed.

Lemma active_count_nonneg b hosts : (0 ≤ active_count b hosts)%Z.
Proof. unfold active_count. lia. Qed.

Lemma is_free_store l b h :
  is_free (store_lease l b) h = is_free b h && negb (bool_decide (rh_host_id h = nl_host_id l)).
Proof.
  unfold is_free, store_lease. simpl. rewrite <-bool_decide_not, <-bool_decide_and.
  apply bool_decide_ext. rewrite lookup_insert_None. split; intros [? ?]; split; congruence.
Qed.

(** A lease on a host outside [hosts] does not change the count. *)
Lemma active_count_store_other l b hosts :
  nl_host_id l ∉ rh_host_id <$> hosts → active_count (store_lease l b) hosts = active_count b hosts.
Proof.
  induction hosts as [|h hosts IH]; [done|]. rewrite fmap_cons, not_elem_of_cons. intros [Hne Hni].
  rewrite !active_count_cons, IH, is_free_store, bool_decide_false by done.
  by rewrite andb_true_r.
Qed.

Lemma active_count_store l b hosts h :
  NoDup (rh_host_id <$> hosts) → h ∈ hosts → nl_host_id l = rh_host_id h → is_free b h = true →
  active_count (store_lease l b) hosts = (active_count b hosts - (if rh_healthy h then 1 else 0))%Z.
Proof.
  induction hosts as [|k hosts IH]; intros Hnd Hin El Hfree; [by apply not_elem_of_nil in Hin|].
  rewrite fmap_cons, NoDup_cons in Hnd. destruct Hnd as [Hni Hnd].
  rewrite !active_count_cons, is_free_store. apply elem_of_cons in Hin as [->|Hin].
  - rewrite active_count_store_other by congruence.
    rewrite bool_decide_true, Hfree by done. destruct (rh_healthy k); simpl; lia.
  - rewrite IH by done. rewrite bool_decide_false; [|intros E; apply Hni; rewrite E, El].
    + rewrite andb_true_r. lia.
    + by apply list_elem_of_fmap_2.
Qed.

(** ** Histories of one token *)

(** No later [reserve] draws the token [t] again. *)
Definition no_reissue (t : string) (o : book_op) : Prop :=
  match o with BReserve _ _ _ _ _ _ token => token ≠ t | _ => True end.

(** Every lease under token [t] satisfies [P]. *)
Definition token_pred (t : string) (P : NodeLease → Prop) (b : NodeLeaseBook) : Prop :=
  ∀ l, lb_by_token b !! t = Some l → P l.

Section token.
Context (cfg : LeaseSettings) (t : string) (P : NodeLease → Prop).
Hypothesis renewed : ∀ now l, P l → P (renew cfg now l).

Lemma token_drop b l : token_pred t P b → token_pred t P (drop_unlocked l b).
Proof. intros HP k Hk. simpl in Hk. apply lookup_delete_Some in Hk as [_ Hk]. by apply HP. Qed.

Lemma token_purge b now : book_wf b → token_pred t P b → token_pred t P (purge_unlocked now b).
Proof. intros Hwf HP l [Hl _]%purge_by_token; [|done]. by apply HP. Qed.

Lemma token_live b u now : token_pred t P b → token_pred t P (live_unlocked u now b).2.
Proof.
  intros HP. destruct (live_unlocked_state u now b) as [->|(l & _ & _ & ->)]; [done|].
  by apply token_drop.
Qed.

Lemma token_step b o :
  book_wf b → no_reissue t o → token_pred t P b → token_pred t P (run_book_op cfg b o).
Proof.
  intros Hwf Hno HP.
  destruct o as [holder hosts id model ceiling now token|u now|h now|u now|u now|h now|h now]; simpl in *.
  - destruct (reserve cfg holder hosts id model ceiling now token b) as [[l|e] b'] eqn:E; simpl.
    + apply reserve_inv in E as (_ & _ & h & _ & _ & [_ _ _ -> ->]).
      intros l Hl. simpl in Hl. apply lookup_insert_Some in Hl as [[? _]|[_ Hl]]; [done|]. by eapply token_purge.
    + apply reserve_fail_state in E as [->| ->]; [done|]. by apply token_purge.
  - by apply token_live.
  - unfold is_held. destruct (lb_by_host b !! h) as [l|]; [|done].
    destruct (has_ended now l); [|done]. by apply token_drop.
  - unfold heartbeat, mbind, prog_bind, modify, mret, prog_ret. pose proof (token_live b u now HP).
    destruct (live_unlocked u now b) as [[l|e] b'] eqn:E; simpl in *; [|done].
    apply live_unlocked_spec in E as (-> & Hl & _).
    intros k Hk. simpl in Hk. apply lookup_insert_Some in Hk as [[Et <-]|[_ Hk]]; [|by apply HP].
    simpl in Et. apply renewed, HP. destruct (wf_by_token _ Hwf _ _ Hl). congruence.
  - unfold release, mbind, prog_bind, modify, mret, prog_ret. pose proof (token_live b u now HP).
    destruct (live_unlocked u now b) as [[l|e] b'] eqn:E; simpl in *; [|done]. by apply token_drop.
  - unfold force_release, mbind, prog_bind, modify, get, mret, prog_ret. simpl.
    pose proof (token_purge b now Hwf HP).
    destruct (lb_by_host (purge_unlocked now b) !! h) as [l|]; simpl; [by apply token_drop|done].
  - unfold view. destruct (lb_by_host b !! h) as [l|]; [|done].
    destruct (has_ended now l); [|done]. by apply token_drop.
Qed.

(** [os] runs from [b] with fresh tokens, none of them [t]. *)
Fixpoint history (b : NodeLeaseBook) (os : list book_op) : Prop :=
  match os with
  | [] => True
  | o :: os => fresh_token b o ∧ no_reissue t o ∧ history (run_book_op cfg b o) os
  end.

Lemma token_history b os :
  book_inv cfg b → history b os → token_pred t P b →
  book_inv cfg (foldl (run_book_op cfg) b os) ∧ token_pred t P (foldl (run_book_op cfg) b os).
Proof.
  revert b. induction os as [|o os IH]; intros b Hinv Hh HP; [done|].
  destruct Hh as (Hf & Hno & Hh). cbn [foldl]. apply IH; [by apply inv_step|done|].
  apply token_step; [apply Hinv|done..].
Qed.
End token.

Lemma is_held_false b h now :
  book_wf b → lb_by_host (purge_unlocked now b) !! h = None → (is_held h now b).1 = false.
Proof.
  intros Hwf Hn. unfold is_held. destruct (lb_by_host b !! h) as [l|] eqn:E; [|done].
  destruct (has_ended now l) eqn:Ee; [done|].
  assert (lb_by_host (purge_unlocked now b) !! h = Some l) by (by apply purge_by_host).
  congruence.
Qed.

Lemma release_drops t now b l b' :
  book_wf b → release t now b = (Ret l, b') → lb_by_token b' !! t = None.
Proof.
  intros Hwf. unfold release, mbind, prog_bind, modify, mret, prog_ret.
  destruct (live_unlocked t now b) as [[k|e] b1] eqn:E; [|done]. intros [= <- <-].
  apply live_unlocked_spec in E as (-> & Ht & _). simpl.
  destruct (wf_by_token _ Hwf _ _ Ht) as [<- _]. by rewrite lookup_delete_eq.
Qed.

Lemma force_release_drops h now b l b' :
  force_release h now b = (Ret l, b') → lb_by_token b' !! nl_token l = None.
Proof.
  unfold force_release, mbind, prog_bind, modify, get, mret, prog_ret, raise. simpl.
  destruct (lb_by_host _ !! h) as [k|]; [|done]. intros [= <- <-]. simpl. by rewrite lookup_delete_eq.
Qed.

(** ** Properties *)

Definition node (id : string) (healthy : bool) : ReservableHost :=
  {| rh_host_id := id; rh_status := if healthy then "online" else "offline"; rh_healthy := healthy;
     rh_serves_requested_model := true |}.

Definition three_nodes : list ReservableHost := [node "c" true; node "a" true; node "b" false].

Lemma three_nodes_NoDup : NoDup (rh_host_id <$> three_nodes).
Proof. vm_decide. Qed.

Definition sample_lease : NodeLease := new_lease default_lease_settings "a" "alice" "tok-1" (td_hours 3) 0.
Definition sample_book : NodeLeaseBook := store_lease sample_lease NodeLeaseBook_new.

Example sample_reserve :
  reserve default_lease_settings " alice " three_nodes None None None 0 "tok-1" NodeLeaseBook_new
    = (Ret sample_lease, sample_book).
Proof. by vm_compute. Qed.

Lemma sample_reachable : reachable default_lease_settings sample_book.
Proof.
  change sample_book with (Ret (E := lease_error) sample_lease, sample_book).2.
  rewrite <-sample_reserve.
  apply (reachable_step _ _ (BReserve " alice " three_nodes None None None 0 "tok-1")); [constructor|done].
Qed.

(** C9. Whatever sequence of operations a book went through, its two indexes are
    inverse to each other (each host has at most one lease, found under its own token)
    and no lease outlives its ceiling or the configured maximum. *)
Theorem book_invariant cfg b :
  reachable cfg b →
  book_wf b ∧ ∀ h l, lb_by_host b !! h = Some l → lease_ok cfg l.
Proof. intros Hr. by destruct (reachable_inv _ _ Hr). Qed.

Lemma book_invariant_witness :
  lb_by_host sample_book !! "a" ≠ None ∧ book_wf sample_book.
Proof.
  split; [by vm_compute|]. apply (book_invariant default_lease_settings), sample_reachable.
Defined.

(** A granted reservation takes a node that nobody held and that serves the
    requested model, stores the lease under the cleaned holder with the granted ceiling,
    and leaves at least the configured minimum of active nodes in routing (or as many as
    there were, when a node that was not healthy is taken). *)
Theorem reserve_grants cfg holder hosts host_id model ceiling now token b l b' :
  reachable cfg b → NoDup (rh_host_id <$> hosts) →
  reserve cfg holder hosts host_id model ceiling now token b = (Ret l, b') →
  ∃ h, h ∈ hosts ∧ nl_host_id l = rh_host_id h ∧ serves model h = true ∧
    (∀ id, host_id = Some id → rh_host_id h = id) ∧
    (is_held (rh_host_id h) now b).1 = false ∧
    nl_holder l = str_strip holder ∧ nl_token l = token ∧
    nl_hard_expires_at l = (now + default (ls_default_ceiling cfg) ceiling)%Z ∧
    lb_by_host b' !! nl_host_id l = Some l ∧ lb_by_token b' !! token = Some l ∧
    (Z.min (ls_min_active_nodes cfg) (active_count (purge_unlocked now b) hosts)
       ≤ active_count b' hosts)%Z.
Proof.
  intros Hr Hnd E. destruct (reachable_inv _ _ Hr) as [Hwf _].
  apply reserve_inv in E as (_ & _ & h & Hin & Hpick & [Hfree Hs Hact -> ->]).
  exists h. split_and!; try done.
  - by intros id ->.
  - by apply is_held_false.
  - simpl. by rewrite lookup_insert_eq.
  - simpl. by rewrite lookup_insert_eq.
  - rewrite (active_count_store _ _ _ h) by (try done; unfold is_free; by apply bool_decide_true).
    destruct (rh_healthy h); [specialize (Hact eq_refl)|]; lia.
Qed.

Lemma reserve_grants_witness :
  ∃ h, h ∈ three_nodes ∧ rh_host_id h = "a" ∧ (1 ≤ active_count sample_book three_nodes)%Z.
Proof.
  destruct (reserve_grants _ _ _ _ _ _ _ _ _ _ _ (reachable_new _) three_nodes_NoDup sample_reserve)
    as (h & Hin & Hid & _ & _ & _ & _ & _ & _ & _ & _ & Hmin).
  exists h. split; [done|]. split; [done|]. etrans; [|exact Hmin]. by vm_compute.
Defined.

(** C10. Asking for any node, under a holder that is not blank and with a ceiling the
    settings allow, succeeds exactly when some healthy free node serves the model and routing
    has a node to spare.  The lease granted is then on the eligible node with
    the smallest id, under the cleaned holder and with the ceiling asked for, and it is what the
    book stores; otherwise the request is refused and the book only loses what has ended. *)
Theorem reserve_any_exact cfg holder hosts model ceiling now token b :
  let c := default (ls_default_ceiling cfg) ceiling in
  let b0 := purge_unlocked now b in
  let spare := (ls_min_active_nodes cfg < active_count b0 hosts)%Z in
  str_strip holder ≠ "" → (0 < c ≤ ls_max_ceiling cfg)%Z →
  match reserve cfg holder hosts None model ceiling now token b with
  | (Ret l, b') =>
      spare ∧ ∃ h, eligible hosts model b0 h ∧ (∀ h', eligible hosts model b0 h' → host_id_le h h') ∧
        l = new_lease cfg (rh_host_id h) (str_strip holder) token c now ∧ b' = store_lease l b0
  | (Raise e, b') => (∃ m, e = LeaseRefusedError m) ∧ b' = b0 ∧ ¬ (spare ∧ ∃ h, eligible hosts model b0 h)
  end.
Proof.
  intros c b0 spare Hn Hc.
  assert (Hred : reserve cfg holder hosts None model ceiling now token b =
                 reserve_any cfg hosts (str_strip holder) model c now token b0).
  { unfold reserve. cbv zeta. rewrite bool_decide_false by done. fold c.
    destruct (Z.leb_spec c 0); [lia|]. by destruct (Z.ltb_spec (ls_max_ceiling cfg) c); [lia|]. }
  rewrite Hred. destruct (reserve_any cfg hosts (str_strip holder) model c now token b0) as [[l|e] b'] eqn:E.
  - apply reserve_any_inv in E as (h & Hel & Hmin & [_ _ Ha -> ->]).
    split; [|by exists h]. destruct Hel as (_ & _ & _ & Hh). specialize (Ha Hh). unfold spare. lia.
  - pose proof (reserve_any_clean _ _ _ _ _ _ _ _ _ _ E). apply reserve_any_refused in E as Hm.
    split_and!; [done..|]. intros [Hs [h Hel]].
    destruct (reserve_any_complete cfg hosts (str_strip holder) model c now token b0 h Hel Hs) as (l & b1 & E'). congruence.
Qed.

Lemma reserve_any_exact_witness :
  ∃ h, eligible three_nodes None (purge_unlocked 0 NodeLeaseBook_new) h ∧ rh_host_id h = "a".
Proof.
  pose proof (reserve_any_exact default_lease_settings "alice" three_nodes None None 0 "tok-1"
              NodeLeaseBook_new ltac:(by vm_compute) ltac:(by vm_compute)) as H. cbv zeta in H.
  replace (reserve _ _ _ _ _ _ _ _ _) with
    (Ret (E := lease_error) sample_lease, sample_book) in H by (by vm_compute).
  destruct H as (_ & h & Hel & _ & Hl & _). exists h. split; [exact Hel|].
  apply (f_equal nl_host_id) in Hl. symmetry. exact Hl.
Defined.

(** A ceiling is hard: after a reservation, however often its token is renewed and
    whatever else happens, the token is refused from the ceiling on. *)
Theorem ceiling_is_hard cfg holder hosts host_id model ceiling now token b l b' os later :
  reachable cfg b → lb_by_token b !! token = None →
  reserve cfg holder hosts host_id model ceiling now token b = (Ret l, b') →
  history cfg token b' os →
  (now + default (ls_default_ceiling cfg) ceiling ≤ later)%Z →
  ∃ e, (require token later (foldl (run_book_op cfg) b' os)).1 = Raise e.
Proof.
  intros Hr Ht E Hh Hlater.
  assert (Hinv : book_inv cfg b').
  { replace b' with (run_book_op cfg b (BReserve holder hosts host_id model ceiling now token))
      by (simpl; by rewrite E).
    apply inv_step; [by apply reachable_inv|done]. }
  destruct (token_history cfg token
    (λ l, nl_hard_expires_at l = (now + default (ls_default_ceiling cfg) ceiling)%Z)
    ltac:(done) b' os Hinv Hh) as [_ HP].
  { apply reserve_inv in E as (_ & _ & h & _ & _ & [_ _ _ -> ->]).
    intros k. simpl. rewrite lookup_insert_eq. by intros [= <-]. }
  unfold require. destruct (live_unlocked token later _) as [[k|e] b2] eqn:Ek; [|by eexists].
  apply live_unlocked_spec in Ek as (_ & Hk%HP & Hlive). exfalso. revert Hlive.
  unfold live, has_ended. rewrite orb_false_iff, !Z.leb_gt. lia.
Qed.

(** One reservation renewed every two minutes to its ceiling of three hours. *)
Lemma ceiling_is_hard_witness :
  let os := (λ i, BHeartbeat "tok-1" (td_minutes (2 * Z.of_nat i))) <$> seq 1 89 in
  is_Some (lb_by_token (foldl (run_book_op default_lease_settings) sample_book os) !! "tok-1") ∧
  ∃ e, (require "tok-1" (td_hours 3)
          (foldl (run_book_op default_lease_settings) sample_book os)).1 = Raise e.
Proof.
  split; [vm_compute; by eexists|].
  eapply (ceiling_is_hard default_lease_settings " alice " three_nodes None None None 0 "tok-1"
            NodeLeaseBook_new); [constructor|done|apply sample_reserve| |by vm_compute].
  vm_compute. repeat split.
Defined.

(** Once its lease is released or taken back, a token never works again. *)
Theorem released_token_is_dead cfg b os t now l b' :
  reachable cfg b →
  release t now b = (Ret l, b') ∨
    (nl_token l = t ∧ force_release (nl_host_id l) now b = (Ret l, b')) →
  history cfg t b' os →
  ∀ later, (require t later (foldl (run_book_op cfg) b' os)).1
             = Raise (LeaseNotHeldError "lease token is not valid").
Proof.
  intros Hr Hrel Hh later. pose proof (reachable_inv _ _ Hr) as Hinv.
  assert (book_inv cfg b' ∧ lb_by_token b' !! t = None) as [Hinv' Hdead].
  { destruct Hrel as [E|[Et E]].
    - pose proof (inv_step cfg b (BRelease t now) Hinv I) as Hi. simpl in Hi. rewrite E in Hi.
      split; [done|]. eapply release_drops; [apply Hinv|done].
    - pose proof (inv_step cfg b (BForceRelease (nl_host_id l) now) Hinv I) as Hi. simpl in Hi.
      rewrite E in Hi. split; [done|]. subst t. by eapply force_release_drops. }
  destruct (token_history cfg t (λ _, False) (λ _ _ H, H) b' os Hinv' Hh) as [_ HP].
  { intros k Hk. congruence. }
  unfold require, live_unlocked.
  destruct (lb_by_token (foldl (run_book_op cfg) b' os) !! t) as [k|] eqn:Ek; [by apply HP in Ek|done].
Qed.

Lemma released_token_is_dead_witness :
  (require "tok-1" 0 sample_book).1 ≠ Raise (LeaseNotHeldError "lease token is not valid") ∧
  (require "tok-1" 0 (foldl (run_book_op default_lease_settings) (release "tok-1" 0 sample_book).2
     [BReserve "bob" three_nodes (Some "a") None None 0 "tok-2"; BHeartbeat "tok-1" 0])).1
    = Raise (LeaseNotHeldError "lease token is not valid").
Proof.
  split; [by vm_compute|].
  eapply (released_token_is_dead default_lease_settings sample_book _ "tok-1" 0).
  - apply sample_reachable.
  - left. reflexivity.
  - vm_compute. repeat split. discriminate.
Defined.

(** A node counts as held exactly when some token still opens it, so routing never
    avoids a node nobody can use and never sends work to a node somebody holds. *)
Theorem held_iff_usable cfg b host_id now :
  reachable cfg b →
  (is_held host_id now b).1 = true ↔
  ∃ t l, (require t now b).1 = Ret l ∧ nl_host_id l = host_id.
Proof.
  intros Hr. destruct (reachable_inv _ _ Hr) as [Hwf _]. split.
  - unfold is_held. destruct (lb_by_host b !! host_id) as [l|] eqn:E; [|done].
    destruct (has_ended now l) eqn:Ee; [done|]. intros _.
    destruct (wf_by_host _ Hwf _ _ E) as [<- Ht]. exists (nl_token l), l.
    split; [|done]. unfold require, live_unlocked. by rewrite Ht, Ee.
  - intros (t & l & Hl & <-). unfold require in Hl.
    destruct (live_unlocked t now b) as [o b'] eqn:E; simpl in Hl; subst o.
    apply live_unlocked_spec in E as (_ & Ht & Hlive).
    destruct (wf_by_token _ Hwf _ _ Ht) as [_ Hh]. unfold is_held. by rewrite Hh, Hlive.
Qed.

Lemma held_iff_usable_witness :
  ∃ t l, (require t 0 sample_book).1 = Ret l ∧ nl_host_id l = "a".
Proof.
  apply (held_iff_usable default_lease_settings).
  - apply sample_reachable.
  - by vm_compute.
Defined.
