(* ===== verification/Registry.v ===== *)
(** * Host registry ([registry/models.py], [registry/registry.py], [registry/store.py])

    [HostRegistry._hosts] maps a host id to a [HostInfo] object.  The objects are
    mutable and shared: [hosts()] and [get()] hand out references, [acquire_slot],
    [release_slot] and [heartbeat] mutate the object the id maps to at that moment, and
    [register] replaces it by a new object.  The model therefore has a heap of
    [HostInfo] objects ([hr_objs]) and maps ids to locations, so that a caller that keeps a
    reference across a [register] sees what the code sees.

    The SQLite table [hosts] is a dictionary of rows in row order, keyed by host id; the
    JSON columns hold the JSON values of [asdict].  The order in which a [SELECT] without
    [ORDER BY] gives the rows is an argument of [load_hosts]. *)

From S2P Require Import Prelude.
From S2P Require Import PyFloat.
From S2P Require Import PyDict.
From S2P Require Import PyJson.

(** ** Data *)

Record HostCapabilities := {
  backend_type : string;
  context_window : Z;
  base_url : string;
  allowed_models : option (list string);
  memory_budget_gb : option float;
  model_sizes_gb : option (gmap string float);
  model_aliases : option (gmap string (list string));
  position : option Z;
}.

Record HostCapacity := { max_concurrent_requests : Z }.

Record HostInfo := {
  host_id : string;
  capabilities : HostCapabilities;
  capacity : HostCapacity;
  in_flight : Z;
  last_seen : datetime;
}.

#[export] Instance HostCapabilities_eq_dec : EqDecision HostCapabilities.
Proof. solve_decision. Defined.
#[export] Instance HostCapacity_eq_dec : EqDecision HostCapacity.
Proof. solve_decision. Defined.
#[export] Instance HostInfo_eq_dec : EqDecision HostInfo.
Proof. solve_decision. Defined.

Inductive registry_error :=
  | HostNotRegisteredError (host_id : string)
  | HostKeyError (host_id : string).

(** ** The SQLite table *)

Record host_row := {
  row_capabilities : json;
  row_capacity : json;
  row_last_seen : datetime;
}.

(** [asdict(capabilities)] *)
Definition capabilities_to_json (c : HostCapabilities) : json :=
  JObj [("backend_type", to_json (backend_type c));
        ("context_window", to_json (context_window c));
        ("base_url", to_json (base_url c));
        ("allowed_models", to_json (allowed_models c));
        ("memory_budget_gb", to_json (memory_budget_gb c));
        ("model_sizes_gb", to_json (model_sizes_gb c));
        ("model_aliases", to_json (model_aliases c));
        ("position", to_json (position c))].

Definition capability_fields : list string :=
  ["backend_type"; "context_window"; "base_url"; "allowed_models"; "memory_budget_gb";
   "model_sizes_gb"; "model_aliases"; "position"].

(** [HostCapabilities( **json.loads(text))]: [None] stands for the [TypeError] on a missing
    or unknown field.  The dataclass does not check the type of a value; a value that the
    record has no place for is [None] here too.  [store_upsert], the only writer of the
    table, never stores one ([wf_rows]). *)
Definition capabilities_of_json (j : json) : option HostCapabilities :=
  if j_only_keys j capability_fields then
    backend_type ← j_field string j "backend_type";
    context_window ← j_field Z j "context_window";
    base_url ← j_field string j "base_url";
    allowed_models ← j_field_or None j "allowed_models";
    memory_budget_gb ← j_field_or None j "memory_budget_gb";
    model_sizes_gb ← j_field_or None j "model_sizes_gb";
    model_aliases ← j_field_or None j "model_aliases";
    position ← j_field_or None j "position";
    mret {| backend_type := backend_type; context_window := context_window;
            base_url := base_url; allowed_models := allowed_models;
            memory_budget_gb := memory_budget_gb; model_sizes_gb := model_sizes_gb;
            model_aliases := model_aliases; position := position |}
  else None.

Definition capacity_to_json (c : HostCapacity) : json :=
  JObj [("max_concurrent_requests", to_json (max_concurrent_requests c))].

Definition capacity_of_json (j : json) : option HostCapacity :=
  if j_only_keys j ["max_concurrent_requests"] then
    n ← j_field Z j "max_concurrent_requests";
    mret {| max_concurrent_requests := n |}
  else None.

Definition load_host (p : string * host_row) : option HostInfo :=
  c ← capabilities_of_json (row_capabilities p.2);
  n ← capacity_of_json (row_capacity p.2);
  mret {| host_id := p.1; capabilities := c; capacity := n; in_flight := 0;
          last_seen := row_last_seen p.2 |}.

(** [load_hosts]: a [SELECT] without [ORDER BY], so [select] gives the rows of the table in
    whatever order SQLite comes to them. *)
Definition load_hosts (select : dict string host_row → dict string host_row) (rows : dict string host_row)
    : option (list HostInfo) :=
  mapM load_host (select rows).

(** What SQLite documents of such a [SELECT]: each row once. *)
Definition selects_all (select : dict string host_row → dict string host_row) : Prop := ∀ rows, select rows ≡ₚ rows.

Definition store_upsert (rows : dict string host_row) (id : string) (c : HostCapabilities)
    (n : HostCapacity) (at_ : datetime) : dict string host_row :=
  d_set rows id {| row_capabilities := capabilities_to_json c;
                   row_capacity := capacity_to_json n; row_last_seen := at_ |}.

(** [UPDATE hosts SET last_seen = ? WHERE host_id = ?] touches nothing when no row matches. *)
Definition store_update_last_seen (rows : dict string host_row) (id : string) (at_ : datetime)
    : dict string host_row :=
  match d_get rows id with
  | None => rows
  | Some r => d_set rows id {| row_capabilities := row_capabilities r;
                               row_capacity := row_capacity r; row_last_seen := at_ |}
  end.

Definition store_delete (rows : dict string host_row) (id : string) : dict string host_row :=
  d_pop rows id.

(** ** The registry *)

Abbreviation loc := nat (only parsing).

Record HostRegistry := {
  hr_objs : gmap loc HostInfo;
  hr_next : loc;
  hr_hosts : dict string loc;
  hr_rows : dict string host_row;
}.

(** Allocate a [HostInfo] and bind its id. *)
Definition bind_host (r : HostRegistry) (h : HostInfo) : HostRegistry :=
  {| hr_objs := <[hr_next r := h]> (hr_objs r);
     hr_next := S (hr_next r);
     hr_hosts := d_set (hr_hosts r) (host_id h) (hr_next r);
     hr_rows := hr_rows r |}.

(** [__init__]: [None] when a stored row cannot be decoded.  A table has no order of its own;
    [hr_rows] lists its rows in the order they were read or inserted. *)
Definition HostRegistry_new (select : dict string host_row → dict string host_row) (rows : dict string host_row)
    : option HostRegistry :=
  infos ← load_hosts select rows;
  mret (foldl bind_host {| hr_objs := ∅; hr_next := 0; hr_hosts := []; hr_rows := select rows |} infos).

(** The object an id maps to now. *)
Definition lookup_host (r : HostRegistry) (id : string) : option HostInfo :=
  d_get (hr_hosts r) id ≫= λ l, hr_objs r !! l.

(** The objects behind [hosts()], in order, as they are now. *)
Definition host_infos (r : HostRegistry) : list HostInfo :=
  omap (λ l, hr_objs r !! l) (d_values (hr_hosts r)).

Definition with_objs (r : HostRegistry) (objs : gmap loc HostInfo) : HostRegistry :=
  {| hr_objs := objs; hr_next := hr_next r; hr_hosts := hr_hosts r; hr_rows := hr_rows r |}.

Definition with_rows (r : HostRegistry) (rows : dict string host_row) : HostRegistry :=
  {| hr_objs := hr_objs r; hr_next := hr_next r; hr_hosts := hr_hosts r; hr_rows := rows |}.

Definition add_in_flight (n : Z) (h : HostInfo) : HostInfo :=
  {| host_id := host_id h; capabilities := capabilities h; capacity := capacity h;
     in_flight := in_flight h + n; last_seen := last_seen h |}.

Definition set_last_seen (at_ : datetime) (h : HostInfo) : HostInfo :=
  {| host_id := host_id h; capabilities := capabilities h; capacity := capacity h;
     in_flight := in_flight h; last_seen := at_ |}.

Abbreviation reg_prog A := (prog HostRegistry registry_error A).

Definition register (id : string) (c : HostCapabilities) (n : HostCapacity) (at_ : datetime)
    (r : HostRegistry) : HostRegistry :=
  let r' := bind_host r
    {| host_id := id; capabilities := c; capacity := n;
       in_flight := match lookup_host r id with Some h => in_flight h | None => 0 end;
       last_seen := at_ |} in
  with_rows r' (store_upsert (hr_rows r') id c n at_).

(** [get]: a reference to the object. *)
Definition get_host (id : string) : reg_prog loc := λ r,
  match d_get (hr_hosts r) id with
  | None => (Raise (HostNotRegisteredError id), r)
  | Some l => (Ret l, r)
  end.

(** [hosts()]: references, in registration order. *)
Definition hosts (r : HostRegistry) : list loc := d_values (hr_hosts r).

(** [self._hosts[host_id].in_flight += n] *)
Definition adjust_slots (n : Z) (id : string) : reg_prog unit := λ r,
  match d_get (hr_hosts r) id with
  | None => (Raise (HostKeyError id), r)
  | Some l => (Ret tt, with_objs r (alter (add_in_flight n) l (hr_objs r)))
  end.

Definition get_in_flight (id : string) : reg_prog Z := λ r,
  match lookup_host r id with
  | None => (Raise (HostKeyError id), r)
  | Some h => (Ret (in_flight h), r)
  end.

Definition acquire_slot (id : string) : reg_prog unit := adjust_slots 1 id.
Definition release_slot (id : string) : reg_prog unit := adjust_slots (-1) id.

Definition heartbeat (id : string) (at_ : datetime) : reg_prog unit := λ r,
  match d_get (hr_hosts r) id with
  | None => (Raise (HostNotRegisteredError id), r)
  | Some l =>
      let r' := with_objs r (alter (set_last_seen at_) l (hr_objs r)) in
      (Ret tt, with_rows r' (store_update_last_seen (hr_rows r') id at_))
  end.

Definition deregister (id : string) (r : HostRegistry) : HostRegistry :=
  {| hr_objs := hr_objs r; hr_next := hr_next r; hr_hosts := d_pop (hr_hosts r) id;
     hr_rows := store_delete (hr_rows r) id |}.

(** ** Well-formedness *)

Definition row_of (h : HostInfo) : host_row :=
  {| row_capabilities := capabilities_to_json (capabilities h);
     row_capacity := capacity_to_json (capacity h);
     row_last_seen := last_seen h |}.

Record reg_wf (r : HostRegistry) : Prop := {
  wf_keys : NoDup (d_keys (hr_hosts r));
  wf_bound : ∀ id l, (id, l) ∈ hr_hosts r → ∃ h, hr_objs r !! l = Some h ∧ host_id h = id;
  wf_next : ∀ l, is_Some (hr_objs r !! l) → (l < hr_next r)%nat;
  (** the table holds exactly what the memory holds, in the same order *)
  wf_rows : d_map (λ l, row_of <$> hr_objs r !! l) (hr_hosts r) = d_map Some (hr_rows r);
}.

Lemma wf_get r id l :
  reg_wf r → d_get (hr_hosts r) id = Some l → ∃ h, hr_objs r !! l = Some h ∧ host_id h = id.
Proof. intros Hwf Hl. by apply (wf_bound _ Hwf), d_get_elem. Qed.

Lemma wf_lookup r id h :
  reg_wf r → lookup_host r id = Some h →
  ∃ l, d_get (hr_hosts r) id = Some l ∧ hr_objs r !! l = Some h ∧ host_id h = id.
Proof.
  intros Hwf. unfold lookup_host. destruct (d_get _ id) as [l|] eqn:E; [|done]. simpl.
  intros Hh. destruct (wf_get r id l Hwf E) as (h' & ? & ?). naive_solver.
Qed.

Lemma wf_lookup_None r id :
  reg_wf r → lookup_host r id = None ↔ d_get (hr_hosts r) id = None.
Proof.
  intros Hwf. unfold lookup_host. destruct (d_get _ id) as [l|] eqn:E; simpl; [|done].
  destruct (wf_get r id l Hwf E) as (h & -> & _). naive_solver.
Qed.

Lemma wf_fresh r : reg_wf r → hr_objs r !! hr_next r = None.
Proof.
  intros Hwf. destruct (hr_objs r !! hr_next r) eqn:E; [|done].
  assert (hr_next r < hr_next r)%nat by (eapply wf_next; eauto). lia.
Qed.

(** Distinct ids are bound to distinct objects. *)
Lemma wf_inj r id1 id2 l :
  reg_wf r → (id1, l) ∈ hr_hosts r → (id2, l) ∈ hr_hosts r → id1 = id2.
Proof.
  intros Hwf H1 H2.
  destruct (wf_bound _ Hwf _ _ H1) as (h1 & ? & <-), (wf_bound _ Hwf _ _ H2) as (h2 & ? & <-).
  congruence.
Qed.

Lemma wf_bound_lt r id l : reg_wf r → (id, l) ∈ hr_hosts r → (l < hr_next r)%nat.
Proof. intros Hwf Hin. destruct (wf_bound _ Hwf _ _ Hin) as (h & ? & _). by eapply wf_next; eauto. Qed.

Lemma row_of_add n h : row_of (add_in_flight n h) = row_of h.
Proof. done. Qed.

Section preservation.
Implicit Types r : HostRegistry.

Lemma d_set_elem {V} (d : dict string V) k v k' v' :
  (k', v') ∈ d_set d k v → (k', v') = (k, v) ∨ ((k', v') ∈ d).
Proof.
  induction d as [|[k1 v1] d IH]; simpl; [set_solver|].
  case_decide; rewrite !elem_of_cons; naive_solver.
Qed.

Lemma d_pop_elem {V} (d : dict string V) k p : p ∈ d_pop d k → p ∈ d.
Proof.
  induction d as [|[k1 v1] d IH]; simpl; [done|].
  case_decide; rewrite ?elem_of_cons; naive_solver.
Qed.

Lemma register_wf id c n at_ r : reg_wf r → reg_wf (register id c n at_ r).
Proof.
  intros Hwf. unfold register, bind_host, store_upsert.
  set (h := Build_HostInfo _ _ _ _ _). split; simpl.
  - by apply d_keys_set_NoDup, Hwf.
  - intros id' l [[= -> ->]|Hin]%d_set_elem; [exists h; by rewrite lookup_insert_eq|].
    pose proof (wf_bound_lt _ _ _ Hwf Hin). rewrite lookup_insert_ne by lia. by apply Hwf.
  - intros l [<-|[_ Hl]]%lookup_insert_is_Some; [lia|].
    pose proof (wf_next _ Hwf _ Hl). lia.
  - rewrite !d_map_set, lookup_insert_eq. simpl. f_equal.
    rewrite <-(wf_rows _ Hwf). apply d_map_ext. intros id' l Hin.
    pose proof (wf_bound_lt _ _ _ Hwf Hin). by rewrite lookup_insert_ne by lia.
Qed.

(** Mutating the object of [id] in place. *)
Lemma alter_wf f r l :
  (∀ h, host_id (f h) = host_id h) → reg_wf r →
  (∀ id l', (id, l') ∈ hr_hosts r → ∃ h, alter f l (hr_objs r) !! l' = Some h ∧ host_id h = id) ∧
  (∀ l', is_Some (alter f l (hr_objs r) !! l') → (l' < hr_next r)%nat).
Proof.
  intros Hf Hwf. split.
  - intros id l' Hin. destruct (wf_bound _ Hwf _ _ Hin) as (h & Hh & <-).
    rewrite lookup_alter. case_decide; subst; rewrite Hh; simpl; [exists (f h)|exists h]; by rewrite ?Hf.
  - intros l'. rewrite lookup_alter. case_decide; [|by apply Hwf].
    rewrite fmap_is_Some. subst. apply Hwf.
Qed.

Lemma adjust_slots_wf n id r : reg_wf r → reg_wf (adjust_slots n id r).2.
Proof.
  intros Hwf. unfold adjust_slots. destruct (d_get _ id) as [l|] eqn:E; [|done].
  destruct (alter_wf (add_in_flight n) r l (λ _, eq_refl) Hwf) as [Hb Hn].
  split; simpl; [by apply Hwf|done..|].
  rewrite <-(wf_rows _ Hwf). apply d_map_ext. intros id' l' _.
  rewrite lookup_alter. case_decide; [|done]. subst. by destruct (_ !! _).
Qed.

Lemma heartbeat_wf id at_ r : reg_wf r → reg_wf (heartbeat id at_ r).2.
Proof.
  intros Hwf. unfold heartbeat. destruct (d_get _ id) as [l|] eqn:E; [|done].
  destruct (alter_wf (set_last_seen at_) r l (λ _, eq_refl) Hwf) as [Hb Hn].
  destruct (wf_get _ _ _ Hwf E) as (h & Hh & Hid).
  split; simpl; [by apply Hwf|done..|].
  rewrite (d_map_update _ (λ l, row_of <$> hr_objs r !! l) _ id l); [|by apply Hwf|done|].
  - rewrite lookup_alter_eq, Hh. simpl. unfold store_update_last_seen.
    assert (d_get (hr_rows r) id = Some (row_of h)) as ->.
    { assert (H : d_get (d_map Some (hr_rows r)) id = Some (Some (row_of h))).
      { rewrite <-(wf_rows _ Hwf), d_get_map, E. simpl. by rewrite Hh. }
      rewrite d_get_map in H. by destruct (d_get (hr_rows r) id); simplify_eq/=. }
    rewrite d_map_set. f_equal. apply Hwf.
  - intros id' l' Hin Hne. rewrite lookup_alter_ne; [done|].
    intros <-. apply Hne. eapply wf_inj; [done..|]. by apply d_get_elem.
Qed.

Lemma deregister_wf id r : reg_wf r → reg_wf (deregister id r).
Proof.
  intros Hwf. split; simpl.
  - apply d_keys_pop_NoDup, Hwf.
  - intros id' l Hin%d_pop_elem. by apply Hwf.
  - apply Hwf.
  - unfold store_delete. by rewrite !d_map_pop, (wf_rows _ Hwf).
Qed.
End preservation.

Create HintDb registry.
#[export] Hint Resolve register_wf adjust_slots_wf heartbeat_wf deregister_wf : registry.

(** ** What each operation does to the hosts *)

Section lookups.
Implicit Types r : HostRegistry.

Definition new_info (id : string) (c : HostCapabilities) (n : HostCapacity) (at_ : datetime)
    (old : option HostInfo) : HostInfo :=
  {| host_id := id; capabilities := c; capacity := n;
     in_flight := match old with Some h => in_flight h | None => 0 end;
     last_seen := at_ |}.

Lemma lookup_register r id c n at_ id' :
  reg_wf r →
  lookup_host (register id c n at_ r) id' =
    if decide (id = id') then Some (new_info id c n at_ (lookup_host r id)) else lookup_host r id'.
Proof.
  intros Hwf. unfold register, bind_host, lookup_host. simpl. rewrite d_get_set.
  case_decide as Hid; simpl; [by rewrite lookup_insert_eq|].
  destruct (d_get (hr_hosts r) id') as [l|] eqn:E; simpl; [|done].
  pose proof (wf_bound_lt _ _ _ Hwf (d_get_elem _ _ _ E)). by rewrite lookup_insert_ne by lia.
Qed.

Lemma lookup_alter_host f r id id' l :
  reg_wf r → d_get (hr_hosts r) id = Some l →
  (d_get (hr_hosts r) id' ≫= λ l', alter f l (hr_objs r) !! l') =
    if decide (id = id') then f <$> lookup_host r id else lookup_host r id'.
Proof.
  intros Hwf E. unfold lookup_host. case_decide as Hid.
  - subst id'. rewrite E. simpl. by rewrite lookup_alter_eq.
  - destruct (d_get (hr_hosts r) id') as [l'|] eqn:E'; simpl; [|done].
    rewrite lookup_alter_ne; [done|]. intros <-.
    apply Hid. eapply wf_inj; [done|by apply d_get_elem..].
Qed.

Lemma lookup_adjust_slots r n id id' :
  reg_wf r →
  lookup_host (adjust_slots n id r).2 id' =
    if decide (id = id') then add_in_flight n <$> lookup_host r id else lookup_host r id'.
Proof.
  intros Hwf. unfold adjust_slots. destruct (d_get _ id) as [l|] eqn:E; simpl.
  - exact (lookup_alter_host _ _ _ _ _ Hwf E).
  - case_decide; [|done]. subst. unfold lookup_host. by rewrite E.
Qed.

Lemma lookup_heartbeat r id at_ id' :
  reg_wf r →
  lookup_host (heartbeat id at_ r).2 id' =
    if decide (id = id') then set_last_seen at_ <$> lookup_host r id else lookup_host r id'.
Proof.
  intros Hwf. unfold heartbeat. destruct (d_get _ id) as [l|] eqn:E; simpl.
  - exact (lookup_alter_host _ _ _ _ _ Hwf E).
  - case_decide; [|done]. subst. unfold lookup_host. by rewrite E.
Qed.

Lemma lookup_deregister r id id' :
  reg_wf r →
  lookup_host (deregister id r) id' = if decide (id = id') then None else lookup_host r id'.
Proof.
  intros Hwf. unfold deregister, lookup_host. simpl. rewrite d_get_pop by apply Hwf.
  by case_decide.
Qed.
End lookups.

(** ** Traces of operations *)

Inductive reg_op :=
  | OpRegister (id : string) (c : HostCapabilities) (n : HostCapacity) (at_ : datetime)
  | OpAcquire (id : string)
  | OpRelease (id : string)
  | OpHeartbeat (id : string) (at_ : datetime)
  | OpDeregister (id : string).

Definition run_reg_op (r : HostRegistry) (o : reg_op) : HostRegistry :=
  match o with
  | OpRegister id c n at_ => register id c n at_ r
  | OpAcquire id => (acquire_slot id r).2
  | OpRelease id => (release_slot id r).2
  | OpHeartbeat id at_ => (heartbeat id at_ r).2
  | OpDeregister id => deregister id r
  end.

Definition run_reg (r : HostRegistry) (ops : list reg_op) : HostRegistry := foldl run_reg_op r ops.

Lemma run_reg_op_wf r o : reg_wf r → reg_wf (run_reg_op r o).
Proof. destruct o; simpl; unfold acquire_slot, release_slot; eauto with registry. Qed.

Lemma run_reg_wf r ops : reg_wf r → reg_wf (run_reg r ops).
Proof.
  revert r. induction ops as [|o ops IH]; intros r Hwf; [done|].
  by apply IH, run_reg_op_wf.
Qed.

(** The change an operation makes to the in-flight count of [id]. *)
Definition slot_delta (id : string) (o : reg_op) : Z :=
  match o with
  | OpAcquire id' => if decide (id' = id) then 1 else 0
  | OpRelease id' => if decide (id' = id) then -1 else 0
  | _ => 0
  end.

Definition slot_balance (id : string) (ops : list reg_op) : Z :=
  foldr (λ o z, slot_delta id o + z)%Z 0%Z ops.

Definition deregisters (id : string) (o : reg_op) : Prop :=
  match o with OpDeregister id' => id' = id | _ => False end.

Lemma run_reg_op_in_flight r o id h :
  reg_wf r → lookup_host r id = Some h → ¬ deregisters id o →
  ∃ h', lookup_host (run_reg_op r o) id = Some h' ∧ in_flight h' = (in_flight h + slot_delta id o)%Z.
Proof.
  intros Hwf Hh Hd. destruct o as [id' c n at_|id'|id'|id' at_|id']; simpl in *;
    unfold acquire_slot, release_slot;
    rewrite ?lookup_register, ?lookup_adjust_slots, ?lookup_heartbeat, ?lookup_deregister by done;
    repeat case_decide; subst; try done; rewrite ?Hh; simpl; eexists; (split; [done|simpl; lia]).
Qed.

(** ** Reloading from the table *)

Definition reset_info (h : HostInfo) : HostInfo :=
  {| host_id := host_id h; capabilities := capabilities h; capacity := capacity h;
     in_flight := 0; last_seen := last_seen h |}.

Lemma capabilities_roundtrip c : capabilities_of_json (capabilities_to_json c) = Some c.
Proof.
  unfold capabilities_of_json. replace (j_only_keys _ _) with true by done.
  unfold j_field, j_field_or, capabilities_to_json. json_simpl. by destruct c.
Qed.

Lemma capacity_roundtrip n : capacity_of_json (capacity_to_json n) = Some n.
Proof. by destruct n. Qed.

Lemma load_host_row h : load_host (host_id h, row_of h) = Some (reset_info h).
Proof.
  unfold load_host, row_of. cbn [fst snd row_capabilities row_capacity row_last_seen].
  by rewrite capabilities_roundtrip, capacity_roundtrip.
Qed.

Lemma load_hosts_wf r : reg_wf r → mapM load_host (hr_rows r) = Some (reset_info <$> host_infos r).
Proof.
  intros [_ Hb _ Hr]. unfold host_infos, d_values.
  revert Hb Hr. generalize (hr_rows r). induction (hr_hosts r) as [|[id l] d IH]; intros rows Hb Hr.
  - by destruct rows.
  - destruct rows as [|[id' row] rows]; [done|].
    destruct (Hb id l) as (h & Hh & Hid); [by left|].
    simpl in Hr. rewrite Hh in Hr. simpl in Hr. injection Hr as <- <- Hr.
    simpl. rewrite Hh. simpl. rewrite <-Hid, load_host_row. simpl.
    rewrite (IH rows); [done| |done]. intros id'' l' Hin. apply Hb. by right.
Qed.

(** What a registry shows: each id with the object it is bound to. *)
Definition reg_view (r : HostRegistry) : dict string (option HostInfo) :=
  d_map (λ l, hr_objs r !! l) (hr_hosts r).

Lemma host_infos_view r : host_infos r = omap id (d_values (reg_view r)).
Proof.
  unfold host_infos, reg_view, d_values, d_map. rewrite <-list_fmap_compose.
  induction (hr_hosts r) as [|[id l] d IH]; simpl; [done|].
  destruct (_ !! l); simpl; [f_equal|]; apply IH.
Qed.

Lemma view_infos r :
  reg_wf r → reg_view r = (λ h, (host_id h, Some h)) <$> host_infos r.
Proof.
  intros [_ Hb _ _]. unfold reg_view, host_infos, d_map, d_values. revert Hb.
  induction (hr_hosts r) as [|[id l] d IH]; intros Hb; simpl; [done|].
  destruct (Hb id l) as (h & Hh & <-); [by left|]. rewrite Hh. simpl. f_equal.
  apply IH. intros id' l' Hin. apply Hb. by right.
Qed.

Lemma host_ids_infos r : reg_wf r → host_id <$> host_infos r = d_keys (hr_hosts r).
Proof.
  intros Hwf. rewrite <-(d_keys_map (λ l, hr_objs r !! l)). fold (reg_view r).
  rewrite view_infos by done. unfold d_keys. rewrite <-list_fmap_compose. done.
Qed.

Lemma bind_host_view r h :
  (∀ id l, (id, l) ∈ hr_hosts r → (l < hr_next r)%nat) →
  host_id h ∉ d_keys (hr_hosts r) →
  reg_view (bind_host r h) = reg_view r ++ [(host_id h, Some h)] ∧
  hr_hosts (bind_host r h) = hr_hosts r ++ [(host_id h, hr_next r)].
Proof.
  intros Hlt Hid. unfold reg_view, bind_host. simpl.
  assert (E : ∀ (d : dict string loc), host_id h ∉ d_keys d →
    d_set d (host_id h) (hr_next r) = d ++ [(host_id h, hr_next r)]).
  { clear. induction d as [|[id l] d IH]; simpl; [done|].
    rewrite not_elem_of_cons. intros [? ?]. rewrite decide_False by done. by rewrite IH. }
  rewrite E by done. split; [|done]. unfold d_map. rewrite fmap_app. simpl.
  rewrite lookup_insert_eq. f_equal. apply list_fmap_ext. intros i [id l] Hi. simpl.
  rewrite lookup_insert_ne; [done|]. pose proof (Hlt id l (list_elem_of_lookup_2 _ _ _ Hi)). lia.
Qed.

Lemma bind_hosts_view infos r :
  (∀ id l, (id, l) ∈ hr_hosts r → (l < hr_next r)%nat) →
  NoDup (d_keys (hr_hosts r) ++ (host_id <$> infos)) →
  let r' := foldl bind_host r infos in
  reg_view r' = reg_view r ++ ((λ h, (host_id h, Some h)) <$> infos) ∧
  hr_rows r' = hr_rows r ∧
  (∀ id l, (id, l) ∈ hr_hosts r' → (l < hr_next r')%nat) ∧
  ((∀ l, is_Some (hr_objs r !! l) → (l < hr_next r)%nat) →
   ∀ l, is_Some (hr_objs r' !! l) → (l < hr_next r')%nat).
Proof.
  revert r. induction infos as [|h infos IH]; intros r Hlt Hnd; simpl; [by rewrite app_nil_r|].
  assert (Hid : host_id h ∉ d_keys (hr_hosts r)).
  { apply NoDup_app in Hnd as (_ & Hnd & _). intros Hin. apply (Hnd _ Hin). simpl. left. }
  destruct (bind_host_view r h Hlt Hid) as [Hv Hh].
  destruct (IH (bind_host r h)) as (Hv' & Hr' & Hlt' & Hn').
  - rewrite Hh. intros id l [Hin|Hin]%elem_of_app; simpl.
    + pose proof (Hlt id l Hin). lia.
    + apply list_elem_of_singleton in Hin as [= -> ->]. lia.
  - rewrite Hh. unfold d_keys in *. rewrite fmap_app. simpl. by rewrite <-app_assoc.
  - rewrite Hv', Hv, <-app_assoc. split_and!; [done..|].
    intros Hn. apply Hn'. intros l. simpl. intros [<-|[_ Hl]]%lookup_insert_is_Some; [lia|].
    pose proof (Hn l Hl). lia.
Qed.

(** ** Properties *)

Definition empty_registry : HostRegistry :=
  {| hr_objs := ∅; hr_next := 0; hr_hosts := []; hr_rows := [] |}.

Lemma empty_registry_wf : reg_wf empty_registry.
Proof.
  split; simpl; [constructor|by intros ?? ?%not_elem_of_nil| |done].
  intros l [? Hl]. by rewrite lookup_empty in Hl.
Qed.

#[export] Hint Resolve empty_registry_wf run_reg_wf run_reg_op_wf : registry.

Definition sample_capabilities : HostCapabilities :=
  {| backend_type := "lmstudio"; context_window := 8192; base_url := "http://h"; allowed_models := None;
     memory_budget_gb := Some (f_of_Z 24); model_sizes_gb := None; model_aliases := None;
     position := None |}.
Definition sample_capacity : HostCapacity := {| max_concurrent_requests := 2 |}.
Definition sample_registry : HostRegistry :=
  run_reg empty_registry
    [OpRegister "a" sample_capabilities sample_capacity 0;
     OpRegister "b" sample_capabilities sample_capacity 1; OpAcquire "a"].

Lemma sample_registry_wf : reg_wf sample_registry.
Proof. apply run_reg_wf, empty_registry_wf. Qed.

(** A registry is determined by the list of its hosts. *)
Lemma wf_rows_infos r :
  reg_wf r → hr_rows r = (λ h, (host_id h, row_of h)) <$> host_infos r.
Proof.
  intros Hwf. pose proof (wf_rows _ Hwf) as Hr.
  replace (d_map _ (hr_hosts r)) with (d_map (fmap row_of) (reg_view r)) in Hr
    by (unfold reg_view, d_map; by rewrite <-list_fmap_compose).
  rewrite view_infos in Hr by done. unfold d_map in Hr. rewrite <-list_fmap_compose in Hr.
  revert Hr. generalize (host_infos r). clear.
  induction (hr_rows r) as [|[id row] rows IH]; intros [|h infos]; simpl; try done.
  intros [= <- <- Hr]. f_equal. by apply IH.
Qed.

Lemma infos_wf r infos :
  reg_view r = (λ h, (host_id h, Some h)) <$> infos →
  NoDup (host_id <$> infos) →
  (∀ l, is_Some (hr_objs r !! l) → (l < hr_next r)%nat) →
  hr_rows r = (λ h, (host_id h, row_of h)) <$> infos →
  host_infos r = infos ∧ reg_wf r.
Proof.
  intros Hv Hnd Hn Hr. split.
  { rewrite host_infos_view, Hv. unfold d_values. rewrite <-list_fmap_compose. clear.
    induction infos as [|h infos IH]; simpl; [done|]. f_equal. apply IH. }
  split; [| |done|].
  - rewrite <-(d_keys_map (λ l, hr_objs r !! l)). fold (reg_view r). rewrite Hv.
    unfold d_keys. by rewrite <-list_fmap_compose.
  - intros id l Hin. apply (list_elem_of_fmap_2 (λ p, (p.1, hr_objs r !! p.2))) in Hin.
    fold (d_map (λ l, hr_objs r !! l) (hr_hosts r)) in Hin. fold (reg_view r) in Hin.
    rewrite Hv in Hin. apply list_elem_of_fmap in Hin as (h & [= -> ->] & _). eauto.
  - replace (d_map _ (hr_hosts r)) with (d_map (fmap row_of) (reg_view r))
      by (unfold reg_view, d_map; by rewrite <-list_fmap_compose).
    rewrite Hv, Hr. unfold d_map. by rewrite <-!list_fmap_compose.
Qed.

(** Registering lists the host where it was, or last when it is new. *)
Lemma host_infos_register r id c n at_ :
  reg_wf r →
  let h := new_info id c n at_ (lookup_host r id) in
  host_infos (register id c n at_ r) =
    if decide (id ∈ d_keys (hr_hosts r))
    then (λ h', if decide (host_id h' = id) then h else h') <$> host_infos r
    else host_infos r ++ [h].
Proof.
  intros Hwf h. pose proof (wf_fresh _ Hwf) as Hfresh. unfold host_infos. simpl.
  assert (Hold : ∀ id' l, (id', l) ∈ hr_hosts r →
    <[hr_next r := h]> (hr_objs r) !! l = hr_objs r !! l ∧ ∃ h', hr_objs r !! l = Some h' ∧ host_id h' = id').
  { intros id' l Hin. split; [|by apply (wf_bound _ Hwf)]. rewrite lookup_insert_ne; [done|].
    pose proof (wf_bound_lt _ _ _ Hwf Hin). lia. }
  pose proof (wf_keys _ Hwf) as Hnd. change {| host_id := id; capabilities := c; capacity := n; in_flight := _; last_seen := at_ |} with h.
  clear Hwf Hfresh. clearbody h. revert Hold Hnd. induction (hr_hosts r) as [|[id' l] d IH]; intros Hold Hnd.
  { rewrite decide_False by apply not_elem_of_nil. simpl. by rewrite lookup_insert_eq. }
  destruct (Hold id' l ltac:(left)) as (E & h' & Eh & Hid). rewrite d_keys_cons in *.
  apply NoDup_cons in Hnd as [Hn Hnd].
  specialize (IH (λ id'' l' Hin, Hold id'' l' (list_elem_of_further _ _ _ Hin)) Hnd).
  assert (Hrest : id' = id → (λ h', if decide (host_id h' = id) then h else h') <$> omap (λ l, hr_objs r !! l) (d_values d) =
    omap (λ l, hr_objs r !! l) (d_values d) ∧
    omap (λ l, <[hr_next r:=h]> (hr_objs r) !! l) (d_values d) = omap (λ l, hr_objs r !! l) (d_values d)).
  { intros ->. clear IH. induction d as [|[k l'] d IHd]; [done|].
    destruct (Hold k l') as (E' & h2 & Eh' & Hid'); [right; left|]. rewrite d_keys_cons in *.
    apply not_elem_of_cons in Hn as [Hk Hn]. apply NoDup_cons in Hnd as [_ Hnd].
    destruct IHd as [IH1 IH2]; try done.
    { intros id'' l'' [Hin|Hin]%elem_of_cons; apply Hold; [rewrite Hin; left|right; by right]. }
    cbn [d_values fmap list_fmap snd omap list_omap]. change (d.*2) with (d_values d).
    rewrite E', Eh', IH2. cbn [fmap list_fmap]. rewrite decide_False by congruence. split; [f_equal; exact IH1|done]. }
  cbn [d_set]. destruct (decide (id' = id)) as [->|Hne].
  - rewrite decide_True by left. destruct (Hrest eq_refl) as [H1 H2].
    cbn [d_values fmap list_fmap snd omap list_omap]. change (d.*2) with (d_values d).
    rewrite lookup_insert_eq, Eh, H2. cbn [fmap list_fmap]. rewrite decide_True by done. f_equal. symmetry. exact H1.
  - cbn [d_values fmap list_fmap snd omap list_omap]. change (d.*2) with (d_values d).
    change ((d_set d id (hr_next r)).*2) with (d_values (d_set d id (hr_next r))). rewrite E, Eh, IH.
    destruct (decide (id ∈ d_keys d)) as [Hin|Hin].
    + rewrite decide_True by (by right). cbn [fmap list_fmap]. by rewrite decide_False by congruence.
    + rewrite decide_False; [done|]. rewrite elem_of_cons. naive_solver.
Qed.

(** An id is bound to the host of that id in the list. *)
Lemma lookup_host_find r id :
  reg_wf r → lookup_host r id = find (λ h, bool_decide (host_id h = id)) (host_infos r).
Proof.
  intros Hwf. unfold lookup_host.
  assert (E : d_get (reg_view r) id = (λ l, hr_objs r !! l) <$> d_get (hr_hosts r) id) by apply d_get_map.
  rewrite view_infos in E by done.
  transitivity (mjoin (d_get ((λ h, (host_id h, Some h)) <$> host_infos r) id)); [rewrite E; destruct (d_get (hr_hosts r) id); reflexivity|]. clear E.
  induction (host_infos r) as [|h l IH]; [done|]. cbn [fmap list_fmap d_get find].
  case_decide as Hd; [by rewrite bool_decide_true|]. rewrite bool_decide_false by done. exact IH.
Qed.

(** The same registry with its rows, and so its hosts, listed in another order. *)
Lemma registry_reordered r rows :
  reg_wf r → rows ≡ₚ hr_rows r →
  ∃ r', reg_wf r' ∧ hr_rows r' = rows ∧ host_infos r' ≡ₚ host_infos r ∧
    ∀ id, lookup_host r' id = lookup_host r id.
Proof.
  intros [Hk Hb Hn Hr] Hp.
  assert (Hd : ∃ d, d ≡ₚ hr_hosts r ∧ d_map (λ l, row_of <$> hr_objs r !! l) d = d_map Some rows).
  { unfold d_map in *. assert (E : (prod_map id Some) <$> rows ≡ₚ (prod_map id (λ l, row_of <$> hr_objs r !! l)) <$> hr_hosts r).
    { transitivity ((prod_map id Some) <$> hr_rows r); [by rewrite Hp|]. apply reflexive_eq. symmetry. exact Hr. }
    apply Permutation_map_inv in E as (d & E & Ed). exists d. by rewrite Ed. }
  destruct Hd as (d & Hd & Ed).
  exists {| hr_objs := hr_objs r; hr_next := hr_next r; hr_hosts := d; hr_rows := rows |}. split_and!.
  - split; simpl; [by unfold d_keys; rewrite Hd| |done|done]. intros id l Hin. apply Hb. by rewrite <-Hd.
  - done.
  - unfold host_infos, d_values. simpl. by rewrite Hd.
  - intros id. unfold lookup_host. simpl. destruct (d_get (hr_hosts r) id) as [l|] eqn:El.
    + apply d_get_elem in El. rewrite <-Hd in El. apply d_get_elem_iff in El as ->; [done|by unfold d_keys; rewrite Hd].
    + apply d_get_None in El. assert (d_get d id = None) as ->; [|done]. apply d_get_None. unfold d_keys. by rewrite Hd.
Qed.

(** The table of a well-formed registry rebuilds it, in the order in which its rows are read. *)
Lemma registry_reload select r :
  reg_wf r → selects_all select →
  ∃ r', HostRegistry_new select (hr_rows r) = Some r' ∧ reg_wf r' ∧
    host_infos r' ≡ₚ reset_info <$> host_infos r ∧
    (∀ id, lookup_host r' id = reset_info <$> lookup_host r id) ∧
    (select (hr_rows r) = hr_rows r → host_infos r' = reset_info <$> host_infos r).
Proof.
  intros Hwf0 Hs. destruct (registry_reordered r _ Hwf0 (Hs (hr_rows r))) as (r1 & Hwf & E & Hp & Hl).
  unfold HostRegistry_new, load_hosts. rewrite <-E, load_hosts_wf by done. simpl.
  set (r0 := {| hr_objs := ∅; hr_next := 0; hr_hosts := []; hr_rows := hr_rows r1 |}).
  assert (Hids : NoDup (host_id <$> (reset_info <$> host_infos r1))).
  { rewrite <-list_fmap_compose. change (NoDup (host_id <$> host_infos r1)).
    rewrite host_ids_infos by done. apply Hwf. }
  destruct (bind_hosts_view (reset_info <$> host_infos r1) r0) as (Hv & Hr & _ & Hn);
    [by intros ?? ?%not_elem_of_nil|done|].
  destruct (infos_wf (foldl bind_host r0 (reset_info <$> host_infos r1)) (reset_info <$> host_infos r1)) as [Hi Hwf'].
  1-4: try done.
  - apply Hn. intros l [? Hl']. simpl in Hl'. by rewrite lookup_empty in Hl'.
  - rewrite Hr, <-list_fmap_compose. exact (wf_rows_infos r1 Hwf).
  - eexists. split_and!; [done|done|by rewrite Hi, Hp| |intros Hid].
    + intros id. rewrite <-Hl, !lookup_host_find, Hi by done. by rewrite find_fmap.
    + pose proof (load_hosts_wf r1 Hwf) as E1. rewrite Hid, (load_hosts_wf r Hwf0) in E1. rewrite Hi. congruence.
Qed.

(** Restart.  After any operations on a registry, the table alone rebuilds it: a new registry
    over the same rows has the same hosts with the same capabilities, capacity and last-seen
    time, and every in-flight count at zero; it lists them in the same order when the rows are
    read in that order, which the query does not ask for.  The new registry is well formed, so
    this holds again after the next restart. *)
Theorem restart_restores_hosts (select : dict string host_row → dict string host_row) (ops : list reg_op) :
  selects_all select →
  let r := run_reg empty_registry ops in
  ∃ r', HostRegistry_new select (hr_rows r) = Some r' ∧ reg_wf r' ∧
        host_infos r' ≡ₚ reset_info <$> host_infos r ∧
        (select (hr_rows r) = hr_rows r → host_infos r' = reset_info <$> host_infos r).
Proof.
  intros Hs r. destruct (registry_reload select r) as (r' & E & Hwf & Hp & _ & Ho);
    [apply run_reg_wf, empty_registry_wf|done|]. by exists r'.
Qed.

(** Slot accounting.  As long as a host is not deregistered, its in-flight count moves
    by exactly one per [acquire_slot] and [release_slot] on it, through any mix of
    re-registrations, heartbeats and operations on other hosts. *)
Theorem slots_balance (r : HostRegistry) (ops : list reg_op) (id : string) (h : HostInfo) :
  reg_wf r → lookup_host r id = Some h → Forall (λ o, ¬ deregisters id o) ops →
  ∃ h', lookup_host (run_reg r ops) id = Some h' ∧
        in_flight h' = (in_flight h + slot_balance id ops)%Z.
Proof.
  intros Hwf Hh Hd. revert r h Hwf Hh. induction Hd as [|o ops Ho _ IH]; intros r h Hwf Hh.
  - exists h. simpl. split; [done|lia].
  - destruct (run_reg_op_in_flight r o id h Hwf Hh Ho) as (h1 & H1 & E1).
    destruct (IH (run_reg_op r o) h1) as (h2 & H2 & E2); [by apply run_reg_op_wf|done|].
    exists h2. split; [done|]. simpl. lia.
Qed.

Lemma slots_balance_witness :
  ∃ h', lookup_host (run_reg sample_registry
           [OpAcquire "b"; OpAcquire "a"; OpRegister "a" sample_capabilities sample_capacity 9;
            OpRelease "a"; OpAcquire "a"]) "a" = Some h' ∧ in_flight h' = 2%Z.
Proof.
  destruct (slots_balance sample_registry
    [OpAcquire "b"; OpAcquire "a"; OpRegister "a" sample_capabilities sample_capacity 9;
     OpRelease "a"; OpAcquire "a"] "a"
    {| host_id := "a"; capabilities := sample_capabilities; capacity := sample_capacity;
       in_flight := 1; last_seen := 0 |}) as (h' & H & E).
  - apply sample_registry_wf.
  - vm_compute. reflexivity.
  - repeat apply Forall_cons_2; [by intros ?..|apply Forall_nil_2].
  - exists h'. split; [exact H|]. rewrite E. reflexivity.
Defined.

(** A location that no id is bound to. *)
Definition unbound (r : HostRegistry) (l : loc) : Prop :=
  (l < hr_next r)%nat ∧ l ∉ d_values (hr_hosts r).

Lemma unbound_frozen r o l :
  reg_wf r → unbound r l →
  unbound (run_reg_op r o) l ∧ hr_objs (run_reg_op r o) !! l = hr_objs r !! l.
Proof.
  intros Hwf [Hlt Hl].
  assert (Hne : ∀ id l', d_get (hr_hosts r) id = Some l' → l ≠ l').
  { intros id l' Hget ->. apply Hl. unfold d_values.
    apply (list_elem_of_fmap_2 snd _ _ (d_get_elem _ _ _ Hget)). }
  destruct o as [id c n at_|id|id|id at_|id]; simpl; unfold acquire_slot, release_slot, adjust_slots, heartbeat.
  - unfold register, bind_host, unbound. simpl. rewrite lookup_insert_ne by lia.
    split_and!; [lia| |done]. unfold d_values. intros ((id' & l') & -> & Hin)%list_elem_of_fmap.
    apply d_set_elem in Hin as [[= -> ->]|Hin]; simpl in *; [lia|].
    apply Hl. apply (list_elem_of_fmap_2 snd _ _ Hin).
  - destruct (d_get _ id) as [l'|] eqn:E; simpl; [|done]. rewrite lookup_alter_ne by (symmetry; eauto). done.
  - destruct (d_get _ id) as [l'|] eqn:E; simpl; [|done]. rewrite lookup_alter_ne by (symmetry; eauto). done.
  - destruct (d_get _ id) as [l'|] eqn:E; simpl; [|done]. rewrite lookup_alter_ne by (symmetry; eauto). done.
  - split; [|done]. split; [done|]. simpl. unfold d_values.
    intros ((id' & l') & -> & Hin%d_pop_elem)%list_elem_of_fmap. simpl in *.
    apply Hl. apply (list_elem_of_fmap_2 snd _ _ Hin).
Qed.

(** Stale references.  [register] (and so [PATCH /v1/nodes]) replaces the [HostInfo]
    object of an id.  A caller that took a reference before keeps an object that no later
    operation on the registry ever changes: its in-flight count and capabilities are frozen
    at that moment, while the id's own count moves on. *)
Theorem stale_reference_frozen (r : HostRegistry) (id : string) (l : loc) (c : HostCapabilities)
    (n : HostCapacity) (at_ : datetime) (ops : list reg_op) :
  reg_wf r → d_get (hr_hosts r) id = Some l →
  hr_objs (run_reg (register id c n at_ r) ops) !! l = hr_objs r !! l.
Proof.
  intros Hwf Hl. set (r1 := register id c n at_ r).
  assert (Hlt : (l < hr_next r)%nat) by (by eapply wf_bound_lt, d_get_elem).
  assert (H1 : reg_wf r1 ∧ unbound r1 l ∧ hr_objs r1 !! l = hr_objs r !! l).
  { split_and!; [by apply register_wf| |].
    - split; [simpl; lia|]. simpl. intros ((id' & l') & -> & Hin)%list_elem_of_fmap.
      assert (Hg : d_get (d_set (hr_hosts r) id (hr_next r)) id' = Some l').
      { apply d_get_elem_iff; [by apply d_keys_set_NoDup, Hwf|done]. }
      rewrite d_get_set in Hg. case_decide; simplify_eq/=; [lia|].
      apply H. eapply wf_inj; [done|apply d_get_elem, Hl|apply d_get_elem, Hg].
    - simpl. by rewrite lookup_insert_ne by lia. }
  clearbody r1. destruct H1 as (Hwf1 & Hu & <-). revert r1 Hwf1 Hu.
  induction ops as [|o ops IH]; intros r1 Hwf1 Hu; [done|].
  destruct (unbound_frozen r1 o l Hwf1 Hu) as [Hu' <-].
  apply IH; [by apply run_reg_op_wf|done].
Qed.

Lemma stale_reference_frozen_witness :
  (in_flight <$> hr_objs (run_reg (register "a" sample_capabilities sample_capacity 9 sample_registry)
     [OpAcquire "a"; OpAcquire "a"]) !! 0%nat) = Some 1%Z.
Proof.
  rewrite (stale_reference_frozen sample_registry "a" 0 sample_capabilities sample_capacity 9
    [OpAcquire "a"; OpAcquire "a"]).
  - vm_compute. reflexivity.
  - apply sample_registry_wf.
  - vm_compute. reflexivity.
Defined.

(** Deregistering a busy host breaks its slot accounting: releasing the slot of a
    request that is still running raises [KeyError], and if the id was registered again in
    between the release drives the new count one below zero. *)
Theorem deregister_breaks_release (r : HostRegistry) (id : string) (c : HostCapabilities)
    (n : HostCapacity) (at_ : datetime) :
  reg_wf r →
  (release_slot id (deregister id r)).1 = Raise (HostKeyError id) ∧
  (release_slot id (register id c n at_ (deregister id r))).1 = Ret tt ∧
  in_flight <$> lookup_host (release_slot id (register id c n at_ (deregister id r))).2 id
    = Some (-1)%Z.
Proof.
  intros Hwf. pose proof (deregister_wf id r Hwf) as Hd.
  pose proof (register_wf id c n at_ _ Hd) as Hr.
  assert (E : d_get (hr_hosts (deregister id r)) id = None) by (by apply d_get_pop_eq, Hwf).
  split_and!.
  - unfold release_slot, adjust_slots. by rewrite E.
  - unfold release_slot, adjust_slots. simpl. by rewrite d_get_set_eq.
  - unfold release_slot. rewrite lookup_adjust_slots, decide_True by done.
    rewrite lookup_register, decide_True, lookup_deregister, decide_True by done. done.
Qed.

Lemma deregister_breaks_release_witness :
  (release_slot "a" (deregister "a" sample_registry)).1 = Raise (HostKeyError "a").
Proof.
  apply (deregister_breaks_release sample_registry "a" sample_capabilities sample_capacity 9).
  apply sample_registry_wf.
Defined.
