(* ===== verification/Health.v ===== *)
(** * Health monitor ([health/models.py], [health/monitor.py])

    One [HealthMonitor] keeps a [BackendHealthState] per backend and the log of
    [FailoverEvent]s.  Probes come from the health poller and from the outcome of
    chat completions; the gateway reads [is_healthy].

    The abstract contract is the two-phase automaton [phase]: a backend is [Up] with
    a run of failures or [Down] since its last failure with a number of counted
    successes.  [record_probe_refines] shows that the code implements it, and how it differs from
    the policy of the failover specification; the trace theorems say when a backend leaves
    routing and when it comes back. *)

From S2P Require Import Prelude.
From S2P Require Import PyFloat.

(** ** Data *)

Record ProbeResult := { pr_healthy : bool; pr_at : datetime }.

Record FailoverEvent := {
  ev_backend_id : string;
  ev_from_healthy : bool;
  ev_to_healthy : bool;
  ev_at : datetime;
}.

Record BackendHealthState := {
  hs_is_healthy : bool;
  hs_consecutive_failures : Z;
  hs_consecutive_successes : Z;
  hs_unhealthy_since : option datetime;
  hs_history : list bool;
}.

(** [deque(maxlen=20)] *)
Definition history_maxlen : nat := 20.

Definition BackendHealthState_new : BackendHealthState :=
  {| hs_is_healthy := true; hs_consecutive_failures := 0; hs_consecutive_successes := 0;
     hs_unhealthy_since := None; hs_history := [] |}.

(** The constructor arguments of [HealthMonitor]. *)
Record HealthConfig := {
  failure_threshold : Z;
  recovery_threshold : Z;
  cooldown : timedelta;
}.

Definition default_health_config : HealthConfig :=
  {| failure_threshold := 3; recovery_threshold := 2; cooldown := td_seconds 30 |}.

Record HealthMonitor := {
  hm_states : gmap string BackendHealthState;
  hm_events : list FailoverEvent;
}.

Definition HealthMonitor_new : HealthMonitor := {| hm_states := ∅; hm_events := [] |}.

(** ** Operations *)

Definition record_transition (events : list FailoverEvent) (backend_id : string)
    (from_healthy to_healthy : bool) (at_ : datetime) : list FailoverEvent :=
  events ++ [{| ev_backend_id := backend_id; ev_from_healthy := from_healthy;
                ev_to_healthy := to_healthy; ev_at := at_ |}].

(** [_update_unhealthy_state]: the branch of [record_probe] for a backend that is down. *)
Definition update_unhealthy_state (cfg : HealthConfig) (state : BackendHealthState)
    (events : list FailoverEvent) (backend_id : string) (healthy : bool) (at_ : datetime)
    : BackendHealthState * list FailoverEvent :=
  if negb healthy then
    ({| hs_is_healthy := hs_is_healthy state;
        hs_consecutive_failures := hs_consecutive_failures state;
        hs_consecutive_successes := 0;
        hs_unhealthy_since := Some at_;
        hs_history := hs_history state |}, events)
  else
    match hs_unhealthy_since state with
    | None => (state, events)
    | Some since =>
        if (at_ <? since + cooldown cfg)%Z then (state, events)
        else
          let successes := (hs_consecutive_successes state + 1)%Z in
          if (recovery_threshold cfg <=? successes)%Z then
            ({| hs_is_healthy := true;
                hs_consecutive_failures := 0;
                hs_consecutive_successes := 0;
                hs_unhealthy_since := None;
                hs_history := hs_history state |},
             record_transition events backend_id false true at_)
          else
            ({| hs_is_healthy := hs_is_healthy state;
                hs_consecutive_failures := hs_consecutive_failures state;
                hs_consecutive_successes := successes;
                hs_unhealthy_since := hs_unhealthy_since state;
                hs_history := hs_history state |}, events)
    end.

(** [record_probe] after [setdefault]: the mutation of the backend's own state. *)
Definition probe_state (cfg : HealthConfig) (state : BackendHealthState)
    (events : list FailoverEvent) (backend_id : string) (healthy : bool) (at_ : datetime)
    : BackendHealthState * list FailoverEvent :=
  let history := deque_append history_maxlen (hs_history state) healthy in
  let state :=
    {| hs_is_healthy := hs_is_healthy state;
       hs_consecutive_failures := hs_consecutive_failures state;
       hs_consecutive_successes := hs_consecutive_successes state;
       hs_unhealthy_since := hs_unhealthy_since state;
       hs_history := history |} in
  if negb (hs_is_healthy state) then
    update_unhealthy_state cfg state events backend_id healthy at_
  else if healthy then
    ({| hs_is_healthy := hs_is_healthy state;
        hs_consecutive_failures := 0;
        hs_consecutive_successes := hs_consecutive_successes state;
        hs_unhealthy_since := hs_unhealthy_since state;
        hs_history := history |}, events)
  else
    let failures := (hs_consecutive_failures state + 1)%Z in
    if (failure_threshold cfg <=? failures)%Z then
      ({| hs_is_healthy := false;
          hs_consecutive_failures := failures;
          hs_consecutive_successes := 0;
          hs_unhealthy_since := Some at_;
          hs_history := history |},
       record_transition events backend_id true false at_)
    else
      ({| hs_is_healthy := hs_is_healthy state;
          hs_consecutive_failures := failures;
          hs_consecutive_successes := hs_consecutive_successes state;
          hs_unhealthy_since := hs_unhealthy_since state;
          hs_history := history |}, events).

Definition record_probe (cfg : HealthConfig) (m : HealthMonitor) (backend_id : string)
    (healthy : bool) (at_ : datetime) : HealthMonitor :=
  let state := default BackendHealthState_new (hm_states m !! backend_id) in
  let '(state', events') := probe_state cfg state (hm_events m) backend_id healthy at_ in
  {| hm_states := <[backend_id := state']> (hm_states m); hm_events := events' |}.

(** The timestamp is part of the signature; the code does not read it. *)
Definition is_healthy (m : HealthMonitor) (backend_id : string) (at_ : datetime) : bool :=
  hs_is_healthy (default BackendHealthState_new (hm_states m !! backend_id)).

Definition has_probe_history (m : HealthMonitor) (backend_id : string) : bool :=
  bool_decide (is_Some (hm_states m !! backend_id)).

Definition count_true (l : list bool) : Z := Z.of_nat (length (filter (λ b, b = true) l)).
Definition count_false (l : list bool) : Z := Z.of_nat (length (filter (λ b, b = false) l)).

(** [sum(history) / len(history)]; the division is by a positive length, so it
    cannot raise, and the outcome is kept only to say so. *)
Definition health_score (m : HealthMonitor) (backend_id : string) : outcome arith_error float :=
  match hm_states m !! backend_id with
  | None => Ret (f_of_Z 1)
  | Some state =>
      match hs_history state with
      | [] => Ret (f_of_Z 1)
      | history => int_truediv (count_true history) (Z.of_nat (length history))
      end
  end.

Definition failure_count (m : HealthMonitor) (backend_id : string) : Z :=
  match hm_states m !! backend_id with
  | None => 0
  | Some state => count_false (hs_history state)
  end.

(** ** The abstract automaton *)

Inductive phase :=
  | Up (failures : Z)
  | Down (since : datetime) (successes : Z).

Definition phase_step (cfg : HealthConfig) (p : phase) (healthy : bool) (at_ : datetime) : phase :=
  match p, healthy with
  | Up _, true => Up 0
  | Up n, false =>
      if (failure_threshold cfg <=? n + 1)%Z then Down at_ 0 else Up (n + 1)
  | Down _ _, false => Down at_ 0
  | Down since n, true =>
      if (at_ <? since + cooldown cfg)%Z then Down since n
      else if (recovery_threshold cfg <=? n + 1)%Z then Up 0 else Down since (n + 1)
  end.

Definition phase_healthy (p : phase) : bool :=
  match p with Up _ => true | Down _ _ => false end.

(** The relation between a concrete state and its phase. *)
Definition state_phase (s : BackendHealthState) (p : phase) : Prop :=
  match p with
  | Up n =>
      hs_is_healthy s = true ∧ hs_consecutive_failures s = n ∧
      hs_consecutive_successes s = 0%Z ∧ hs_unhealthy_since s = None
  | Down since n =>
      hs_is_healthy s = false ∧ hs_unhealthy_since s = Some since ∧
      hs_consecutive_successes s = n
  end.

(** A trace of probes as the monitor sees them, and the probes of one backend. *)
Abbreviation probe := (string * bool * datetime)%type.

Definition run_probes (cfg : HealthConfig) (m : HealthMonitor) (tr : list probe) : HealthMonitor :=
  foldl (λ m '(b, h, t), record_probe cfg m b h t) m tr.

Definition probes_of (b : string) (tr : list probe) : list (bool * datetime) :=
  omap (λ '(b', h, t), if decide (b' = b) then Some (h, t) else None) tr.

Definition run_phase (cfg : HealthConfig) (p : phase) (ps : list (bool * datetime)) : phase :=
  foldl (λ p '(h, t), phase_step cfg p h t) p ps.

Arguments run_phase : simpl never.

(** The transitions a step of the automaton logs. *)
Definition phase_events (b : string) (p p' : phase) (t : datetime) : list FailoverEvent :=
  if decide (phase_healthy p = phase_healthy p') then []
  else [{| ev_backend_id := b; ev_from_healthy := phase_healthy p;
           ev_to_healthy := phase_healthy p'; ev_at := t |}].

(** Probes of a run that count toward recovery: healthy, and past the cooldown that
    started at [since]. *)
Definition counted (cfg : HealthConfig) (since : datetime) (ps : list (bool * datetime)) : Z :=
  Z.of_nat (length (filter (λ p, since + cooldown cfg ≤ p.2)%Z ps)).

(** The log of one backend is a sequence of alternating transitions that starts at
    "healthy" and ends at [verdict]. *)
Fixpoint alternates (from verdict : bool) (evs : list FailoverEvent) : Prop :=
  match evs with
  | [] => from = verdict
  | e :: evs =>
      ev_from_healthy e = from ∧ ev_to_healthy e = negb from ∧ alternates (negb from) verdict evs
  end.

Definition events_of (b : string) (evs : list FailoverEvent) : list FailoverEvent :=
  filter (λ e, ev_backend_id e = b) evs.

(** ** The code refines the automaton *)

Section refinement.
Context (cfg : HealthConfig).

Lemma probe_state_refines s evs b h t p :
  state_phase s p →
  let '(s', evs') := probe_state cfg s evs b h t in
  state_phase s' (phase_step cfg p h t) ∧
  hs_history s' = deque_append history_maxlen (hs_history s) h ∧
  evs' = evs ++ phase_events b p (phase_step cfg p h t) t.
Proof.
  unfold probe_state, update_unhealthy_state, phase_step, phase_events, record_transition.
  destruct p as [n|since n]; simpl.
  - intros (-> & <- & -> & ->); simpl. destruct h; simpl; [by rewrite app_nil_r|].
    destruct (_ <=? _)%Z; simpl; [done|by rewrite app_nil_r].
  - intros (-> & -> & <-); simpl. destruct h; simpl; [|by rewrite app_nil_r].
    destruct (t <? _)%Z; simpl; [by rewrite app_nil_r|].
    destruct (_ <=? _)%Z; simpl; [done|by rewrite app_nil_r].
Qed.

Definition backend_state (m : HealthMonitor) (b : string) : BackendHealthState :=
  default BackendHealthState_new (hm_states m !! b).

Lemma state_phase_healthy s p : state_phase s p → hs_is_healthy s = phase_healthy p.
Proof. destruct p; simpl; tauto. Qed.

Lemma record_probe_same m b h t p :
  state_phase (backend_state m b) p →
  let m' := record_probe cfg m b h t in
  state_phase (backend_state m' b) (phase_step cfg p h t) ∧
  hs_history (backend_state m' b) =
    deque_append history_maxlen (hs_history (backend_state m b)) h ∧
  hm_events m' = hm_events m ++ phase_events b p (phase_step cfg p h t) t.
Proof.
  intros Hp. unfold backend_state, record_probe in *.
  pose proof (probe_state_refines _ (hm_events m) b h t p Hp) as H.
  destruct (probe_state _ _ _ _ _ _) as [s' evs']; simpl in *.
  by rewrite lookup_insert_eq.
Qed.

Lemma record_probe_other m b b' h t :
  b ≠ b' → backend_state (record_probe cfg m b h t) b' = backend_state m b'.
Proof.
  intros Hb. unfold backend_state, record_probe.
  destruct (probe_state _ _ _ _ _ _) as [s' evs']; simpl. by rewrite lookup_insert_ne.
Qed.

Lemma run_probes_snoc m tr b h t :
  run_probes cfg m (tr ++ [(b, h, t)]) = record_probe cfg (run_probes cfg m tr) b h t.
Proof. unfold run_probes. by rewrite foldl_app. Qed.

Lemma run_phase_cons p ps h t :
  run_phase cfg p ((h, t) :: ps) = run_phase cfg (phase_step cfg p h t) ps.
Proof. done. Qed.

Lemma run_phase_snoc p ps h t :
  run_phase cfg p (ps ++ [(h, t)]) = phase_step cfg (run_phase cfg p ps) h t.
Proof. unfold run_phase. by rewrite foldl_app. Qed.

Lemma run_phase_app p ps qs :
  run_phase cfg p (ps ++ qs) = run_phase cfg (run_phase cfg p ps) qs.
Proof. apply foldl_app. Qed.

Lemma probes_of_snoc b tr b' h t :
  probes_of b (tr ++ [(b', h, t)]) =
    probes_of b tr ++ (if decide (b' = b) then [(h, t)] else []).
Proof. unfold probes_of. rewrite omap_app. simpl. by case_decide. Qed.

Lemma run_refines tr b :
  state_phase (backend_state (run_probes cfg HealthMonitor_new tr) b)
    (run_phase cfg (Up 0) (probes_of b tr)).
Proof.
  induction tr as [|[[b' h] t] tr IH] using rev_ind; [done|].
  rewrite run_probes_snoc, probes_of_snoc. case_decide as Hb.
  - subst b'. rewrite run_phase_snoc. by apply record_probe_same.
  - by rewrite app_nil_r, record_probe_other.
Qed.

Lemma run_is_healthy tr b t :
  is_healthy (run_probes cfg HealthMonitor_new tr) b t =
    phase_healthy (run_phase cfg (Up 0) (probes_of b tr)).
Proof. apply (state_phase_healthy _ _ (run_refines tr b)). Qed.

Lemma run_history tr b :
  hs_history (backend_state (run_probes cfg HealthMonitor_new tr) b) =
    last_n history_maxlen (probes_of b tr).*1.
Proof.
  induction tr as [|[[b' h] t] tr IH] using rev_ind; [done|].
  rewrite run_probes_snoc, probes_of_snoc. case_decide as Hb.
  - subst b'. destruct (record_probe_same _ _ h t _ (run_refines tr b)) as (_ & -> & _).
    by rewrite IH, deque_append_last_n, fmap_app.
  - by rewrite app_nil_r, record_probe_other.
Qed.

(** *** The automaton on runs of failures and of successes *)

Lemma run_phase_down_failures since n fs :
  Forall (λ p, p.1 = false) fs → phase_healthy (run_phase cfg (Down since n) fs) = false.
Proof.
  revert since n. induction fs as [|[h t] fs IH]; intros since n; [done|].
  intros [Hh Hfs]%Forall_cons. simpl in *. subst h. by apply IH.
Qed.

Lemma run_phase_up_failures n fs :
  Forall (λ p, p.1 = false) fs → fs ≠ [] →
  phase_healthy (run_phase cfg (Up n) fs) =
    negb (failure_threshold cfg <=? n + Z.of_nat (length fs))%Z.
Proof.
  revert n. induction fs as [|[h t] fs IH]; intros n; [done|].
  intros [Hh Hfs]%Forall_cons _. simpl in *. subst h.
  rewrite run_phase_cons. simpl. destruct (Z.leb_spec (failure_threshold cfg) (n + 1)).
  - rewrite (run_phase_down_failures t 0) by done. destruct (Z.leb_spec (failure_threshold cfg) (n + Z.of_nat (S (length fs)))); [done|lia].
  - destruct fs as [|f fs]; [simpl; symmetry; apply negb_true_iff, Z.leb_gt; lia|].
    rewrite IH by done. do 2 f_equal. simpl length. lia.
Qed.

Lemma run_phase_up_successes n ss :
  Forall (λ p, p.1 = true) ss → phase_healthy (run_phase cfg (Up n) ss) = true.
Proof.
  revert n. induction ss as [|[h t] ss IH]; intros n; [done|].
  intros [Hh Hss]%Forall_cons. simpl in *. subst h. by apply IH.
Qed.

Lemma run_phase_down_successes since n ss :
  (0 ≤ n)%Z → (n = 0 ∨ n < recovery_threshold cfg)%Z →
  Forall (λ p, p.1 = true) ss →
  phase_healthy (run_phase cfg (Down since n) ss) =
    bool_decide (0 < counted cfg since ss ∧
                 recovery_threshold cfg ≤ n + counted cfg since ss)%Z.
Proof.
  revert n. induction ss as [|[h t] ss IH]; intros n Hn Hlt.
  { intros _. symmetry. apply bool_decide_eq_false. unfold counted. simpl. lia. }
  intros [Hh Hss]%Forall_cons. simpl in *. subst h. rewrite run_phase_cons. simpl.
  unfold counted in *. rewrite filter_cons. simpl.
  destruct (Z.ltb_spec t (since + cooldown cfg)) as [Ht|Ht].
  - rewrite decide_False by lia. by apply IH.
  - rewrite decide_True by lia. simpl length.
    destruct (Z.leb_spec (recovery_threshold cfg) (n + 1)) as [Hr|Hr].
    + rewrite (run_phase_up_successes 0) by done. symmetry. apply bool_decide_eq_true. lia.
    + rewrite IH by (done || lia). apply bool_decide_ext. lia.
Qed.

Lemma run_phase_last_success ps t :
  phase_healthy (run_phase cfg (Up 0) (ps ++ [(true, t)])) = true →
  run_phase cfg (Up 0) (ps ++ [(true, t)]) = Up 0.
Proof.
  rewrite run_phase_snoc. unfold phase_step. by repeat case_match.
Qed.

Lemma run_phase_last_failure ps t :
  phase_healthy (run_phase cfg (Up 0) (ps ++ [(false, t)])) = false →
  run_phase cfg (Up 0) (ps ++ [(false, t)]) = Down t 0.
Proof.
  rewrite run_phase_snoc. unfold phase_step. by repeat case_match.
Qed.
End refinement.

(** ** Properties *)

Section traces.
Context (cfg : HealthConfig).

Abbreviation run tr := (run_probes cfg HealthMonitor_new tr).

Lemma probes_of_app b tr1 tr2 : probes_of b (tr1 ++ tr2) = probes_of b tr1 ++ probes_of b tr2.
Proof. apply omap_app. Qed.

Lemma phase_settled b tr at_ :
  is_healthy (run tr) b at_ = true →
  (probes_of b tr = [] ∨ ∃ ps t, probes_of b tr = ps ++ [(true, t)]) →
  run_phase cfg (Up 0) (probes_of b tr) = Up 0.
Proof.
  rewrite run_is_healthy. intros Hh [E|(ps & t & E)]; rewrite E in *; [done|].
  by apply run_phase_last_success.
Qed.

Lemma alternates_snoc from v evs e :
  alternates from v evs → ev_from_healthy e = v → ev_to_healthy e = negb v →
  alternates from (negb v) (evs ++ [e]).
Proof.
  revert from. induction evs as [|e' evs IH]; intros from; simpl.
  - intros <-. naive_solver.
  - intros (? & ? & ?) ? ?. eauto 6.
Qed.

Lemma events_of_app b evs evs' : events_of b (evs ++ evs') = events_of b evs ++ events_of b evs'.
Proof. apply filter_app. Qed.

Lemma phase_events_of_other b b' p p' t :
  b' ≠ b → events_of b (phase_events b' p p' t) = [].
Proof.
  intros Hb. unfold events_of, phase_events. case_decide; [done|].
  rewrite filter_cons. by rewrite decide_False.
Qed.

Lemma phase_events_alternate b p p' t evs :
  alternates true (phase_healthy p) evs →
  alternates true (phase_healthy p') (evs ++ events_of b (phase_events b p p' t)).
Proof.
  intros H. unfold phase_events. case_decide as Hp; simpl.
  - by rewrite app_nil_r, <-Hp.
  - unfold events_of. rewrite filter_cons, decide_True by done.
    replace (phase_healthy p') with (negb (phase_healthy p))
      by (by destruct (phase_healthy p), (phase_healthy p')).
    apply alternates_snoc; [done..|]. simpl.
    by destruct (phase_healthy p), (phase_healthy p').
Qed.
End traces.

(** ** The policy of the specification

    The failover specification fixes the cooldown by the probe that starts it, whatever is
    probed inside the window; only a failure after the window starts a new one.  The code starts
    a new window at every failure of a backend that is down. *)

Definition policy_step (cfg : HealthConfig) (p : phase) (healthy : bool) (at_ : datetime) : phase :=
  match p, healthy with
  | Down since n, false => if (at_ <? since + cooldown cfg)%Z then Down since n else Down at_ 0
  | _, _ => phase_step cfg p healthy at_
  end.

Definition run_policy (cfg : HealthConfig) (p : phase) (ps : list (bool * datetime)) : phase :=
  foldl (λ p '(h, t), policy_step cfg p h t) p ps.

(** No probe fails inside a cooldown of the policy. *)
Fixpoint quiet_cooldowns (cfg : HealthConfig) (p : phase) (ps : list (bool * datetime)) : Prop :=
  match ps with
  | [] => True
  | (h, t) :: ps =>
      match p, h with Down since _, false => (since + cooldown cfg ≤ t)%Z | _, _ => True end ∧
      quiet_cooldowns cfg (policy_step cfg p h t) ps
  end.

(** The times of the probes do not go back, from [last] on. *)
Fixpoint in_time (last : datetime) (ps : list (bool * datetime)) : Prop :=
  match ps with [] => True | (_, t) :: ps => (last ≤ t)%Z ∧ in_time t ps end.

(** The code's phase [p] trails the policy's [q]: it is down for longer, and up in the same way. *)
Definition trails (last : datetime) (p q : phase) : Prop :=
  match p, q with
  | Up n, Up m => n = m
  | Up _, Down _ _ => False
  | Down _ _, Up _ => True
  | Down s n, Down s' n' => (s' ≤ s ≤ last)%Z ∧ (0 ≤ n ≤ n')%Z
  end.

Section policy.
Context (cfg : HealthConfig).

Lemma policy_agrees p ps : quiet_cooldowns cfg p ps → run_policy cfg p ps = run_phase cfg p ps.
Proof.
  revert p. induction ps as [|[h t] ps IH]; intros p; [done|]. intros [Hq Hqs].
  rewrite run_phase_cons. simpl. change (run_policy cfg (policy_step cfg p h t) ps = run_phase cfg (phase_step cfg p h t) ps).
  rewrite IH by done. f_equal. destruct p as [n|since n], h; simpl in *; try done.
  by destruct (Z.ltb_spec t (since + cooldown cfg)); [lia|].
Qed.

Lemma trails_step last p q h t :
  (0 ≤ cooldown cfg)%Z → (last ≤ t)%Z → (match p with Down s _ => s ≤ last | Up _ => True end)%Z → trails last p q →
  trails t (phase_step cfg p h t) (policy_step cfg q h t) ∧
  (match phase_step cfg p h t with Down s _ => s ≤ t | Up _ => True end)%Z.
Proof.
  intros Hc Ht Hs Htr. destruct p as [n|s n], q as [m|s' n'], h; simpl in *; subst; try done;
    repeat match goal with
    | |- context [(?x <? ?y)%Z] => destruct (Z.ltb_spec x y); simpl
    | |- context [(?x <=? ?y)%Z] => destruct (Z.leb_spec x y); simpl
    end; try done; try lia.
Qed.

Lemma trails_run last p q ps :
  (0 ≤ cooldown cfg)%Z → in_time last ps → (match p with Down s _ => s ≤ last | Up _ => True end)%Z → trails last p q →
  ∃ last', trails last' (run_phase cfg p ps) (run_policy cfg q ps).
Proof.
  intros Hc. revert last p q. induction ps as [|[h t] ps IH]; intros last p q Hin Hs Htr; [by exists last|].
  destruct Hin as [Ht Hin]. rewrite run_phase_cons.
  destruct (trails_step last p q h t) as [Htr' Hs']; [done..|]. by eapply IH.
Qed.
End policy.

(** C13. [record_probe] implements the two-phase automaton: whatever probes of whatever backends
    the monitor has seen, the state it keeps for backend [b] stands for the phase that the
    automaton reaches on the probes of [b] alone, so backends never influence each other.  The
    automaton is that of the failover specification as long as no probe fails inside a cooldown;
    such a failure starts the cooldown anew in the code, which the specification does not say.
    In any case, with probes in the order of their times and a cooldown that is not negative, a
    backend the code holds healthy is one the specification holds healthy. *)
Theorem record_probe_refines (cfg : HealthConfig) (tr : list probe) (b : string) :
  let m := run_probes cfg HealthMonitor_new tr in
  let ps := probes_of b tr in
  state_phase (default BackendHealthState_new (hm_states m !! b)) (run_phase cfg (Up 0) ps) ∧
  (quiet_cooldowns cfg (Up 0) ps → run_phase cfg (Up 0) ps = run_policy cfg (Up 0) ps) ∧
  (∀ start at_, (0 ≤ cooldown cfg)%Z → in_time start ps → is_healthy m b at_ = true →
    phase_healthy (run_policy cfg (Up 0) ps) = true).
Proof.
  intros m ps. split_and!; [apply run_refines|by intros ->%policy_agrees|].
  intros start at_ Hc Hin Hh. unfold m in Hh. rewrite run_is_healthy in Hh.
  destruct (trails_run cfg start (Up 0) (Up 0) ps) as [last Ht]; [done..|]. fold ps in Hh.
  by destruct (run_phase cfg (Up 0) ps), (run_policy cfg (Up 0) ps).
Qed.

(** A failure inside the cooldown keeps the backend out of routing for longer than the
    specification does. *)
Definition failure_inside : list probe :=
  [("a", false, 0%Z); ("a", false, 1%Z); ("a", false, 2%Z); ("a", false, 20000000%Z);
   ("a", true, 30000002%Z); ("a", true, 30000003%Z)].

Example failure_inside_extends :
  is_healthy (run_probes default_health_config HealthMonitor_new failure_inside) "a" 30000003 = false ∧
  phase_healthy (run_policy default_health_config (Up 0) (probes_of "a" failure_inside)) = true.
Proof. by vm_compute. Qed.

Lemma record_probe_refines_witness :
  let ps := probes_of "a" (failure_inside ++ [("a", true, 60000000%Z); ("a", true, 60000001%Z)]) in
  phase_healthy (run_policy default_health_config (Up 0) ps) = true.
Proof.
  destruct (record_probe_refines default_health_config
    (failure_inside ++ [("a", true, 60000000%Z); ("a", true, 60000001%Z)]) "a") as (_ & _ & H).
  apply (H 0%Z 60000001%Z).
  - by vm_compute.
  - by vm_compute.
  - by vm_compute.
Defined.

(** Tripping.  From a healthy backend whose last probe (if any) succeeded, an
    uninterrupted run of failures takes the backend out of routing exactly when the
    run is at least [failure_threshold] long. *)
Theorem trips_at_threshold (cfg : HealthConfig) (tr1 tr2 : list probe) (b : string) (at_ : datetime) :
  is_healthy (run_probes cfg HealthMonitor_new tr1) b at_ = true →
  (probes_of b tr1 = [] ∨ ∃ ps t, probes_of b tr1 = ps ++ [(true, t)]) →
  probes_of b tr2 ≠ [] →
  Forall (λ p, p.1 = false) (probes_of b tr2) →
  is_healthy (run_probes cfg HealthMonitor_new (tr1 ++ tr2)) b at_ =
    negb (failure_threshold cfg <=? Z.of_nat (length (probes_of b tr2)))%Z.
Proof.
  intros Hh Hlast Hne Hf.
  by rewrite run_is_healthy, probes_of_app, run_phase_app, (phase_settled cfg b tr1 at_),
    run_phase_up_failures.
Qed.

Lemma trips_at_threshold_witness :
  is_healthy (run_probes default_health_config HealthMonitor_new
    ([("a", true, 0%Z); ("b", false, 1%Z)] ++
     [("a", false, 2%Z); ("b", true, 3%Z); ("a", false, 4%Z); ("a", false, 5%Z)])) "a" 6 = false.
Proof.
  rewrite (trips_at_threshold default_health_config
    [("a", true, 0%Z); ("b", false, 1%Z)]
    [("a", false, 2%Z); ("b", true, 3%Z); ("a", false, 4%Z); ("a", false, 5%Z)] "a" 6).
  - reflexivity.
  - reflexivity.
  - right. exists [], 0%Z. reflexivity.
  - discriminate.
  - repeat constructor.
Defined.

(** Recovery.  After a failure at [since] that leaves the backend out of routing,
    an uninterrupted run of successes puts it back exactly when at least one of them,
    and at least [recovery_threshold] of them, came no earlier than [since + cooldown];
    successes inside the cooldown count for nothing. *)
Theorem recovers_after_cooldown (cfg : HealthConfig) (tr1 tr2 : list probe) (b : string)
    (ps : list (bool * datetime)) (since at_ : datetime) :
  is_healthy (run_probes cfg HealthMonitor_new tr1) b at_ = false →
  probes_of b tr1 = ps ++ [(false, since)] →
  Forall (λ p, p.1 = true) (probes_of b tr2) →
  is_healthy (run_probes cfg HealthMonitor_new (tr1 ++ tr2)) b at_ =
    bool_decide (0 < counted cfg since (probes_of b tr2) ∧
                 recovery_threshold cfg ≤ counted cfg since (probes_of b tr2))%Z.
Proof.
  rewrite !run_is_healthy. intros Hh E Hs. rewrite probes_of_app, run_phase_app.
  rewrite E in *. rewrite run_phase_last_failure by done.
  rewrite run_phase_down_successes by (done || lia). apply bool_decide_ext. lia.
Qed.

Lemma recovers_after_cooldown_witness :
  is_healthy (run_probes default_health_config HealthMonitor_new
    ([("a", false, 0%Z); ("a", false, 1%Z); ("a", false, 2%Z)] ++
     [("a", true, 3%Z); ("a", true, 30000002%Z); ("a", true, 30000003%Z)])) "a" 6 = true.
Proof.
  rewrite (recovers_after_cooldown default_health_config
    [("a", false, 0%Z); ("a", false, 1%Z); ("a", false, 2%Z)]
    [("a", true, 3%Z); ("a", true, 30000002%Z); ("a", true, 30000003%Z)] "a"
    [(false, 0%Z); (false, 1%Z)] 2 6).
  - vm_compute. reflexivity.
  - reflexivity.
  - reflexivity.
  - repeat constructor.
Defined.

(** The failure counter shown to the operator counts the failures among the last
    20 probes of that backend, never more. *)
Theorem failure_count_window (cfg : HealthConfig) (tr : list probe) (b : string) :
  failure_count (run_probes cfg HealthMonitor_new tr) b =
    count_false (last_n history_maxlen (probes_of b tr).*1) ∧
  (0 ≤ failure_count (run_probes cfg HealthMonitor_new tr) b ≤ 20)%Z.
Proof.
  assert (E : failure_count (run_probes cfg HealthMonitor_new tr) b =
    count_false (last_n history_maxlen (probes_of b tr).*1)).
  { rewrite <-(run_history cfg). unfold failure_count, backend_state. by destruct (hm_states _ !! b). }
  split; [done|]. rewrite E. unfold count_false.
  pose proof (length_filter (λ b, b = false) (last_n history_maxlen (probes_of b tr).*1)) as H.
  rewrite last_n_length in H. unfold history_maxlen in *. lia.
Qed.

(** The failover log reconstructs the verdicts: the events of one backend alternate
    between leaving and re-entering routing, start from "healthy", and end at what
    [is_healthy] answers. *)
Theorem events_alternate (cfg : HealthConfig) (tr : list probe) (b : string) (at_ : datetime) :
  let m := run_probes cfg HealthMonitor_new tr in
  alternates true (is_healthy m b at_) (events_of b (hm_events m)).
Proof.
  simpl. rewrite run_is_healthy.
  induction tr as [|[[b' h] t] tr IH] using rev_ind; [done|].
  rewrite run_probes_snoc.
  destruct (record_probe_same cfg _ b' h t _ (run_refines cfg tr b')) as (_ & _ & ->).
  rewrite events_of_app, probes_of_snoc. case_decide as Hb.
  - subst b'. rewrite run_phase_snoc. by apply phase_events_alternate.
  - rewrite phase_events_of_other by done. by rewrite !app_nil_r.
Qed.
