(* ===== verification/Scheduling.v ===== *)
(** * Scheduling queue ([scheduling/models.py], [scheduling/queue.py])

    [SchedulingQueue] keeps, per priority, a FIFO queue per session and a rotation of the
    sessions that have one.  An entry may come with an eligibility callback; [dispatch]
    evaluates it in the world of that moment, so a callback is a function of the world
    that may also change it (the gateway's callbacks purge ended leases, for instance) and
    may raise.  The world type, and how it shows the registry's hosts, are parameters. *)

From S2P Require Import Prelude.
From S2P Require Import PyDict.
From S2P Require Import Registry.

(** ** Data *)

Record QueueEntry := {
  request_id : string;
  session_id : string;
  priority : Z;
  at_ : datetime;
}.

#[export] Instance QueueEntry_eq_dec : EqDecision QueueEntry.
Proof. solve_decision. Defined.

Abbreviation tier := (gmap string (list QueueEntry)).

(** What [dispatch] could raise: from its lookups, or from a callback. *)
Inductive queue_error (X : Type) :=
  | PriorityKeyError (p : Z)
  | SessionKeyError (s : string)
  | EmptyDequeError (s : string)
  | CallbackError (e : X).
Arguments PriorityKeyError {_}.
Arguments SessionKeyError {_}.
Arguments EmptyDequeError {_}.
Arguments CallbackError {_}.

(** [_has_free_capacity] *)
Definition has_free_capacity (hosts : list HostInfo) (available : option (gset string)) : bool :=
  existsb (λ h, (in_flight h <? max_concurrent_requests (capacity h))%Z &&
                match available with None => true | Some ids => bool_decide (host_id h ∈ ids) end)
    hosts.

(** [request_id is not None and entry.request_id != request_id] *)
Definition unwanted (wanted : option string) (e : QueueEntry) : bool :=
  match wanted with None => false | Some rid => bool_decide (request_id e ≠ rid) end.

Section queue.
(** The world the callbacks run in, their exceptions, and the registry's hosts as the
    world shows them. *)
Context {W X : Type} (infos : W → list HostInfo).

Definition callback : Type := prog W X (gset string).

Record SchedulingQueue := {
  sq_eligibility : gmap string callback;
  sq_tiers : gmap Z tier;
  sq_rotations : gmap Z (list string);
}.

Definition SchedulingQueue_new : SchedulingQueue :=
  {| sq_eligibility := ∅; sq_tiers := ∅; sq_rotations := ∅ |}.

Definition tier_of (q : SchedulingQueue) (p : Z) : tier := default ∅ (sq_tiers q !! p).
Definition rotation_of (q : SchedulingQueue) (p : Z) : list string :=
  default [] (sq_rotations q !! p).

Definition enqueue (rid sid : string) (p : Z) (at_ : datetime) (eligible : option callback)
    (q : SchedulingQueue) : SchedulingQueue :=
  let t := tier_of q p in
  let e := {| request_id := rid; session_id := sid; priority := p; at_ := at_ |} in
  {| sq_eligibility := match eligible with
                       | Some cb => <[rid := cb]> (sq_eligibility q)
                       | None => sq_eligibility q
                       end;
     sq_tiers := <[p := <[sid := default [] (t !! sid) ++ [e]]> t]> (sq_tiers q);
     sq_rotations := match t !! sid with
                     | None => <[p := rotation_of q p ++ [sid]]> (sq_rotations q)
                     | Some _ => sq_rotations q
                     end |}.

Definition depth (q : SchedulingQueue) : nat := map_sum (map_sum length) (sq_tiers q).

Definition cancel (rid sid : string) (p : Z) (q : SchedulingQueue) : SchedulingQueue :=
  let elig := delete rid (sq_eligibility q) in
  let unchanged := {| sq_eligibility := elig; sq_tiers := sq_tiers q;
                      sq_rotations := sq_rotations q |} in
  match sq_tiers q !! p with
  | None => unchanged
  | Some t =>
      match t !! sid with
      | None => unchanged
      | Some session_queue =>
          let remaining := filter (λ e, request_id e ≠ rid) session_queue in
          if bool_decide (length remaining = length session_queue) then unchanged
          else match remaining with
          | _ :: _ =>
              {| sq_eligibility := elig; sq_tiers := <[p := <[sid := remaining]> t]> (sq_tiers q);
                 sq_rotations := sq_rotations q |}
          | [] =>
              {| sq_eligibility := elig; sq_tiers := <[p := delete sid t]> (sq_tiers q);
                 sq_rotations :=
                   match sq_rotations q !! p with
                   | Some rot => <[p := remove_first sid rot]> (sq_rotations q)
                   | None => sq_rotations q
                   end |}
          end
      end
  end.

(** *** Dispatch *)

(** [eligibility() if eligibility is not None else available_host_ids] *)
Definition allowed_hosts (q : SchedulingQueue) (available : option (gset string))
    (e : QueueEntry) : prog W X (option (gset string)) :=
  match sq_eligibility q !! request_id e with
  | Some cb => ids ← cb; mret (Some ids)
  | None => mret available
  end.

(** Pop [e], the head of [sid]'s queue, leaving [rest]; a session that still waits goes
    to the end of its rotation. *)
Definition pop_entry (p : Z) (sid : string) (e : QueueEntry) (rest : list QueueEntry)
    (q : SchedulingQueue) : SchedulingQueue :=
  let rot := remove_first sid (rotation_of q p) in
  let t := tier_of q p in
  {| sq_eligibility := delete (request_id e) (sq_eligibility q);
     sq_tiers := <[p := match rest with [] => delete sid t | _ => <[sid := rest]> t end]>
                   (sq_tiers q);
     sq_rotations := <[p := match rest with [] => rot | _ => rot ++ [sid] end]>
                       (sq_rotations q) |}.

Definition sched_prog (A : Type) : Type := prog (SchedulingQueue * W) (queue_error X) A.

(** The loop over one rotation.  [Some r] is [return r]; [None] runs on to the next tier. *)
Fixpoint try_sessions (p : Z) (t : tier) (available : option (gset string))
    (wanted : option string) (sids : list string) : sched_prog (option (option string)) :=
  match sids with
  | [] => mret None
  | sid :: sids =>
      match t !! sid with
      | None => raise (SessionKeyError sid)
      | Some [] => raise (EmptyDequeError sid)
      | Some (e :: rest) => λ '(q, w),
          match allowed_hosts q available e w with
          | (Raise err, w') => (Raise (CallbackError err), (q, w'))
          | (Ret allowed, w') =>
              if negb (has_free_capacity (infos w') allowed)
              then try_sessions p t available wanted sids (q, w')
              else if unwanted wanted e
              then (Ret (Some None), (q, w'))
              else (Ret (Some (Some (request_id e))), (pop_entry p sid e rest q, w'))
          end
      end
  end.

Fixpoint try_tiers (available : option (gset string)) (wanted : option string)
    (ps : list Z) : sched_prog (option string) :=
  match ps with
  | [] => mret None
  | p :: ps => λ '(q, w),
      match sq_rotations q !! p with
      | None => (Raise (PriorityKeyError p), (q, w))
      | Some [] => try_tiers available wanted ps (q, w)
      | Some rot =>
          match sq_tiers q !! p with
          | None => (Raise (PriorityKeyError p), (q, w))
          | Some t =>
              match try_sessions p t available wanted rot (q, w) with
              | (Ret (Some r), s) => (Ret r, s)
              | (Ret None, s) => try_tiers available wanted ps s
              | (Raise e, s) => (Raise e, s)
              end
          end
      end
  end.

(** [sorted(self._tiers)] *)
Definition sorted_priorities (q : SchedulingQueue) : list Z :=
  sort_by Z.le (map_to_list (sq_tiers q)).*1.

Definition dispatch (now : datetime) (available : option (gset string)) (wanted : option string)
    : sched_prog (option string) := λ '(q, w),
  if negb (has_free_capacity (infos w) available) then (Ret None, (q, w))
  else try_tiers available wanted (sorted_priorities q) (q, w).
End queue.
Arguments SchedulingQueue : clear implicits.
Arguments SchedulingQueue_new {W X}.

Create HintDb scheduling.

(** ** Well-formed queues *)

(** One priority: the rotation lists exactly the sessions with a queue, once each, and no
    queue is empty or holds an entry of another session or priority. *)
Record tier_wf (p : Z) (t : tier) (rot : list string) : Prop := {
  tw_nodup : NoDup rot;
  tw_sessions s : s ∈ rot ↔ is_Some (t !! s);
  tw_entries s l : t !! s = Some l → l ≠ [] ∧ Forall (λ e, session_id e = s ∧ priority e = p) l;
}.

Lemma tier_wf_empty p : tier_wf p ∅ [].
Proof.
  split; [constructor| |done]. intros s. rewrite lookup_empty, is_Some_alt. set_solver.
Qed.

(** A session gets a queue: a new one goes to the end of the rotation. *)
Lemma tier_wf_insert p t rot s l :
  tier_wf p t rot → l ≠ [] → Forall (λ e, session_id e = s ∧ priority e = p) l →
  tier_wf p (<[s := l]> t) (match t !! s with None => rot ++ [s] | Some _ => rot end).
Proof.
  intros Hwf Hne Hl. pose proof (tw_sessions _ _ _ Hwf s) as Hs. split.
  - destruct (t !! s); [apply Hwf|]. apply NoDup_app. split_and!; [apply Hwf| |apply NoDup_singleton].
    intros x Hx ->%list_elem_of_singleton. apply Hs in Hx. by destruct Hx.
  - intros x. rewrite lookup_insert_is_Some'. pose proof (tw_sessions _ _ _ Hwf x) as Hx.
    destruct (t !! s) eqn:E.
    + rewrite Hx. split; [by right|]. intros [<-|?]; [by rewrite E|done].
    + rewrite elem_of_app, Hx, list_elem_of_singleton. naive_solver.
  - intros x l'. rewrite lookup_insert_Some. intros [[<- <-]|[_ Hx]]; [done|by apply Hwf].
Qed.

Lemma tier_wf_delete p t rot s :
  tier_wf p t rot → tier_wf p (delete s t) (remove_first s rot).
Proof.
  intros Hwf. split.
  - apply remove_first_NoDup, Hwf.
  - intros x. rewrite elem_of_remove_first by apply Hwf.
    rewrite lookup_delete_is_Some, (tw_sessions _ _ _ Hwf). naive_solver.
  - intros x l. rewrite lookup_delete_Some. intros [_ Hx]. by apply Hwf.
Qed.

(** The head of [s] is popped: [s] leaves the rotation or goes to its end. *)
Lemma tier_wf_pop p t rot s e rest :
  tier_wf p t rot → t !! s = Some (e :: rest) →
  tier_wf p (match rest with [] => delete s t | _ => <[s := rest]> t end)
    (match rest with [] => remove_first s rot | _ => remove_first s rot ++ [s] end).
Proof.
  intros Hwf Hs. pose proof (tier_wf_delete _ _ _ s Hwf) as Hd.
  destruct rest as [|e' rest]; [done|].
  destruct (tw_entries _ _ _ Hwf _ _ Hs) as [_ [_ Hl]%Forall_cons].
  pose proof (tier_wf_insert p _ _ s (e' :: rest) Hd) as Hi.
  rewrite lookup_delete_eq, insert_delete_eq in Hi. by apply Hi.
Qed.

(** Shrinking a queue that stays non-empty. *)
Lemma tier_wf_update p t rot s l l' :
  tier_wf p t rot → t !! s = Some l → l' ≠ [] → l' ⊆ l → tier_wf p (<[s := l']> t) rot.
Proof.
  intros Hwf Hs Hne Hsub. pose proof (tier_wf_insert p t rot s l' Hwf Hne) as Hi.
  rewrite Hs in Hi. apply Hi. destruct (tw_entries _ _ _ Hwf _ _ Hs) as [_ Hl].
  rewrite Forall_forall in Hl |- *. auto.
Qed.

Section wf.
Context {W X : Type}.
Implicit Types (q : SchedulingQueue W X) (p : Z) (s rid : string).

(** The entries of session [s] at priority [p], oldest first. *)
Definition queued q p s : list QueueEntry := default [] (tier_of q p !! s).

Record queue_wf q : Prop := {
  qw_dom p : is_Some (sq_tiers q !! p) ↔ is_Some (sq_rotations q !! p);
  qw_tier p : tier_wf p (tier_of q p) (rotation_of q p);
  (** no callback is kept for a request that is not waiting *)
  qw_eligibility rid : is_Some (sq_eligibility q !! rid) →
    ∃ p s e, e ∈ queued q p s ∧ request_id e = rid;
}.

Lemma queue_wf_new : queue_wf SchedulingQueue_new.
Proof.
  split; simpl.
  - intros p. by rewrite !lookup_empty, !is_Some_alt.
  - intros p. unfold tier_of, rotation_of. simpl. rewrite !lookup_empty. apply tier_wf_empty.
  - intros rid. rewrite lookup_empty. by intros [? ?].
Qed.

Lemma tier_of_insert q p t p' elig rots :
  tier_of (W:=W) (X := X) {| sq_eligibility := elig; sq_tiers := <[p := t]> (sq_tiers q); sq_rotations := rots |} p'
    = if decide (p = p') then t else tier_of q p'.
Proof. unfold tier_of. simpl. rewrite lookup_insert. by case_decide. Qed.

Lemma rotation_of_insert q p rot p' elig tiers :
  rotation_of (W:=W) (X := X) {| sq_eligibility := elig; sq_tiers := tiers;
                 sq_rotations := <[p := rot]> (sq_rotations q) |} p'
    = if decide (p = p') then rot else rotation_of q p'.
Proof. unfold rotation_of. simpl. rewrite lookup_insert. by case_decide. Qed.

(** The rotation of a well-formed queue can be rewritten in place. *)
Lemma rotation_id q p : queue_wf q → is_Some (sq_tiers q !! p) →
  <[p := rotation_of q p]> (sq_rotations q) = sq_rotations q.
Proof.
  intros Hwf Hp. apply (qw_dom _ Hwf) in Hp as [rot Hrot]. apply insert_id.
  unfold rotation_of. by rewrite Hrot.
Qed.

(** Rewriting the tier and the rotation of one priority. *)
Definition set_tier (elig : gmap string (callback (W := W) (X := X))) q p t rot : SchedulingQueue W X :=
  {| sq_eligibility := elig; sq_tiers := <[p := t]> (sq_tiers q);
     sq_rotations := <[p := rot]> (sq_rotations q) |}.

Lemma queued_set_tier elig q p t rot p' s :
  queued (set_tier elig q p t rot) p' s
    = if decide (p = p') then default [] (t !! s) else queued q p' s.
Proof. unfold queued, set_tier. rewrite tier_of_insert. by case_decide. Qed.

Lemma set_tier_wf elig q p t rot :
  queue_wf q → tier_wf p t rot →
  (∀ rid, is_Some (elig !! rid) →
    ∃ p' s e, e ∈ queued (set_tier elig q p t rot) p' s ∧ request_id e = rid) →
  queue_wf (set_tier elig q p t rot).
Proof.
  intros Hwf Ht He. split; [| |done].
  - intros p'. simpl. rewrite !lookup_insert_is_Some', (qw_dom _ Hwf). done.
  - intros p'. unfold set_tier. rewrite tier_of_insert, rotation_of_insert.
    case_decide; [by subst|by apply Hwf].
Qed.

Lemma depth_set_tier elig q p t rot :
  depth (set_tier elig q p t rot) + map_sum length (tier_of q p) = map_sum length t + depth q.
Proof.
  unfold depth, set_tier. simpl. rewrite <-(map_sum_insert _ _ p t). f_equal.
  unfold tier_of. by destruct (sq_tiers q !! p).
Qed.

(** *** Enqueue *)

Lemma enqueue_set_tier rid sid p at_ el q :
  queue_wf q →
  enqueue rid sid p at_ el q =
    set_tier (match el with Some cb => <[rid := cb]> (sq_eligibility q) | None => sq_eligibility q end)
      q p (<[sid := queued q p sid ++ [Build_QueueEntry rid sid p at_]]> (tier_of q p))
      (match tier_of q p !! sid with None => rotation_of q p ++ [sid] | Some _ => rotation_of q p end).
Proof.
  intros Hwf. unfold enqueue, set_tier, queued. f_equal.
  destruct (tier_of q p !! sid) eqn:E; [|done]. symmetry. apply rotation_id; [done|].
  unfold tier_of in E. destruct (sq_tiers q !! p); [done|]. simpl in E. by rewrite lookup_empty in E.
Qed.

Lemma queued_enqueue rid sid p at_ el q p' s :
  queue_wf q →
  queued (enqueue rid sid p at_ el q) p' s =
    if decide (p' = p ∧ s = sid) then queued q p' s ++ [Build_QueueEntry rid sid p at_] else queued q p' s.
Proof.
  intros Hwf. rewrite enqueue_set_tier, queued_set_tier by done.
  destruct (decide (p = p')) as [->|]; [|rewrite (decide_False (P := _ ∧ _)) by naive_solver; done].
  rewrite lookup_insert. destruct (decide (sid = s)) as [->|].
  - by rewrite (decide_True (P := _ ∧ _)).
  - by rewrite (decide_False (P := _ ∧ _)) by naive_solver.
Qed.

Lemma queued_entries q p s :
  queue_wf q → Forall (λ e, session_id e = s ∧ priority e = p) (queued q p s).
Proof.
  intros Hwf. unfold queued. destruct (tier_of q p !! s) eqn:E; simpl; [|done].
  by apply (tw_entries _ _ _ (qw_tier _ Hwf p)) in E as [_ ?].
Qed.

Lemma enqueue_wf rid sid p at_ el q : queue_wf q → queue_wf (enqueue rid sid p at_ el q).
Proof.
  intros Hwf. pose proof (queued_enqueue rid sid p at_ el q) as Hq.
  rewrite enqueue_set_tier in * by done. apply set_tier_wf; [done| |].
  - apply tier_wf_insert; [by apply Hwf|by destruct (queued q p sid)|].
    apply Forall_app. split; [by apply queued_entries|]. by constructor.
  - intros r Hr. assert (Hr' : r = rid ∨ is_Some (sq_eligibility q !! r)).
    { destruct el as [cb|]; [|by right]. apply lookup_insert_is_Some in Hr as [<-|[_ ?]]; auto. }
    destruct Hr' as [->|(p' & s & e & He & <-)%(qw_eligibility _ Hwf)].
    + eexists p, sid, (Build_QueueEntry rid sid p at_). split; [|done].
      rewrite Hq by done. rewrite decide_True by done. apply elem_of_app. right. by left.
    + exists p', s, e. split; [|done]. rewrite Hq by done.
      case_decide; [|done]. apply elem_of_app. by left.
Qed.

Lemma depth_enqueue rid sid p at_ el q :
  queue_wf q → depth (enqueue rid sid p at_ el q) = S (depth q).
Proof.
  intros Hwf. rewrite enqueue_set_tier by done.
  pose proof (depth_set_tier (match el with Some cb => <[rid := cb]> (sq_eligibility q)
    | None => sq_eligibility q end) q p
    (<[sid := queued q p sid ++ [Build_QueueEntry rid sid p at_]]> (tier_of q p))
    (match tier_of q p !! sid with None => rotation_of q p ++ [sid] | Some _ => rotation_of q p end)) as H.
  pose proof (map_sum_insert length (tier_of q p) sid
    (queued q p sid ++ [Build_QueueEntry rid sid p at_])) as H'.
  rewrite length_app in H'. simpl in H'.
  assert (from_option length 0 (tier_of q p !! sid) = length (queued q p sid))
    by (unfold queued; by destruct (tier_of q p !! sid)).
  lia.
Qed.

(** *** Cancel *)

Lemma filter_full {A} (P : A → Prop) `{!∀ x, Decision (P x)} (l : list A) :
  length (filter P l) = length l → filter P l = l.
Proof.
  intros E. apply filter_true. intros x Hx. destruct (decide (P x)); [done|].
  assert (length (filter P l) < length l); [|lia].
  apply length_filter_lt with x; done.
Qed.

(** What is left of the queue of [sid] when [rid] is cancelled. *)
Definition uncancelled rid (l : list QueueEntry) : list QueueEntry :=
  filter (λ e, request_id e ≠ rid) l.

Lemma tier_is_Some q p s l : tier_of q p !! s = Some l → sq_tiers q !! p = Some (tier_of q p).
Proof. unfold tier_of. destruct (sq_tiers q !! p); [done|]. simpl. by rewrite lookup_empty. Qed.

Lemma cancel_spec rid sid p q :
  queue_wf q →
  (queued q p sid = uncancelled rid (queued q p sid) ∧
   cancel rid sid p q = {| sq_eligibility := delete rid (sq_eligibility q);
                           sq_tiers := sq_tiers q; sq_rotations := sq_rotations q |}) ∨
  ∃ t rot, cancel rid sid p q = set_tier (delete rid (sq_eligibility q)) q p t rot ∧
    tier_wf p t rot ∧ ∀ s, default [] (t !! s) =
      if decide (s = sid) then uncancelled rid (queued q p s) else queued q p s.
Proof.
  intros Hwf. unfold cancel. destruct (sq_tiers q !! p) as [t|] eqn:Et.
  2: { left. split; [|done]. unfold queued, tier_of. by rewrite Et. }
  assert (E : tier_of q p = t) by (unfold tier_of; by rewrite Et).
  destruct (t !! sid) as [l|] eqn:El; [|left; split; [|done]; unfold queued; by rewrite E, El].
  assert (Eq : queued q p sid = l) by (unfold queued; by rewrite E, El).
  fold (uncancelled rid l). case_bool_decide as Hlen.
  { left. split; [|done]. rewrite Eq. symmetry. by apply filter_full. }
  right. pose proof (qw_tier _ Hwf p) as Ht. rewrite E in Ht.
  assert (Hp : is_Some (sq_tiers q !! p)) by (by rewrite Et).
  destruct (uncancelled rid l) as [|e rem] eqn:Er.
  - exists (delete sid t), (remove_first sid (rotation_of q p)). split_and!.
    + unfold set_tier. f_equal. apply (qw_dom _ Hwf) in Hp as [rot Hrot].
      unfold rotation_of. by rewrite Hrot.
    + by apply tier_wf_delete.
    + intros s. case_decide as Hs; [subst; by rewrite lookup_delete_eq, Er|].
      rewrite lookup_delete_ne by done. unfold queued. by rewrite E.
  - exists (<[sid := e :: rem]> t), (rotation_of q p). split_and!.
    + unfold set_tier. f_equal. symmetry. by apply rotation_id.
    + eapply tier_wf_update; [done..|]. rewrite <-Er. unfold uncancelled.
      intros x [_ Hx]%list_elem_of_filter. done.
    + intros s. case_decide as Hs; [subst; by rewrite lookup_insert_eq, Er|].
      rewrite lookup_insert_ne by done. unfold queued. by rewrite E.
Qed.

Lemma queued_cancel rid sid p q p' s :
  queue_wf q →
  queued (cancel rid sid p q) p' s =
    if decide (p' = p ∧ s = sid) then uncancelled rid (queued q p' s) else queued q p' s.
Proof.
  intros Hwf. destruct (cancel_spec rid sid p q Hwf) as [[Hq ->]|(t & rot & -> & _ & Ht)].
  - case_decide as Hd; [destruct Hd as [-> ->]; by rewrite <-Hq|done].
  - rewrite queued_set_tier. destruct (decide (p = p')) as [->|].
    + rewrite Ht. destruct (decide (s = sid)) as [->|].
      * by rewrite (decide_True (P := _ ∧ _)).
      * by rewrite (decide_False (P := _ ∧ _)) by naive_solver.
    + by rewrite (decide_False (P := _ ∧ _)) by naive_solver.
Qed.

Lemma cancel_eligibility rid sid p q : sq_eligibility (cancel rid sid p q) = delete rid (sq_eligibility q).
Proof.
  unfold cancel. destruct (sq_tiers q !! p) as [t|]; [|done]. destruct (t !! sid); [|done].
  case_bool_decide; [done|]. by destruct (filter _ _).
Qed.

Lemma cancel_wf rid sid p q : queue_wf q → queue_wf (cancel rid sid p q).
Proof.
  intros Hwf. pose proof (queued_cancel rid sid p q) as Hq.
  assert (He : ∀ r, is_Some (sq_eligibility (cancel rid sid p q) !! r) →
    ∃ p' s e, e ∈ queued (cancel rid sid p q) p' s ∧ request_id e = r).
  { intros r. rewrite cancel_eligibility, lookup_delete_is_Some.
    intros [Hne (p' & s & e & He & <-)%(qw_eligibility _ Hwf)]. exists p', s, e. split; [|done].
    rewrite Hq by done. case_decide; [|done]. apply list_elem_of_filter. done. }
  destruct (cancel_spec rid sid p q Hwf) as [[_ E]|(t & rot & E & Ht & _)]; rewrite E in *.
  - split; [apply Hwf|apply Hwf|done].
  - by apply set_tier_wf.
Qed.

(** *** Pop *)

Lemma pop_set_tier p sid e rest q :
  pop_entry p sid e rest q =
    set_tier (delete (request_id e) (sq_eligibility q)) q p
      (match rest with [] => delete sid (tier_of q p) | _ => <[sid := rest]> (tier_of q p) end)
      (match rest with [] => remove_first sid (rotation_of q p)
                     | _ => remove_first sid (rotation_of q p) ++ [sid] end).
Proof. done. Qed.

Lemma queued_pop p sid e rest q p' s :
  tier_of q p !! sid = Some (e :: rest) →
  queued (pop_entry p sid e rest q) p' s =
    if decide (p' = p ∧ s = sid) then rest else queued q p' s.
Proof.
  intros Hs. rewrite pop_set_tier, queued_set_tier. destruct (decide (p = p')) as [->|].
  - destruct (decide (s = sid)) as [->|].
    + rewrite (decide_True (P := _ ∧ _)) by done.
      destruct rest; [by rewrite lookup_delete_eq|by rewrite lookup_insert_eq].
    + rewrite (decide_False (P := _ ∧ _)) by naive_solver.
      destruct rest; [by rewrite lookup_delete_ne|by rewrite lookup_insert_ne].
  - by rewrite (decide_False (P := _ ∧ _)) by naive_solver.
Qed.

Lemma pop_wf p sid e rest q :
  queue_wf q → tier_of q p !! sid = Some (e :: rest) → queue_wf (pop_entry p sid e rest q).
Proof.
  intros Hwf Hs. pose proof (queued_pop p sid e rest q) as Hq. rewrite pop_set_tier in *.
  apply set_tier_wf; [done|by eapply tier_wf_pop; [apply Hwf|]|].
  intros r. rewrite lookup_delete_is_Some.
  intros [Hne (p' & s & e' & He & <-)%(qw_eligibility _ Hwf)]. exists p', s, e'. split; [|done].
  rewrite Hq by done. case_decide as Hd; [|done]. destruct Hd as [-> ->].
  unfold queued in He. rewrite Hs in He. apply elem_of_cons in He as [->|]; done.
Qed.

Lemma depth_pop p sid e rest q :
  tier_of q p !! sid = Some (e :: rest) → depth q = S (depth (pop_entry p sid e rest q)).
Proof.
  intros Hs. rewrite pop_set_tier.
  pose proof (depth_set_tier (delete (request_id e) (sq_eligibility q)) q p
    (match rest with [] => delete sid (tier_of q p) | _ => <[sid := rest]> (tier_of q p) end)
    (match rest with [] => remove_first sid (rotation_of q p)
                   | _ => remove_first sid (rotation_of q p) ++ [sid] end)) as H.
  destruct rest as [|e' rest].
  - pose proof (map_sum_delete length (tier_of q p) sid _ Hs) as H'. simpl in H'. lia.
  - pose proof (map_sum_insert length (tier_of q p) sid (e' :: rest)) as H'.
    rewrite Hs in H'. simpl in H'. lia.
Qed.
End wf.

#[export] Hint Resolve queue_wf_new enqueue_wf cancel_wf pop_wf : scheduling.

(** ** Dispatch *)

Section dispatch.
Context {W X : Type} (infos : W → list HostInfo).
Implicit Types (q : SchedulingQueue W X) (w : W).

Abbreviation result A := (outcome (queue_error X) A) (only parsing).

(** How [dispatch] may leave the queue: as it was, or without the head of one session. *)
Inductive dispatched q (wanted : option string) : result (option string) → SchedulingQueue W X → Prop :=
  | dispatched_raise e : dispatched q wanted (Raise (CallbackError e)) q
  | dispatched_none : dispatched q wanted (Ret None) q
  | dispatched_head p s e rest :
      tier_of q p !! s = Some (e :: rest) → unwanted wanted e = false →
      dispatched q wanted (Ret (Some (request_id e))) (pop_entry p s e rest q).

Definition has_heads (t : tier) (sids : list string) : Prop :=
  Forall (λ s, ∃ e rest, t !! s = Some (e :: rest)) sids.

Lemma wf_heads q p : queue_wf q → has_heads (tier_of q p) (rotation_of q p).
Proof.
  intros Hwf. apply Forall_forall. intros s Hs.
  apply (tw_sessions _ _ _ (qw_tier _ Hwf p)) in Hs as [l Hl].
  destruct (tw_entries _ _ _ (qw_tier _ Hwf p) _ _ Hl) as [Hne _].
  destruct l as [|e rest]; [done|]. by exists e, rest.
Qed.

(** The result of the loop over one rotation, as a result of [dispatch]. *)
Definition loop_result (r : result (option (option string))) : result (option string) :=
  match r with Ret o => Ret (default None o) | Raise e => Raise e end.

Lemma try_sessions_spec p avail wanted sids q w :
  has_heads (tier_of q p) sids →
  ∃ r q' w', try_sessions infos p (tier_of q p) avail wanted sids (q, w) = (r, (q', w')) ∧
    dispatched q wanted (loop_result r) q' ∧ (r = Ret None → q' = q).
Proof.
  revert w. induction sids as [|s sids IH]; intros w Hh; simpl.
  { exists (Ret None), q, w. split_and!; [done|constructor|done]. }
  apply Forall_cons in Hh as [(e & rest & Hs) Hh]. rewrite Hs.
  destruct (allowed_hosts q avail e w) as [[al|err] w'].
  2: { exists (Raise (CallbackError err)), q, w'. split_and!; [done|constructor|done]. }
  destruct (has_free_capacity (infos w') al); simpl; [|by apply IH].
  destruct (unwanted wanted e) eqn:Hw.
  - exists (Ret (Some None)), q, w'. split_and!; [done|constructor|done].
  - exists (Ret (Some (Some (request_id e)))), (pop_entry p s e rest q), w'.
    split_and!; [done|by constructor|done].
Qed.

Lemma try_tiers_spec avail wanted ps q w :
  queue_wf q → Forall (λ p, is_Some (sq_tiers q !! p)) ps →
  ∃ r q' w', try_tiers infos avail wanted ps (q, w) = (r, (q', w')) ∧ dispatched q wanted r q'.
Proof.
  intros Hwf. revert w. induction ps as [|p ps IH]; intros w Hps; simpl.
  { exists (Ret None), q, w. split; [done|constructor]. }
  apply Forall_cons in Hps as [[t Ht] Hps]. pose proof (wf_heads q p Hwf) as Hh.
  assert (Hrot : is_Some (sq_rotations q !! p)) by (apply (qw_dom _ Hwf); by rewrite Ht).
  unfold rotation_of in Hh. destruct Hrot as [rot Hrot]. rewrite Hrot in *. simpl in Hh.
  destruct rot as [|s rot]; [by apply IH|]. rewrite Ht.
  assert (E : tier_of q p = t) by (unfold tier_of; by rewrite Ht).
  destruct (try_sessions_spec p avail wanted (s :: rot) q w Hh) as (r & q' & w' & Hr & Hd & Hn).
  rewrite E in Hr. rewrite Hr. destruct r as [[r|]|err]; [by exists (Ret r), q', w'| |by exists (Raise err), q', w'].
  rewrite Hn by done. by apply IH.
Qed.

Lemma sorted_priorities_tiers q : Forall (λ p, is_Some (sq_tiers q !! p)) (sorted_priorities q).
Proof.
  apply Forall_forall. intros p. unfold sorted_priorities. rewrite elem_of_sort_by, list_elem_of_fmap.
  intros ([p' t] & -> & Hp%elem_of_map_to_list). by exists t.
Qed.

(** [dispatch] raises only what a callback raises, and takes at most one entry: the head of a session. *)
Lemma dispatch_spec now avail wanted q w :
  queue_wf q →
  ∃ r q' w', dispatch infos now avail wanted (q, w) = (r, (q', w')) ∧ dispatched q wanted r q'.
Proof.
  intros Hwf. unfold dispatch. destruct (has_free_capacity (infos w) avail); simpl.
  - apply try_tiers_spec; [done|]. apply sorted_priorities_tiers.
  - exists (Ret None), q, w. split; [done|constructor].
Qed.

Lemma dispatched_wf q wanted r q' : queue_wf q → dispatched q wanted r q' → queue_wf q'.
Proof. intros Hwf []; [done|done|]. by apply pop_wf. Qed.

Lemma dispatched_depth q wanted r q' :
  dispatched q wanted r q' → depth q = depth q' + (match r with Ret (Some _) => 1 | _ => 0 end).
Proof. intros []; [lia|lia|]. rewrite (depth_pop p s e rest q) by done. lia. Qed.

(** *** A reference scheduler *)

(** The order in which sessions are tried: by priority, then by turn. *)
Definition schedule q : list (Z * string) :=
  p ← sorted_priorities q; (p,.) <$> rotation_of q p.

(** Some allowed host has room for the head of the session. *)
Definition can_run q avail w (e : QueueEntry) : bool :=
  match allowed_hosts q avail e w with
  | (Ret allowed, w') => has_free_capacity (infos w') allowed
  | (Raise _, _) => false
  end.

Definition runnable q avail w (ps : Z * string) : bool :=
  match tier_of q ps.1 !! ps.2 with Some (e :: _) => can_run q avail w e | _ => false end.

(** Serve the first session in the order that can run. *)
Definition dispatch_ref (avail : option (gset string)) (wanted : option string) w q
    : option string * SchedulingQueue W X :=
  if negb (has_free_capacity (infos w) avail) then (None, q) else
  match find (runnable q avail w) (schedule q) with
  | None => (None, q)
  | Some (p, s) =>
      match tier_of q p !! s with
      | Some (e :: rest) =>
          if unwanted wanted e then (None, q)
          else (Some (request_id e), pop_entry p s e rest q)
      | _ => (None, q)
      end
  end.

(** Callbacks may change the world, but not in a way another callback or the registry's
    hosts would show.  The worlds in question are those [obs] relates to themselves. *)
Section quiet.
Context (obs : relation W) `{!Symmetric obs, !Transitive obs} `{!Proper (obs ==> eq) infos}.

Definition quiet (cb : callback (W := W) (X := X)) : Prop :=
  (∀ w, obs w w → ∃ ids, (cb w).1 = Ret ids) ∧ (∀ w, obs w w → obs (cb w).2 w) ∧ Proper (obs ==> eq) (λ w, (cb w).1).

Definition quiet_queue q : Prop := map_Forall (λ _ cb, quiet cb) (sq_eligibility q).

Lemma allowed_obs q avail e w :
  quiet_queue q → obs w w → ∃ al w', allowed_hosts q avail e w = (Ret al, w') ∧ obs w' w.
Proof.
  intros Hq Hself. unfold allowed_hosts, mbind, prog_bind, mret, prog_ret.
  destruct (sq_eligibility q !! request_id e) as [cb|] eqn:E1; [|by eexists _, _].
  destruct (Hq _ _ E1) as (Hr & Hw & _). specialize (Hw w Hself). destruct (Hr w Hself) as [ids Hids].
  destruct (cb w) as [r w']. simpl in *. subst r. by eexists _, _.
Qed.

Lemma can_run_obs q avail e w w' :
  quiet_queue q → obs w w' → can_run q avail w e = can_run q avail w' e.
Proof.
  intros Hq Hw. unfold can_run.
  destruct (allowed_obs q avail e w Hq) as (al1 & w1 & E1 & H1); [by etrans|].
  destruct (allowed_obs q avail e w' Hq) as (al2 & w2 & E2 & H2); [by etrans|]. rewrite E1, E2.
  rewrite H1, H2, Hw. f_equal.
  unfold allowed_hosts, mbind, prog_bind, mret, prog_ret in *.
  destruct (sq_eligibility q !! request_id e) as [cb|] eqn:Ec; [|congruence].
  destruct (Hq _ _ Ec) as (_ & _ & Ha). specialize (Ha w w' Hw). simpl in Ha.
  destruct (cb w) as [[]], (cb w') as [[]]; simpl in *; congruence.
Qed.

Lemma runnable_obs q avail w w' ps :
  quiet_queue q → obs w w' → runnable q avail w ps = runnable q avail w' ps.
Proof.
  intros Hq Hw. unfold runnable. destruct (tier_of q ps.1 !! ps.2) as [[|e rest]|]; [done| |done].
  by apply can_run_obs.
Qed.

Lemma try_sessions_ref p avail wanted sids q w :
  quiet_queue q → obs w w → has_heads (tier_of q p) sids →
  ∃ w', obs w' w ∧
    try_sessions infos p (tier_of q p) avail wanted sids (q, w) =
      match find (λ s, runnable q avail w (p, s)) sids with
      | None => (Ret None, (q, w'))
      | Some s =>
          match tier_of q p !! s with
          | Some (e :: rest) =>
              if unwanted wanted e then (Ret (Some None), (q, w'))
              else (Ret (Some (Some (request_id e))), (pop_entry p s e rest q, w'))
          | _ => (Ret None, (q, w'))
          end
      end.
Proof.
  intros Hq. revert w. induction sids as [|s sids IH]; intros w Hself Hh; simpl; [by exists w|].
  apply Forall_cons in Hh as [(e & rest & Hs) Hh]. unfold runnable at 1. simpl.
  rewrite Hs. unfold can_run.
  destruct (allowed_obs q avail e w Hq Hself) as (al & w' & -> & Hobs).
  destruct (has_free_capacity (infos w') al); simpl.
  - exists w'. rewrite Hs. split; [done|]. by destruct (unwanted wanted e).
  - destruct (IH w' ltac:(by etrans) Hh) as (w'' & Hw'' & ->). exists w''. split; [by etrans|].
    by rewrite (find_ext _ _ sids (λ s, runnable_obs q avail w' w (p, s) Hq Hobs)).
Qed.

Lemma try_tiers_ref avail wanted ps q w :
  queue_wf q → quiet_queue q → obs w w → Forall (λ p, is_Some (sq_tiers q !! p)) ps →
  ∃ w', obs w' w ∧
    try_tiers infos avail wanted ps (q, w) =
      match find (runnable q avail w) (p ← ps; (p,.) <$> rotation_of q p) with
      | None => (Ret None, (q, w'))
      | Some (p, s) =>
          match tier_of q p !! s with
          | Some (e :: rest) =>
              if unwanted wanted e then (Ret None, (q, w'))
              else (Ret (Some (request_id e)), (pop_entry p s e rest q, w'))
          | _ => (Ret None, (q, w'))
          end
      end.
Proof.
  intros Hwf Hq. revert w. induction ps as [|p ps IH]; intros w Hself Hps; [by exists w|].
  apply Forall_cons in Hps as [[t Ht] Hps]. pose proof (wf_heads q p Hwf) as Hh.
  assert (Hrot : is_Some (sq_rotations q !! p)) by (apply (qw_dom _ Hwf); by rewrite Ht).
  destruct Hrot as [rot Hrot].
  assert (Er : rotation_of q p = rot) by (unfold rotation_of; by rewrite Hrot).
  assert (Et : tier_of q p = t) by (unfold tier_of; by rewrite Ht).
  cbn [try_tiers mbind list_bind]. rewrite Hrot, Ht, find_app, find_fmap, Er. rewrite Er in Hh.
  destruct (try_sessions_ref p avail wanted rot q w Hq Hself Hh) as (w' & Hw & E).
  rewrite Et in E. destruct rot as [|s0 rot']; [by apply IH|]. rewrite E.
  destruct (find _ (s0 :: rot')) as [s|] eqn:Ef; simpl.
  - apply find_some in Ef as [_ Ef]. unfold runnable in Ef. simpl in Ef. rewrite Et in *.
    destruct (t !! s) as [[|e rest]|]; [done| |done].
    exists w'. split; [done|]. by destruct (unwanted wanted e).
  - destruct (IH w' ltac:(by etrans) Hps) as (w'' & Hw'' & ->). exists w''. split; [by etrans|].
    by rewrite (find_ext _ _ _ (λ ps, runnable_obs q avail w' w ps Hq Hw)).
Qed.

Lemma dispatch_refines now avail wanted q w :
  queue_wf q → quiet_queue q → obs w w →
  ∃ w', obs w' w ∧ dispatch infos now avail wanted (q, w) =
    (Ret (dispatch_ref avail wanted w q).1, ((dispatch_ref avail wanted w q).2, w')).
Proof.
  intros Hwf Hq Hself. unfold dispatch, dispatch_ref, schedule.
  destruct (has_free_capacity (infos w) avail); simpl; [|by exists w].
  destruct (try_tiers_ref avail wanted (sorted_priorities q) q w Hwf Hq Hself
    (sorted_priorities_tiers q)) as (w' & Hw & ->).
  exists w'. split; [done|]. destruct (find _ _) as [[p s]|]; [|done].
  destruct (tier_of q p !! s) as [[|e rest]|]; [done| |done]. by destruct (unwanted wanted e).
Qed.
End quiet.
End dispatch.

(** *** What dispatching does to the world *)

Section dispatch_world.
Context {W X : Type} (infos : W → list HostInfo) (R : relation W) `{!PreOrder R}.
Implicit Types (q : SchedulingQueue W X) (w : W).

(** Every callback of the queue moves the world along [R]. *)
Definition callbacks_along q : Prop := map_Forall (λ _ cb, ∀ w, R w (cb w).2) (sq_eligibility q).

Lemma allowed_along q avail e w : callbacks_along q → R w (allowed_hosts q avail e w).2.
Proof.
  intros Hq. unfold allowed_hosts, mbind, prog_bind, mret, prog_ret.
  destruct (sq_eligibility q !! request_id e) as [cb|] eqn:E; [|done].
  specialize (Hq _ _ E w). by destruct (cb w) as [[] ?].
Qed.

Lemma try_sessions_along p t avail wanted sids q w :
  callbacks_along q → R w (try_sessions infos p t avail wanted sids (q, w)).2.2 ∧
  callbacks_along (try_sessions infos p t avail wanted sids (q, w)).2.1.
Proof.
  intros Hq. revert w. induction sids as [|s sids IH]; intros w; simpl; [done|].
  destruct (t !! s) as [[|e rest]|]; [done| |done].
  pose proof (allowed_along q avail e w Hq) as Hw.
  destruct (allowed_hosts q avail e w) as [[al|err] w']; simpl in *; [|done].
  destruct (has_free_capacity (infos w') al); simpl.
  - destruct (unwanted wanted e); simpl; [done|]. split; [done|]. by apply map_Forall_delete.
  - destruct (IH w') as [Hr ?]. split; [by etrans|done].
Qed.

Lemma try_tiers_along avail wanted ps q w :
  callbacks_along q → R w (try_tiers infos avail wanted ps (q, w)).2.2 ∧
  callbacks_along (try_tiers infos avail wanted ps (q, w)).2.1.
Proof.
  revert q w. induction ps as [|p ps IH]; intros q w Hq; simpl; [done|].
  destruct (sq_rotations q !! p) as [[|s rot]|]; [by apply IH| |done].
  destruct (sq_tiers q !! p) as [t|]; [|done].
  destruct (try_sessions_along p t avail wanted (s :: rot) q w Hq) as [Hr Hc].
  destruct (try_sessions infos p t avail wanted (s :: rot) (q, w)) as [[[r|]|err] [q' w']];
    simpl in *; [done| |done].
  destruct (IH q' w' Hc). split; [by etrans|done].
Qed.

Lemma dispatch_along now avail wanted q w :
  callbacks_along q → R w (dispatch infos now avail wanted (q, w)).2.2 ∧
  callbacks_along (dispatch infos now avail wanted (q, w)).2.1.
Proof.
  intros Hq. unfold dispatch. destruct (has_free_capacity (infos w) avail); simpl; [|done].
  by apply try_tiers_along.
Qed.
End dispatch_world.

(** ** Order of the schedule *)

Section order.
Context {W X : Type} (infos : W → list HostInfo).
Implicit Types (q : SchedulingQueue W X) (w : W).

Lemma elem_of_schedule q p s : queue_wf q → (p, s) ∈ schedule q ↔ s ∈ rotation_of q p.
Proof.
  intros Hwf. unfold schedule. rewrite list_elem_of_bind. split.
  - intros (p' & (s' & [= <- <-] & Hs)%list_elem_of_fmap & _). done.
  - intros Hs. exists p. split; [by apply list_elem_of_fmap_2|].
    apply (tw_sessions _ _ _ (qw_tier _ Hwf p)) in Hs as [l Hl].
    apply elem_of_sort_by, list_elem_of_fmap. exists (p, tier_of q p). split; [done|].
    by apply elem_of_map_to_list, (tier_is_Some q p s l).
Qed.

(** Sessions of a higher priority (a smaller number) come first. *)
Lemma schedule_priority q p s pre post p' s' :
  queue_wf q → schedule q = pre ++ (p, s) :: post → (p' < p)%Z → s' ∈ rotation_of q p' → (p', s') ∈ pre.
Proof.
  intros Hwf E Hp Hs. apply elem_of_schedule in Hs; [|done].
  assert (Hsorted : StronglySorted (λ x y : Z * string, (x.1 ≤ y.1)%Z) (schedule q)).
  { unfold schedule. pose proof (sort_by_sorted Z.le (map_to_list (sq_tiers q)).*1) as H.
    fold (sorted_priorities q) in H. apply Sorted_StronglySorted in H; [|intros ???; lia].
    induction H as [|p0 ps _ IH Hall]; [constructor|]. rewrite bind_cons.
    assert (Htail : Forall (λ y : Z * string, (p0 ≤ y.1)%Z) (ps ≫= λ p, pair p <$> rotation_of q p)).
    { apply Forall_bind. eapply Forall_impl; [exact Hall|]. intros p1 Hp1.
      apply Forall_fmap, Forall_forall. done. }
    induction (rotation_of q p0) as [|s0 rot IHrot]; [done|]. rewrite fmap_cons. simpl.
    constructor; [done|]. apply Forall_app. split; [|done].
    apply Forall_fmap, Forall_forall. intros x _. simpl. lia. }
  rewrite E in Hs, Hsorted. apply elem_of_app in Hs as [?|Hs]; [done|exfalso].
  apply StronglySorted_app_1_r in Hsorted. apply StronglySorted_cons in Hsorted as [Hall _].
  apply elem_of_cons in Hs as [[= -> ->]|Hs]; [lia|].
  rewrite Forall_forall in Hall. specialize (Hall _ Hs). simpl in Hall. lia.
Qed.

Lemma sorted_priorities_sorted q : StronglySorted Z.le (sorted_priorities q).
Proof. apply Sorted_StronglySorted; [intros ???; lia|]. apply sort_by_sorted, _. Qed.

(** When nothing waits above priority [p], its rotation is the start of the schedule. *)
Lemma schedule_head q p s rot :
  queue_wf q → (∀ p', (p' < p)%Z → rotation_of q p' = []) → rotation_of q p = s :: rot →
  ∃ post, schedule q = (p, s) :: post.
Proof.
  intros Hwf Hlow Hrot.
  assert (Hp : p ∈ sorted_priorities q).
  { destruct (proj1 (tw_sessions _ _ _ (qw_tier _ Hwf p) s)) as [l Hl]; [rewrite Hrot; left|].
    apply elem_of_sort_by, list_elem_of_fmap. exists (p, tier_of q p). split; [done|].
    by apply elem_of_map_to_list, (tier_is_Some q p s l). }
  unfold schedule. pose proof (sorted_priorities_sorted q) as Hsorted.
  induction Hsorted as [|p0 ps _ IH Hall]; [by apply not_elem_of_nil in Hp|].
  rewrite bind_cons. destruct (decide (p0 = p)) as [->|Hne]; [rewrite Hrot; by eexists|].
  apply elem_of_cons in Hp as [->|Hp]; [done|]. rewrite Forall_forall in Hall.
  specialize (Hall _ Hp). rewrite Hlow by lia. by apply IH.
Qed.

(** *** Taking turns *)

Definition head_request q p s : option string := request_id <$> head (queued q p s).

Fixpoint dispatch_n (n : nat) (now : datetime) : sched_prog (W := W) (X := X) (list (option string)) :=
  match n with
  | O => mret []
  | S n => r ← dispatch infos now None None; rs ← dispatch_n n now; mret (r :: rs)
  end.

(** The situation in which sessions of priority [p] take turns: the rotation of [p] starts
    with [sids], nothing waits above [p], and there is room. *)
Record turns q w p (sids rest : list string) : Prop := {
  tn_wf : queue_wf q;
  tn_low p' : (p' < p)%Z → rotation_of q p' = [];
  tn_rotation : rotation_of q p = sids ++ rest;
  tn_callbacks : sq_eligibility q = ∅;
  tn_room : has_free_capacity (infos w) None = true;
}.

Lemma turns_step q w p s sids rest now :
  turns q w p (s :: sids) rest →
  ∃ q' rest', dispatch infos now None None (q, w) = (Ret (head_request q p s), (q', w)) ∧
    turns q' w p sids rest' ∧ (∀ s', s' ∈ sids → queued q' p s' = queued q p s').
Proof.
  intros [Hwf Hlow Hrot Hcb Hroom].
  destruct (dispatch_refines infos eq now None None q w Hwf) as (w' & -> & ->).
  { unfold quiet_queue. rewrite Hcb. apply map_Forall_empty. } { done. }
  destruct (schedule_head q p s (sids ++ rest) Hwf Hlow Hrot) as [post Hpost].
  pose proof (wf_heads q p Hwf) as Hh. rewrite Hrot in Hh.
  apply Forall_cons in Hh as [(e & l & Hs) _].
  unfold dispatch_ref. rewrite Hroom, Hpost. unfold runnable, can_run, allowed_hosts, mret, prog_ret. simpl.
  rewrite Hs, Hcb, lookup_empty. simpl. rewrite Hroom. simpl. rewrite Hs.
  unfold head_request, queued. rewrite Hs. simpl.
  pose proof (tw_nodup _ _ _ (qw_tier _ Hwf p)) as Hnd. rewrite Hrot in Hnd.
  apply NoDup_cons in Hnd as [Hni Hnd].
  exists (pop_entry p s e l q), (match l with [] => rest | _ => rest ++ [s] end).
  split_and!; [done| |].
  - split; [by apply pop_wf| | | |done].
    + intros p' Hp'. rewrite pop_set_tier. unfold set_tier. rewrite rotation_of_insert.
      rewrite decide_False by lia. by apply Hlow.
    + rewrite pop_set_tier. unfold set_tier. rewrite rotation_of_insert, decide_True by done.
      rewrite Hrot. simpl. rewrite decide_True by done. destruct l; [done|]. by rewrite app_assoc.
    + simpl. rewrite Hcb. apply delete_empty.
  - intros s' Hs'. change (queued (pop_entry p s e l q) p s' = queued q p s').
    rewrite queued_pop by done. rewrite decide_False; [done|]. intros [_ ->].
    apply Hni, elem_of_app. by left.
Qed.

Lemma turns_taken q w p sids rest now :
  turns q w p sids rest →
  ∃ q', dispatch_n (length sids) now (q, w) = (Ret (head_request q p <$> sids), (q', w)).
Proof.
  revert q rest. induction sids as [|s sids IH]; intros q rest Ht; [by exists q|].
  destruct (turns_step q w p s sids rest now Ht) as (q' & rest' & E & Ht' & Hq).
  destruct (IH q' rest' Ht') as [q'' E']. exists q''. cbn [dispatch_n length].
  unfold mbind, prog_bind. rewrite E, E'. unfold mret, prog_ret. f_equal. f_equal.
  rewrite fmap_cons. f_equal. apply list_fmap_ext. intros i s' Hi.
  unfold head_request. rewrite Hq; [done|]. by eapply list_elem_of_lookup_2.
Qed.
End order.

(** ** Properties *)

(** The abstract queue: one FIFO list per priority and session. *)
Definition sessions : Type := Z → string → list QueueEntry.

Inductive queue_op (W X : Type) :=
  | QEnqueue (rid sid : string) (p : Z) (at_ : datetime) (eligible : option (callback (W := W) (X := X)))
  | QCancel (rid sid : string) (p : Z)
  | QDispatch (now : datetime) (available : option (gset string)) (wanted : option string).
Arguments QEnqueue {_ _}.
Arguments QCancel {_ _}.
Arguments QDispatch {_ _}.

(** A queue and its world after an operation, with what the operation returned or raised. *)
Definition run_queue_op {W X} (infos : W → list HostInfo) (o : queue_op W X) (s : SchedulingQueue W X * W)
    : outcome (queue_error X) (option string) * (SchedulingQueue W X * W) :=
  match o with
  | QEnqueue rid sid p at_ el => (Ret None, (enqueue rid sid p at_ el s.1, s.2))
  | QCancel rid sid p => (Ret None, (cancel rid sid p s.1, s.2))
  | QDispatch now available wanted => dispatch infos now available wanted s
  end.

(** A sequence of operations; one that raises does not stop the later ones. *)
Fixpoint run_queue {W X} (infos : W → list HostInfo) (os : list (queue_op W X)) (s : SchedulingQueue W X * W)
    : list (outcome (queue_error X) (option string)) * (SchedulingQueue W X * W) :=
  match os with
  | [] => ([], s)
  | o :: os =>
      let '(r, s) := run_queue_op infos o s in
      let '(rs, s) := run_queue infos os s in (r :: rs, s)
  end.

(** [σ'] is [σ] with [f] applied to the list of [sid] at priority [p]. *)
Definition update_session (p : Z) (sid : string) (f : list QueueEntry → list QueueEntry)
    (σ σ' : sessions) : Prop :=
  ∀ p' s, σ' p' s = if decide (p' = p ∧ s = sid) then f (σ p' s) else σ p' s.

Inductive fifo_step {W X} : queue_op W X → outcome (queue_error X) (option string) →
    sessions → sessions → Prop :=
  | fifo_enqueue rid sid p at_ el σ σ' :
      update_session p sid (λ l, l ++ [Build_QueueEntry rid sid p at_]) σ σ' →
      fifo_step (QEnqueue rid sid p at_ el) (Ret None) σ σ'
  | fifo_cancel rid sid p σ σ' :
      update_session p sid (filter (λ e, request_id e ≠ rid)) σ σ' →
      fifo_step (QCancel rid sid p) (Ret None) σ σ'
  | fifo_idle now available wanted σ : fifo_step (QDispatch now available wanted) (Ret None) σ σ
  | fifo_raise now available wanted e σ :
      fifo_step (QDispatch now available wanted) (Raise (CallbackError e)) σ σ
  | fifo_dispatch now available wanted p sid e rest σ σ' :
      σ p sid = e :: rest → wanted = None ∨ wanted = Some (request_id e) →
      update_session p sid (drop 1) σ σ' →
      fifo_step (QDispatch now available wanted) (Ret (Some (request_id e))) σ σ'.

Inductive fifo_run {W X} : list (queue_op W X) → list (outcome (queue_error X) (option string)) →
    sessions → sessions → Prop :=
  | fifo_run_nil σ : fifo_run [] [] σ σ
  | fifo_run_cons o os r rs σ1 σ2 σ3 :
      fifo_step o r σ1 σ2 → fifo_run os rs σ2 σ3 → fifo_run (o :: os) (r :: rs) σ1 σ3.

Lemma run_queue_op_step {W X} (infos : W → list HostInfo) (o : queue_op W X) q w :
  queue_wf q →
  ∃ r q' w', run_queue_op infos o (q, w) = (r, (q', w')) ∧ queue_wf q' ∧
    fifo_step o r (queued q) (queued q').
Proof.
  intros Hwf. destruct o as [rid sid p at_ el|rid sid p|now available wanted]; simpl.
  - eexists _, _, _. split_and!; [done|by apply enqueue_wf|].
    constructor. intros p' s. by apply queued_enqueue.
  - eexists _, _, _. split_and!; [done|by apply cancel_wf|].
    constructor. intros p' s. by apply queued_cancel.
  - destruct (dispatch_spec infos now available wanted q w Hwf) as (r & q' & w' & Eq & Hd).
    exists r, q', w'. split_and!; [done|by eapply dispatched_wf|].
    destruct Hd as [err| |p s e rest Hs Hw]; [constructor..|].
    assert (Hq : queued q p s = e :: rest) by (unfold queued; by rewrite Hs).
    econstructor; [exact Hq| |].
    + destruct wanted as [rid|]; [right|by left]. simpl in Hw. rewrite bool_decide_eq_false in Hw.
      f_equal. by destruct (decide (request_id e = rid)).
    + intros p' s'. rewrite queued_pop by done. case_decide as Hd; [|done].
      destruct Hd as [-> ->]. by rewrite Hq.
Qed.

Lemma run_queue_fifo {W X} (infos : W → list HostInfo) (os : list (queue_op W X)) q w :
  queue_wf q →
  ∃ rs q' w', run_queue infos os (q, w) = (rs, (q', w')) ∧ queue_wf q' ∧
    fifo_run os rs (queued q) (queued q').
Proof.
  revert q w. induction os as [|o os IH]; intros q w Hwf.
  { exists [], q, w. split_and!; [done|done|constructor]. }
  destruct (run_queue_op_step infos o q w Hwf) as (r & q1 & w1 & E1 & Hwf1 & Hs).
  destruct (IH q1 w1 Hwf1) as (rs & q2 & w2 & E2 & Hwf2 & Hr).
  exists (r :: rs), q2, w2. split_and!; [|done|by econstructor].
  cbn [run_queue]. by rewrite E1, E2.
Qed.

(** Whatever sequence of enqueues, cancels and dispatches is run, and whatever the
    callbacks do, nothing raises but a callback and the queue behaves as one FIFO list per priority and
    session: an enqueue appends to one list, a cancel removes that request from one list, a
    dispatch does nothing or takes the head of one list (the awaited request, if there is
    one). *)
Theorem queue_is_fifo {W X} (infos : W → list HostInfo) (os : list (queue_op W X)) (w : W) :
  (∀ p s, queued (W := W) (X := X) SchedulingQueue_new p s = []) ∧
  ∃ rs q' w', run_queue infos os (SchedulingQueue_new, w) = (rs, (q', w')) ∧ queue_wf q' ∧
    fifo_run os rs (queued (W := W) (X := X) SchedulingQueue_new) (queued q').
Proof.
  split; [|apply run_queue_fifo, queue_wf_new]. intros p s. unfold queued, tier_of. simpl.
  by rewrite !lookup_empty.
Qed.

(** C11. When the callbacks change nothing that shows, [dispatch] is the reference
    scheduler: it serves the head of the first session, by priority and then by turn, that
    some allowed host has room for. *)
Theorem dispatch_is_reference {W X} (infos : W → list HostInfo) (obs : relation W)
    `{!Symmetric obs, !Transitive obs} `{!Proper (obs ==> eq) infos} now available wanted (q : SchedulingQueue W X) w :
  queue_wf q → quiet_queue obs q → obs w w →
  ∃ r q' w', dispatch infos now available wanted (q, w) = (Ret r, (q', w')) ∧ obs w' w ∧
    dispatch_ref infos available wanted w q = (r, q') ∧
    depth q = depth q' + (match r with Some _ => 1 | None => 0 end).
Proof.
  intros Hwf Hq Hself. destruct (dispatch_refines infos obs now available wanted q w Hwf Hq Hself) as (w' & Hw & E1).
  destruct (dispatch_spec infos now available wanted q w Hwf) as (r & q' & w'' & E' & Hd).
  rewrite E1 in E'. injection E' as <- <- <-.
  eexists _, _, _. split_and!; [exact E1|exact Hw|apply surjective_pairing|].
  by apply dispatched_depth in Hd.
Qed.

(** A dispatched request is the head of a session that can run, no session tried
    before it can, and every session of a more urgent priority is tried before it. *)
Theorem dispatch_priority {W X} (infos : W → list HostInfo) (obs : relation W)
    `{!Symmetric obs, !Transitive obs} `{!Proper (obs ==> eq) infos} now available wanted (q : SchedulingQueue W X) w rid s' :
  queue_wf q → quiet_queue obs q → obs w w →
  dispatch infos now available wanted (q, w) = (Ret (Some rid), s') →
  ∃ p s pre post, schedule q = pre ++ (p, s) :: post ∧
    head_request q p s = Some rid ∧ runnable infos q available w (p, s) = true ∧
    Forall (λ ps, runnable infos q available w ps = false) pre ∧
    ∀ p1 s1, (p1 < p)%Z → s1 ∈ rotation_of q p1 → (p1, s1) ∈ pre.
Proof.
  intros Hwf Hq Hself E1. destruct (dispatch_refines infos obs now available wanted q w Hwf Hq Hself) as (w' & _ & E').
  rewrite E' in E1. injection E1 as E1 _. revert E1. unfold dispatch_ref.
  destruct (has_free_capacity (infos w) available); simpl; [|done].
  destruct (find _ _) as [[p s]|] eqn:Ef; [|done].
  apply find_split in Ef as (pre & post & Hs & Hr & Hpre).
  destruct (tier_of q p !! s) as [[|e rest]|] eqn:Et; [done| |done].
  destruct (unwanted wanted e); [done|]. intros [= <-].
  exists p, s, pre, post. split_and!; [done| |done|done|].
  - unfold head_request, queued. by rewrite Et.
  - intros p1 s1 Hp Hin. by eapply schedule_priority.
Qed.

(** Sessions of one priority take turns: while there is room and nothing more urgent
    waits, as many dispatches as there are sessions serve each of them once, in order. *)
Theorem sessions_take_turns {W X} (infos : W → list HostInfo) now (q : SchedulingQueue W X) w p :
  queue_wf q → sq_eligibility q = ∅ → has_free_capacity (infos w) None = true →
  (∀ p', (p' < p)%Z → rotation_of q p' = []) →
  ∃ q', dispatch_n infos (length (rotation_of q p)) now (q, w) =
    (Ret (head_request q p <$> rotation_of q p), (q', w)).
Proof.
  intros Hwf Hcb Hroom Hlow. apply turns_taken with []. split; [done..| |done|done].
  by rewrite app_nil_r.
Qed.

(** *** A concrete queue: two sessions at priority 1, one at priority 5 *)

Definition host_of (id : string) (running max : Z) : HostInfo :=
  {| host_id := id;
     capabilities := {| backend_type := "lmstudio"; context_window := 8192; base_url := "";
                        allowed_models := None; memory_budget_gb := None; model_sizes_gb := None;
                        model_aliases := None; position := None |};
     capacity := {| max_concurrent_requests := max |}; in_flight := running; last_seen := 0 |}.

Definition two_hosts (_ : unit) : list HostInfo := [host_of "full" 2 2; host_of "idle" 0 1].

Definition only (id : string) : callback (W := unit) (X := Empty_set) := λ w, (Ret {[ id ]}, w).

Definition sample_queue (callbacks : bool) : SchedulingQueue unit Empty_set :=
  let cb id := if callbacks then Some (only id) else None in
  enqueue "r4" "s1" 1 3 None (enqueue "r3" "s2" 1 2 (cb "idle")
    (enqueue "r2" "s1" 1 1 (cb "full") (enqueue "r1" "s9" 5 0 None SchedulingQueue_new))).

Lemma sample_queue_wf cb : queue_wf (sample_queue cb).
Proof. unfold sample_queue. auto 6 with scheduling. Qed.

Lemma sample_queue_quiet : quiet_queue eq (sample_queue true).
Proof.
  unfold quiet_queue. simpl. apply map_Forall_insert_2; [|apply map_Forall_insert_2]; last done.
  all: split_and!; [intros w _; by eexists|done|by intros [] [] _].
Qed.

(** ["s1"] may only run on the full host, so ["s2"] goes first. *)
Lemma dispatch_is_reference_witness :
  ∃ q', dispatch two_hosts 0 None None (sample_queue true, ()) = (Ret (Some "r3"), (q', ())).
Proof.
  destruct (dispatch_is_reference two_hosts eq 0 None None (sample_queue true) ()
    (sample_queue_wf _) sample_queue_quiet eq_refl) as (r & q' & [] & E & _ & Hr & _).
  exists q'. rewrite E. assert (r = Some "r3") as ->; [|done].
  change r with (r, q').1. rewrite <-Hr. by vm_compute.
Defined.

Lemma dispatch_priority_witness :
  ∃ p s pre post, schedule (sample_queue true) = pre ++ (p, s) :: post ∧
    head_request (sample_queue true) p s = Some "r3".
Proof.
  destruct (dispatch two_hosts 0 None None (sample_queue true, ())) as [r s'] eqn:E.
  assert (Hr : r = Ret (Some "r3")) by (change r with (r, s').1; rewrite <-E; by vm_compute).
  rewrite Hr in E.
  destruct (dispatch_priority two_hosts eq 0 None None (sample_queue true) () _ _
    (sample_queue_wf _) sample_queue_quiet eq_refl E) as (p & s & pre & post & ? & ? & _).
  by exists p, s, pre, post.
Defined.

Lemma sessions_take_turns_witness :
  ∃ q', dispatch_n two_hosts 2 0 (sample_queue false, ()) = (Ret [Some "r2"; Some "r3"], (q', ())).
Proof.
  assert (Hlow : ∀ p', (p' < 1)%Z → rotation_of (sample_queue false) p' = []).
  { intros p' Hp.
    assert (H : map_Forall (λ p _, (1 ≤ p)%Z) (sq_rotations (sample_queue false))) by vm_decide.
    unfold rotation_of. destruct (sq_rotations (sample_queue false) !! p') eqn:E; [|done].
    specialize (H _ _ E). simpl in H. lia. }
  destruct (sessions_take_turns two_hosts 0 (sample_queue false) () 1
    (sample_queue_wf _) eq_refl eq_refl Hlow) as [q' E].
  exists q'. exact E.
Defined.
