(* ===== verification/Routing.v ===== *)
(** * Routing engine ([routing/models.py], [routing/engine.py])

    [RoutingEngine.select_backend] keeps the candidates whose context window fits the
    request, scores them with the policy's rules and takes the best; a session sticks to
    the backend it was first given as long as that backend is eligible.  The score
    functions of the rules are part of the policy, so they are data here too. *)

From S2P Require Import Prelude.
From S2P Require Import PyFloat.
From S2P Require Import PyStr.
From S2P Require Import PyDict.
From S2P Require Import PyJson.
From S2P Require Import ApiModels.

#[local] Open Scope list_scope.

(** ** Data *)

(** The candidate's backend object is only asked for its id. *)
Record RoutingCandidate := {
  rc_backend_id : string;
  rc_latency_ms : float;
  rc_context_window : Z;
}.

Record RoutingContext := { ctx_task_type : option string; ctx_token_budget : Z }.

Record PolicyRule := {
  rule_name : string;
  score_fn : RoutingCandidate → RoutingContext → float;
  rule_task_type : option string;
}.

Definition applies_to (r : PolicyRule) (t : option string) : bool :=
  match rule_task_type r with None => true | Some _ => bool_decide (rule_task_type r = t) end.

Record RoutingPolicy := { rules : list PolicyRule }.

Record RoutingDecision := {
  rd_backend_id : string;
  rd_scores : dict string float;
  rd_matched_rules : dict string (list string);
}.

Inductive routing_error :=
  | NoAvailableBackendError (msg : string).



Record RoutingEngine := {
  re_policy : RoutingPolicy;
  re_sticky_sessions_enabled : bool;
  re_sticky_assignments : gmap string string;
}.

Definition RoutingEngine_new (policy : RoutingPolicy) (sticky : bool) : RoutingEngine :=
  {| re_policy := policy; re_sticky_sessions_enabled := sticky; re_sticky_assignments := ∅ |}.

(** ** Scoring *)

(** [-(-total_chars // 4)]; [Z.div] rounds down, as [//] does. *)
Definition estimate_token_budget (r : ChatCompletionRequest) : Z :=
  let total_chars := foldl (λ n m, (n + Z.of_nat (String.length (content m)))%Z) 0%Z (messages r) in
  (- (- total_chars `div` 4))%Z.

(** The inner loop over the rules. *)
Definition apply_rules (rs : list PolicyRule) (c : RoutingCandidate) (ctx : RoutingContext)
    : float * list string :=
  foldl (λ '(total, matched) r,
    if applies_to r (ctx_task_type ctx)
    then (f_add total (score_fn r c ctx), matched ++ [rule_name r])
    else (total, matched)) (f_zero, []) rs.

Definition score_candidates (policy : RoutingPolicy) (eligible : list RoutingCandidate)
    (ctx : RoutingContext) : dict string float * dict string (list string) :=
  foldl (λ '(scores, matched_rules) c,
    let '(total, matched) := apply_rules (rules policy) c ctx in
    (d_set scores (rc_backend_id c) total, d_set matched_rules (rc_backend_id c) matched))
    ([], []) eligible.

(** [x == y] on floats. *)
Definition f_eq (x y : float) : bool := SFeqb x y.

(** [(x, s) < (y, t)]: the first components that differ decide. *)
Definition key_lt (a b : float * string) : bool :=
  if f_eq a.1 b.1 then str_lt a.2 b.2 else f_lt a.1 b.1.

(** [min(xs, key=key)]: the first element no later one is below. *)
Definition min_by {A} (key : A → float * string) (x : A) (xs : list A) : A :=
  foldl (λ best c, if key_lt (key c) (key best) then c else best) x xs.

(** [lambda c: (-scores[c.backend.backend_id], c.backend.backend_id)].  [scores] has every
    candidate ([score_candidates_get] below), so the default is never read. *)
Definition rank (scores : dict string float) (c : RoutingCandidate) : float * string :=
  (f_opp (default f_zero (d_get scores (rc_backend_id c))), rc_backend_id c).

(** ** Selection *)

Definition route_prog (A : Type) : Type := prog RoutingEngine routing_error A.

Definition sticky_backend_for (session_id : string) (e : RoutingEngine) : option string :=
  re_sticky_assignments e !! session_id.

Definition assign_sticky (session_id backend_id : string) (e : RoutingEngine) : RoutingEngine :=
  {| re_policy := re_policy e; re_sticky_sessions_enabled := re_sticky_sessions_enabled e;
     re_sticky_assignments := <[session_id := backend_id]> (re_sticky_assignments e) |}.

Definition no_window (budget : Z) : string :=
  "no candidate backend has a context window >= " +:+ str_of_Z budget +:+ " tokens".

Definition fitting (r : ChatCompletionRequest) (candidates : list RoutingCandidate)
    : list RoutingCandidate :=
  filter (λ c, (estimate_token_budget r <= rc_context_window c)%Z) candidates.

Definition select_backend (r : ChatCompletionRequest) (candidates : list RoutingCandidate)
    (session_id : option string) : route_prog RoutingDecision := λ e,
  let token_budget := estimate_token_budget r in
  match fitting r candidates with
  | [] => (Raise (NoAvailableBackendError (no_window token_budget)), e)
  | c0 :: cs =>
      let ctx := {| ctx_task_type := task_type r; ctx_token_budget := token_budget |} in
      let '(scores, matched_rules) := score_candidates (re_policy e) (c0 :: cs) ctx in
      let decide_on b := {| rd_backend_id := b; rd_scores := scores; rd_matched_rules := matched_rules |} in
      let sticky :=
        match session_id with
        | Some s => if re_sticky_sessions_enabled e then re_sticky_assignments e !! s else None
        | None => None
        end in
      let fresh :=
        let winner := rc_backend_id (min_by (rank scores) c0 cs) in
        let e' := match session_id with
          | Some s =>
              if re_sticky_sessions_enabled e && bool_decide (re_sticky_assignments e !! s = None)
              then assign_sticky s winner e else e
          | None => e
          end in
        (Ret (decide_on winner), e') in
      match sticky with
      | Some b => if bool_decide (is_Some (d_get scores b)) then (Ret (decide_on b), e) else fresh
      | None => fresh
      end
  end.

(** ** Ranking *)

Definition rank_le (a b : float * string) : Prop := key_lt b a = false.

Lemma f_eq_key x y :
  is_nan x = false → is_nan y = false → f_eq x y = true ↔ f_key x = f_key y.
Proof.
  intros Hx Hy. unfold f_eq, SFeqb.
  destruct x as [[]|[]| |[] m e], y as [[]|[]| |[] m' e']; try discriminate;
    simpl; try (split; [discriminate|done]); try done.
  all: change (Pos.compare_cont Eq m m') with (Pos.compare m m').
  all: destruct (Z.compare_spec e e'), (Pos.compare_spec m m'); simpl; subst;
    split; try discriminate; try done; intros [=]; lia.
Qed.

Definition ranked (a : float * string) : Prop := is_nan a.1 = false.

(** The order of ranks, spelt out on the keys of the scores. *)
Lemma key_lt_spec a b :
  ranked a → ranked b →
  key_lt a b = true ↔ PyFloat.key_lt (f_key a.1) (f_key b.1) ∨ (f_key a.1 = f_key b.1 ∧ ¬ String.le b.2 a.2).
Proof.
  intros Ha Hb. unfold key_lt. destruct (f_eq a.1 b.1) eqn:E.
  - apply f_eq_key in E; [|done..]. unfold str_lt. rewrite bool_decide_eq_true, E.
    destruct (f_key b.1) as [[??]?]. simpl. split; [by right|]. intros [?|[_ ?]]; [lia|done].
  - assert (f_key a.1 ≠ f_key b.1) by (rewrite <-f_eq_key by done; congruence).
    rewrite f_lt_key by done. tauto.
Qed.

Lemma key_lt_cotrans a b c :
  ranked a → ranked b → ranked c → key_lt a c = true → key_lt a b = true ∨ key_lt b c = true.
Proof.
  intros Ha Hb Hc. rewrite !key_lt_spec by done.
  destruct (f_key a.1) as [[a1 a2] a3], (f_key b.1) as [[b1 b2] b3], (f_key c.1) as [[c1 c2] c3].
  simpl. intros H.
  destruct (decide (String.le b.2 a.2)) as [Hba|Hba].
  - assert (Hcb : ¬ String.le c.2 a.2 → ¬ String.le c.2 b.2) by (intros Hn ?; apply Hn; by etrans).
    destruct (Z.lt_trichotomy a1 b1) as [?|[?|?]]; destruct (Z.lt_trichotomy a2 b2) as [?|[?|?]];
      destruct (Z.lt_trichotomy a3 b3) as [?|[?|?]]; destruct H as [H|[[= -> -> ->] H]];
      first [left; left; lia|right; left; lia|right; right; split; [congruence|tauto]|idtac].
    all: right; left; lia.
  - destruct (Z.lt_trichotomy a1 b1) as [?|[?|?]]; destruct (Z.lt_trichotomy a2 b2) as [?|[?|?]];
      destruct (Z.lt_trichotomy a3 b3) as [?|[?|?]]; destruct H as [H|[[= -> -> ->] H]];
      first [left; left; lia|right; left; lia|left; right; split; [congruence|done]|idtac].
Qed.

Lemma key_lt_irrefl a : key_lt a a = false.
Proof.
  unfold key_lt, str_lt. rewrite bool_decide_false by (intros Hn; apply Hn; reflexivity).
  rewrite f_lt_irrefl. by destruct (f_eq _ _).
Qed.

Lemma key_lt_asym a b : ranked a → ranked b → key_lt a b = true → key_lt b a = false.
Proof.
  intros Ha Hb H. apply not_true_is_false. revert H. rewrite !key_lt_spec by done.
  destruct (f_key a.1) as [[a1 a2] a3], (f_key b.1) as [[b1 b2] b3]. simpl.
  destruct (total String.le a.2 b.2); intros [?|[? ?]] [?|[? ?]]; simplify_eq; first [lia|done].
Qed.

Lemma rank_le_trans a b c : ranked a → ranked b → ranked c → rank_le a b → rank_le b c → rank_le a c.
Proof.
  unfold rank_le. intros Ha Hb Hc Hab Hbc. apply not_true_is_false. intros H.
  apply (key_lt_cotrans c b a) in H as [H|H]; [congruence..|done|done|done].
Qed.

(** [min_by] returns an element of the list that no element is below. *)
Lemma min_by_spec {A} (key : A → float * string) x xs :
  Forall (λ y, ranked (key y)) (x :: xs) →
  min_by key x xs ∈ x :: xs ∧ Forall (λ y, rank_le (key (min_by key x xs)) (key y)) (x :: xs).
Proof.
  revert x. induction xs as [|y xs IH]; intros x [Hx Hxs]%Forall_cons.
  { split; [left|]. constructor; [apply key_lt_irrefl|constructor]. }
  pose proof Hxs as [Hy Hxs']%Forall_cons.
  change (min_by key x (y :: xs)) with (min_by key (if key_lt (key y) (key x) then y else x) xs).
  set (z := if key_lt (key y) (key x) then y else x).
  assert (Hz : Forall (λ y, ranked (key y)) (z :: xs)).
  { constructor; [|done]. unfold z. by destruct (key_lt _ _). }
  assert (Hle : rank_le (key z) (key x) ∧ rank_le (key z) (key y)).
  { unfold z, rank_le. destruct (key_lt (key y) (key x)) eqn:E.
    - split; [by apply key_lt_asym|apply key_lt_irrefl].
    - split; [apply key_lt_irrefl|done]. }
  destruct Hle as [Hzx Hzy]. destruct (IH z Hz) as [Hin Hall]. pose proof Hz as [Hrz _]%Forall_cons.
  assert (Hm : ranked (key (min_by key z xs))) by (rewrite Forall_forall in Hz; by apply Hz).
  apply Forall_cons in Hall as [Hmz Hall]. split.
  - apply elem_of_cons in Hin as [E|Hin]; [|by right; right].
    rewrite E. unfold z. destruct (key_lt _ _); [right; left|left].
  - constructor; [|constructor]; [| |done].
    + by apply (rank_le_trans _ (key z)).
    + by apply (rank_le_trans _ (key z)).
Qed.

(** ** Scores *)

Definition context_of (r : ChatCompletionRequest) : RoutingContext :=
  {| ctx_task_type := task_type r; ctx_token_budget := estimate_token_budget r |}.

Lemma apply_rules_matched rs c ctx :
  (apply_rules rs c ctx).2 = rule_name <$> filter (λ r, applies_to r (ctx_task_type ctx) = true) rs.
Proof.
  unfold apply_rules.
  assert (H : ∀ t m, (foldl (λ '(total, matched) r,
    if applies_to r (ctx_task_type ctx)
    then (f_add total (score_fn r c ctx), matched ++ [rule_name r])
    else (total, matched)) (t, m) rs).2 =
    m ++ (rule_name <$> filter (λ r, applies_to r (ctx_task_type ctx) = true) rs)); [|apply H].
  induction rs as [|r rs IH]; intros t m; simpl; [by rewrite app_nil_r|].
  rewrite filter_cons. destruct (applies_to r _) eqn:E.
  - rewrite decide_True by done. rewrite IH, fmap_cons. by rewrite <-app_assoc.
  - by rewrite decide_False by done.
Qed.

(** The candidate with an id, if there is one. *)
Definition with_id (cs : list RoutingCandidate) (id : string) : option RoutingCandidate :=
  find (λ c, bool_decide (rc_backend_id c = id)) cs.

Lemma with_id_elem cs c :
  NoDup (rc_backend_id <$> cs) → c ∈ cs → with_id cs (rc_backend_id c) = Some c.
Proof.
  unfold with_id. induction cs as [|c0 cs IH]; [by intros _ ?%not_elem_of_nil|].
  rewrite fmap_cons, NoDup_cons. intros [Hni Hnd] Hin. simpl. case_bool_decide as E.
  - apply elem_of_cons in Hin as [->|Hin]; [done|]. exfalso. apply Hni. rewrite E.
    by apply list_elem_of_fmap_2.
  - apply elem_of_cons in Hin as [->|Hin]; [done|]. by apply IH.
Qed.

Lemma with_id_None cs id : id ∉ rc_backend_id <$> cs → with_id cs id = None.
Proof.
  unfold with_id. induction cs as [|c cs IH]; simpl; [done|].
  rewrite not_elem_of_cons. intros [? ?]. rewrite bool_decide_false by done. by apply IH.
Qed.

Lemma score_candidates_get policy cs ctx id :
  NoDup (rc_backend_id <$> cs) →
  d_get (score_candidates policy cs ctx).1 id = (λ c, (apply_rules (rules policy) c ctx).1) <$> with_id cs id.
Proof.
  unfold score_candidates.
  assert (H : ∀ st, NoDup (rc_backend_id <$> cs) →
    d_get (foldl (λ '(scores, matched_rules) c,
      let '(total, matched) := apply_rules (rules policy) c ctx in
      (d_set scores (rc_backend_id c) total, d_set matched_rules (rc_backend_id c) matched))
      st cs).1 id =
    match with_id cs id with
    | Some c => Some (apply_rules (rules policy) c ctx).1
    | None => d_get st.1 id
    end); [|intros Hnd; rewrite H by done; by destruct (with_id cs id)].
  unfold with_id. induction cs as [|c0 cs IH]; intros [sc ma] Hnd; simpl; [done|].
  rewrite fmap_cons in Hnd. apply NoDup_cons in Hnd as [Hni Hnd].
  destruct (apply_rules (rules policy) c0 ctx) as [t ms] eqn:E. rewrite IH by done. simpl.
  case_bool_decide as Hid; subst; [|destruct (find _ cs); [done|by rewrite d_get_set_ne]].
  fold (with_id cs (rc_backend_id c0)). rewrite with_id_None by done. by rewrite d_get_set_eq, E.
Qed.

(** ** Selection *)

Definition candidate_score (e : RoutingEngine) (r : ChatCompletionRequest) (c : RoutingCandidate) : float :=
  (apply_rules (rules (re_policy e)) c (context_of r)).1.

(** [c] is at least as good as [c']: a higher score, or the same and an id not above. *)
Definition preferred (e : RoutingEngine) (r : ChatCompletionRequest) (c c' : RoutingCandidate) : Prop :=
  rank_le (f_opp (candidate_score e r c), rc_backend_id c) (f_opp (candidate_score e r c'), rc_backend_id c').

Lemma is_nan_opp x : is_nan (f_opp x) = is_nan x.
Proof. by destruct x. Qed.

Lemma rank_score e r c cs :
  NoDup (rc_backend_id <$> cs) → c ∈ cs →
  rank (score_candidates (re_policy e) cs (context_of r)).1 c = (f_opp (candidate_score e r c), rc_backend_id c).
Proof. intros Hnd Hin. unfold rank. by rewrite score_candidates_get, with_id_elem by done. Qed.

(** The session's sticky backend, when stickiness applies. *)
Definition sticky_for (e : RoutingEngine) (session_id : option string) : option string :=
  s ← session_id; if re_sticky_sessions_enabled e then re_sticky_assignments e !! s else None.

(** The session gets an assignment when it has none. *)
Definition remember (e : RoutingEngine) (session_id : option string) (b : string) : RoutingEngine :=
  match session_id with
  | Some s => if re_sticky_sessions_enabled e && bool_decide (re_sticky_assignments e !! s = None)
              then assign_sticky s b e else e
  | None => e
  end.

Lemma select_backend_empty r cs s e :
  fitting r cs = [] →
  select_backend r cs s e = (Raise (NoAvailableBackendError (no_window (estimate_token_budget r))), e).
Proof. intros E. unfold select_backend. by rewrite E. Qed.

Lemma fitting_NoDup r cs : NoDup (rc_backend_id <$> cs) → NoDup (rc_backend_id <$> fitting r cs).
Proof.
  unfold fitting. intros Hnd. eapply sublist_NoDup; [exact Hnd|]. apply fmap_sublist, sublist_filter.
Qed.

(** The two ways a backend is chosen. *)
Lemma select_backend_cases r cs s e :
  fitting r cs ≠ [] → NoDup (rc_backend_id <$> cs) →
  Forall (λ c, is_nan (candidate_score e r c) = false) (fitting r cs) →
  ∃ d e', select_backend r cs s e = (Ret d, e') ∧
    (∃ c, c ∈ fitting r cs ∧ rd_backend_id d = rc_backend_id c ∧
      ((sticky_for e s = Some (rc_backend_id c) ∧ e' = e) ∨
       ((∀ b, sticky_for e s = Some b → b ∉ rc_backend_id <$> fitting r cs) ∧
        Forall (preferred e r c) (fitting r cs) ∧ e' = remember e s (rc_backend_id c)))).
Proof.
  intros Hne Hnd Hnan. apply (fitting_NoDup r) in Hnd. unfold select_backend.
  destruct (fitting r cs) as [|c0 cs'] eqn:Ef; [done|]. fold (context_of r).
  pose proof (λ id, score_candidates_get (re_policy e) (c0 :: cs') (context_of r) id Hnd) as Hget.
  pose proof (λ c, rank_score e r c (c0 :: cs') Hnd) as Hrank.
  destruct (score_candidates (re_policy e) (c0 :: cs') (context_of r)) as [scores matched].
  cbn [fst] in Hget, Hrank. rewrite Forall_forall in Hnan.
  destruct (min_by_spec (rank scores) c0 cs') as [Hin Hall].
  { apply Forall_forall. intros c Hc. unfold ranked. rewrite Hrank by done. simpl.
    rewrite is_nan_opp. by apply Hnan. }
  set (w := min_by (rank scores) c0 cs') in *.
  assert (Hpref : Forall (preferred e r w) (c0 :: cs')).
  { apply Forall_forall. intros c Hc. unfold preferred. rewrite <-!Hrank by done.
    rewrite Forall_forall in Hall. by apply Hall. }
  change (match s with Some s0 => if re_sticky_sessions_enabled e then re_sticky_assignments e !! s0 else None
          | None => None end) with (sticky_for e s).
  destruct (sticky_for e s) as [b|] eqn:Es.
  2: { eexists _, _. split; [reflexivity|]. exists w. split; [done|]. split; [done|]. right. by split. }
  destruct (with_id (c0 :: cs') b) as [c|] eqn:Ew.
  - rewrite bool_decide_true by (by rewrite Hget, Ew).
    apply find_split in Ew as (l1 & l2 & El & Hid%bool_decide_eq_true & _).
    eexists _, _. split; [reflexivity|]. exists c. subst b.
    split; [|split; [done|left; done]]. rewrite El. apply elem_of_app. right. left.
  - rewrite bool_decide_false by (rewrite Hget, Ew; by intros [? ?]).
    eexists _, _. split; [reflexivity|]. exists w. split; [done|]. split; [done|]. right.
    split; [|by split]. intros b' [= <-] (c & -> & Hc)%list_elem_of_fmap.
    by rewrite with_id_elem in Ew.
Qed.

Lemma f_lt_opp x y : f_lt (f_opp x) (f_opp y) = f_lt y x.
Proof.
  unfold f_lt, SFltb. destruct x as [[]|[]| |[] m e], y as [[]|[]| |[] m' e']; simpl; try done.
  all: rewrite (Z.compare_antisym e e'); change (Pos.compare_cont Eq m m') with (Pos.compare m m');
    change (Pos.compare_cont Eq m' m) with (Pos.compare m' m);
    rewrite (Pos.compare_antisym m m'); by destruct (e ?= e')%Z, (m ?= m')%positive.
Qed.

Lemma f_key_opp x y : f_key (f_opp x) = f_key (f_opp y) ↔ f_key x = f_key y.
Proof.
  destruct x as [[]|[]| |[] m e], y as [[]|[]| |[] m' e']; simpl; split; try done; intros [=]; f_equal;
    try f_equal; lia.
Qed.

(** Preferred candidates, in terms of scores and ids. *)
Lemma preferred_spec e r c c' :
  is_nan (candidate_score e r c) = false → is_nan (candidate_score e r c') = false →
  preferred e r c c' →
  f_lt (candidate_score e r c) (candidate_score e r c') = false ∧
  (f_key (candidate_score e r c) = f_key (candidate_score e r c') →
     String.le (rc_backend_id c) (rc_backend_id c')).
Proof.
  intros Hn Hn' Hp. unfold preferred, rank_le in Hp. apply not_true_iff_false in Hp.
  rewrite key_lt_spec in Hp by (unfold ranked; simpl; by rewrite is_nan_opp). simpl in Hp.
  rewrite <-f_lt_key in Hp by (by rewrite is_nan_opp). rewrite f_lt_opp in Hp. split.
  - apply not_true_is_false. tauto.
  - intros E. destruct (decide (String.le (rc_backend_id c) (rc_backend_id c'))); [done|].
    exfalso. apply Hp. right. split; [by apply f_key_opp|done].
Qed.

(** Whatever the scores are, the chosen backend is one of the candidates. *)
Lemma min_by_elem {A} (key : A → float * string) x xs : min_by key x xs ∈ x :: xs.
Proof.
  revert x. induction xs as [|y xs IH]; intros x; [left|].
  change (min_by key x (y :: xs)) with (min_by key (if key_lt (key y) (key x) then y else x) xs).
  specialize (IH (if key_lt (key y) (key x) then y else x)).
  apply elem_of_cons in IH as [->|?]; [|by right; right]. destruct (key_lt _ _); [right; left|left].
Qed.

Lemma score_candidates_keys policy cs ctx id :
  is_Some (d_get (score_candidates policy cs ctx).1 id) → id ∈ rc_backend_id <$> cs.
Proof.
  unfold score_candidates.
  assert (H : ∀ st, is_Some (d_get (foldl (λ '(scores, matched_rules) c,
      let '(total, matched) := apply_rules (rules policy) c ctx in
      (d_set scores (rc_backend_id c) total, d_set matched_rules (rc_backend_id c) matched))
      st cs).1 id) → is_Some (d_get st.1 id) ∨ id ∈ rc_backend_id <$> cs).
  { induction cs as [|c cs IH]; intros [sc ma]; simpl; [by left|].
    destruct (apply_rules (rules policy) c ctx) as [t ms]. intros [Hs|Hs]%IH; simpl in *.
    - rewrite d_get_set in Hs. case_decide; [right; subst; left|by left].
    - right. by right. }
  intros Hs. destruct (H ([], []) Hs) as [[? ?]|?]; done.
Qed.

Lemma select_backend_in r cs s e d e' :
  select_backend r cs s e = (Ret d, e') → rd_backend_id d ∈ rc_backend_id <$> cs.
Proof.
  assert (Hfit : ∀ id, id ∈ rc_backend_id <$> fitting r cs → id ∈ rc_backend_id <$> cs).
  { intros id (c & -> & [_ Hc]%list_elem_of_filter)%list_elem_of_fmap. by apply list_elem_of_fmap_2. }
  unfold select_backend. destruct (fitting r cs) as [|c0 cs'] eqn:Ef; [done|].
  pose proof (score_candidates_keys (re_policy e) (c0 :: cs')
    {| ctx_task_type := task_type r; ctx_token_budget := estimate_token_budget r |}) as Hk.
  destruct (score_candidates _ _ _) as [scores matched]. cbn [fst] in Hk.
  assert (Hw : rc_backend_id (min_by (rank scores) c0 cs') ∈ rc_backend_id <$> c0 :: cs')
    by apply list_elem_of_fmap_2, min_by_elem.
  destruct (match s with Some _ => _ | None => None end) as [b|].
  - case_bool_decide as Hb; intros [= <- _]; simpl; apply Hfit; [by apply Hk|done].
  - intros [= <- _]. by apply Hfit.
Qed.

(** ** Histories of one session *)

Definition route_request : Type := ChatCompletionRequest * list RoutingCandidate * option string.

Definition run_route (e : RoutingEngine) (q : route_request) : RoutingEngine :=
  (select_backend q.1.1 q.1.2 q.2 e).2.

Lemma select_backend_state r cs s e :
  (select_backend r cs s e).2 = e ∨ ∃ b, (select_backend r cs s e).2 = remember e s b.
Proof.
  unfold select_backend. destruct (fitting r cs) as [|c0 cs']; [by left|].
  destruct (score_candidates _ _ _) as [scores matched].
  destruct s as [s|]; [|by left]. destruct (re_sticky_sessions_enabled e) eqn:En.
  - destruct (re_sticky_assignments e !! s) as [b|] eqn:Es.
    + left. by case_bool_decide.
    + right. eexists. simpl. by rewrite En, Es.
  - left. done.
Qed.

Lemma remember_keeps e s b s0 b0 :
  re_sticky_assignments e !! s0 = Some b0 → re_sticky_assignments (remember e s b) !! s0 = Some b0.
Proof.
  intros H. unfold remember. destruct s as [s|]; [|done].
  destruct (re_sticky_sessions_enabled e); [|done]. case_bool_decide as Hn; [|done]. simpl.
  rewrite lookup_insert_ne; [done|congruence].
Qed.

Lemma remember_enabled e s b : re_sticky_sessions_enabled (remember e s b) = re_sticky_sessions_enabled e.
Proof. unfold remember. destruct s; [|done]. by destruct (_ && _). Qed.

Lemma run_route_keeps e qs s0 b0 :
  re_sticky_assignments e !! s0 = Some b0 →
  re_sticky_assignments (foldl run_route e qs) !! s0 = Some b0 ∧
  re_sticky_sessions_enabled (foldl run_route e qs) = re_sticky_sessions_enabled e.
Proof.
  revert e. induction qs as [|[[r cs] s] qs IH]; intros e H; [done|]. cbn [foldl].
  unfold run_route at 2 4. cbn [fst snd].
  destruct (select_backend_state r cs s e) as [->|[b ->]]; [by apply IH|].
  destruct (IH (remember e s b)) as [H1 H2]; [by apply remember_keeps|].
  split; [done|]. by rewrite H2, remember_enabled.
Qed.

(** ** Properties *)

(** C12. With an eligible candidate, [select_backend] never fails; it returns the session's
    sticky backend when that is eligible, and otherwise an eligible candidate that no
    eligible candidate beats (higher score first, then smaller id), which a session without
    an assignment then keeps. *)
Theorem select_backend_best r cs s e :
  fitting r cs ≠ [] → NoDup (rc_backend_id <$> cs) →
  (∀ c, c ∈ fitting r cs → is_nan (candidate_score e r c) = false) →
  ∃ d e', select_backend r cs s e = (Ret d, e') ∧
    ∃ c, c ∈ cs ∧ (estimate_token_budget r <= rc_context_window c)%Z ∧ rd_backend_id d = rc_backend_id c ∧
      ((sticky_for e s = Some (rc_backend_id c) ∧ e' = e) ∨
       ((∀ b, sticky_for e s = Some b → b ∉ rc_backend_id <$> fitting r cs) ∧
        (∀ c', c' ∈ fitting r cs →
           f_lt (candidate_score e r c) (candidate_score e r c') = false ∧
           (f_key (candidate_score e r c) = f_key (candidate_score e r c') →
              String.le (rc_backend_id c) (rc_backend_id c'))) ∧
        e' = remember e s (rc_backend_id c))).
Proof.
  intros Hne Hnd Hnan.
  destruct (select_backend_cases r cs s e) as (d & e' & E & c & Hin & Hid & Hcase); [done..| |].
  { by apply Forall_forall. }
  exists d, e'. split; [done|]. exists c. pose proof Hin as [Hw Hcs]%list_elem_of_filter.
  split_and!; [done..|]. destruct Hcase as [?|(Hs & Hpref & ->)]; [by left|right].
  split_and!; [done| |done]. intros c' Hc'. rewrite Forall_forall in Hpref.
  specialize (Hpref _ Hc'). by apply preferred_spec in Hpref; [|apply Hnan..].
Qed.

(** A session that was assigned a backend goes to it for every later request, whatever
    was routed in between, as long as the backend is among the eligible candidates. *)
Theorem sticky_sessions_stay e qs s b r cs :
  re_sticky_sessions_enabled e = true → re_sticky_assignments e !! s = Some b →
  NoDup (rc_backend_id <$> cs) → b ∈ rc_backend_id <$> fitting r cs →
  (∀ c, c ∈ fitting r cs → is_nan (candidate_score (foldl run_route e qs) r c) = false) →
  ∃ d, select_backend r cs (Some s) (foldl run_route e qs) = (Ret d, foldl run_route e qs) ∧
    rd_backend_id d = b.
Proof.
  intros Hen Hs Hnd Hb Hnan. destruct (run_route_keeps e qs s b Hs) as [Hs' Hen'].
  rewrite Hen in Hen'. set (e' := foldl run_route e qs) in *.
  assert (Hst : sticky_for e' (Some s) = Some b) by (unfold sticky_for; simpl; by rewrite Hen').
  destruct (select_backend_cases r cs (Some s) e') as (d & e1 & E & c & _ & Hid & Hcase).
  - intros En. rewrite En in Hb. by apply not_elem_of_nil in Hb.
  - done.
  - by apply Forall_forall.
  - destruct Hcase as [[Hc ->]|(Hn & _)].
    + exists d. split; [done|]. congruence.
    + by destruct (Hn b Hst).
Qed.

(** *** The shipped policy ([main.create_orchestrator_app]) *)

Definition latency_policy : RoutingPolicy :=
  {| rules := [{| rule_name := "prefer-lower-latency";
                  score_fn c _ := f_opp (rc_latency_ms c); rule_task_type := None |}] |}.

Lemma f_add_zero_key x : f_key (f_add f_zero x) = f_key x ∧ is_nan (f_add f_zero x) = is_nan x.
Proof. by destruct x as [[]|[]| |[] m e]. Qed.

Lemma latency_score e r c :
  re_policy e = latency_policy →
  f_key (candidate_score e r c) = f_key (f_opp (rc_latency_ms c)) ∧
  is_nan (candidate_score e r c) = is_nan (rc_latency_ms c).
Proof.
  intros Hp. unfold candidate_score. rewrite Hp.
  change ((apply_rules (rules latency_policy) c (context_of r)).1)
    with (f_add f_zero (f_opp (rc_latency_ms c))).
  destruct (f_add_zero_key (f_opp (rc_latency_ms c))) as [-> ->]. by rewrite is_nan_opp.
Qed.

(** Under the shipped policy a request without a session goes to an eligible backend
    that no eligible backend is faster than. *)
Theorem latency_policy_fastest r cs e :
  re_policy e = latency_policy → fitting r cs ≠ [] → NoDup (rc_backend_id <$> cs) →
  (∀ c, c ∈ cs → is_nan (rc_latency_ms c) = false) →
  ∃ d c, select_backend r cs None e = (Ret d, e) ∧ c ∈ fitting r cs ∧
    rd_backend_id d = rc_backend_id c ∧
    ∀ c', c' ∈ fitting r cs → f_lt (rc_latency_ms c') (rc_latency_ms c) = false.
Proof.
  intros Hp Hne Hnd Hnan.
  assert (Hf : ∀ c, c ∈ fitting r cs → is_nan (rc_latency_ms c) = false)
    by (intros c [_ Hc]%list_elem_of_filter; by apply Hnan).
  destruct (select_backend_cases r cs None e Hne Hnd) as (d & e' & E & c & Hin & Hid & Hcase).
  { apply Forall_forall. intros c Hc. destruct (latency_score e r c Hp) as [_ ->]. by apply Hf. }
  destruct Hcase as [[? _]|(_ & Hpref & ->)]; [done|].
  exists d, c. split_and!; [done..|]. intros c' Hc'. rewrite Forall_forall in Hpref.
  destruct (latency_score e r c Hp) as [Hk Hn], (latency_score e r c' Hp) as [Hk' Hn'].
  destruct (preferred_spec e r c c') as [Hlt _]; [by rewrite Hn; apply Hf|by rewrite Hn'; apply Hf|by apply Hpref|].
  apply not_true_is_false. intros Hl. apply not_true_iff_false in Hlt. apply Hlt.
  apply f_lt_key; [by rewrite Hn; apply Hf|by rewrite Hn'; apply Hf|].
  rewrite Hk, Hk'. apply f_lt_key; [by rewrite is_nan_opp; apply Hf..|]. by rewrite f_lt_opp.
Qed.

Definition sample_request : ChatCompletionRequest :=
  {| model := "m"; messages := [{| role := "user"; content := "hello world" |}]; stream := false;
     req_session_id := None; task_type := None; temperature := None; max_tokens := None;
     chat_template_kwargs := None; response_format := None |}.

Definition sample_candidate (id : string) (latency window : Z) : RoutingCandidate :=
  {| rc_backend_id := id; rc_latency_ms := f_of_Z latency; rc_context_window := window |}.

(** ["tiny"] is fastest but too small for the three tokens of the request. *)
Definition sample_candidates : list RoutingCandidate :=
  [sample_candidate "b" 20 100; sample_candidate "a" 20 100; sample_candidate "slow" 90 100;
   sample_candidate "tiny" 1 2].

Definition sample_engine : RoutingEngine := RoutingEngine_new latency_policy true.

Lemma sample_candidates_ok :
  NoDup (rc_backend_id <$> sample_candidates) ∧
  (∀ c, c ∈ sample_candidates → is_nan (rc_latency_ms c) = false) ∧
  ∀ e c, re_policy e = latency_policy → c ∈ fitting sample_request sample_candidates →
    is_nan (candidate_score e sample_request c) = false.
Proof.
  assert (Hn : Forall (λ c, is_nan (rc_latency_ms c) = false) sample_candidates) by vm_decide.
  rewrite Forall_forall in Hn. split_and!; [vm_decide|done|].
  intros e c Hp [_ Hc]%list_elem_of_filter. destruct (latency_score e sample_request c Hp) as [_ ->].
  by apply Hn.
Qed.

Lemma select_backend_best_witness :
  ∃ d e', select_backend sample_request sample_candidates (Some "s") sample_engine = (Ret d, e') ∧
    ∃ c, c ∈ sample_candidates ∧ rd_backend_id d = rc_backend_id c.
Proof.
  destruct sample_candidates_ok as (Hnd & _ & Hnan).
  destruct (select_backend_best sample_request sample_candidates (Some "s") sample_engine)
    as (d & e' & E & c & Hin & _ & Hid & _); [by vm_compute|done|by intros; apply Hnan|].
  exists d, e'. split; [done|]. by exists c.
Defined.

(** A session sticks to the slow backend it was given. *)
Lemma sticky_sessions_stay_witness :
  ∃ d, (select_backend sample_request sample_candidates (Some "s")
          (foldl run_route (assign_sticky "s" "slow" sample_engine)
             [(sample_request, sample_candidates, Some "t")])).1 = Ret d ∧ rd_backend_id d = "slow".
Proof.
  destruct sample_candidates_ok as (Hnd & _ & Hnan).
  destruct (sticky_sessions_stay (assign_sticky "s" "slow" sample_engine)
    [(sample_request, sample_candidates, Some "t")] "s" "slow" sample_request sample_candidates)
    as (d & E & Hd); [done|done|done| | |].
  - vm_decide.
  - intros c Hc. apply Hnan; [by vm_compute|done].
  - exists d. by rewrite E.
Defined.

Lemma latency_policy_fastest_witness :
  ∃ d c, select_backend sample_request sample_candidates None sample_engine = (Ret d, sample_engine) ∧
    rd_backend_id d = rc_backend_id c ∧ f_lt (f_of_Z 20) (rc_latency_ms c) = false.
Proof.
  destruct sample_candidates_ok as (Hnd & Hn & _).
  destruct (latency_policy_fastest sample_request sample_candidates sample_engine)
    as (d & c & E & _ & Hid & Hmin); [done|by vm_compute|done|done|].
  exists d, c. split_and!; [done..|]. apply (Hmin (sample_candidate "a" 20 100)).
  vm_compute. right. left.
Defined.
