(* ===== verification/LoadProbe.v ===== *)
(** * External load probes ([registry/external_load.py], [registry/llamaserver_load.py],
      [registry/multi_backend_load_probe.py])

    [LoadProbe] is the protocol the gateway probes through.  What the [lms] process or the
    [/slots] endpoint answers comes from outside; the model takes the answer as an input
    and keeps what the code makes of it: the cache, the degradation of every failure to
    "unavailable", and the summaries. *)

From S2P Require Import Prelude.
From S2P Require Import PyStr.
From S2P Require Import PyDict.
From S2P Require Import PyFloat.
From S2P Require Import PyJson.
From S2P Require Import Registry.

#[local] Open Scope list_scope.

Record ExternalLoadStatus := {
  els_available : bool;
  els_status : option string;
  els_queued : option Z;
  els_checked_at : datetime;
  els_total_slots : option Z;
  els_busy_slots : option Z;
}.

Definition unavailable (at_ : datetime) : ExternalLoadStatus :=
  {| els_available := false; els_status := None; els_queued := None; els_checked_at := at_;
     els_total_slots := None; els_busy_slots := None |}.

(** ** The protocol

    [answer] is what the probed system would report at that moment.  A probe always
    produces a status: failures are a value, not an exception. *)
Class LoadProbe (P Answer : Type) := {
  probe : string → string → datetime → Answer → P → ExternalLoadStatus * P;
}.

(** What the gateway relies on: a probe reports on the moment it was asked, or on one less
    than the cache's lifetime ago. *)
Class LoadProbeFresh (P Answer : Type) `{LoadProbe P Answer} (ttl : P → timedelta)
    (wf : datetime → P → Prop) := {
  probe_fresh h url at_ ans p :
    wf at_ p →
    let '(s, p') := probe h url at_ ans p in
    (els_checked_at s ≤ at_)%Z ∧ (at_ - els_checked_at s < Z.max 1 (ttl p))%Z ∧ wf at_ p' ∧ ttl p' = ttl p;
}.

(** ** The cache both probes keep *)

Record ProbeCache := {
  pc_ttl : timedelta;
  pc_cache : gmap string (datetime * ExternalLoadStatus);
}.

Definition ProbeCache_new (ttl : timedelta) : ProbeCache := {| pc_ttl := ttl; pc_cache := ∅ |}.

(** [cache_ttl: timedelta = timedelta(seconds=2)] *)
Definition default_cache_ttl : timedelta := td_seconds 2.

Definition cached_probe (uncached : datetime → ExternalLoadStatus) (host_id : string) (at_ : datetime)
    (c : ProbeCache) : ExternalLoadStatus * ProbeCache :=
  let refresh :=
    let s := uncached at_ in
    (s, {| pc_ttl := pc_ttl c; pc_cache := <[host_id := (at_, s)]> (pc_cache c) |}) in
  match pc_cache c !! host_id with
  | Some (cached_at, s) => if (at_ - cached_at <? pc_ttl c)%Z then (s, c) else refresh
  | None => refresh
  end.

(** ** [lms ps] ([ExternalLoadProbe]) *)

(** What running [lms ps --host ... --json] can give. *)
Inductive lms_answer :=
  | LmsNotFound
  | LmsTimedOut
  | LmsExited (code : Z) (stdout : option (list json)).

(** [entry.get("queued", 0)] counted when it is an [int] ([True] is one). *)
Definition queued_value (entry : json) : Z :=
  match j_get entry "queued" with
  | None => 0
  | Some (JInt n) => n
  | Some (JBool b) => if b then 1 else 0
  | Some _ => 0
  end.

(** [entry.get("status", "idle")] *)
Definition entry_status (entry : json) : json := default (JStr "idle") (j_get entry "status").

Definition is_idle (status : json) : bool :=
  match status with JStr s => bool_decide (s = "idle") | _ => false end.

(** [str(status)]: a status that is not a string renders as [render] says. *)
Definition status_str (render : json → string) (status : json) : string :=
  match status with JStr s => s | j => render j end.

Definition lms_step (render : json → string) (acc : Z * string) (entry : json) : Z * string :=
  ((acc.1 + queued_value entry)%Z,
   if negb (is_idle (entry_status entry)) && bool_decide (acc.2 = "idle")
   then status_str render (entry_status entry) else acc.2).

Definition lms_summarize (render : json → string) (entries : list json) (at_ : datetime)
    : ExternalLoadStatus :=
  let acc := foldl (lms_step render) (0%Z, "idle") entries in
  {| els_available := true; els_status := Some acc.2; els_queued := Some acc.1;
     els_checked_at := at_; els_total_slots := None; els_busy_slots := None |}.

(** [None] as hostname: the URL has none. *)
Definition lms_probe_uncached (render : json → string) (hostname : option string) (ans : lms_answer)
    (at_ : datetime) : ExternalLoadStatus :=
  match hostname with
  | None | Some "" => unavailable at_
  | Some _ =>
      match ans with
      | LmsExited 0 (Some entries) => lms_summarize render entries at_
      | _ => unavailable at_
      end
  end.

(** ** [GET /slots] ([LlamaCPPServerLoadProbe]) *)

Inductive slots_answer :=
  | SlotsTransportError
  | SlotsResponse (status_code : Z) (body : option (list json)).

Definition slot_busy (slot : json) : bool := from_option j_truthy false (j_get slot "is_processing").

Definition slots_summarize (slots : list json) (at_ : datetime) : ExternalLoadStatus :=
  let busy := Z.of_nat (length (filter (λ s, slot_busy s = true) slots)) in
  {| els_available := true;
     els_status := Some (if (busy =? 0)%Z then "idle" else "busy");
     els_queued := Some busy; els_checked_at := at_;
     els_total_slots := Some (Z.of_nat (length slots)); els_busy_slots := Some busy |}.

Definition slots_probe_uncached (ans : slots_answer) (at_ : datetime) : ExternalLoadStatus :=
  match ans with
  | SlotsTransportError => unavailable at_
  | SlotsResponse code body =>
      if (code =? 404)%Z then unavailable at_
      else if negb (code / 100 =? 2)%Z then unavailable at_
      else match body with None => unavailable at_ | Some slots => slots_summarize slots at_ end
  end.

(** ** The two probes as instances *)

(** [urlparse(base_url).hostname] is standard-library parsing the code only calls; it is a
    parameter, like the rendering of odd status values. *)
Section instances.
Context (hostname : string → option string) (render : json → string).

Record ExternalLoadProbe := { elp_cache : ProbeCache }.
Record LlamaCPPServerLoadProbe := { llp_cache : ProbeCache }.

#[export] Instance lms_load_probe : LoadProbe ExternalLoadProbe lms_answer := {|
  probe host_id base_url at_ ans p :=
    let '(s, c) := cached_probe (lms_probe_uncached render (hostname base_url) ans) host_id at_ (elp_cache p) in
    (s, {| elp_cache := c |});
|}.

#[export] Instance slots_load_probe : LoadProbe LlamaCPPServerLoadProbe slots_answer := {|
  probe host_id base_url at_ ans p :=
    let '(s, c) := cached_probe (slots_probe_uncached ans) host_id at_ (llp_cache p) in
    (s, {| llp_cache := c |});
|}.
End instances.

(** One mapping holds probes of both kinds; the world answers for either. *)
#[export] Instance sum_load_probe {P1 A1 P2 A2} `{!LoadProbe P1 A1} `{!LoadProbe P2 A2} :
    LoadProbe (P1 + P2) (A1 * A2) := {|
  probe host_id base_url at_ ans p :=
    match p with
    | inl p => let '(s, p') := probe host_id base_url at_ ans.1 p in (s, inl p')
    | inr p => let '(s, p') := probe host_id base_url at_ ans.2 p in (s, inr p')
    end;
|}.

(** ** Dispatch on the backend type ([MultiBackendLoadProbe]) *)

Section multi.
Context {P Answer : Type} `{!LoadProbe P Answer}.

(** The probes by backend type; the registry is looked up at probe time. *)
Definition multi_probe (r : HostRegistry) (host_id base_url : string) (at_ : datetime) (ans : Answer)
    (probes : gmap string P) : ExternalLoadStatus * gmap string P :=
  match lookup_host r host_id with
  | None => (unavailable at_, probes)
  | Some h =>
      match probes !! backend_type (capabilities h) with
      | None => (unavailable at_, probes)
      | Some p => let '(s, p') := probe host_id base_url at_ ans p in
                  (s, <[backend_type (capabilities h) := p']> probes)
      end
  end.
End multi.

(** ** Freshness *)

Definition cache_wf (at_ : datetime) (c : ProbeCache) : Prop :=
  map_Forall (λ _ ts, els_checked_at ts.2 = ts.1 ∧ (ts.1 ≤ at_)%Z) (pc_cache c).

Lemma unavailable_at at_ : els_checked_at (unavailable at_) = at_.
Proof. done. Qed.

Lemma lms_uncached_at render hostname ans at_ : els_checked_at (lms_probe_uncached render hostname ans at_) = at_.
Proof.
  unfold lms_probe_uncached. destruct hostname as [[|]|]; [done| |done].
  by destruct ans as [| |[] [|]].
Qed.

Lemma slots_uncached_at ans at_ : els_checked_at (slots_probe_uncached ans at_) = at_.
Proof.
  unfold slots_probe_uncached. destruct ans as [|code body]; [done|].
  destruct (code =? 404)%Z; [done|]. destruct (negb _); [done|]. by destruct body.
Qed.

Lemma cached_probe_fresh uncached host_id at_ c :
  (∀ t, els_checked_at (uncached t) = t) → cache_wf at_ c →
  let '(s, c') := cached_probe uncached host_id at_ c in
  (els_checked_at s ≤ at_)%Z ∧ (at_ - els_checked_at s < Z.max 1 (pc_ttl c))%Z ∧ cache_wf at_ c' ∧
  pc_ttl c' = pc_ttl c.
Proof.
  intros Hat Hwf. unfold cached_probe.
  assert (Hr : cache_wf at_ {| pc_ttl := pc_ttl c;
    pc_cache := <[host_id := (at_, uncached at_)]> (pc_cache c) |}).
  { apply map_Forall_insert_2; [|done]. simpl. split; [apply Hat|lia]. }
  destruct (pc_cache c !! host_id) as [[t s]|] eqn:E.
  - destruct (Hwf _ _ E) as [Ht Hle]. simpl in *.
    destruct (Z.ltb_spec (at_ - t) (pc_ttl c)); simpl; rewrite ?Ht, ?Hat; split_and!; (done || lia).
  - rewrite Hat. split_and!; (done || lia).
Qed.

Section fresh_instances.
Context (hostname : string → option string) (render : json → string).
#[local] Existing Instance lms_load_probe.

Definition elp_wf (at_ : datetime) (p : ExternalLoadProbe) : Prop := cache_wf at_ (elp_cache p).
Definition llp_wf (at_ : datetime) (p : LlamaCPPServerLoadProbe) : Prop := cache_wf at_ (llp_cache p).

#[export] Instance lms_fresh :
  LoadProbeFresh (H := lms_load_probe hostname render) ExternalLoadProbe lms_answer
    (λ p, pc_ttl (elp_cache p)) elp_wf.
Proof.
  constructor. intros h url at_ ans p Hwf.
  pose proof (cached_probe_fresh (lms_probe_uncached render (hostname url) ans) h at_ (elp_cache p)
    (lms_uncached_at _ _ _) Hwf) as H. simpl. by destruct (cached_probe _ _ _ _) as [s c].
Qed.

#[export] Instance slots_fresh :
  LoadProbeFresh LlamaCPPServerLoadProbe slots_answer (λ p, pc_ttl (llp_cache p)) llp_wf.
Proof.
  constructor. intros h url at_ ans p Hwf.
  pose proof (cached_probe_fresh (slots_probe_uncached ans) h at_ (llp_cache p)
    (slots_uncached_at _) Hwf) as H. simpl. by destruct (cached_probe _ _ _ _) as [s c].
Qed.
End fresh_instances.

#[export] Instance sum_fresh {P1 A1 P2 A2} `{LoadProbe P1 A1} `{LoadProbe P2 A2} ttl1 wf1 ttl2 wf2
    `{!LoadProbeFresh P1 A1 ttl1 wf1} `{!LoadProbeFresh P2 A2 ttl2 wf2} :
  LoadProbeFresh (P1 + P2) (A1 * A2)
    (λ p, match p with inl p => ttl1 p | inr p => ttl2 p end)
    (λ at_ p, match p with inl p => wf1 at_ p | inr p => wf2 at_ p end).
Proof.
  constructor. intros h url at_ [ans1 ans2] [p|p] Hwf; simpl.
  - pose proof (probe_fresh h url at_ ans1 p Hwf). by destruct (probe h url at_ ans1 p).
  - pose proof (probe_fresh h url at_ ans2 p Hwf). by destruct (probe h url at_ ans2 p).
Qed.

(** ** Summaries *)

(** The status of [lms ps]: the first entry that is not idle decides. *)
Lemma lms_status render entries total :
  (∀ j, status_str render j = "idle" → is_idle j = true) →
  (foldl (lms_step render) (total, "idle") entries).2 =
    from_option (λ e, status_str render (entry_status e)) "idle"
      (find (λ e, negb (is_idle (entry_status e))) entries).
Proof.
  intros Hr.
  assert (Hkeep : ∀ es t s, s ≠ "idle" → (foldl (lms_step render) (t, s) es).2 = s).
  { induction es as [|e es IH]; intros t s Hs; [done|]. cbn [foldl]. unfold lms_step at 2. cbn [fst snd].
    rewrite (bool_decide_false (s = _)), andb_false_r by done. by apply IH. }
  revert total. induction entries as [|e es IH]; intros total; [done|]. cbn [foldl find].
  unfold lms_step at 2. cbn [fst snd]. rewrite bool_decide_true, andb_true_r by done.
  destruct (is_idle (entry_status e)) eqn:Ei; simpl; [by apply IH|].
  apply Hkeep. intros Hs. apply Hr in Hs. congruence.
Qed.

Lemma lms_queued render entries total status :
  (foldl (lms_step render) (total, status) entries).1 = (total + foldr (λ e z, queued_value e + z) 0 entries)%Z.
Proof.
  revert total status. induction entries as [|e es IH]; intros total status; simpl; [lia|].
  unfold lms_step at 2. rewrite IH. simpl. lia.
Qed.

(** What [lms ps] prints is summarised exactly: the queue lengths add up and the first
    entry that is not idle gives the status; a slot list reports how many slots it has and
    how many are busy. *)
Lemma summaries_exact render entries slots at_ :
  (∀ j, status_str render j = "idle" → is_idle j = true) →
  lms_summarize render entries at_ =
    {| els_available := true;
       els_status := Some (from_option (λ e, status_str render (entry_status e)) "idle"
                       (find (λ e, negb (is_idle (entry_status e))) entries));
       els_queued := Some (foldr (λ e z, queued_value e + z)%Z 0%Z entries);
       els_checked_at := at_; els_total_slots := None; els_busy_slots := None |} ∧
  ∃ busy total, els_busy_slots (slots_summarize slots at_) = Some busy ∧
    els_total_slots (slots_summarize slots at_) = Some total ∧ (0 ≤ busy ≤ total)%Z ∧
    (els_status (slots_summarize slots at_) = Some "idle" ↔ busy = 0%Z).
Proof.
  intros Hr. split.
  - unfold lms_summarize. by rewrite lms_status, lms_queued by done.
  - eexists _, _. split_and!; [done|done|lia| |].
    + pose proof (length_filter (λ s, slot_busy s = true) slots). lia.
    + simpl. destruct (Z.eqb_spec (Z.of_nat (length (filter (λ s, slot_busy s = true) slots))) 0); naive_solver.
Qed.

(** ** Properties *)

(** Whatever the probed systems answer, the dispatching probe yields a status, never
    from the future and never older than the cache lifetime of the probe that serves the
    host; a host that is not registered or has no probe is reported unavailable. *)
Theorem multi_probe_fresh {P Answer} `{LoadProbe P Answer} (ttl : P → timedelta) wf
    `{!LoadProbeFresh P Answer ttl wf} (r : HostRegistry) host_id url at_ ans (probes : gmap string P) :
  map_Forall (λ _ p, wf at_ p) probes →
  let '(s, probes') := multi_probe r host_id url at_ ans probes in
  map_Forall (λ _ p, wf at_ p) probes' ∧
  match lookup_host r host_id ≫= λ h, probes !! backend_type (capabilities h) with
  | None => s = unavailable at_ ∧ probes' = probes
  | Some p => (els_checked_at s ≤ at_)%Z ∧ (at_ - els_checked_at s < Z.max 1 (ttl p))%Z
  end.
Proof.
  intros Hwf. unfold multi_probe. destruct (lookup_host r host_id) as [h|]; simpl; [|done].
  destruct (probes !! backend_type (capabilities h)) as [p|] eqn:E; simpl; [|done].
  pose proof (probe_fresh host_id url at_ ans p (Hwf _ _ E)) as Hp.
  destruct (probe host_id url at_ ans p) as [s p']. destruct Hp as (? & ? & ? & ?).
  split; [|done]. by apply map_Forall_insert_2.
Qed.

Definition sample_probes : gmap string (ExternalLoadProbe + LlamaCPPServerLoadProbe) :=
  {[ "lmstudio" := inl {| elp_cache := ProbeCache_new default_cache_ttl |};
     "llamacpp" := inr {| llp_cache := ProbeCache_new default_cache_ttl |} ]}.

Lemma multi_probe_fresh_witness :
  let r := register "h" {| backend_type := "lmstudio"; context_window := 8192; base_url := "http://h:1";
             allowed_models := None; memory_budget_gb := None; model_sizes_gb := None;
             model_aliases := None; position := None |} {| max_concurrent_requests := 1 |} 0
             {| hr_objs := ∅; hr_next := 0; hr_hosts := []; hr_rows := [] |} in
  let '(s, _) := @multi_probe _ _ (@sum_load_probe _ _ _ _ (lms_load_probe (λ _, Some "h") (λ _, "?"))
                   slots_load_probe) r "h" "http://h:1" 5 (LmsExited 0 (Some []), SlotsTransportError)
                   sample_probes in
  (els_checked_at s ≤ 5)%Z ∧ (5 - els_checked_at s < td_seconds 2)%Z.
Proof.
  pose proof (@multi_probe_fresh _ _ _ _ _
    (@sum_fresh _ _ _ _ (lms_load_probe (λ _, Some "h") (λ _, "?")) slots_load_probe _ _ _ _
       (lms_fresh _ _) slots_fresh)
    (register "h" {| backend_type := "lmstudio"; context_window := 8192; base_url := "http://h:1";
       allowed_models := None; memory_budget_gb := None; model_sizes_gb := None;
       model_aliases := None; position := None |} {| max_concurrent_requests := 1 |} 0
       {| hr_objs := ∅; hr_next := 0; hr_hosts := []; hr_rows := [] |})
    "h" "http://h:1" 5%Z (LmsExited 0 (Some []), SlotsTransportError) sample_probes) as H.
  assert (Hwf : map_Forall (λ _ p, match p with inl p => elp_wf 5 p | inr p => llp_wf 5 p end) sample_probes).
  { unfold sample_probes. apply map_Forall_insert_2; [apply map_Forall_empty|].
    apply map_Forall_singleton, map_Forall_empty. }
  specialize (H Hwf). cbv zeta in *.
  destruct (multi_probe _ _ _ _ _ _) as [s ps]. destruct H as [_ H]. exact H.
Defined.

