(* ===== verification/Throughput.v ===== *)
(** * Completion log ([observability/completion_log.py])

    The healthy completions of each host in a trailing window, behind the tasks-per-hour
    figures.  [record] drops what has left the window; [count] looks only at the window. *)

From S2P Require Import Prelude.
From S2P Require Import PyFloat.

#[local] Open Scope list_scope.

Definition DEFAULT_THROUGHPUT_WINDOW : timedelta := td_hours 1.
Definition MIN_OBSERVED : timedelta := td_seconds 60.

Record CompletionLog := {
  cl_window : timedelta;
  cl_started_at : datetime;
  cl_completions : gmap string (list datetime);
}.

(** [None] stands for the [ValueError] on a window that is not positive. *)
Definition CompletionLog_new (window : timedelta) (now : datetime) : option CompletionLog :=
  if (window <=? 0)%Z then None
  else Some {| cl_window := window; cl_started_at := now; cl_completions := ∅ |}.

(** [while completions and completions[0] <= cutoff: completions.popleft()] *)
Fixpoint drop_until (cutoff : datetime) (l : list datetime) : list datetime :=
  match l with
  | [] => []
  | t :: l' => if (t <=? cutoff)%Z then drop_until cutoff l' else l
  end.

(** [_completions] is a [defaultdict(deque)]. *)
Definition completions_of (c : CompletionLog) (host_id : string) : list datetime :=
  default [] (cl_completions c !! host_id).

Definition record (host_id : string) (at_ : datetime) (c : CompletionLog) : CompletionLog :=
  let cutoff := (at_ - cl_window c)%Z in
  {| cl_window := cl_window c; cl_started_at := cl_started_at c;
     cl_completions := <[host_id := drop_until cutoff (completions_of c host_id ++ [at_])]>
                         (cl_completions c) |}.

Definition in_window (window : timedelta) (at_ : datetime) (t : datetime) : bool :=
  ((at_ - window <? t) && (t <=? at_))%Z.

Definition count (host_id : string) (at_ : datetime) (c : CompletionLog) : Z :=
  Z.of_nat (length (filter (λ t, in_window (cl_window c) at_ t = true) (completions_of c host_id))).

Definition observed (at_ : datetime) (c : CompletionLog) : timedelta :=
  Z.min (cl_window c) (Z.max (at_ - cl_started_at c) MIN_OBSERVED).

(** [count * timedelta(hours=1) / observed]: dividing two [timedelta]s divides their
    microseconds. *)
Definition tasks_per_hour (host_id : string) (at_ : datetime) (c : CompletionLog)
    : outcome arith_error float :=
  int_truediv (count host_id at_ c * td_hours 1) (observed at_ c).

Definition tasks_per_hour_per_slot (host_id : string) (at_ : datetime) (total_slots : option Z)
    (c : CompletionLog) : outcome arith_error (option float) :=
  match total_slots with
  | None | Some 0%Z => Ret None
  | Some n =>
      match tasks_per_hour host_id at_ c with
      | Ret x => match float_truediv x (f_of_Z n) with
                 | Ret y => Ret (Some y)
                 | Raise e => Raise e
                 end
      | Raise e => Raise e
      end
  end.

(** ** Counting is exact *)

(** The completions of [host_id] in a sequence of records. *)
Definition of_host (host_id : string) (rs : list (string * datetime)) : list datetime :=
  snd <$> filter (λ r, r.1 = host_id) rs.

Definition record_all (rs : list (string * datetime)) (c : CompletionLog) : CompletionLog :=
  foldl (λ c r, record r.1 r.2 c) c rs.

Lemma completions_record h t c h' :
  completions_of (record h t c) h' =
    if decide (h = h') then drop_until (t - cl_window c) (completions_of c h ++ [t]) else completions_of c h'.
Proof. unfold completions_of, record. simpl. rewrite lookup_insert. by case_decide. Qed.

(** Dropping from the front keeps everything above the cutoff. *)
Lemma drop_until_filter cutoff (P : datetime → Prop) `{!∀ t, Decision (P t)} l :
  (∀ t, P t → (cutoff < t)%Z) → filter P (drop_until cutoff l) = filter P l.
Proof.
  intros HP. induction l as [|t l IH]; simpl; [done|]. destruct (Z.leb_spec t cutoff) as [Hle|]; [|done].
  rewrite IH, filter_cons, decide_False; [done|]. intros Ht%HP. lia.
Qed.

Lemma window_record h t c : cl_window (record h t c) = cl_window c.
Proof. done. Qed.

Lemma window_record_all rs c : cl_window (record_all rs c) = cl_window c.
Proof. revert c. induction rs as [|[h t] rs IH]; intros c; [done|]. apply (IH (record h t c)). Qed.

Lemma of_host_app h rs r :
  of_host h (rs ++ [r]) = of_host h rs ++ (if decide (r.1 = h) then [r.2] else []).
Proof. unfold of_host. rewrite filter_app, fmap_app, filter_cons. by case_decide. Qed.

(** What the log holds for a host still answers every query not before the last record. *)
Lemma count_record_all rs c h at_ :
  completions_of c h = [] → Forall (λ r, (r.2 ≤ at_)%Z) rs →
  filter (λ t, in_window (cl_window c) at_ t = true) (completions_of (record_all rs c) h) =
  filter (λ t, in_window (cl_window c) at_ t = true) (of_host h rs).
Proof.
  intros Hc. induction rs as [|[h0 t0] rs IH] using rev_ind; intros Hall; [by change (record_all [] c) with c; rewrite Hc|].
  apply Forall_app in Hall as [Hall [Ht _]%Forall_cons]. simpl in Ht.
  unfold record_all. rewrite foldl_app. cbn [foldl fst snd]. fold (record_all rs c).
  rewrite completions_record, of_host_app, window_record_all. simpl. case_decide as Eh.
  - subst h0. rewrite drop_until_filter.
    + rewrite !filter_app, IH by done. done.
    + intros t. unfold in_window. rewrite andb_true_iff, Z.ltb_lt. lia.
  - rewrite app_nil_r. by apply IH.
Qed.

(** The observed time is at most the window, at least the floor of one minute when
    the window allows, and never zero, so the rate is always defined. *)
Lemma rate_defined window started c h at_ :
  CompletionLog_new window started = Some c →
  (0 < observed at_ c ≤ window)%Z ∧ (Z.min window MIN_OBSERVED ≤ observed at_ c)%Z ∧
  (∀ c', cl_window c' = window → cl_started_at c' = started →
     tasks_per_hour h at_ c' ≠ Raise ZeroDivisionError).
Proof.
  unfold CompletionLog_new. destruct (Z.leb_spec window 0) as [|Hw]; [done|]. intros [= <-].
  assert (Hmin : (0 < MIN_OBSERVED)%Z) by done.
  split_and!; unfold observed; simpl; [lia..|].
  intros c' Ew Es. unfold tasks_per_hour, int_truediv, observed. rewrite Ew, Es.
  destruct (Z.min window _) as [|p|p] eqn:E; [lia| |].
  - by destruct (f_div _ _).
  - by destruct (f_div _ _).
Qed.

(** ** Properties *)

(** However completions were recorded, in whatever order and for whatever hosts, a
    query at or after the last of them counts exactly the host's completions in the
    half-open trailing window: dropping old entries never loses one that counts. *)
Theorem count_exact rs window started c h at_ :
  CompletionLog_new window started = Some c → (∀ r, r ∈ rs → (r.2 ≤ at_)%Z) →
  count h at_ (record_all rs c) =
    Z.of_nat (length (filter (λ t, (at_ - window < t ≤ at_)%Z) (of_host h rs))).
Proof.
  unfold CompletionLog_new. destruct (window <=? 0)%Z; [done|]. intros [= <-] Hall.
  unfold count. rewrite window_record_all, count_record_all; [|done|by apply Forall_forall].
  simpl. f_equal. f_equal. apply list_filter_iff. intros t. unfold in_window.
  rewrite andb_true_iff, Z.ltb_lt, Z.leb_le. done.
Qed.

Lemma count_exact_witness :
  ∃ c, CompletionLog_new (td_seconds 10) 0 = Some c ∧
    count "a" (td_seconds 12) (record_all [("a", td_seconds 1); ("b", td_seconds 3); ("a", td_seconds 2);
      ("a", td_seconds 12)] c) = 1%Z.
Proof.
  eexists. split; [reflexivity|]. erewrite (count_exact _ (td_seconds 10) 0); [|reflexivity|].
  - by vm_compute.
  - apply Forall_forall. vm_decide.
Defined.
