(* ===== verification/Metrics.v ===== *)
(** * Metrics ([observability/models.py], [observability/metrics.py])

    [MetricsRegistry] keeps windowed request samples per endpoint, windowed failover
    outcomes and cumulative per-host counters; [snapshot] evicts what has left the window
    and computes the indicators.  Its Prometheus text is in [MetricsText]. *)

From S2P Require Import Prelude.
From S2P Require Import PyFloat.
From S2P Require Import PyDict.
From S2P Require Import Registry.

#[local] Open Scope list_scope.

(** ** Data *)

Record HostCompletionStats := {
  completions_total : Z;
  avg_latency_ms : float;
  prompt_tokens_avg : float;
  prompt_tokens_min : Z;
  prompt_tokens_max : Z;
  completion_tokens_avg : float;
  completion_tokens_min : Z;
  completion_tokens_max : Z;
}.

Record SliSnapshot := {
  availability : float;
  p95_latency_ms : float;
  failover_success_rate : option float;
  host_saturation : dict string float;
  queue_depth : Z;
  token_usage_total : dict string Z;
  host_completion_stats : dict string HostCompletionStats;
}.

Definition request_sample : Type := Z * float * datetime.

Record MetricsRegistry := {
  mr_window : timedelta;
  mr_requests : dict string (list request_sample);
  mr_failover_outcomes : list (bool * datetime);
  mr_token_usage_total : dict string Z;
  mr_completions_total : dict string Z;
  mr_latency_ms_total : dict string float;
  mr_prompt_tokens_total : dict string Z;
  mr_prompt_tokens_min : dict string Z;
  mr_prompt_tokens_max : dict string Z;
  mr_completion_tokens_total : dict string Z;
  mr_completion_tokens_min : dict string Z;
  mr_completion_tokens_max : dict string Z;
}.

Definition MetricsRegistry_new (window : timedelta) : MetricsRegistry :=
  {| mr_window := window; mr_requests := []; mr_failover_outcomes := []; mr_token_usage_total := [];
     mr_completions_total := []; mr_latency_ms_total := []; mr_prompt_tokens_total := [];
     mr_prompt_tokens_min := []; mr_prompt_tokens_max := []; mr_completion_tokens_total := [];
     mr_completion_tokens_min := []; mr_completion_tokens_max := [] |}.

(** ** Eviction *)

(** [while samples and at - samples[0][timestamp_index] > self._window: samples.popleft()] *)
Fixpoint evict {A} (stamp : A → datetime) (window : timedelta) (at_ : datetime) (samples : list A) : list A :=
  match samples with
  | [] => []
  | s :: samples' => if (window <? at_ - stamp s)%Z then evict stamp window at_ samples' else samples
  end.

(** ** Recording *)

(** [d[k] = f(d.get(k, default))] *)
Definition d_update {V} (d : dict string V) (k : string) (default_ : V) (f : V → V) : dict string V :=
  d_set d k (f (default default_ (d_get d k))).

Definition sample_at (s : request_sample) : datetime := s.2.

Definition record_request (endpoint : string) (status_code : Z) (latency_ms : float) (at_ : datetime)
    (m : MetricsRegistry) : MetricsRegistry :=
  {| mr_window := mr_window m;
     mr_requests := d_update (mr_requests m) endpoint []
       (λ samples, evict sample_at (mr_window m) at_ (samples ++ [(status_code, latency_ms, at_)]));
     mr_failover_outcomes := mr_failover_outcomes m; mr_token_usage_total := mr_token_usage_total m;
     mr_completions_total := mr_completions_total m; mr_latency_ms_total := mr_latency_ms_total m;
     mr_prompt_tokens_total := mr_prompt_tokens_total m; mr_prompt_tokens_min := mr_prompt_tokens_min m;
     mr_prompt_tokens_max := mr_prompt_tokens_max m;
     mr_completion_tokens_total := mr_completion_tokens_total m;
     mr_completion_tokens_min := mr_completion_tokens_min m;
     mr_completion_tokens_max := mr_completion_tokens_max m |}.

Definition record_failover_outcome (succeeded : bool) (at_ : datetime) (m : MetricsRegistry)
    : MetricsRegistry :=
  {| mr_window := mr_window m; mr_requests := mr_requests m;
     mr_failover_outcomes := evict snd (mr_window m) at_ (mr_failover_outcomes m ++ [(succeeded, at_)]);
     mr_token_usage_total := mr_token_usage_total m;
     mr_completions_total := mr_completions_total m; mr_latency_ms_total := mr_latency_ms_total m;
     mr_prompt_tokens_total := mr_prompt_tokens_total m; mr_prompt_tokens_min := mr_prompt_tokens_min m;
     mr_prompt_tokens_max := mr_prompt_tokens_max m;
     mr_completion_tokens_total := mr_completion_tokens_total m;
     mr_completion_tokens_min := mr_completion_tokens_min m;
     mr_completion_tokens_max := mr_completion_tokens_max m |}.

Definition record_token_usage (host_id : string) (prompt_tokens completion_tokens : Z)
    (m : MetricsRegistry) : MetricsRegistry :=
  {| mr_window := mr_window m; mr_requests := mr_requests m;
     mr_failover_outcomes := mr_failover_outcomes m;
     mr_token_usage_total :=
       d_update (mr_token_usage_total m) host_id 0%Z (λ n, (n + (prompt_tokens + completion_tokens))%Z);
     mr_completions_total := mr_completions_total m; mr_latency_ms_total := mr_latency_ms_total m;
     mr_prompt_tokens_total := mr_prompt_tokens_total m; mr_prompt_tokens_min := mr_prompt_tokens_min m;
     mr_prompt_tokens_max := mr_prompt_tokens_max m;
     mr_completion_tokens_total := mr_completion_tokens_total m;
     mr_completion_tokens_min := mr_completion_tokens_min m;
     mr_completion_tokens_max := mr_completion_tokens_max m |}.

Definition record_host_completion (host_id : string) (latency_ms : float)
    (prompt_tokens completion_tokens : Z) (m : MetricsRegistry) : MetricsRegistry :=
  {| mr_window := mr_window m; mr_requests := mr_requests m;
     mr_failover_outcomes := mr_failover_outcomes m; mr_token_usage_total := mr_token_usage_total m;
     mr_completions_total := d_update (mr_completions_total m) host_id 0%Z (λ n, (n + 1)%Z);
     mr_latency_ms_total := d_update (mr_latency_ms_total m) host_id f_zero (λ x, f_add x latency_ms);
     mr_prompt_tokens_total := d_update (mr_prompt_tokens_total m) host_id 0%Z (λ n, (n + prompt_tokens)%Z);
     mr_prompt_tokens_min :=
       d_update (mr_prompt_tokens_min m) host_id prompt_tokens (λ n, Z.min n prompt_tokens);
     mr_prompt_tokens_max :=
       d_update (mr_prompt_tokens_max m) host_id prompt_tokens (λ n, Z.max n prompt_tokens);
     mr_completion_tokens_total :=
       d_update (mr_completion_tokens_total m) host_id 0%Z (λ n, (n + completion_tokens)%Z);
     mr_completion_tokens_min :=
       d_update (mr_completion_tokens_min m) host_id completion_tokens (λ n, Z.min n completion_tokens);
     mr_completion_tokens_max :=
       d_update (mr_completion_tokens_max m) host_id completion_tokens (λ n, Z.max n completion_tokens) |}.

(** ** Snapshot *)

(** [sorted(values)]: Python compares with [<] only. *)
Definition not_above (x y : float) : Prop := f_lt y x = false.

#[export] Instance not_above_dec : RelDecision not_above.
Proof. intros x y. unfold not_above. apply _. Defined.

(** [max(0, min(math.ceil(percentile * n) - 1, n - 1))] *)
Definition percentile_index (percentile : float) (n : nat) : Z :=
  let index := (f_ceil (f_mul percentile (f_of_Z (Z.of_nat n))) - 1)%Z in
  Z.max 0 (Z.min index (Z.of_nat n - 1)).

(** [None] stands for the [IndexError] on an empty list. *)
Definition percentile_of (values : list float) (percentile : float) : option float :=
  sort_by not_above values !! Z.to_nat (percentile_index percentile (length values)).

Definition p95 : float := f_lit 95 100.

Inductive snapshot_error :=
  | SnapshotArith (e : arith_error)
  | SnapshotKeyError (host_id : string)
  | SnapshotIndexError.

Definition arith {S A} (o : outcome arith_error A) : prog S snapshot_error A := λ s,
  match o with Ret a => (Ret a, s) | Raise e => (Raise (SnapshotArith e), s) end.

(** [d[k]] *)
Definition d_index {S V} (d : dict string V) (k : string) : prog S snapshot_error V := λ s,
  match d_get d k with Some v => (Ret v, s) | None => (Raise (SnapshotKeyError k), s) end.

(** [{k: f(k, v) for k, v in d.items()}], stopping at the first exception. *)
Fixpoint d_comprehend {S E V W} (f : string → V → prog S E W) (d : dict string V) : prog S E (dict string W) :=
  match d with
  | [] => mret []
  | (k, v) :: d => w ← f k v; rest ← d_comprehend f d; mret ((k, w) :: rest)
  end.

Definition evict_requests (at_ : datetime) (m : MetricsRegistry) : MetricsRegistry :=
  {| mr_window := mr_window m;
     mr_requests := d_map (evict sample_at (mr_window m) at_) (mr_requests m);
     mr_failover_outcomes := mr_failover_outcomes m; mr_token_usage_total := mr_token_usage_total m;
     mr_completions_total := mr_completions_total m; mr_latency_ms_total := mr_latency_ms_total m;
     mr_prompt_tokens_total := mr_prompt_tokens_total m; mr_prompt_tokens_min := mr_prompt_tokens_min m;
     mr_prompt_tokens_max := mr_prompt_tokens_max m;
     mr_completion_tokens_total := mr_completion_tokens_total m;
     mr_completion_tokens_min := mr_completion_tokens_min m;
     mr_completion_tokens_max := mr_completion_tokens_max m |}.

Definition evict_failovers (at_ : datetime) (m : MetricsRegistry) : MetricsRegistry :=
  {| mr_window := mr_window m; mr_requests := mr_requests m;
     mr_failover_outcomes := evict snd (mr_window m) at_ (mr_failover_outcomes m);
     mr_token_usage_total := mr_token_usage_total m;
     mr_completions_total := mr_completions_total m; mr_latency_ms_total := mr_latency_ms_total m;
     mr_prompt_tokens_total := mr_prompt_tokens_total m; mr_prompt_tokens_min := mr_prompt_tokens_min m;
     mr_prompt_tokens_max := mr_prompt_tokens_max m;
     mr_completion_tokens_total := mr_completion_tokens_total m;
     mr_completion_tokens_min := mr_completion_tokens_min m;
     mr_completion_tokens_max := mr_completion_tokens_max m |}.

Definition all_samples (m : MetricsRegistry) : list request_sample := mjoin (d_values (mr_requests m)).

(** [n / len(xs)] with [n] the elements of [xs] that satisfy [P]. *)
Definition ratio {S A} (P : A → bool) (xs : list A) : prog S snapshot_error float :=
  arith (int_truediv (Z.of_nat (length (filter (λ x, P x = true) xs))) (Z.of_nat (length xs))).

Definition metrics_prog (A : Type) : Type := prog MetricsRegistry snapshot_error A.

Definition request_slis (samples : list request_sample) : metrics_prog (float * float) :=
  match samples with
  | [] => mret (f_of_Z 1, f_zero)
  | _ =>
      a ← ratio (λ s, (s.1.1 <? 500)%Z) samples;
      match percentile_of (snd <$> (fst <$> samples)) p95 with
      | Some p => mret (a, p)
      | None => raise SnapshotIndexError
      end
  end.

Definition failover_rate (outcomes : list (bool * datetime)) : metrics_prog (option float) :=
  match outcomes with
  | [] => mret None
  | _ => r ← ratio fst outcomes; mret (Some r)
  end.

(** [{host.host_id: host.in_flight / host.capacity.max_concurrent_requests for ...}] *)
Fixpoint saturation (hosts : list HostInfo) (acc : dict string float) : metrics_prog (dict string float) :=
  match hosts with
  | [] => mret acc
  | h :: hosts =>
      x ← arith (int_truediv (in_flight h) (max_concurrent_requests (capacity h)));
      saturation hosts (d_set acc (host_id h) x)
  end.

Definition stats_of (m : MetricsRegistry) (host_id : string) (total : Z) : metrics_prog HostCompletionStats :=
  avg_latency ← arith (float_truediv (default f_zero (d_get (mr_latency_ms_total m) host_id)) (f_of_Z total));
  prompt_avg ← arith (int_truediv (default 0%Z (d_get (mr_prompt_tokens_total m) host_id)) total);
  prompt_min ← d_index (mr_prompt_tokens_min m) host_id;
  prompt_max ← d_index (mr_prompt_tokens_max m) host_id;
  completion_avg ← arith (int_truediv (default 0%Z (d_get (mr_completion_tokens_total m) host_id)) total);
  completion_min ← d_index (mr_completion_tokens_min m) host_id;
  completion_max ← d_index (mr_completion_tokens_max m) host_id;
  mret {| completions_total := total; avg_latency_ms := avg_latency; prompt_tokens_avg := prompt_avg;
          prompt_tokens_min := prompt_min; prompt_tokens_max := prompt_max;
          completion_tokens_avg := completion_avg; completion_tokens_min := completion_min;
          completion_tokens_max := completion_max |}.

(** [snapshot]: the hosts and the queue's depth are read from the other components. *)
Definition snapshot (at_ : datetime) (hosts : list HostInfo) (depth : nat) : metrics_prog SliSnapshot :=
  modify (evict_requests at_) ;;
  m ← get;
  slis ← request_slis (all_samples m);
  modify (evict_failovers at_) ;;
  m ← get;
  failover ← failover_rate (mr_failover_outcomes m);
  host_saturation ← saturation hosts [];
  stats ← d_comprehend (stats_of m) (mr_completions_total m);
  mret {| availability := slis.1; p95_latency_ms := slis.2; failover_success_rate := failover;
          host_saturation := host_saturation; queue_depth := Z.of_nat depth;
          token_usage_total := mr_token_usage_total m; host_completion_stats := stats |}.

(** ** The window *)

Section evict.
Context {A : Type} (stamp : A → datetime) (window : timedelta).

Definition fresh (at_ : datetime) (x : A) : Prop := (at_ - stamp x ≤ window)%Z.

#[export] Instance fresh_dec at_ x : Decision (fresh at_ x).
Proof. unfold fresh. apply _. Defined.

Lemma evict_nil at_ l : Forall (λ x, ¬ fresh at_ x) l → evict stamp window at_ l = [].
Proof.
  induction 1 as [|x l Hx _ IH]; simpl; [done|]. unfold fresh in Hx.
  destruct (Z.ltb_spec window (at_ - stamp x)); [done|lia].
Qed.

(** Evicting twice, the second time later, is evicting once. *)
Lemma evict_evict t at_ l :
  (t ≤ at_)%Z → evict stamp window at_ (evict stamp window t l) = evict stamp window at_ l.
Proof.
  intros Ht. induction l as [|x l IH]; simpl; [done|].
  destruct (Z.ltb_spec window (t - stamp x)); [|done].
  destruct (Z.ltb_spec window (at_ - stamp x)); [done|lia].
Qed.

(** Appending a sample that is not older than the others. *)
Lemma evict_snoc at_ l x :
  Forall (λ y, (stamp y ≤ stamp x)%Z) l →
  evict stamp window at_ (l ++ [x]) = evict stamp window at_ l ++ filter (fresh at_) [x].
Proof.
  intros Hl. induction Hl as [|y l Hy _ IH]; simpl.
  - unfold fresh. destruct (Z.ltb_spec window (at_ - stamp x)).
    + by rewrite filter_cons, decide_False by lia.
    + by rewrite filter_cons, decide_True by lia.
  - destruct (Z.ltb_spec window (at_ - stamp y)); [done|].
    rewrite filter_cons, decide_True by (unfold fresh; lia). done.
Qed.

Lemma evict_incl at_ l x : x ∈ evict stamp window at_ l → x ∈ l.
Proof. induction l as [|y l IH]; simpl; [done|]. destruct (_ <? _)%Z; [right; auto|done]. Qed.
End evict.

Section join.
Context {V : Type} (f : list V → list V).
Hypothesis f_nil : f [] = [].

Lemma join_pop (d : dict string (list V)) k :
  mjoin (d_values (d_map f d)) ≡ₚ f (default [] (d_get d k)) ++ mjoin (d_values (d_map f (d_pop d k))).
Proof.
  induction d as [|[k' v] d IH]; simpl; [by rewrite f_nil|]. case_decide; simpl; [done|].
  unfold d_values, d_map in *. simpl. rewrite IH. rewrite !app_assoc. f_equiv. apply Permutation_app_comm.
Qed.

Lemma join_set (d : dict string (list V)) k v :
  mjoin (d_values (d_map f (d_set d k v))) ≡ₚ f v ++ mjoin (d_values (d_map f (d_pop d k))).
Proof.
  induction d as [|[k' v'] d IH]; simpl; [done|]. case_decide; simpl; [done|].
  unfold d_values, d_map in *. simpl. rewrite IH. rewrite !app_assoc. f_equiv. apply Permutation_app_comm.
Qed.
End join.

Definition recorded : Type := string * request_sample.

Definition record_requests (rs : list recorded) (m : MetricsRegistry) : MetricsRegistry :=
  foldl (λ m r, record_request r.1 r.2.1.1 r.2.1.2 r.2.2 m) m rs.

Lemma record_requests_window rs m : mr_window (record_requests rs m) = mr_window m.
Proof. revert m. induction rs as [|r rs IH]; intros m; [done|]. apply (IH (record_request _ _ _ _ m)). Qed.

(** Samples kept for an endpoint are samples that were recorded. *)
Lemma record_requests_incl rs w e s :
  s ∈ default [] (d_get (mr_requests (record_requests rs (MetricsRegistry_new w))) e) → s ∈ rs.*2.
Proof.
  induction rs as [|[e0 [[code ms] t]] rs IH] using rev_ind; [by intros ?%not_elem_of_nil|].
  unfold record_requests. rewrite foldl_app. cbn [foldl fst snd].
  fold (record_requests rs (MetricsRegistry_new w)). rewrite fmap_app.
  unfold record_request, d_update. cbn [mr_requests]. rewrite d_get_set, elem_of_app.
  case_decide; [subst e0|by left; apply IH]. simpl.
  intros [Hs|Hs]%evict_incl%elem_of_app; [left; by apply IH|by right].
Qed.

Lemma window_samples rs w at_ :
  Sorted (λ r1 r2, (sample_at r1.2 ≤ sample_at r2.2)%Z) rs →
  Forall (λ r, (sample_at r.2 ≤ at_)%Z) rs →
  all_samples (evict_requests at_ (record_requests rs (MetricsRegistry_new w)))
    ≡ₚ filter (fresh sample_at w at_) rs.*2.
Proof.
  intros Hsorted Hall. apply Sorted_StronglySorted in Hsorted; [|intros ???; lia].
  induction rs as [|[e [[code ms] t]] rs IH] using rev_ind; [done|].
  apply StronglySorted_app in Hsorted as (Hlast & Hsorted & _).
  apply Forall_app in Hall as [Hall [Ht _]%Forall_cons]. cbn in Ht.
  specialize (IH Hsorted Hall).
  unfold record_requests. rewrite foldl_app. cbn [foldl fst snd].
  fold (record_requests rs (MetricsRegistry_new w)).
  assert (Hw : mr_window (record_requests rs (MetricsRegistry_new w)) = w)
    by apply record_requests_window.
  pose proof (record_requests_incl rs w e) as Hincl.
  set (m := record_requests rs (MetricsRegistry_new w)) in *.
  unfold all_samples, evict_requests, record_request, d_update in *. cbn [mr_requests mr_window] in *.
  rewrite Hw in *. set (old := default [] (d_get (mr_requests m) e)) in *.
  rewrite join_set by done. rewrite (join_pop _ eq_refl (mr_requests m) e) in IH. fold old in IH.
  rewrite evict_evict by done. rewrite evict_snoc.
  - rewrite fmap_app, filter_app, <-IH. simpl. rewrite <-!app_assoc. f_equiv. apply Permutation_app_comm.
  - apply Forall_forall. intros s Hs%Hincl.
    apply list_elem_of_fmap in Hs as ([e' s'] & -> & Hs). apply (Hlast _ (e, (code, ms, t)) Hs). by left.
Qed.

(** ** Percentiles *)

Definition no_nan (l : list float) : Prop := Forall (λ x, is_nan x = false) l.

#[export] Instance not_above_total : Total not_above.
Proof.
  intros x y. unfold not_above. destruct (f_lt y x) eqn:E; [right|by left]. by apply f_lt_asym.
Qed.

Lemma not_above_trans x y z : is_nan y = false → not_above x y → not_above y z → not_above x z.
Proof.
  unfold not_above. intros Hy Hxy Hyz. apply not_true_is_false. intros H.
  apply (f_lt_cotrans _ y) in H as [H|H]; [congruence..|done].
Qed.

Lemma sorted_floats l : no_nan l → StronglySorted not_above (sort_by not_above l).
Proof.
  intros Hn. apply (sort_by_strongly_sorted _ (λ x, is_nan x = false)); [|done].
  intros x y z _ Hy _. by apply not_above_trans.
Qed.

Lemma percentile_index_bound p n : n ≠ 0%nat → (Z.to_nat (percentile_index p n) < n)%nat.
Proof. intros Hn. unfold percentile_index. lia. Qed.

(** The [k]-th smallest value: at most [k] values are below it, at least [k + 1] are not
    above it. *)
Lemma kth_smallest l k r :
  no_nan l → sort_by not_above l !! k = Some r →
  r ∈ l ∧ (length (filter (λ v, f_lt v r = true) l) ≤ k)%nat ∧
  (k < length (filter (λ v, f_lt r v = false) l))%nat.
Proof.
  intros Hn Hk. pose proof (sorted_floats l Hn) as Hs. pose proof (sort_by_perm not_above l) as Hp.
  split; [rewrite <-Hp; by eapply list_elem_of_lookup_2|].
  rewrite <-(length_filter_perm _ _ _ Hp), <-(length_filter_perm _ _ _ Hp).
  clear Hp. pose proof (take_drop_middle _ _ _ Hk) as Emid.
  assert (Hlen : length (take k (sort_by not_above l)) = k).
  { apply lookup_lt_Some in Hk. rewrite length_take. lia. }
  revert Hs. rewrite <-Emid. intros Hs. apply StronglySorted_app in Hs as (Hbelow & _ & Habove).
  apply StronglySorted_cons in Habove as [Habove _].
  set (lo := take k _) in *. set (hi := drop (S k) _) in *. rewrite !filter_app, !length_app, !filter_cons.
  rewrite (decide_False (P := f_lt r r = true)) by (by rewrite f_lt_irrefl).
  rewrite (decide_True (P := f_lt r r = false)) by apply f_lt_irrefl. split.
  - rewrite (filter_false _ hi).
    + pose proof (length_filter (λ v, f_lt v r = true) lo). simpl. lia.
    + intros v Hv Hlt. rewrite Forall_forall in Habove. specialize (Habove v Hv).
      unfold not_above in Habove. congruence.
  - rewrite (filter_true _ lo); [simpl; lia|]. intros v Hv. apply (Hbelow v r Hv). by left.
Qed.

Lemma p95_index_exact n :
  n ≠ 0%nat → (n ≤ 1000)%nat → percentile_index p95 n = (- (- (95 * Z.of_nat n) / 100) - 1)%Z.
Proof.
  intros Hn Hle.
  assert (H : Forall (λ n, percentile_index p95 n = (- (- (95 * Z.of_nat n) / 100) - 1)%Z) (seq 1 1000))
    by vm_decide.
  rewrite Forall_forall in H. apply H, elem_of_seq. lia.
Qed.

(** ** Properties *)

(** With a clock that does not go back, the samples a snapshot computes from are those
    recorded within the window, no more and no fewer, whatever endpoints they came from. *)
Theorem window_exact rs w at_ :
  Sorted (λ r1 r2 : recorded, (sample_at r1.2 ≤ sample_at r2.2)%Z) rs →
  (∀ r, r ∈ rs → (sample_at r.2 ≤ at_)%Z) →
  all_samples (evict_requests at_ (record_requests rs (MetricsRegistry_new w)))
    ≡ₚ filter (λ s, (at_ - sample_at s ≤ w)%Z) rs.*2.
Proof. intros Hs Hall. apply window_samples; [done|by apply Forall_forall]. Qed.

Definition sample_records : list recorded :=
  [("/a", (200, f_of_Z 5, 0)); ("/b", (500, f_of_Z 7, 10)); ("/a", (200, f_of_Z 9, 20))]%Z.

Lemma window_exact_witness :
  all_samples (evict_requests 25 (record_requests sample_records (MetricsRegistry_new 15)))
    ≡ₚ [(500, f_of_Z 7, 10); (200, f_of_Z 9, 20)]%Z.
Proof.
  etrans; [apply window_exact|].
  - repeat constructor; done.
  - apply Forall_forall. vm_decide.
  - by vm_compute.
Defined.

(** The percentile of a non-empty list is one of its values: with [k] the zero-based
    rank the code computes, at most [k] values are below it and at least [k + 1] are not
    above it.  For every list of up to a thousand values the rank of the 95th percentile is
    the exact nearest rank, so rounding in [0.95 * n] does no harm there. *)
Theorem p95_nearest_rank values :
  values ≠ [] → no_nan values →
  (∃ r, percentile_of values p95 = Some r ∧ r ∈ values ∧
    let k := Z.to_nat (percentile_index p95 (length values)) in
    (k < length values)%nat ∧
    (length (filter (λ v, f_lt v r = true) values) ≤ k)%nat ∧
    (k < length (filter (λ v, f_lt r v = false) values))%nat) ∧
  (length values ≤ 1000 →
     percentile_index p95 (length values) = (- (- (95 * Z.of_nat (length values)) / 100) - 1)%Z).
Proof.
  intros Hne Hn. assert (Hlen : length values ≠ 0%nat) by (by destruct values). split.
  - pose proof (percentile_index_bound p95 _ Hlen) as Hk.
    destruct (lookup_lt_is_Some_2 (sort_by not_above values) (Z.to_nat (percentile_index p95 (length values))))
      as [r Hr]; [by rewrite length_sort_by|].
    exists r. destruct (kth_smallest _ _ _ Hn Hr) as (? & ? & ?). by split_and!.
  - intros Hle. by apply p95_index_exact.
Qed.

Lemma p95_nearest_rank_witness :
  percentile_of (f_of_Z <$> [30; 10; 20])%Z p95 = Some (f_of_Z 30) ∧
  ∃ r, percentile_of (f_of_Z <$> [30; 10; 20])%Z p95 = Some r ∧ r ∈ (f_of_Z <$> [30; 10; 20])%Z.
Proof.
  split; [by vm_compute|].
  destruct (p95_nearest_rank (f_of_Z <$> [30; 10; 20])%Z) as [(r & H1 & H2 & _) _]; [discriminate|vm_decide|].
  exists r. split; [exact H1|exact H2].
Defined.
