(* ===== verification/MetricsText.v ===== *)
(** * The scrape endpoint's text ([observability/metrics.py], [render_prometheus])

    The lines [GET /metrics] answers with: one gauge or counter family after the other, each
    with its two comment lines, a family without samples left out where the code leaves it
    out.  What reads them back is [Diagnostics]. *)

From S2P Require Import Prelude.
From S2P Require Import PyFloat.
From S2P Require Import PyDict.
From S2P Require Import PyStr.
From S2P Require Import PyNum.
From S2P Require Import Registry.
From S2P Require Import Metrics.

#[local] Open Scope list_scope.

Definition dquote : string := String dquote_char "".

Definition header (name help type_ : string) : list string :=
  ["# HELP " +:+ name +:+ " " +:+ help; "# TYPE " +:+ name +:+ " " +:+ type_].

Definition plain_line (name value : string) : string := name +:+ " " +:+ value.

Definition host_line (name host_id value : string) : string :=
  name +:+ "{host_id=" +:+ dquote +:+ host_id +:+ dquote +:+ "} " +:+ value.

Definition host_lines {V} (name : string) (show : V → string) (d : dict string V) : list string :=
  (λ p, host_line name p.1 (show p.2)) <$> d.

(** [if d: lines += ...] *)
Definition unless_empty {A} (d : list A) (lines : list string) : list string :=
  match d with [] => [] | _ => lines end.

Definition completion_lines (d : dict string HostCompletionStats) : list string :=
  header "llm_home_lab_host_completions_total" "Cumulative count of healthy completions served, per host." "counter" ++
  host_lines "llm_home_lab_host_completions_total" (λ s, str_of_Z (completions_total s)) d ++
  header "llm_home_lab_host_latency_ms_avg"
    "Average backend-call latency in milliseconds over all healthy completions, per host." "gauge" ++
  host_lines "llm_home_lab_host_latency_ms_avg" (λ s, str_of_float (avg_latency_ms s)) d ++
  header "llm_home_lab_host_prompt_tokens_avg" "Average prompt tokens per healthy completion, per host." "gauge" ++
  host_lines "llm_home_lab_host_prompt_tokens_avg" (λ s, str_of_float (prompt_tokens_avg s)) d ++
  header "llm_home_lab_host_prompt_tokens_min"
    "Minimum prompt tokens observed in a single healthy completion, per host." "gauge" ++
  host_lines "llm_home_lab_host_prompt_tokens_min" (λ s, str_of_Z (prompt_tokens_min s)) d ++
  header "llm_home_lab_host_prompt_tokens_max"
    "Maximum prompt tokens observed in a single healthy completion, per host." "gauge" ++
  host_lines "llm_home_lab_host_prompt_tokens_max" (λ s, str_of_Z (prompt_tokens_max s)) d ++
  header "llm_home_lab_host_completion_tokens_avg"
    "Average completion tokens per healthy completion, per host." "gauge" ++
  host_lines "llm_home_lab_host_completion_tokens_avg" (λ s, str_of_float (completion_tokens_avg s)) d ++
  header "llm_home_lab_host_completion_tokens_min"
    "Minimum completion tokens observed in a single healthy completion, per host." "gauge" ++
  host_lines "llm_home_lab_host_completion_tokens_min" (λ s, str_of_Z (completion_tokens_min s)) d ++
  header "llm_home_lab_host_completion_tokens_max"
    "Maximum completion tokens observed in a single healthy completion, per host." "gauge" ++
  host_lines "llm_home_lab_host_completion_tokens_max" (λ s, str_of_Z (completion_tokens_max s)) d.

Definition snapshot_lines (s : SliSnapshot) : list string :=
  header "llm_home_lab_availability_ratio"
    "Fraction of requests in the rolling window that did not return a 5xx status." "gauge" ++
  [plain_line "llm_home_lab_availability_ratio" (str_of_float (availability s))] ++
  header "llm_home_lab_request_latency_p95_ms"
    "P95 request latency in milliseconds over the rolling window." "gauge" ++
  [plain_line "llm_home_lab_request_latency_p95_ms" (str_of_float (p95_latency_ms s))] ++
  match failover_success_rate s with
  | Some rate =>
      header "llm_home_lab_failover_success_ratio"
        "Fraction of failover-involved requests that still succeeded." "gauge" ++
      [plain_line "llm_home_lab_failover_success_ratio" (str_of_float rate)]
  | None => []
  end ++
  unless_empty (host_saturation s)
    (header "llm_home_lab_host_saturation_ratio"
       "In-flight requests over max_concurrent_requests, per host." "gauge" ++
     host_lines "llm_home_lab_host_saturation_ratio" str_of_float (host_saturation s)) ++
  header "llm_home_lab_queue_depth" "Number of requests currently queued awaiting a free host slot." "gauge" ++
  [plain_line "llm_home_lab_queue_depth" (str_of_Z (queue_depth s))] ++
  unless_empty (host_completion_stats s) (completion_lines (host_completion_stats s)) ++
  unless_empty (token_usage_total s)
    (header "llm_home_lab_token_usage_total" "Cumulative prompt+completion tokens served, per host." "counter" ++
     host_lines "llm_home_lab_token_usage_total" str_of_Z (token_usage_total s)).

(** ["".join(f"{line}\n" for line in lines)] *)
Definition join_lines (lines : list string) : string :=
  foldr (λ line text, line +:+ newline +:+ text) "" lines.

Definition render_prometheus (at_ : datetime) (hosts : list HostInfo) (depth : nat) : metrics_prog string :=
  s ← snapshot at_ hosts depth;
  mret (join_lines (snapshot_lines s)).
