(* ===== verification/Diagnostics.v ===== *)
(** * Reading the scrape text ([diagnostics/models.py], [diagnostics/metrics_parser.py])

    The dashboard's reader of [GET /metrics].  Each pattern is a match of a whole line: the
    metric's name, for a family per host the quoted label, then spaces and one word.  The
    round trip with [MetricsText] says the dashboard sees the numbers the gateway holds. *)

From S2P Require Import Prelude.
From S2P Require Import PyFloat.
From S2P Require Import PyDict.
From S2P Require Import PyStr.
From S2P Require Import PyNum.
From S2P Require Import PyRound.
From S2P Require Import Registry.
From S2P Require Import Metrics.
From S2P Require Import MetricsText.

#[local] Open Scope list_scope.

(** ** Data *)

Record ParsedMetrics := {
  pm_queue_depth : option Z;
  pm_p95_latency_ms : option float;
  pm_token_usage_total : dict string Z;
  pm_host_completions_total : dict string Z;
  pm_host_latency_ms_avg : dict string float;
  pm_host_prompt_tokens_avg : dict string float;
  pm_host_prompt_tokens_min : dict string Z;
  pm_host_prompt_tokens_max : dict string Z;
  pm_host_completion_tokens_avg : dict string float;
  pm_host_completion_tokens_min : dict string Z;
  pm_host_completion_tokens_max : dict string Z;
}.

Definition ParsedMetrics_new : ParsedMetrics :=
  {| pm_queue_depth := None; pm_p95_latency_ms := None; pm_token_usage_total := [];
     pm_host_completions_total := []; pm_host_latency_ms_avg := []; pm_host_prompt_tokens_avg := [];
     pm_host_prompt_tokens_min := []; pm_host_prompt_tokens_max := []; pm_host_completion_tokens_avg := [];
     pm_host_completion_tokens_min := []; pm_host_completion_tokens_max := [] |}.

(** ** Values *)

(** [int(float(value))]: a text [float] refuses gives [None], and so does NaN; an infinity
    raises [OverflowError], which is not caught. *)
Definition as_int (value : string) : outcome arith_error (option Z) :=
  match float_of_str value with
  | None => Ret None
  | Some S754_nan => Ret None
  | Some (S754_infinity _) => Raise OverflowError
  | Some x => Ret (int_of_float x)
  end.

Definition as_float (value : string) : option float :=
  match float_of_str value with
  | Some x => if is_nan x then None else Some x
  | None => None
  end.

(** ** Lines *)

(** [s.splitlines()] on code points below 256. *)
Definition is_linebreak (c : ascii) : bool :=
  let n := code c in ((10 <=? n) && (n <=? 13) || (28 <=? n) && (n <=? 30) || (n =? 133))%N.

Fixpoint splitlines (s : string) : list string :=
  match s with
  | EmptyString => []
  | String c r =>
      if is_linebreak c then
        "" :: match r with
              | String c' r' => if (code c =? 13)%N && (code c' =? 10)%N then splitlines r' else splitlines r
              | EmptyString => []
              end
      else match splitlines r with
           | [] => [String c ""]
           | line :: lines => String c line :: lines
           end
  end.

(** [\s+(\S+)$] *)
Definition match_value (s : string) : option string :=
  match s with
  | String c _ => if py_isspace c && is_word (str_lstrip s) then Some (str_lstrip s) else None
  | EmptyString => None
  end.

(** [^name\s+(\S+)$] *)
Definition match_plain (name line : string) : option string :=
  if str_startswith line name then match_value (str_drop (String.length name) line) else None.

(** The longest prefix without a double quote, and what follows it. *)
Fixpoint span_unquoted (s : string) : string * string :=
  match s with
  | EmptyString => ("", "")
  | String c r =>
      if bool_decide (c = dquote_char) then ("", s)
      else let '(h, t) := span_unquoted r in (String c h, t)
  end.

(** The name, the label [host_id] with a quoted non-empty value, spaces and one word. *)
Definition match_host (name line : string) : option (string * string) :=
  let opening := name +:+ "{host_id=" +:+ dquote in
  let closing := dquote +:+ "}" in
  if str_startswith line opening then
    let '(host_id, rest) := span_unquoted (str_drop (String.length opening) line) in
    if negb (bool_decide (host_id = "")) && str_startswith rest closing then
      pair host_id <$> match_value (str_drop (String.length closing) rest)
    else None
  else None.

(** ** The parser *)

Section updates.
Context (f : dict string Z → dict string Z) (g : dict string float → dict string float).
#[local] Abbreviation Build := Build_ParsedMetrics.

Definition upd_token_usage_total (p : ParsedMetrics) : ParsedMetrics :=
  let 'Build q l t a b c d e h i j := p in Build q l (f t) a b c d e h i j.
Definition upd_host_completions_total (p : ParsedMetrics) : ParsedMetrics :=
  let 'Build q l t a b c d e h i j := p in Build q l t (f a) b c d e h i j.
Definition upd_host_latency_ms_avg (p : ParsedMetrics) : ParsedMetrics :=
  let 'Build q l t a b c d e h i j := p in Build q l t a (g b) c d e h i j.
Definition upd_host_prompt_tokens_avg (p : ParsedMetrics) : ParsedMetrics :=
  let 'Build q l t a b c d e h i j := p in Build q l t a b (g c) d e h i j.
Definition upd_host_prompt_tokens_min (p : ParsedMetrics) : ParsedMetrics :=
  let 'Build q l t a b c d e h i j := p in Build q l t a b c (f d) e h i j.
Definition upd_host_prompt_tokens_max (p : ParsedMetrics) : ParsedMetrics :=
  let 'Build q l t a b c d e h i j := p in Build q l t a b c d (f e) h i j.
Definition upd_host_completion_tokens_avg (p : ParsedMetrics) : ParsedMetrics :=
  let 'Build q l t a b c d e h i j := p in Build q l t a b c d e (g h) i j.
Definition upd_host_completion_tokens_min (p : ParsedMetrics) : ParsedMetrics :=
  let 'Build q l t a b c d e h i j := p in Build q l t a b c d e h (f i) j.
Definition upd_host_completion_tokens_max (p : ParsedMetrics) : ParsedMetrics :=
  let 'Build q l t a b c d e h i j := p in Build q l t a b c d e h i (f j).
End updates.

Abbreviation parse_result := (outcome arith_error ParsedMetrics).

(** [if value is not None: field[host_id] = value] *)
Definition store_int (upd : (dict string Z → dict string Z) → ParsedMetrics → ParsedMetrics)
    (host_id value : string) (p : ParsedMetrics) : parse_result :=
  match as_int value with
  | Raise e => Raise e
  | Ret None => Ret p
  | Ret (Some n) => Ret (upd (λ d, d_set d host_id n) p)
  end.

Definition store_float (upd : (dict string float → dict string float) → ParsedMetrics → ParsedMetrics)
    (host_id value : string) (p : ParsedMetrics) : parse_result :=
  match as_float value with
  | None => Ret p
  | Some x => Ret (upd (λ d, d_set d host_id x) p)
  end.

Definition store_queue_depth (value : string) (p : ParsedMetrics) : parse_result :=
  match as_int value with
  | Raise e => Raise e
  | Ret n => let 'Build_ParsedMetrics _ l t a b c d e h i j := p in Ret (Build_ParsedMetrics n l t a b c d e h i j)
  end.

Definition store_p95 (value : string) (p : ParsedMetrics) : ParsedMetrics :=
  let 'Build_ParsedMetrics q _ t a b c d e h i j := p in
  Build_ParsedMetrics q (as_float value) t a b c d e h i j.

Definition HOST_COMPLETION_METRIC_PATTERNS : list (string * (string → string → ParsedMetrics → parse_result)) :=
  [("llm_home_lab_host_completions_total", store_int upd_host_completions_total);
   ("llm_home_lab_host_latency_ms_avg", store_float upd_host_latency_ms_avg);
   ("llm_home_lab_host_prompt_tokens_avg", store_float upd_host_prompt_tokens_avg);
   ("llm_home_lab_host_prompt_tokens_min", store_int upd_host_prompt_tokens_min);
   ("llm_home_lab_host_prompt_tokens_max", store_int upd_host_prompt_tokens_max);
   ("llm_home_lab_host_completion_tokens_avg", store_float upd_host_completion_tokens_avg);
   ("llm_home_lab_host_completion_tokens_min", store_int upd_host_completion_tokens_min);
   ("llm_home_lab_host_completion_tokens_max", store_int upd_host_completion_tokens_max)].

(** The first pattern that matches stores its value. *)
Fixpoint try_patterns (patterns : list (string * (string → string → ParsedMetrics → parse_result)))
    (line : string) (p : ParsedMetrics) : parse_result :=
  match patterns with
  | [] => Ret p
  | (name, store) :: patterns =>
      match match_host name line with
      | Some (host_id, value) => store host_id value p
      | None => try_patterns patterns line p
      end
  end.

Definition parse_line (line : string) (p : ParsedMetrics) : parse_result :=
  if str_startswith line "#" || bool_decide (str_strip line = "") then Ret p
  else match match_plain "llm_home_lab_queue_depth" line with
  | Some value => store_queue_depth value p
  | None =>
  match match_plain "llm_home_lab_request_latency_p95_ms" line with
  | Some value => Ret (store_p95 value p)
  | None =>
  match match_host "llm_home_lab_token_usage_total" line with
  | Some (host_id, value) => store_int upd_token_usage_total host_id value p
  | None => try_patterns HOST_COMPLETION_METRIC_PATTERNS line p
  end end end.

Fixpoint parse_lines (lines : list string) (p : ParsedMetrics) : parse_result :=
  match lines with
  | [] => Ret p
  | line :: lines =>
      match parse_line line p with
      | Ret p => parse_lines lines p
      | Raise e => Raise e
      end
  end.

Definition parse_metrics_text (body : string) : parse_result :=
  parse_lines (splitlines body) ParsedMetrics_new.

(** ** Lines and text *)

Definition no_linebreak (s : string) : bool := str_all (λ c, negb (is_linebreak c)) s.

Lemma splitlines_line line text :
  no_linebreak line = true → splitlines (line +:+ newline +:+ text) = line :: splitlines text.
Proof.
  intros Hl. induction line as [|c line IH].
  - rewrite str_app_nil_l. change (newline +:+ text) with (String (ascii_of_N 10) text). simpl. f_equal. by destruct text.
  - cbn in Hl. apply andb_true_iff in Hl as [Hc%negb_true_iff Hl]. rewrite str_cons_app. cbn [splitlines].
    by rewrite Hc, IH.
Qed.

(** Splitting what was joined. *)
Lemma splitlines_join lines : Forall (λ l, no_linebreak l = true) lines → splitlines (join_lines lines) = lines.
Proof. induction 1 as [|l lines Hl _ IH]; [done|]. change (join_lines (l :: lines)) with (l +:+ newline +:+ join_lines lines). by rewrite splitlines_line, IH. Qed.

(** A host id the quoted label can carry. *)
Definition label_ok (h : string) : bool :=
  negb (bool_decide (h = "")) && str_all (λ c, negb (bool_decide (c = dquote_char)) && negb (is_linebreak c)) h.

Lemma label_ok_inv h : label_ok h = true →
  h ≠ "" ∧ str_all (λ c, negb (bool_decide (c = dquote_char))) h = true ∧ no_linebreak h = true.
Proof.
  unfold label_ok. rewrite andb_true_iff, negb_true_iff, bool_decide_eq_false. intros [Hne H].
  split_and!; [done| |]; (eapply str_all_impl; [|exact H]); intros c; rewrite andb_true_iff; tauto.
Qed.

Lemma word_lstrip w : is_word w = true → str_lstrip (String " "%char w) = w.
Proof.
  unfold is_word. rewrite andb_true_iff. intros [Hw _]. cbn [str_lstrip].
  change (py_isspace " ") with true. destruct w as [|c w]; [done|]. cbn in Hw.
  apply andb_true_iff in Hw as [Hc%negb_true_iff _]. cbn [str_lstrip]. by rewrite Hc.
Qed.

Lemma match_value_word w : is_word w = true → match_value (String " "%char w) = Some w.
Proof.
  intros Hw. unfold match_value. change (py_isspace " ") with true. rewrite word_lstrip by done.
  by rewrite Hw.
Qed.

Lemma startswith_app p t : str_startswith (p +:+ t) p = true.
Proof. apply str_prefix_spec. by exists t. Qed.

Lemma match_plain_line name w : is_word w = true → match_plain name (plain_line name w) = Some w.
Proof.
  intros Hw. unfold match_plain, plain_line. rewrite startswith_app, str_drop_app.
  change (" " +:+ w) with (String " "%char w). by apply match_value_word.
Qed.

Lemma span_unquoted_app h t :
  str_all (λ c, negb (bool_decide (c = dquote_char))) h = true →
  span_unquoted (h +:+ dquote +:+ t) = (h, dquote +:+ t).
Proof.
  intros Hh. induction h as [|c h IH]; [done|]. cbn [str_all] in Hh. apply andb_true_iff in Hh as [Hc%negb_true_iff Hh].
  rewrite str_cons_app. cbn [span_unquoted]. by rewrite Hc, IH.
Qed.

Lemma match_host_line name h w :
  label_ok h = true → is_word w = true → match_host name (host_line name h w) = Some (h, w).
Proof.
  intros (Hne & Hq & _)%label_ok_inv Hw. unfold match_host, host_line.
  assert (E : name +:+ "{host_id=" +:+ dquote +:+ h +:+ dquote +:+ "} " +:+ w =
              (name +:+ "{host_id=" +:+ dquote) +:+ h +:+ dquote +:+ "} " +:+ w) by by rewrite !str_app_assoc.
  rewrite E, startswith_app, str_drop_app, span_unquoted_app by done.
  change (dquote +:+ "} " +:+ w) with ((dquote +:+ "}") +:+ String " "%char w).
  rewrite startswith_app, str_drop_app, match_value_word by done. by rewrite bool_decide_eq_false_2.
Qed.

(** Two names that differ at some place within both. *)
Fixpoint clash (a b : string) : bool :=
  match a, b with
  | String c a, String d b => negb (bool_decide (c = d)) || clash a b
  | _, _ => false
  end.

Lemma clash_startswith a b s t : clash a b = true → str_startswith (a +:+ s) (b +:+ t) = false.
Proof.
  unfold str_startswith. revert b. induction a as [|c a IH]; intros [|d b]; cbn [clash]; try done.
  rewrite !str_cons_app. cbn [String.prefix]. intros H. destruct (ascii_dec d c) as [->|]; [|done].
  rewrite bool_decide_eq_true_2 in H by done. by apply IH.
Qed.

Lemma match_plain_clash name name' r : clash name' name = true → match_plain name (name' +:+ r) = None.
Proof. intros H. unfold match_plain. rewrite <-(str_app_nil_r name) at 1. by rewrite clash_startswith. Qed.

Lemma match_host_clash name name' r : clash name' name = true → match_host name (name' +:+ r) = None.
Proof. intros H. unfold match_host. by rewrite clash_startswith. Qed.

Lemma parse_lines_app l1 l2 p :
  parse_lines (l1 ++ l2) p = match parse_lines l1 p with Ret p => parse_lines l2 p | Raise e => Raise e end.
Proof. revert p. induction l1 as [|l l1 IH]; intros p; simpl; [done|]. by destruct (parse_line l p). Qed.

(** Comment lines change nothing. *)
Lemma parse_header name help type_ rest p : parse_lines (header name help type_ ++ rest) p = parse_lines rest p.
Proof. reflexivity. Qed.

Definition metric (suffix : string) : string := "llm_home_lab_" +:+ suffix.

(** A line that begins with a metric's name is neither a comment nor blank. *)
Lemma metric_line_kept suffix r :
  str_startswith (metric suffix +:+ r) "#" || bool_decide (str_strip (metric suffix +:+ r) = "") = false.
Proof.
  apply orb_false_iff. split; [done|]. apply bool_decide_eq_false. rewrite str_strip_empty. done.
Qed.

Lemma parse_metric_line suffix r p :
  clash (metric suffix) "llm_home_lab_queue_depth" = true →
  clash (metric suffix) "llm_home_lab_request_latency_p95_ms" = true →
  parse_line (metric suffix +:+ r) p =
    match match_host "llm_home_lab_token_usage_total" (metric suffix +:+ r) with
    | Some (h, value) => store_int upd_token_usage_total h value p
    | None => try_patterns HOST_COMPLETION_METRIC_PATTERNS (metric suffix +:+ r) p
    end.
Proof.
  intros H1 H2. unfold parse_line. rewrite metric_line_kept. by rewrite !match_plain_clash.
Qed.

(** A family no pattern names is skipped. *)
Lemma try_patterns_clash patterns suffix r p :
  forallb (λ q : string * _, clash (metric suffix) q.1) patterns = true →
  try_patterns patterns (metric suffix +:+ r) p = Ret p.
Proof.
  induction patterns as [|[name store] patterns IH]; [done|]. simpl. intros [H1 H2]%andb_true_iff.
  rewrite match_host_clash by done. by apply IH.
Qed.

Lemma parse_other_line suffix r p :
  forallb (clash (metric suffix)) ["llm_home_lab_queue_depth"; "llm_home_lab_request_latency_p95_ms";
    "llm_home_lab_token_usage_total"] = true →
  forallb (λ q : string * _, clash (metric suffix) q.1) HOST_COMPLETION_METRIC_PATTERNS = true →
  parse_line (metric suffix +:+ r) p = Ret p.
Proof.
  intros H Hp. simpl in H. rewrite !andb_true_iff in H. destruct H as (H1 & H2 & H3 & _).
  by rewrite parse_metric_line, match_host_clash, try_patterns_clash.
Qed.

(** The pattern of a family finds its lines, since the patterns before it do not. *)
Lemma try_patterns_find before suffix store after h w p :
  forallb (λ q : string * _, clash (metric suffix) q.1) before = true → label_ok h = true → is_word w = true →
  try_patterns (before ++ (metric suffix, store) :: after) (host_line (metric suffix) h w) p = store h w p.
Proof.
  intros Hb Hh Hw. induction before as [|[name st] before IH]; cbn [app try_patterns].
  - by rewrite match_host_line.
  - simpl in Hb. apply andb_true_iff in Hb as [H1 H2]. unfold host_line at 1.
    rewrite match_host_clash by done. by apply IH.
Qed.

(** ** Values *)

Definition small_int (n : Z) : bool := ((- 2 ^ 53 <=? n) && (n <=? 2 ^ 53))%Z.
Definition real_float (x : float) : bool := valid_binary f_prec f_emax x && negb (is_nan x).

Lemma as_int_str n : small_int n = true → as_int (str_of_Z n) = Ret (Some n).
Proof.
  unfold small_int. rewrite andb_true_iff, !Z.leb_le. intros Hn. pose proof (int_of_float_of_str n Hn) as H.
  unfold as_int. destruct (float_of_str (str_of_Z n)) as [x|]; [|done]. simpl in H. destruct x; try done; by rewrite H.
Qed.

Lemma as_float_str x : real_float x = true → as_float (str_of_float x) = Some x.
Proof.
  unfold real_float. rewrite andb_true_iff, negb_true_iff. intros [Hv Hn]. unfold as_float.
  by rewrite float_of_str_of_float, Hn.
Qed.

Lemma store_int_str upd h n p :
  small_int n = true → store_int upd h (str_of_Z n) p = Ret (upd (λ d, d_set d h n) p).
Proof. intros Hn. unfold store_int. by rewrite as_int_str. Qed.

Lemma store_float_str upd h x p :
  real_float x = true → store_float upd h (str_of_float x) p = Ret (upd (λ d, d_set d h x) p).
Proof. intros Hx. unfold store_float. by rewrite as_float_str. Qed.

(** ** Families *)

Definition labels_ok {V} (d : dict string V) : bool :=
  forallb label_ok (d_keys d) && bool_decide (NoDup (d_keys d)).

Section family.
Context {V W : Type} (suffix : string) (show : V → string) (g : V → W).
Context (upd : (dict string W → dict string W) → ParsedMetrics → ParsedMetrics).
Hypothesis (upd_const : ∀ f d p, upd f (upd (λ _, d) p) = upd (λ _, f d) p).

(** The lines of a family fill its field, entry by entry. *)
Lemma parse_family_from d0 d rest p :
  (∀ h v p, (h, v) ∈ d →
     parse_line (host_line (metric suffix) h (show v)) p = Ret (upd (λ d, d_set d h (g v)) p)) →
  NoDup (d_keys (d0 ++ d_map g d)) →
  parse_lines (host_lines (metric suffix) show d ++ rest) (upd (λ _, d0) p) =
  parse_lines rest (upd (λ _, d0 ++ d_map g d) p).
Proof.
  revert d0. induction d as [|[h v] d IH]; intros d0 Hl Hnd; cbn [host_lines fmap list_fmap app parse_lines].
  { by rewrite app_nil_r. }
  cbn [fst snd]. rewrite Hl by left. rewrite upd_const.
  assert (E : d_set d0 h (g v) = d0 ++ [(h, g v)]).
  { unfold d_keys in Hnd. rewrite fmap_app in Hnd. apply NoDup_app in Hnd as (_ & Hnd & _).
    clear -Hnd. revert Hnd. induction d0 as [|[k w] d0 IH]; simpl; [done|]. intros Hnd.
    rewrite decide_False; [f_equal; apply IH; intros x Hx; apply Hnd; by right|].
    intros ->. apply (Hnd h); left. }
  rewrite E. change (host_lines (metric suffix) show d ++ rest) with
    (host_lines (metric suffix) show d ++ rest) in *.
  etrans; [apply IH|].
  - intros h' v' p' Hin. apply Hl. by right.
  - by rewrite <-app_assoc.
  - by rewrite <-app_assoc.
Qed.

Lemma parse_family d rest p :
  (∀ h v p, (h, v) ∈ d →
     parse_line (host_line (metric suffix) h (show v)) p = Ret (upd (λ d, d_set d h (g v)) p)) →
  labels_ok d = true → upd (λ _, []) p = p →
  parse_lines (host_lines (metric suffix) show d ++ rest) p = parse_lines rest (upd (λ _, d_map g d) p).
Proof.
  intros Hl [_ Hnd%bool_decide_eq_true]%andb_true_iff Hp. rewrite <-Hp at 1.
  apply (parse_family_from []); [done|]. change (d_keys ([] ++ d_map g d)) with (d_keys (d_map g d)). by rewrite d_keys_map.
Qed.
End family.

(** The [k]-th pattern reads its family. *)
Definition owns_family (k : nat) (suffix : string) : bool :=
  forallb (clash (metric suffix)) ["llm_home_lab_queue_depth"; "llm_home_lab_request_latency_p95_ms";
    "llm_home_lab_token_usage_total"] &&
  forallb (λ q : string * _, clash (metric suffix) q.1) (take k HOST_COMPLETION_METRIC_PATTERNS).

Lemma parse_pattern_line k suffix store h w p :
  HOST_COMPLETION_METRIC_PATTERNS !! k = Some (metric suffix, store) → owns_family k suffix = true →
  label_ok h = true → is_word w = true →
  parse_line (host_line (metric suffix) h w) p = store h w p.
Proof.
  intros Hk [Ho Hb]%andb_true_iff Hh Hw. simpl in Ho. rewrite !andb_true_iff in Ho. destruct Ho as (H1 & H2 & H3 & _).
  unfold host_line. rewrite parse_metric_line by done. rewrite match_host_clash by done.
  rewrite <-(take_drop_middle _ _ _ Hk). by apply try_patterns_find.
Qed.

Section stats_family.
Context {V : Type} (k : nat) (suffix : string) (d : dict string V) (rest : list string) (p : ParsedMetrics).
Hypothesis (Hd : labels_ok d = true) (Hk : owns_family k suffix = true).

Lemma label_of h v : (h, v) ∈ d → label_ok h = true.
Proof.
  intros Hin. apply andb_true_iff in Hd as [Hf _]. rewrite forallb_forall in Hf. apply Hf.
  apply list_elem_of_In. apply (list_elem_of_fmap_2 fst _ _ Hin).
Qed.

Lemma int_family g upd :
  HOST_COMPLETION_METRIC_PATTERNS !! k = Some (metric suffix, store_int upd) →
  (∀ f d p, upd f (upd (λ _, d) p) = upd (λ _, f d) p) → upd (λ _, []) p = p →
  (∀ h v, (h, v) ∈ d → small_int (g v) = true) →
  parse_lines (host_lines (metric suffix) (λ v, str_of_Z (g v)) d ++ rest) p =
  parse_lines rest (upd (λ _, d_map g d) p).
Proof.
  intros Hl Hu Hp Hint. apply parse_family; [done| |done..]. intros h v p' Hin.
  rewrite (parse_pattern_line _ _ _ _ _ _ Hl) by eauto using label_of, str_of_Z_word.
  apply store_int_str; eauto.
Qed.

Lemma float_family g upd :
  HOST_COMPLETION_METRIC_PATTERNS !! k = Some (metric suffix, store_float upd) →
  (∀ f d p, upd f (upd (λ _, d) p) = upd (λ _, f d) p) → upd (λ _, []) p = p →
  (∀ h v, (h, v) ∈ d → real_float (g v) = true) →
  parse_lines (host_lines (metric suffix) (λ v, str_of_float (g v)) d ++ rest) p =
  parse_lines rest (upd (λ _, d_map g d) p).
Proof.
  intros Hl Hu Hp Hfl. apply parse_family; [done| |done..]. intros h v p' Hin.
  pose proof (Hfl h v Hin) as Hr. rewrite (parse_pattern_line _ _ _ _ _ _ Hl); [| |by eauto using label_of|].
  - by apply store_float_str.
  - done.
  - apply str_of_float_word. by apply andb_true_iff in Hr as [? _].
Qed.
End stats_family.

(** ** The round trip *)

Definition printable_stats (s : HostCompletionStats) : bool :=
  forallb small_int [completions_total s; prompt_tokens_min s; prompt_tokens_max s;
    completion_tokens_min s; completion_tokens_max s] &&
  forallb real_float [avg_latency_ms s; prompt_tokens_avg s; completion_tokens_avg s].

(** Host ids the labels can carry, counters up to 2^53, and floats that are numbers. *)
Definition printable (s : SliSnapshot) : bool :=
  valid_binary f_prec f_emax (availability s) && real_float (p95_latency_ms s) &&
  match failover_success_rate s with Some r => valid_binary f_prec f_emax r | None => true end &&
  forallb label_ok (d_keys (host_saturation s)) &&
  forallb (valid_binary f_prec f_emax) (d_values (host_saturation s)) &&
  small_int (queue_depth s) &&
  labels_ok (token_usage_total s) && forallb small_int (d_values (token_usage_total s)) &&
  labels_ok (host_completion_stats s) && forallb printable_stats (d_values (host_completion_stats s)).

(** What the dashboard should hold after reading a snapshot. *)
Definition parsed_of (s : SliSnapshot) : ParsedMetrics :=
  let stats := host_completion_stats s in
  {| pm_queue_depth := Some (queue_depth s); pm_p95_latency_ms := Some (p95_latency_ms s);
     pm_token_usage_total := token_usage_total s;
     pm_host_completions_total := d_map completions_total stats;
     pm_host_latency_ms_avg := d_map avg_latency_ms stats;
     pm_host_prompt_tokens_avg := d_map prompt_tokens_avg stats;
     pm_host_prompt_tokens_min := d_map prompt_tokens_min stats;
     pm_host_prompt_tokens_max := d_map prompt_tokens_max stats;
     pm_host_completion_tokens_avg := d_map completion_tokens_avg stats;
     pm_host_completion_tokens_min := d_map completion_tokens_min stats;
     pm_host_completion_tokens_max := d_map completion_tokens_max stats |}.

Lemma forallb_value {V} (P : V → bool) (d : dict string V) h v :
  forallb P (d_values d) = true → (h, v) ∈ d → P v = true.
Proof.
  rewrite forallb_forall. intros H Hin. apply H, list_elem_of_In. apply (list_elem_of_fmap_2 snd _ _ Hin).
Qed.


(** The header of a family and its lines. *)
Ltac read_family lem k suffix d Hd proj upd :=
  rewrite parse_header, (lem k suffix d _ _ Hd eq_refl proj upd);
  [cbn [upd] | reflexivity | by intros ? ? [] | reflexivity | naive_solver].

Lemma completion_fields q l t d rest :
  labels_ok d = true → forallb printable_stats (d_values d) = true →
  parse_lines (completion_lines d ++ rest) (Build_ParsedMetrics q l t [] [] [] [] [] [] [] []) =
  parse_lines rest (Build_ParsedMetrics q l t (d_map completions_total d) (d_map avg_latency_ms d)
    (d_map prompt_tokens_avg d) (d_map prompt_tokens_min d) (d_map prompt_tokens_max d)
    (d_map completion_tokens_avg d) (d_map completion_tokens_min d) (d_map completion_tokens_max d)).
Proof.
  intros Hd Hp.
  assert (Hs : ∀ h v, (h, v) ∈ d → printable_stats v = true) by (intros; by eapply forallb_value).
  unfold printable_stats in Hs. simpl in Hs.
  assert (Hint : ∀ h v, (h, v) ∈ d → small_int (completions_total v) = true ∧ small_int (prompt_tokens_min v) = true ∧
    small_int (prompt_tokens_max v) = true ∧ small_int (completion_tokens_min v) = true ∧
    small_int (completion_tokens_max v) = true) by (intros h v Hin; specialize (Hs h v Hin); rewrite !andb_true_iff in Hs; tauto).
  assert (Hfl : ∀ h v, (h, v) ∈ d → real_float (avg_latency_ms v) = true ∧ real_float (prompt_tokens_avg v) = true ∧
    real_float (completion_tokens_avg v) = true) by (intros h v Hin; specialize (Hs h v Hin); rewrite !andb_true_iff in Hs; tauto).
  unfold completion_lines. rewrite <-!app_assoc.
  read_family (@int_family HostCompletionStats) 0%nat "host_completions_total" d Hd completions_total upd_host_completions_total.
  read_family (@float_family HostCompletionStats) 1%nat "host_latency_ms_avg" d Hd avg_latency_ms upd_host_latency_ms_avg.
  read_family (@float_family HostCompletionStats) 2%nat "host_prompt_tokens_avg" d Hd prompt_tokens_avg upd_host_prompt_tokens_avg.
  read_family (@int_family HostCompletionStats) 3%nat "host_prompt_tokens_min" d Hd prompt_tokens_min upd_host_prompt_tokens_min.
  read_family (@int_family HostCompletionStats) 4%nat "host_prompt_tokens_max" d Hd prompt_tokens_max upd_host_prompt_tokens_max.
  read_family (@float_family HostCompletionStats) 5%nat "host_completion_tokens_avg" d Hd completion_tokens_avg upd_host_completion_tokens_avg.
  read_family (@int_family HostCompletionStats) 6%nat "host_completion_tokens_min" d Hd completion_tokens_min upd_host_completion_tokens_min.
  read_family (@int_family HostCompletionStats) 7%nat "host_completion_tokens_max" d Hd completion_tokens_max upd_host_completion_tokens_max.
  done.
Qed.

Lemma d_map_same {V} (d : dict string V) : d_map id d = d.
Proof. induction d as [|[h v] d IH]; [done|]. change (d_map id ((h, v) :: d)) with ((h, v) :: d_map id d). by rewrite IH. Qed.

Lemma token_family d rest p :
  labels_ok d = true → forallb small_int (d_values d) = true → upd_token_usage_total (λ _, []) p = p →
  parse_lines (host_lines (metric "token_usage_total") str_of_Z d ++ rest) p =
  parse_lines rest (upd_token_usage_total (λ _, d) p).
Proof.
  intros Hd Hs Hp. rewrite (parse_family "token_usage_total" str_of_Z id upd_token_usage_total); [| |intros h v p' Hin|done|done].
  - by rewrite d_map_same.
  - by intros ? ? [].
  - unfold host_line. rewrite parse_metric_line by done. fold (host_line (metric "token_usage_total") h (str_of_Z v)).
    rewrite match_host_line by eauto using label_of, str_of_Z_word. apply store_int_str. by eapply forallb_value.
Qed.

Lemma saturation_skipped d rest p :
  parse_lines (host_lines (metric "host_saturation_ratio") str_of_float d ++ rest) p = parse_lines rest p.
Proof.
  induction d as [|[h x] d IH]; [done|]. cbn [host_lines fmap list_fmap app parse_lines].
  unfold host_line at 1. by rewrite parse_other_line.
Qed.

(** *** No line of the text is split *)

Lemma word_no_linebreak w : is_word w = true → no_linebreak w = true.
Proof.
  intros [Hw _]%andb_true_iff. eapply str_all_impl; [|exact Hw]. unfold nonspace, py_isspace, is_linebreak. intros c.
  rewrite !negb_true_iff, !orb_false_iff, !andb_false_iff, !N.leb_gt, !N.eqb_neq. lia.
Qed.

Lemma plain_line_whole name w : no_linebreak name = true → is_word w = true → no_linebreak (plain_line name w) = true.
Proof.
  intros Hn Hw. unfold plain_line, no_linebreak in *. rewrite !str_all_app, Hn. simpl. by apply word_no_linebreak.
Qed.

Lemma host_lines_whole {V} name (show : V → string) (d : dict string V) :
  no_linebreak name = true → forallb label_ok (d_keys d) = true →
  (∀ h v, (h, v) ∈ d → is_word (show v) = true) →
  Forall (λ l, no_linebreak l = true) (host_lines name show d).
Proof.
  intros Hn Hd Hs. apply Forall_fmap, Forall_forall. intros [h v] Hin. simpl. rewrite forallb_forall in Hd.
  destruct (label_ok_inv h) as (_ & _ & Hh); [apply Hd, list_elem_of_In, (list_elem_of_fmap_2 fst _ _ Hin)|].
  unfold host_line, no_linebreak in *. rewrite !str_all_app, Hn, Hh. simpl. apply word_no_linebreak. eauto.
Qed.

Lemma header_whole name help type_ :
  no_linebreak (name +:+ help +:+ type_) = true → Forall (λ l, no_linebreak l = true) (header name help type_).
Proof.
  unfold no_linebreak. rewrite !str_all_app, !andb_true_iff. intros (Hn & Hh & Ht).
  repeat constructor; rewrite !str_all_app, Hn, ?Hh, ?Ht; done.
Qed.

Lemma real_word x : real_float x = true → is_word (str_of_float x) = true.
Proof. intros [Hv _]%andb_true_iff. by apply str_of_float_word. Qed.

Lemma completion_lines_whole d :
  forallb label_ok (d_keys d) = true → forallb printable_stats (d_values d) = true →
  Forall (λ l, no_linebreak l = true) (completion_lines d).
Proof.
  intros Hd Hp.
  assert (Hfl : ∀ h v, (h, v) ∈ d → real_float (avg_latency_ms v) = true ∧ real_float (prompt_tokens_avg v) = true ∧
    real_float (completion_tokens_avg v) = true).
  { intros h v Hin. pose proof (forallb_value _ _ _ _ Hp Hin) as Hs. unfold printable_stats in Hs. simpl in Hs.
    rewrite !andb_true_iff in Hs. tauto. }
  unfold completion_lines.
  repeat (apply Forall_app; split); (by apply header_whole) || (apply host_lines_whole; [done..|]);
    intros h v Hin; first [apply str_of_Z_word | apply real_word; naive_solver].
Qed.

Lemma unless_empty_whole {A} (d : list A) lines :
  Forall (λ l, no_linebreak l = true) lines → Forall (λ l, no_linebreak l = true) (unless_empty d lines).
Proof. by destruct d. Qed.

Lemma snapshot_lines_whole s : printable s = true → Forall (λ l, no_linebreak l = true) (snapshot_lines s).
Proof.
  unfold printable, labels_ok. rewrite !andb_true_iff.
  intros (((((((((Ha & Hl) & Hf) & Hsl) & Hsv) & Hq) & (Htl & _)) & Htv) & (Hcl & _)) & Hcv).
  unfold snapshot_lines. repeat (apply Forall_app; split); try (by apply header_whole).
  - apply Forall_singleton, plain_line_whole; [done|]. by apply str_of_float_word.
  - apply Forall_singleton, plain_line_whole; [done|]. by apply real_word.
  - destruct (failover_success_rate s) as [r|]; [|constructor].
    apply Forall_app. split; [by apply header_whole|]. apply Forall_singleton, plain_line_whole; [done|].
    by apply str_of_float_word.
  - apply unless_empty_whole, Forall_app. split; [by apply header_whole|]. apply host_lines_whole; [done..|].
    intros h v Hin. apply str_of_float_word. by eapply forallb_value.
  - apply Forall_singleton, plain_line_whole; [done|]. apply str_of_Z_word.
  - by apply unless_empty_whole, completion_lines_whole.
  - apply unless_empty_whole, Forall_app. split; [by apply header_whole|]. apply host_lines_whole; [done..|]. intros; apply str_of_Z_word.
Qed.

Lemma parse_plain_other suffix w rest p :
  forallb (clash (metric suffix)) ["llm_home_lab_queue_depth"; "llm_home_lab_request_latency_p95_ms";
    "llm_home_lab_token_usage_total"] = true →
  forallb (λ q : string * _, clash (metric suffix) q.1) HOST_COMPLETION_METRIC_PATTERNS = true →
  parse_lines (plain_line (metric suffix) w :: rest) p = parse_lines rest p.
Proof. intros H1 H2. cbn [parse_lines]. unfold plain_line. by rewrite parse_other_line. Qed.

Lemma plain_line_kept suffix w :
  str_startswith (plain_line (metric suffix) w) "#" || bool_decide (str_strip (plain_line (metric suffix) w) = "") = false.
Proof. apply (metric_line_kept suffix (" " +:+ w)). Qed.

Lemma parse_p95_line w rest p : is_word w = true →
  parse_lines (plain_line (metric "request_latency_p95_ms") w :: rest) p = parse_lines rest (store_p95 w p).
Proof.
  intros Hw. cbn [parse_lines]. unfold parse_line. rewrite plain_line_kept.
  assert (E : match_plain "llm_home_lab_queue_depth" (plain_line (metric "request_latency_p95_ms") w) = None)
    by by apply match_plain_clash.
  rewrite E. by rewrite match_plain_line.
Qed.

Lemma parse_queue_line n rest q l t a b c d e h i j : small_int n = true →
  parse_lines (plain_line (metric "queue_depth") (str_of_Z n) :: rest) (Build_ParsedMetrics q l t a b c d e h i j) =
  parse_lines rest (Build_ParsedMetrics (Some n) l t a b c d e h i j).
Proof.
  intros Hn. cbn [parse_lines]. unfold parse_line. rewrite plain_line_kept.
  rewrite match_plain_line by apply str_of_Z_word. unfold store_queue_depth. by rewrite as_int_str.
Qed.

Lemma failover_skipped o rest p :
  parse_lines (match o with
    | Some rate => header "llm_home_lab_failover_success_ratio"
        "Fraction of failover-involved requests that still succeeded." "gauge" ++
        [plain_line "llm_home_lab_failover_success_ratio" (str_of_float rate)]
    | None => [] end ++ rest) p = parse_lines rest p.
Proof.
  destruct o; [|done]. rewrite <-app_assoc, parse_header. apply (parse_plain_other "failover_success_ratio"); done.
Qed.

Lemma saturation_block d rest p :
  parse_lines (unless_empty d (header "llm_home_lab_host_saturation_ratio"
    "In-flight requests over max_concurrent_requests, per host." "gauge" ++
    host_lines "llm_home_lab_host_saturation_ratio" str_of_float d) ++ rest) p = parse_lines rest p.
Proof.
  destruct d as [|q d]; [done|]. unfold unless_empty. rewrite <-app_assoc, parse_header. apply saturation_skipped.
Qed.

Lemma completion_block q l t d rest :
  labels_ok d = true → forallb printable_stats (d_values d) = true →
  parse_lines (unless_empty d (completion_lines d) ++ rest) (Build_ParsedMetrics q l t [] [] [] [] [] [] [] []) =
  parse_lines rest (Build_ParsedMetrics q l t (d_map completions_total d) (d_map avg_latency_ms d)
    (d_map prompt_tokens_avg d) (d_map prompt_tokens_min d) (d_map prompt_tokens_max d)
    (d_map completion_tokens_avg d) (d_map completion_tokens_min d) (d_map completion_tokens_max d)).
Proof. intros Hd Hp. rewrite <-completion_fields by done. by destruct d. Qed.

Lemma parse_snapshot_lines s :
  printable s = true → parse_lines (snapshot_lines s) ParsedMetrics_new = Ret (parsed_of s).
Proof.
  unfold printable. rewrite !andb_true_iff.
  intros (((((((((Ha & Hl) & Hf) & Hsl) & Hsv) & Hq) & Ht) & Htv) & Hc) & Hcv).
  unfold snapshot_lines. rewrite parse_header. cbn [app]. rewrite (parse_plain_other "availability_ratio") by done.
  rewrite parse_header. cbn [app]. rewrite parse_p95_line by by apply real_word.
  unfold ParsedMetrics_new, store_p95. rewrite as_float_str by done.
  rewrite failover_skipped, saturation_block, parse_header. cbn [app]. rewrite parse_queue_line by done.
  rewrite completion_block by done. unfold parsed_of.
  destruct (token_usage_total s) as [|q d]; [done|]. unfold unless_empty. rewrite parse_header.
  rewrite <-(app_nil_r (host_lines _ _ _)). by rewrite token_family.
Qed.

Lemma parse_rendered s : printable s = true → parse_metrics_text (join_lines (snapshot_lines s)) = Ret (parsed_of s).
Proof.
  intros Hs. unfold parse_metrics_text. rewrite splitlines_join by by apply snapshot_lines_whole.
  by apply parse_snapshot_lines.
Qed.

Lemma render_snapshot at_ hosts depth m text m' :
  render_prometheus at_ hosts depth m = (Ret text, m') →
  ∃ s, snapshot at_ hosts depth m = (Ret s, m') ∧ text = join_lines (snapshot_lines s).
Proof.
  unfold render_prometheus, mbind, prog_bind, mret, prog_ret.
  destruct (snapshot at_ hosts depth m) as [[s|e] m1]; [|done]. intros H. exists s. split; congruence.
Qed.

(** ** Properties *)

(** C40. What the dashboard reads from the scrape endpoint is what the gateway holds.  When
    [GET /metrics] renders a snapshot whose host ids the quoted labels can carry (not empty, no
    double quote, no line break), whose counters are at most 2^53 and whose floats are numbers,
    parsing the text gives back the queue depth, the 95th percentile, and per host the
    token counter and all eight completion figures, floats to the last bit and hosts in order;
    the parser neither raises nor drops a line. *)
Theorem scrape_round_trip at_ hosts depth m text m' :
  render_prometheus at_ hosts depth m = (Ret text, m') →
  ∃ s, snapshot at_ hosts depth m = (Ret s, m') ∧
    (printable s = true → parse_metrics_text text = Ret (parsed_of s)).
Proof.
  intros H. destruct (render_snapshot _ _ _ _ _ _ H) as (s & Hs & ->). exists s. split; [done|]. apply parse_rendered.
Qed.

Definition sample_metrics : MetricsRegistry :=
  record_host_completion "gpu-1" (f_lit 1234567 1000) 11 70
    (record_host_completion "gpu-1" (f_lit 1 10) 5 9
      (record_token_usage "gpu-1" 5 9
        (record_request "/v1/chat/completions" 200 (f_lit 2 3) 10 (MetricsRegistry_new 1000)))).

Definition sample_hosts : list HostInfo :=
  [{| host_id := "gpu-1";
      capabilities := {| backend_type := "lmstudio"; context_window := 8192; base_url := ""; allowed_models := None;
                         memory_budget_gb := None; model_sizes_gb := None; model_aliases := None; position := None |};
      capacity := {| max_concurrent_requests := 3 |}; in_flight := 1; last_seen := 0 |}].

Definition sample_scrape : outcome snapshot_error string * MetricsRegistry :=
  render_prometheus 12 sample_hosts 4 sample_metrics.

Definition sample_text : string := match sample_scrape.1 with Ret text => text | Raise _ => "" end.

(** The sample text parses to the figures that were recorded. *)
Lemma scrape_round_trip_witness :
  ∃ s, parse_metrics_text sample_text = Ret (parsed_of s) ∧
    pm_host_latency_ms_avg (parsed_of s) = [("gpu-1", f_lit 1234667 2000)] ∧
    pm_host_prompt_tokens_min (parsed_of s) = [("gpu-1", 5%Z)].
Proof.
  destruct (scrape_round_trip 12 sample_hosts 4 sample_metrics sample_text sample_scrape.2) as (s & Hs & H).
  - by vm_compute.
  - exists s. assert (E : Ret s = (snapshot 12 sample_hosts 4 sample_metrics).1) by by rewrite Hs.
    vm_compute in E. injection E as ->. split; [apply H; reflexivity|]. clear. split; reflexivity.
Defined.

(** Larger counters do not survive: [2^53 + 1] is read as [2^53]. *)
Example large_counter_rounds : as_int (str_of_Z (2 ^ 53 + 1)) = Ret (Some (2 ^ 53))%Z.
Proof. by vm_compute. Qed.

(** An infinite value is not refused but raises. *)
Example infinite_counter_raises p : store_int upd_token_usage_total "h" "inf" p = Raise OverflowError.
Proof. by vm_compute. Qed.
