(* ===== verification/LoadCharts.v ===== *)
(** * Rates and load charts of the dashboard ([tui/rates.py], [tui/load_history.py], [tui/load_chart.py])

    What the operator dashboard computes between two polls: completions per second from two
    readings of a counter, the last thousand load ratios per host, and the chart that draws
    them, one column per poll and eight levels per row of the terminal.  A styled text is the
    list of its segments, each with its style; block characters are written in UTF-8. *)

From S2P Require Import Prelude.
From S2P Require Import PyFloat.
From S2P Require Import PyStr.
From S2P Require Import PyNum.
From S2P Require Import PyDict.

#[local] Open Scope list_scope.

(** ** [rates.py] *)

(** An integer operand of a float operation. *)
Definition f_of_int (n : Z) : outcome arith_error float :=
  match f_of_Z n with
  | S754_infinity _ => Raise OverflowError
  | x => Ret x
  end.

(** [dict.fromkeys(d)] *)
Definition from_keys {V W} (d : dict string V) : dict string (option W) := d_map (λ _, None) d.

(** [None if prev is None or total < prev else (total - prev) / elapsed] *)
Definition rate_of (prev : option Z) (total : Z) (elapsed : float) : outcome arith_error (option float) :=
  match prev with
  | None => Ret None
  | Some prev =>
      if (total <? prev)%Z then Ret None
      else match f_of_int (total - prev) with
           | Raise e => Raise e
           | Ret x => match float_truediv x elapsed with Raise e => Raise e | Ret r => Ret (Some r) end
           end
  end.

Fixpoint rates_loop (previous : dict string Z) (elapsed : float) (current : dict string Z)
    : outcome arith_error (dict string (option float)) :=
  match current with
  | [] => Ret []
  | (host_id, total) :: current =>
      match rate_of (d_get previous host_id) total elapsed with
      | Raise e => Raise e
      | Ret r => match rates_loop previous elapsed current with
                 | Raise e => Raise e
                 | Ret rates => Ret ((host_id, r) :: rates)
                 end
      end
  end.

Definition compute_token_rates (previous : dict string Z) (previous_at : option datetime)
    (current : dict string Z) (now : datetime) : outcome arith_error (dict string (option float)) :=
  match previous_at with
  | None => Ret (from_keys current)
  | Some previous_at =>
      match int_truediv (now - previous_at) (td_seconds 1) with
      | Raise e => Raise e
      | Ret elapsed =>
          if f_le elapsed f_zero then Ret (from_keys current) else rates_loop previous elapsed current
      end
  end.

(** ** [load_history.py] *)

Definition DEFAULT_MAX_POINTS : Z := 1000.

(** [l[-n:]]: all of [l] for [n = 0], and [l[k:]] for [n = -k]. *)
Definition last_points {A} (n : Z) (l : list A) : list A :=
  if (0 <? n)%Z then drop (length l - Z.to_nat n) l else drop (Z.to_nat (- n)) l.

Definition update_load_history (max_points : Z) (history : dict string (list float))
    (current_ratios : dict string float) : dict string (list float) :=
  foldl (λ updated p, d_set updated p.1 (last_points max_points (default [] (d_get history p.1) ++ [p.2])))
    [] current_ratios.

(** ** [load_chart.py] *)

Definition BARS : list string := [" "; "▁"; "▂"; "▃"; "▄"; "▅"; "▆"; "▇"; "█"].
Definition LEVELS_PER_ROW : Z := Z.of_nat (length BARS) - 1.

Definition GREEN_AT : float := f_lit 70 100.
Definition ORANGE_AT : float := f_lit 30 100.

Definition GREEN : string := "color(34)".
Definition ORANGE : string := "color(208)".
Definition RED : string := "color(196)".
Definition BASELINE : string := "color(240)".

(** [max(x, y)] and [min(x, y)]: the first unless the second is greater or less. *)
Definition py_max (x y : float) : float := if f_lt x y then y else x.
Definition py_min (x y : float) : float := if f_lt y x then y else x.

(** [round] refuses NaN and the infinities: [None]. *)
Definition py_round (x : float) : option Z :=
  match x with S754_nan | S754_infinity _ => None | _ => Some (f_round x) end.

Definition bar_level (ratio : float) (height : Z) : option Z :=
  py_round (f_mul (f_mul (py_min (py_max ratio f_zero) (f_of_Z 1)) (f_of_Z LEVELS_PER_ROW)) (f_of_Z height)).

Definition bar_style (ratio : float) : string :=
  if f_le GREEN_AT ratio then GREEN else if f_le ORANGE_AT ratio then ORANGE else RED.

(** A text is its segments, each with its style. *)
Definition text : Type := list (string * string).

(** [min(max(level - row * LEVELS_PER_ROW, 0), LEVELS_PER_ROW)] *)
Definition filled (level row : Z) : Z := Z.min (Z.max (level - row * LEVELS_PER_ROW) 0) LEVELS_PER_ROW.

Definition chart_cell (row : Z) (bar : Z * string) : string * string :=
  let '(level, style) := bar in
  if ((row =? 0) && (level =? 0))%Z then ("▁", BASELINE)
  else (default "" (BARS !! Z.to_nat (filled level row)), style).

(** The rows from [row - 1] down to 0. *)
Fixpoint chart_rows (bars : list (Z * string)) (row : nat) : text :=
  match row with
  | O => []
  | S row =>
      (chart_cell (Z.of_nat row) <$> bars) ++
      (if bool_decide (row = 0%nat) then [] else [(newline, "")]) ++ chart_rows bars row
  end.

(** [LoadChart.render]; [None] is the [ValueError] of a NaN ratio. *)
Definition render (width height : Z) (data : list float) : option text :=
  let samples := if (0 <? width)%Z then last_points width data else [] in
  if bool_decide (samples = []) || (height <=? 0)%Z then Some []
  else
    levels ← mapM (λ ratio, bar_level ratio height) samples;
    Some (chart_rows (zip levels (bar_style <$> samples)) (Z.to_nat height)).

Example full_load_is_full_height : render 2 2 [f_zero; f_of_Z 1; f_lit 1 2] =
  Some [("█", GREEN); (" ", ORANGE); (newline, ""); ("█", GREEN); ("█", ORANGE)].
Proof. by vm_compute. Qed.

(** ** The history *)

Lemma last_points_app {A} n (l1 l2 : list A) :
  (0 < n)%Z → last_points n (last_points n l1 ++ l2) = last_points n (l1 ++ l2).
Proof.
  intros Hn. unfold last_points. rewrite (proj2 (Z.ltb_lt 0 n) Hn).
  set (k := Z.to_nat n). destruct (decide (length l1 ≤ k)%nat) as [Hle|Hlt].
  { by rewrite (proj2 (Nat.sub_0_le (length l1) k) Hle), drop_0. }
  rewrite !length_app, length_drop.
  replace (length l1 - (length l1 - k) + length l2 - k)%nat with (length l2)%nat by lia.
  rewrite <-(drop_app_le _ l2) by lia. rewrite drop_drop. f_equal. lia.
Qed.

Lemma last_points_length {A} n (l : list A) :
  (0 < n)%Z → length (last_points n l) = (Z.to_nat n `min` length l)%nat.
Proof. intros Hn. unfold last_points. rewrite (proj2 (Z.ltb_lt 0 n) Hn), length_drop. lia. Qed.

Lemma update_load_history_get n history ratios h :
  NoDup (d_keys ratios) →
  d_get (update_load_history n history ratios) h =
  (λ r, last_points n (default [] (d_get history h) ++ [r])) <$> d_get ratios h.
Proof.
  unfold update_load_history. induction ratios as [|[k r] ratios IH] using rev_ind; [done|].
  unfold d_keys in *. rewrite fmap_app. intros (Hnd & Hnew & _)%NoDup_app. rewrite foldl_app. cbn [foldl fst snd].
  rewrite d_get_set. assert (Happ : ∀ d : dict string float, k ∉ d.*1 →
    d_get (d ++ [(k, r)]) h = if decide (k = h) then Some r else d_get d h).
  { clear. induction d as [|[k' r'] d IH]; simpl; [done|]. intros [Hne Hk]%not_elem_of_cons.
    rewrite IH by done. repeat case_decide; congruence. }
  rewrite Happ by (intros Hin; apply (Hnew k Hin); by left).
  case_decide; [by subst|]. by apply IH.
Qed.

(** The ratios of a host in the polls since it was last missing. *)
Definition since_missing (h : string) (polls : list (dict string float)) : list float :=
  foldl (λ run ratios, match d_get ratios h with Some r => run ++ [r] | None => [] end) [] polls.

(** After any sequence of polls a host's chart data is exactly its last thousand (or [n])
    load ratios, in order, from the polls since it was last missing; a host the last poll
    did not list has no history at all, so memory is bounded and a returning host starts
    with an empty chart. *)
Theorem load_history_exact n polls h :
  (0 < n)%Z → Forall (λ ratios, NoDup (d_keys ratios)) polls →
  d_get (foldl (update_load_history n) [] polls) h =
    (if decide (since_missing h polls = []) then None else Some (last_points n (since_missing h polls))) ∧
  (length (last_points n (since_missing h polls)) ≤ Z.to_nat n)%nat.
Proof.
  intros Hn Hnd. split; [|rewrite last_points_length by done; lia].
  induction polls as [|ratios polls IH] using rev_ind; [done|].
  apply Forall_app in Hnd as [Hnd [Hr _]%Forall_cons]. specialize (IH Hnd).
  unfold since_missing in *. rewrite !foldl_app. cbn [foldl].
  rewrite update_load_history_get, IH by done. destruct (d_get ratios h) as [r|]; [|done]. simpl.
  rewrite (decide_False (P := _ ++ [r] = [])) by by intros [_ ?]%app_eq_nil.
  case_decide as E; [by rewrite E|]. simpl. by rewrite last_points_app.
Qed.

Lemma load_history_exact_witness :
  d_get (foldl (update_load_history 2) [] [[("a", f_zero)]; []; [("a", f_of_Z 1)]; [("a", f_zero)]; [("a", f_lit 1 2)]]) "a"
  = Some [f_zero; f_lit 1 2].
Proof.
  destruct (load_history_exact 2 [[("a", f_zero)]; []; [("a", f_of_Z 1)]; [("a", f_zero)]; [("a", f_lit 1 2)]] "a")
    as [H _]; [done|vm_decide|exact H].
Defined.

(** ** The chart *)

Lemma filled_range level row : (0 ≤ filled level row ≤ 8)%Z.
Proof. unfold filled. change LEVELS_PER_ROW with 8%Z. lia. Qed.

(** The rows of a column add up to its level, clamped to the chart. *)
Lemma filled_sum level n :
  foldr Z.add 0%Z ((λ row, filled level (Z.of_nat row)) <$> seq 0 n) = Z.min (Z.max level 0) (8 * Z.of_nat n).
Proof.
  induction n as [|n IH]; [simpl; lia|]. rewrite seq_S, fmap_app, foldr_app. simpl.
  assert (Hacc : ∀ l a, foldr Z.add a l = (foldr Z.add 0 l + a)%Z) by (clear; induction l; intros; simpl; [|rewrite IHl]; lia).
  rewrite Hacc, IH. unfold filled. change LEVELS_PER_ROW with 8%Z. lia.
Qed.

(** The rows of the text from the top, with newlines between them. *)
Fixpoint join_rows (rows : list text) : text :=
  match rows with
  | [] => []
  | [row] => row
  | row :: rows => row ++ [(newline, "")] ++ join_rows rows
  end.

Lemma chart_rows_join bars n :
  chart_rows bars n = join_rows ((λ row, chart_cell (Z.of_nat row) <$> bars) <$> reverse (seq 0 n)).
Proof.
  induction n as [|n IH]; [done|]. cbn [chart_rows]. rewrite seq_S, reverse_app. simpl.
  rewrite IH. case_bool_decide as Hn; [subst; cbn; by rewrite app_nil_r|].
  destruct n as [|n]; [done|]. rewrite seq_S, reverse_app. simpl. done.
Qed.

(** A chart has one row of cells per row of the widget and one column per sample shown,
    the last [width] of them.  In each column the cells, read from the bottom, hold the
    sample's level exactly: they add up to it, clamped to eight levels per row, and no cell
    above an unfilled one is drawn; every cell has a glyph. *)
Theorem chart_draws_levels width height data t :
  (0 < width)%Z → (0 < height)%Z → data ≠ [] → render width height data = Some t →
  ∃ levels, mapM (λ ratio, bar_level ratio height) (last_points width data) = Some levels ∧
    length levels = (Z.to_nat width `min` length data)%nat ∧
    t = join_rows ((λ row, chart_cell (Z.of_nat row) <$> zip levels (bar_style <$> last_points width data))
          <$> reverse (seq 0 (Z.to_nat height))) ∧
    ∀ level, level ∈ levels →
      foldr Z.add 0%Z ((λ row, filled level (Z.of_nat row)) <$> seq 0 (Z.to_nat height)) =
        Z.min (Z.max level 0) (8 * height) ∧
      (∀ row above, (0 ≤ row < above)%Z → (0 < filled level above)%Z → filled level row = 8%Z) ∧
      (∀ row, is_Some (BARS !! Z.to_nat (filled level row))).
Proof.
  intros Hw Hh Hne. unfold render. rewrite (proj2 (Z.ltb_lt 0 width) Hw), (proj2 (Z.leb_gt height 0) Hh).
  assert (Hlen : length (last_points width data) = (Z.to_nat width `min` length data)%nat)
    by by apply last_points_length.
  rewrite bool_decide_eq_false_2 by (intros E; rewrite E in Hlen; destruct data; [done|simpl in Hlen; lia]).
  simpl. destruct (mapM _ _) as [levels|] eqn:E; [|done]. intros [= <-]. exists levels.
  split_and!; [done| |apply chart_rows_join|].
  { apply mapM_Some in E. rewrite <-Hlen. symmetry. by apply Forall2_length in E. }
  intros level _. split_and!.
  - rewrite filled_sum, Z2Nat.id by lia. done.
  - intros row above. unfold filled. change LEVELS_PER_ROW with 8%Z. lia.
  - intros row. apply lookup_lt_is_Some. pose proof (filled_range level row). simpl. lia.
Qed.

Lemma chart_draws_levels_witness :
  ∃ levels, mapM (λ ratio, bar_level ratio 2) (last_points 2 [f_zero; f_of_Z 1; f_lit 1 2]) = Some levels ∧
    levels = [16; 8]%Z.
Proof.
  destruct (chart_draws_levels 2 2 [f_zero; f_of_Z 1; f_lit 1 2]
    [("█", GREEN); (" ", ORANGE); (newline, ""); ("█", GREEN); ("█", ORANGE)]) as (levels & E & _);
    [done..|by vm_compute|].
  exists levels. split; [exact E|]. vm_compute in E. by injection E.
Defined.

(** Whatever the height, full load fills the column and no load leaves it empty. *)
Example full_and_idle :
  Forall (λ h, bar_level (f_of_Z 1) h = Some (8 * h)%Z ∧ bar_level f_zero h = Some 0%Z) (seqZ 1 200).
Proof. vm_decide. Qed.
