(* ===== verification/DashboardView.v ===== *)
(** * What the dashboard shows ([tui/app.py], its functions outside the screens)

    The cells of the node table, the labels of the charts, the order of a column sort and the
    ids of the widgets.  A node is an entry of the JSON the gateway answered [GET /v1/nodes]
    with, so every field may be missing or of another type.  Punctuation outside ASCII is
    written in UTF-8. *)

From S2P Require Import Prelude.
From S2P Require Import PyFloat.
From S2P Require Import PyStr.
From S2P Require Import PyNum.
From S2P Require Import PyDict.
From S2P Require Import PyJson.
From S2P Require Import LoadCharts.

#[local] Open Scope list_scope.

(** ** JSON values as Python objects *)

(** [repr(value)] *)
Fixpoint py_repr (j : json) : string :=
  let items l := (fix go l := match l with [] => [] | j :: l => py_repr j :: go l end) l in
  let pairs o := (fix go (o : list (string * json)) :=
                    match o with [] => [] | (k, j) :: o => (str_repr k +:+ ": " +:+ py_repr j) :: go o end) o in
  match j with
  | JNull => "None"
  | JBool b => if b then "True" else "False"
  | JInt n => str_of_Z n
  | JFloat x => str_of_float x
  | JStr s => str_repr s
  | JList l => "[" +:+ str_join ", " (items l) +:+ "]"
  | JObj o => "{" +:+ str_join ", " (pairs o) +:+ "}"
  end.

(** [str(value)] *)
Definition py_str (j : json) : string := match j with JStr s => s | _ => py_repr j end.

(** [isinstance(value, int)]: a [bool] is an [int]. *)
Definition as_py_int (j : json) : option Z :=
  match j with JInt n => Some n | JBool b => Some (Z.b2z b) | _ => None end.

(** [obj.get(key)] of a dictionary; [None] reads as [null]. *)
Definition j_lookup (j : json) (key : string) : json := default JNull (j_get j key).

(** ** Cells *)

Definition dash : string := "—".

Definition NODE_STATUS_STYLES : dict string string :=
  [("online", "bold green"); ("offline", "bold red"); ("unknown", "bold yellow")].
Definition RESERVED_STYLE : string := "bold #c000ff".
Definition EXPIRING_STYLE : string := "bold #ff8800".

Definition format_avg_metric (avg : option float) : string :=
  match avg with None => dash | Some x => format_fixed 0 x end.

Definition format_avg_min_max (avg : option float) (minimum maximum : option Z) : string :=
  match avg, minimum, maximum with
  | Some x, Some lo, Some hi => format_fixed 0 x +:+ " (" +:+ str_of_Z lo +:+ "–" +:+ str_of_Z hi +:+ ")"
  | _, _, _ => dash
  end.

Definition is_online (status : json) : bool :=
  match status with JStr s => bool_decide (s = "online") | _ => false end.

Definition styled_load_counter (status in_flight max_concurrent : json) : text :=
  let style := if negb (is_online status) then "dim"
               else if j_truthy in_flight then "bold yellow" else "" in
  [(py_str in_flight +:+ "/" +:+ py_str max_concurrent, style)].

Definition lease_markup (lease : json) : option text :=
  match lease with
  | JObj _ =>
      let hard := j_lookup lease "hard_expires_at" in
      let until_ := if j_truthy hard then hard else j_lookup lease "expires_at" in
      match j_lookup lease "holder", until_ with
      | JStr holder, JStr until_ =>
          let soon := j_truthy (j_lookup lease "expiring_soon") in
          Some [(if soon then "expiring" else "reserved", if soon then EXPIRING_STYLE else RESERVED_STYLE);
                (" " +:+ holder +:+ " until " +:+ until_, "")]
      | _, _ => None
      end
  | _ => None
  end.

Definition styled_node_status (status in_flight max_concurrent lease : json) : text :=
  let counter := styled_load_counter status in_flight max_concurrent in
  let style := default "" (d_get NODE_STATUS_STYLES (py_str status)) in
  match lease_markup lease with
  | None => (py_str status, style) :: (" ", "") :: counter
  | Some reservation =>
      if is_online status then reservation ++ (" ", "") :: counter
      else (py_str status, style) :: (" ", "") :: reservation ++ (" ", "") :: counter
  end.

Definition styled_failure_count (recent_failures : json) : text :=
  let count := default 0%Z (as_py_int recent_failures) in
  if (count =? 0)%Z then [("0", "dim")] else [(str_of_Z count, "bold red")].

(** [f"{value:.1f}"] of an integer or a float. *)
Definition format_tenth (value : json) : outcome arith_error (option string) :=
  match value with
  | JFloat x => Ret (Some (format_fixed 1 x))
  | _ => match as_py_int value with
         | None => Ret None
         | Some n => match f_of_int n with Raise e => Raise e | Ret x => Ret (Some (format_fixed 1 x)) end
         end
  end.

Definition format_tasks_per_hour (throughput : json) (key : string) : outcome arith_error string :=
  match format_tenth (j_lookup throughput key) with
  | Raise e => Raise e
  | Ret o => Ret (default "n/a" o)
  end.

(** [round(ratio * 100)] of a ratio that is a number. *)
Definition load_percent (in_flight max_concurrent : json) : outcome arith_error text :=
  match as_py_int in_flight, as_py_int max_concurrent with
  | Some running, Some max =>
      if (0 <? max)%Z then
        match int_truediv running max with
        | Raise e => Raise e
        | Ret ratio =>
            match py_round (f_mul ratio (f_of_Z 100)) with
            | None => Raise OverflowError
            | Some percent => Ret [(str_of_Z percent +:+ "%", bar_style ratio)]
            end
        end
      else Ret [("n/a", "")]
  | _, _ => Ret [("n/a", "")]
  end.

(** ** Column sorts *)

Definition SORT_COLUMNS : list string := ["node"; "status"; "reqs/min"; "avg latency"; "tokens"].

(** The values of one column are all strings or all numbers. *)
Inductive sort_value := SortStr (s : string) | SortNum (x : float).

#[export] Instance sort_value_eq_dec : EqDecision sort_value.
Proof. solve_decision. Defined.

(** [<] *)
Definition sort_value_lt (a b : sort_value) : bool :=
  match a, b with
  | SortStr s, SortStr t => str_lt s t
  | SortNum x, SortNum y => f_lt x y
  | _, _ => false
  end.

Abbreviation sort_item := (string * sort_value)%type.

(** The order of [list.sort]: what is not less comes later; with [reverse] the comparison is
    turned round and equal items still keep their order. *)
Definition sort_item_le (descending : bool) (a b : sort_item) : Prop :=
  if descending then sort_value_lt a.2 b.2 = false else sort_value_lt b.2 a.2 = false.

#[export] Instance sort_item_le_dec descending : RelDecision (sort_item_le descending).
Proof. intros a b. unfold sort_item_le. destruct descending; apply _. Defined.

Definition present_items (items : list (string * option sort_value)) : list sort_item :=
  omap (λ p, pair p.1 <$> p.2) items.

Definition missing_items (items : list (string * option sort_value)) : list string :=
  (filter (λ p, p.2 = None) items).*1.

Definition sort_missing_last (items : list (string * option sort_value)) (descending : bool) : list string :=
  (sort_by (sort_item_le descending) (present_items items)).*1 ++ missing_items items.

(** ** Widget ids *)

Definition is_ascii_alpha (c : ascii) : bool :=
  let n := code c in ((65 <=? n) && (n <=? 90) || (97 <=? n) && (n <=? 122))%N.

Definition id_char (c : ascii) : bool :=
  is_ascii_alpha c || is_digit c || bool_decide (c = "_"%char) || bool_decide (c = "-"%char).

(** [re.sub(r"[^a-zA-Z0-9_-]", "_", host_id)] *)
Fixpoint sanitize (s : string) : string :=
  match s with
  | EmptyString => s
  | String c s => String (if id_char c then c else "_"%char) (sanitize s)
  end.

Definition widget_base (host_id prefix : string) : string :=
  let sanitized := sanitize host_id in
  let ok := match sanitized with
            | String c _ => is_ascii_alpha c || bool_decide (c = "_"%char)
            | EmptyString => false
            end in
  prefix +:+ "-" +:+ (if ok then sanitized else "h_" +:+ sanitized).

(** The loop over the suffixes; one more candidate than there are used ids is enough. *)
Fixpoint first_free (fuel : nat) (base candidate : string) (suffix : Z) (used_ids : gset string) : string :=
  match fuel with
  | O => candidate
  | S fuel =>
      if decide (candidate ∈ used_ids)
      then first_free fuel base (base +:+ "-" +:+ str_of_Z suffix) (suffix + 1) used_ids
      else candidate
  end.

(** The id, and the used ids with it. *)
Definition sparkline_widget_id (host_id prefix : string) (used_ids : gset string) : string * gset string :=
  let base := widget_base host_id prefix in
  let candidate := first_free (S (size used_ids)) base base 2 used_ids in
  (candidate, {[candidate]} ∪ used_ids).

(** ** The ids are free *)

Lemma str_app_inj_l (a b c : string) : a +:+ b = a +:+ c → b = c.
Proof. induction a as [|x a IH]; [done|]. rewrite !str_cons_app. intros [= H]. auto. Qed.

Definition numbered (base : string) (n : Z) : string := base +:+ "-" +:+ str_of_Z n.

Lemma numbered_inj base n m : numbered base n = numbered base m → n = m.
Proof. intros H%str_app_inj_l%str_app_inj_l. by apply (inj pretty) in H. Qed.

Lemma numbered_ne base n : numbered base n ≠ base.
Proof.
  unfold numbered. intros H%(f_equal String.length). rewrite !str_length_app in H. cbn [String.length] in H. lia.
Qed.

Lemma first_free_taken n base candidate k used :
  first_free (S n) base candidate k used ∈ used →
  candidate ∈ used ∧ ∀ i, (i < n)%nat → numbered base (k + Z.of_nat i) ∈ used.
Proof.
  revert candidate k. induction n as [|n IH]; intros candidate k.
  - simpl. case_decide as H; [|done]. split; [done|lia].
  - cbn [first_free]. case_decide as H; [|done]. intros [H0 Hrest]%IH. split; [done|].
    intros [|i] Hi; [by rewrite Z.add_0_r|]. replace (k + Z.of_nat (S i))%Z with (k + 1 + Z.of_nat i)%Z by lia.
    apply Hrest. lia.
Qed.

(** There are more candidates than used ids. *)
Lemma widget_id_fresh host_id prefix used : (sparkline_widget_id host_id prefix used).1 ∉ used.
Proof.
  unfold sparkline_widget_id. cbn [fst]. set (base := widget_base host_id prefix).
  intros [H0 Hn]%first_free_taken.
  set (l := base :: ((λ i, numbered base (2 + Z.of_nat i)) <$> seq 0 (size used))).
  assert (Hnd : NoDup l).
  { constructor.
    - intros (i & E & _)%list_elem_of_fmap. by eapply numbered_ne.
    - apply NoDup_fmap_2; [|apply NoDup_seq]. intros i j E%numbered_inj. lia. }
  assert (Hsub : list_to_set (C:=gset string) l ⊆ used).
  { intros x. rewrite elem_of_list_to_set. unfold l. rewrite elem_of_cons, list_elem_of_fmap.
    intros [->|(i & -> & Hi)]; [done|]. apply Hn. apply elem_of_seq in Hi. lia. }
  apply subseteq_size in Hsub. rewrite size_list_to_set in Hsub by done.
  unfold l in Hsub. simpl in Hsub. rewrite length_fmap, length_seq in Hsub. lia.
Qed.

(** ** The order of a column *)

Definition is_num (v : sort_value) : bool := match v with SortNum x => negb (is_nan x) | SortStr _ => false end.
Definition is_str (v : sort_value) : bool := match v with SortStr _ => true | SortNum _ => false end.

(** A column's values: all strings, or all numbers. *)
Definition one_kind (items : list (string * option sort_value)) : Prop :=
  Forall (λ i : sort_item, is_str i.2 = true) (present_items items) ∨
  Forall (λ i : sort_item, is_num i.2 = true) (present_items items).

Lemma str_lt_irrefl s : str_lt s s = false.
Proof. unfold str_lt. apply bool_decide_eq_false. intros H. by apply H. Qed.

Lemma sort_value_lt_irrefl v : sort_value_lt v v = false.
Proof. destruct v; [apply str_lt_irrefl|apply f_lt_irrefl]. Qed.

Lemma sort_value_lt_asym a b : sort_value_lt a b = true → sort_value_lt b a = false.
Proof.
  destruct a as [s|x], b as [t|y]; simpl; try done; [|by apply f_lt_asym].
  unfold str_lt. rewrite bool_decide_eq_true, bool_decide_eq_false. intros H Hn. destruct (total String.le s t); tauto.
Qed.

#[export] Instance sort_item_le_total descending : Total (sort_item_le descending).
Proof.
  intros a b. unfold sort_item_le. destruct descending.
  - destruct (sort_value_lt a.2 b.2) eqn:E; [right; by apply sort_value_lt_asym|by left].
  - destruct (sort_value_lt b.2 a.2) eqn:E; [right; by apply sort_value_lt_asym|by left].
Qed.

Lemma str_ge_trans s t u : str_lt t s = false → str_lt u t = false → str_lt u s = false.
Proof.
  unfold str_lt. rewrite !bool_decide_eq_false. intros H1%dec_stable H2%dec_stable H3. apply H3. by trans t.
Qed.

Lemma f_ge_trans x y z : is_nan y = false → f_lt y x = false → f_lt z y = false → f_lt z x = false.
Proof.
  intros Hy H1 H2. apply not_true_is_false. intros H. apply (f_lt_cotrans _ y) in H as [H|H]; congruence.
Qed.

Lemma sort_item_le_trans descending items : one_kind items →
  ∃ P : sort_item → Prop, Forall P (present_items items) ∧
    ∀ a b c, P a → P b → P c → sort_item_le descending a b → sort_item_le descending b c → sort_item_le descending a c.
Proof.
  intros [H|H]; eexists; (split; [exact H|]); intros [? [s|x]] [? [t|y]] [? [u|z]]; simpl; try done; intros _ Hb _;
    unfold sort_item_le; destruct descending; simpl; intros Hab Hbc.
  - by eapply str_ge_trans.
  - by eapply str_ge_trans.
  - eapply f_ge_trans; [|exact Hbc|exact Hab]. by destruct (is_nan y).
  - eapply f_ge_trans; [|exact Hab|exact Hbc]. by destruct (is_nan y).
Qed.

Lemma present_missing items : (present_items items).*1 ++ missing_items items ≡ₚ items.*1.
Proof.
  unfold missing_items. induction items as [|[h [v|]] items IH]; [done| |].
  - cbn [present_items omap list_omap fmap list_fmap]. rewrite filter_cons, decide_False by done. simpl. by f_equiv.
  - rewrite filter_cons, decide_True by done. cbn. rewrite <-Permutation_middle. by f_equiv.
Qed.

(** A column sort shows every host once, hosts without a value last and in the order the
    gateway listed them, whichever way the column is sorted.  The hosts with a value come
    first, sorted in the direction chosen, and hosts of equal value keep their order in
    both directions. *)
Theorem sort_missing_last_exact items descending :
  one_kind items →
  sort_missing_last items descending ≡ₚ items.*1 ∧
  ∃ front, sort_missing_last items descending = front.*1 ++ missing_items items ∧
    front ≡ₚ present_items items ∧
    StronglySorted (sort_item_le descending) front ∧
    (∀ v, filter (λ a, a.2 = v) front = filter (λ a, a.2 = v) (present_items items)).
Proof.
  intros Hk. unfold sort_missing_last. split; [by rewrite sort_by_perm, present_missing|].
  exists (sort_by (sort_item_le descending) (present_items items)).
  split_and!; [done|apply sort_by_perm| |].
  - destruct (sort_item_le_trans descending items Hk) as (P & HP & Htrans).
    apply (sort_by_strongly_sorted _ P); [exact Htrans|exact HP].
  - intros v. apply sort_by_stable. intros a b Ha Hb. unfold sort_item_le. rewrite Ha, Hb, sort_value_lt_irrefl.
    by destruct descending.
Qed.

Lemma sort_missing_last_exact_witness :
  sort_missing_last [("a", Some (SortNum f_zero)); ("b", None); ("c", Some (SortNum (f_of_Z 2)));
    ("d", Some (SortNum f_zero))] true = ["c"; "a"; "d"; "b"] ∧
  sort_missing_last [("a", Some (SortNum f_zero)); ("b", None); ("c", Some (SortNum (f_of_Z 2)));
    ("d", Some (SortNum f_zero))] true ≡ₚ ["a"; "b"; "c"; "d"].
Proof.
  split; [by vm_compute|].
  apply (sort_missing_last_exact [("a", Some (SortNum f_zero)); ("b", None); ("c", Some (SortNum (f_of_Z 2)));
    ("d", Some (SortNum f_zero))] true).
  right. repeat constructor.
Defined.
