(* ===== verification/Dashboard.v ===== *)
(** * The operator dashboard ([tui/app.py], [DashboardApp], and [tui/client.py])

    The state the dashboard keeps between polls and what each poll and each key press makes of
    it.  The widgets belong to the terminal library: the dashboard's calls to them are recorded
    in order as [ui_command]s, and what it reads from the table (the cursor and the number of
    rows) is an argument.  A poll asks the gateway for the nodes and the scrape text; what
    comes back is an [answer].  An exception inside the rendering leaves what was done before
    it and becomes the error banner. *)

From S2P Require Import Prelude.
From S2P Require Import PyFloat.
From S2P Require Import PyStr.
From S2P Require Import PyNum.
From S2P Require Import PyDict.
From S2P Require Import PyJson.
From S2P Require Import Diagnostics.
From S2P Require Import LoadCharts.
From S2P Require Import DashboardView.

#[local] Open Scope list_scope.

(** ** The client's errors *)

(** What the HTTP client raises below a response: [ConnectTimeout] is also a
    [TimeoutException]. *)
Inductive transport_exc := ConnectTimeout | OtherTimeout | OtherTransportError.

(** The kind of [DiagnosticsClientError]. *)
Definition transport_error (e : transport_exc) : string :=
  match e with OtherTimeout => "timeout" | ConnectTimeout | OtherTransportError => "connection" end.

Definition raise_for_error_status (status_code : Z) : option string :=
  if ((status_code =? 401) || (status_code =? 403))%Z then Some "unauthorized"
  else if negb (status_code / 100 =? 2)%Z then Some "server_error" else None.

(** A result of [asyncio.gather(..., return_exceptions=True)]. *)
Inductive answer (A : Type) :=
  | Answered (a : A)
  | ClientFailed (kind : string)
  | OtherFailure.
Arguments Answered {_} _.
Arguments ClientFailed {_} _.
Arguments OtherFailure {_}.

(** A request of the client. *)
Definition request_answer {A} (response : transport_exc + Z * A) : answer A :=
  match response with
  | inl e => ClientFailed (transport_error e)
  | inr (status_code, a) =>
      match raise_for_error_status status_code with Some kind => ClientFailed kind | None => Answered a end
  end.

Definition BANNER_MESSAGES : dict string string :=
  [("unauthorized", "not authorized — check API key"); ("connection", "cannot reach orchestrator, retrying");
   ("timeout", "orchestrator slow to respond, retrying"); ("server_error", "orchestrator error, retrying")].

Definition ERROR_KIND_PRIORITY : list string := ["unauthorized"; "connection"; "timeout"; "server_error"].

(** [_pick_error] of a non-empty list: the first kind in order of priority that occurs. *)
Definition pick_error (first : string) (rest : list string) : string :=
  default first (list_find (λ kind, kind ∈ first :: rest) ERROR_KIND_PRIORITY ≫= λ p, Some p.2).

(** ** State *)

Inductive ui_command :=
  | ShowBanner (message : string)
  | ClearTable
  | AddRow (cells : list text)
  | MoveCursor (row : nat)
  | SetTitle (title : string)
  | RemoveGroup (group_id : string)
  | MountGroup (group_id label_id load_id : string) (label : text)
  | UpdateLabel (label_id : string) (label : text)
  | SetChart (load_id : string) (data : list float)
  | ArrangeGroups (group_ids : list string).

Record Dash := {
  d_load_history : dict string (list float);
  d_sparkline_ids : dict string string;
  d_label_ids : dict string string;
  d_node_group_ids : dict string string;
  d_poll_in_progress : bool;
  d_node_row_order : list string;
  d_sort_column : option string;
  d_sort_descending : bool;
  d_nodes_by_id : dict string json;
  d_last_completions_total : dict string Z;
  d_last_completions_total_at : option datetime;
  d_ui : list ui_command;
}.

Definition Dash_new : Dash :=
  {| d_load_history := []; d_sparkline_ids := []; d_label_ids := []; d_node_group_ids := [];
     d_poll_in_progress := false; d_node_row_order := []; d_sort_column := None; d_sort_descending := false;
     d_nodes_by_id := []; d_last_completions_total := []; d_last_completions_total_at := None; d_ui := [] |}.

Definition set_groups (hist : dict string (list float)) (loads labels groups : dict string string) (d : Dash) : Dash :=
  {| d_load_history := hist; d_sparkline_ids := loads; d_label_ids := labels; d_node_group_ids := groups;
     d_poll_in_progress := d_poll_in_progress d; d_node_row_order := d_node_row_order d;
     d_sort_column := d_sort_column d; d_sort_descending := d_sort_descending d; d_nodes_by_id := d_nodes_by_id d;
     d_last_completions_total := d_last_completions_total d;
     d_last_completions_total_at := d_last_completions_total_at d; d_ui := d_ui d |}.
Definition set_progress (b : bool) (d : Dash) : Dash :=
  {| d_load_history := d_load_history d; d_sparkline_ids := d_sparkline_ids d; d_label_ids := d_label_ids d;
     d_node_group_ids := d_node_group_ids d; d_poll_in_progress := b; d_node_row_order := d_node_row_order d;
     d_sort_column := d_sort_column d; d_sort_descending := d_sort_descending d; d_nodes_by_id := d_nodes_by_id d;
     d_last_completions_total := d_last_completions_total d;
     d_last_completions_total_at := d_last_completions_total_at d; d_ui := d_ui d |}.
Definition set_rows (order : list string) (by_id : dict string json) (d : Dash) : Dash :=
  {| d_load_history := d_load_history d; d_sparkline_ids := d_sparkline_ids d; d_label_ids := d_label_ids d;
     d_node_group_ids := d_node_group_ids d; d_poll_in_progress := d_poll_in_progress d; d_node_row_order := order;
     d_sort_column := d_sort_column d; d_sort_descending := d_sort_descending d; d_nodes_by_id := by_id;
     d_last_completions_total := d_last_completions_total d;
     d_last_completions_total_at := d_last_completions_total_at d; d_ui := d_ui d |}.
Definition set_sort (column : option string) (descending : bool) (d : Dash) : Dash :=
  {| d_load_history := d_load_history d; d_sparkline_ids := d_sparkline_ids d; d_label_ids := d_label_ids d;
     d_node_group_ids := d_node_group_ids d; d_poll_in_progress := d_poll_in_progress d;
     d_node_row_order := d_node_row_order d; d_sort_column := column; d_sort_descending := descending;
     d_nodes_by_id := d_nodes_by_id d; d_last_completions_total := d_last_completions_total d;
     d_last_completions_total_at := d_last_completions_total_at d; d_ui := d_ui d |}.
Definition set_last_total (total : dict string Z) (at_ : datetime) (d : Dash) : Dash :=
  {| d_load_history := d_load_history d; d_sparkline_ids := d_sparkline_ids d; d_label_ids := d_label_ids d;
     d_node_group_ids := d_node_group_ids d; d_poll_in_progress := d_poll_in_progress d;
     d_node_row_order := d_node_row_order d; d_sort_column := d_sort_column d; d_sort_descending := d_sort_descending d;
     d_nodes_by_id := d_nodes_by_id d; d_last_completions_total := total; d_last_completions_total_at := Some at_;
     d_ui := d_ui d |}.
Definition add_ui (c : ui_command) (d : Dash) : Dash :=
  {| d_load_history := d_load_history d; d_sparkline_ids := d_sparkline_ids d; d_label_ids := d_label_ids d;
     d_node_group_ids := d_node_group_ids d; d_poll_in_progress := d_poll_in_progress d;
     d_node_row_order := d_node_row_order d; d_sort_column := d_sort_column d; d_sort_descending := d_sort_descending d;
     d_nodes_by_id := d_nodes_by_id d; d_last_completions_total := d_last_completions_total d;
     d_last_completions_total_at := d_last_completions_total_at d; d_ui := d_ui d ++ [c] |}.

(** ** Effects *)

Inductive dash_error := DashKeyError (key : string) | DashTypeError | DashValueError | DashArith (e : arith_error).

Definition dash_prog (A : Type) : Type := prog Dash dash_error A.
#[export] Instance dash_prog_ret : MRet dash_prog := λ A, @mret (prog Dash dash_error) _ A.
#[export] Instance dash_prog_bind : MBind dash_prog := λ A B, @mbind (prog Dash dash_error) _ A B.

Definition dash_arith {A} (o : outcome arith_error A) : dash_prog A := λ d,
  match o with Ret a => (Ret a, d) | Raise e => (Raise (DashArith e), d) end.

Definition emit (c : ui_command) : dash_prog unit := modify (add_ui c).

(** [node[key]] *)
Definition node_item (node : json) (key : string) : outcome dash_error json :=
  match node with
  | JObj o => match d_get o key with Some v => Ret v | None => Raise (DashKeyError key) end
  | _ => Raise DashTypeError
  end.

(** [node["host_id"]].  The gateway answers strings only; for another value, which Python
    would carry along, the model raises. *)
Definition node_host_id (node : json) : outcome dash_error string :=
  match node_item node "host_id" with
  | Ret (JStr s) => Ret s
  | Ret _ => Raise DashTypeError
  | Raise e => Raise e
  end.

Definition lift {A} (o : outcome dash_error A) : dash_prog A := λ d,
  match o with Ret a => (Ret a, d) | Raise e => (Raise e, d) end.

(** [nodes.get("nodes", [])], as far as iterating over it goes. *)
Definition nodes_list (nodes : json) : outcome dash_error (list json) :=
  match nodes with
  | JObj o =>
      match d_get o "nodes" with
      | None | Some (JStr "") | Some (JObj []) => Ret []
      | Some (JList l) => Ret l
      | Some _ => Raise DashTypeError
      end
  | _ => Raise DashTypeError
  end.

(** ** The node table *)

(** [value or 0] *)
Definition num_or_zero (x : option float) : float :=
  match x with Some x => if SFeqb x f_zero then f_zero else x | None => f_zero end.

(** The value of a host in the sorted column. *)
Definition column_value (column : string) (parsed : ParsedMetrics) (rates : dict string (option float))
    (id : string) (node : json) : outcome dash_error (option sort_value) :=
  if bool_decide (column = "node") then Ret (Some (SortStr (str_lower id)))
  else if bool_decide (column = "status") then
    match node_item node "status" with Ret s => Ret (Some (SortStr (py_str s))) | Raise e => Raise e end
  else if bool_decide (column = "reqs/min") then Ret (SortNum <$> mjoin (d_get rates id))
  else if bool_decide (column = "avg latency") then Ret (SortNum <$> d_get (pm_host_latency_ms_avg parsed) id)
  else
    match d_get (pm_host_prompt_tokens_avg parsed) id, d_get (pm_host_completion_tokens_avg parsed) id with
    | None, None => Ret None
    | prompt, completion => Ret (Some (SortNum (f_add (num_or_zero prompt) (num_or_zero completion))))
    end.

(** [[f(x) for x in xs]], stopping at the first exception. *)
Fixpoint comprehend {A B} (f : A → outcome dash_error B) (xs : list A) : outcome dash_error (list B) :=
  match xs with
  | [] => Ret []
  | x :: xs =>
      match f x with
      | Raise e => Raise e
      | Ret b => match comprehend f xs with Ret bs => Ret (b :: bs) | Raise e => Raise e end
      end
  end.

Definition with_id (node : json) : outcome dash_error (string * json) :=
  match node_host_id node with Ret id => Ret (id, node) | Raise e => Raise e end.

(** [_display_order]: the gateway's order, or the column's. *)
Definition display_order (column : option string) (descending : bool) (hosts : list json) (parsed : ParsedMetrics)
    (rates : dict string (option float)) : outcome dash_error (list json) :=
  match column with
  | None => Ret hosts
  | Some column =>
      match comprehend with_id hosts with
      | Raise e => Raise e
      | Ret pairs =>
          let by_id := d_of_list pairs in
          match comprehend (λ p, match column_value column parsed rates p.1 p.2 with
                                 | Ret v => Ret (p.1, v)
                                 | Raise e => Raise e
                                 end) by_id with
          | Raise e => Raise e
          | Ret keyed => Ret (omap (d_get by_id) (sort_missing_last keyed descending))
          end
      end
  end.

(** [host.get("health") or {}], then [.get("recent_failures")] *)
Definition recent_failures (node : json) : outcome dash_error json :=
  let health := j_lookup node "health" in
  if negb (j_truthy health) then Ret JNull
  else match health with JObj _ => Ret (j_lookup health "recent_failures") | _ => Raise DashTypeError end.

Definition plain_text (s : string) : text := [(s, "")].

Definition rate_cell (rate_per_s : option float) : string :=
  match rate_per_s with
  | None => dash
  | Some r => format_fixed 1 (f_mul r (f_of_Z 60)) +:+ "/min"
  end.

(** The cells of one row. *)
Definition node_row (parsed : ParsedMetrics) (rates : dict string (option float)) (id : string) (node : json)
    : dash_prog (list text) :=
  status ← lift (node_item node "status");
  in_flight ← lift (node_item node "in_flight");
  max_concurrent ← lift (node_item node "max_concurrent_requests");
  failures ← lift (recent_failures node);
  per_hour ← dash_arith (format_tasks_per_hour (j_lookup node "throughput") "tasks_per_hour");
  per_slot ← dash_arith (format_tasks_per_hour (j_lookup node "throughput") "tasks_per_hour_per_slot");
  backend_type ← lift (node_item node "backend_type");
  last_seen ← lift (node_item node "last_seen");
  mret [plain_text id; styled_node_status status in_flight max_concurrent (j_lookup node "lease");
        styled_failure_count failures; plain_text per_hour; plain_text per_slot;
        plain_text (py_str backend_type); plain_text (py_str last_seen);
        plain_text (str_of_Z (default 0%Z (d_get (pm_host_completions_total parsed) id)));
        plain_text (rate_cell (mjoin (d_get rates id)));
        plain_text (format_avg_metric (d_get (pm_host_latency_ms_avg parsed) id));
        plain_text (format_avg_min_max (d_get (pm_host_prompt_tokens_avg parsed) id)
          (d_get (pm_host_prompt_tokens_min parsed) id) (d_get (pm_host_prompt_tokens_max parsed) id));
        plain_text (format_avg_min_max (d_get (pm_host_completion_tokens_avg parsed) id)
          (d_get (pm_host_completion_tokens_min parsed) id) (d_get (pm_host_completion_tokens_max parsed) id))].

Fixpoint add_rows (parsed : ParsedMetrics) (rates : dict string (option float)) (hosts : list json) : dash_prog unit :=
  match hosts with
  | [] => mret tt
  | node :: hosts =>
      id ← lift (node_host_id node);
      cells ← node_row parsed rates id node;
      emit (AddRow cells) ;;
      modify (λ d, set_rows (d_node_row_order d ++ [id]) (d_set (d_nodes_by_id d) id node) d) ;;
      add_rows parsed rates hosts
  end.

(** [list.index], where the value occurs. *)
Definition index_of (x : string) (l : list string) : option nat := fst <$> list_find (x =.) l.

Definition nodes_title (column : option string) (descending : bool) : string :=
  match column with
  | None => "Nodes"
  | Some column => "Nodes — sorted by " +:+ column +:+ " " +:+ (if descending then "↓" else "↑")
  end.

(** The table's cursor row and number of rows. *)
Record table_reading := { cursor_row : nat; row_count : nat }.

Definition selected_host (t : table_reading) (order : list string) : option string :=
  if bool_decide (row_count t = 0%nat) then None else order !! cursor_row t.

Definition render_nodes (t : table_reading) (nodes : answer json) (metrics_text : answer string) (now : datetime)
    : dash_prog unit :=
  d ← get;
  let selected := selected_host t (d_node_row_order d) in
  emit ClearTable ;;
  modify (set_rows [] []) ;;
  parsed ← match metrics_text with
           | Answered s => dash_arith (parse_metrics_text s)
           | _ => raise DashTypeError
           end;
  rates ← dash_arith (compute_token_rates (d_last_completions_total d) (d_last_completions_total_at d)
                        (pm_host_completions_total parsed) now);
  modify (set_last_total (pm_host_completions_total parsed) now) ;;
  hosts ← lift match nodes with Answered j => nodes_list j | _ => Raise DashTypeError end;
  shown ← lift (display_order (d_sort_column d) (d_sort_descending d) hosts parsed rates);
  add_rows parsed rates shown ;;
  order ← gets d_node_row_order;
  match selected ≫= λ id, index_of id order with
  | Some row => emit (MoveCursor row)
  | None => mret tt
  end ;;
  emit (SetTitle (nodes_title (d_sort_column d) (d_sort_descending d))).

(** ** The load charts *)

(** Both operands numbers, as Python divides them. *)
Definition num_truediv (a b : json) : outcome dash_error float :=
  let of_arith (o : outcome arith_error float) := match o with Ret x => Ret x | Raise e => Raise (DashArith e) end in
  let as_float j := match j with
                    | JFloat x => Ret x
                    | _ => match as_py_int j with Some n => of_arith (f_of_int n) | None => Raise DashTypeError end
                    end in
  match as_py_int a, as_py_int b with
  | Some n, Some m => of_arith (int_truediv n m)
  | _, _ => match as_float a, as_float b with
            | Ret x, Ret y => of_arith (float_truediv x y)
            | Raise e, _ => Raise e
            | _, Raise e => Raise e
            end
  end.

(** [cast(int, host["in_flight"]) / (cast(int, host["max_concurrent_requests"]) or 1)] *)
Definition node_ratio (node : json) : outcome dash_error float :=
  match node_item node "max_concurrent_requests" with
  | Raise e => Raise e
  | Ret max =>
      match node_item node "in_flight" with
      | Raise e => Raise e
      | Ret running => num_truediv running (if j_truthy max then max else JInt 1)
      end
  end.

Definition node_with_ratio (node : json) : outcome dash_error (string * (json * float)) :=
  match node_host_id node with
  | Raise e => Raise e
  | Ret id => match node_ratio node with Ret r => Ret (id, (node, r)) | Raise e => Raise e end
  end.

Definition load_label (node : json) : outcome dash_error text :=
  match node_item node "in_flight", node_item node "max_concurrent_requests", node_host_id node, node_item node "status" with
  | Ret running, Ret max, Ret id, Ret status =>
      match load_percent running max with
      | Raise e => Raise (DashArith e)
      | Ret percent =>
          Ret (plain_text id ++ [(" · ", "")] ++ styled_load_counter status running max ++ [(" · ", "")] ++ percent)
      end
  | Raise e, _, _, _ | _, Raise e, _, _ | _, _, Raise e, _ | _, _, _, Raise e => Raise e
  end.

(** The groups of the hosts that are gone are removed. *)
Fixpoint remove_stale (stale : list string) : dash_prog unit :=
  match stale with
  | [] => mret tt
  | id :: stale =>
      d ← get;
      let group_id := default "" (d_get (d_node_group_ids d) id) in
      modify (set_groups (d_load_history d) (d_pop (d_sparkline_ids d) id) (d_pop (d_label_ids d) id)
                (d_pop (d_node_group_ids d) id)) ;;
      emit (RemoveGroup group_id) ;;
      remove_stale stale
  end.

(** The ids of the three widgets of a new host: load, then group, then label. *)
Definition new_widget_ids (id : string) (used_ids : gset string) : (string * string * string) * gset string :=
  let '(load_id, used_ids) := sparkline_widget_id id "load" used_ids in
  let '(group_id, used_ids) := sparkline_widget_id id "group" used_ids in
  let '(label_id, used_ids) := sparkline_widget_id id "label" used_ids in
  ((load_id, group_id, label_id), used_ids).

Fixpoint update_groups (hosts : dict string json) (used_ids : gset string) : dash_prog unit :=
  match hosts with
  | [] => mret tt
  | (id, node) :: hosts =>
      d ← get;
      used_ids ← (if decide (is_Some (d_get (d_node_group_ids d) id)) then mret used_ids
                  else
                    let '((load_id, group_id, label_id), used_ids) := new_widget_ids id used_ids in
                    modify (set_groups (d_load_history d) (d_set (d_sparkline_ids d) id load_id)
                              (d_set (d_label_ids d) id label_id) (d_set (d_node_group_ids d) id group_id)) ;;
                    label ← lift (load_label node);
                    emit (MountGroup group_id label_id load_id label) ;;
                    mret used_ids);
      d ← get;
      label ← lift (load_label node);
      emit (UpdateLabel (default "" (d_get (d_label_ids d) id)) label) ;;
      emit (SetChart (default "" (d_get (d_sparkline_ids d) id)) (default [] (d_get (d_load_history d) id))) ;;
      update_groups hosts used_ids
  end.

Definition used_widget_ids (d : Dash) : gset string :=
  list_to_set (d_values (d_node_group_ids d) ++ d_values (d_sparkline_ids d) ++ d_values (d_label_ids d)).

Definition render_load_sparklines (nodes : answer json) : dash_prog unit :=
  hosts ← lift match nodes with Answered j => nodes_list j | _ => Raise DashTypeError end;
  entries ← lift (comprehend node_with_ratio hosts);
  let by_id := d_of_list entries in
  let ratios := d_map snd by_id in
  modify (λ d, set_groups (update_load_history DEFAULT_MAX_POINTS (d_load_history d) ratios)
                 (d_sparkline_ids d) (d_label_ids d) (d_node_group_ids d) d) ;;
  d ← get;
  remove_stale (filter (λ id, id ∉ d_keys ratios) (d_keys (d_node_group_ids d))) ;;
  d ← get;
  update_groups (d_map fst by_id) (used_widget_ids d) ;;
  d ← get;
  emit (ArrangeGroups (omap (d_get (d_node_group_ids d)) (d_node_row_order d))).

(** ** Polling *)

Definition client_errors {A B} (a : answer A) (b : answer B) : list string :=
  match a with ClientFailed k => [k] | _ => [] end ++ match b with ClientFailed k => [k] | _ => [] end.

(** A poll that finds another one in progress does nothing. *)
Definition poll_begin (d : Dash) : option Dash :=
  if d_poll_in_progress d then None else Some (set_progress true d).

(** What a poll does with two answers. *)
Definition render_poll (t : table_reading) (nodes : answer json) (metrics_text : answer string) (now : datetime)
    : dash_prog unit :=
  emit (ShowBanner "") ;; render_nodes t nodes metrics_text now ;; render_load_sparklines nodes.

(** The rest of [poll], once both answers are there. *)
Definition poll_end (t : table_reading) (nodes : answer json) (metrics_text : answer string) (now : datetime)
    (d : Dash) : Dash :=
  set_progress false
    match client_errors nodes metrics_text with
    | first :: rest => add_ui (ShowBanner (default first (d_get BANNER_MESSAGES (pick_error first rest)))) d
    | [] =>
        match render_poll t nodes metrics_text now d with
        | (Ret _, d) => d
        | (Raise _, d) => add_ui (ShowBanner "dashboard render error, retrying") d
        end
    end.

(** ** Keys *)

Definition cycle_sort (d : Dash) : Dash :=
  match d_sort_column d with
  | None => set_sort (SORT_COLUMNS !! 0%nat) (d_sort_descending d) d
  | Some column =>
      set_sort (index_of column SORT_COLUMNS ≫= λ i, SORT_COLUMNS !! S i) (d_sort_descending d) d
  end.

Definition toggle_sort_direction (d : Dash) : Dash := set_sort (d_sort_column d) (negb (d_sort_descending d)) d.
Definition clear_sort (d : Dash) : Dash := set_sort None false d.

(** Where a move takes the selected row, if it can move. *)
Definition move_target (t : table_reading) (step : Z) (d : Dash) : option nat :=
  if bool_decide (d_sort_column d ≠ None) || bool_decide (row_count t = 0%nat) then None
  else
    let target := (Z.of_nat (cursor_row t) + step)%Z in
    if ((0 <=? target) && (target <? Z.of_nat (length (d_node_row_order d))))%Z then Some (Z.to_nat target) else None.

(** [order[i], order[j] = order[j], order[i]] *)
Definition swap (i j : nat) (l : list string) : list string :=
  match l !! i, l !! j with
  | Some x, Some y => <[j := x]> (<[i := y]> l)
  | _, _ => l
  end.

(** [value == n] *)
Definition py_equals_int (value : json) (n : Z) : bool :=
  match value with
  | JFloat x => SFeqb x (f_of_Z n)
  | _ => match as_py_int value with Some m => (m =? n)%Z | None => false end
  end.

(** The [PATCH]es that give each host of [order] its place. *)
Definition position_updates (nodes_by_id : dict string json) (order : list string) : list (string * Z) :=
  omap (λ p : nat * string,
    let '(i, id) := p in
    let position := j_lookup (default JNull (d_get nodes_by_id id)) "position" in
    if py_equals_int position (Z.of_nat i) then None else Some (id, Z.of_nat i)) (zip (seq 0 (length order)) order).

(** Sending them stops at the first error. *)
Fixpoint send_updates {W} (patch : string → Z → W → option string * W) (updates : list (string * Z)) (w : W)
    : option string * W :=
  match updates with
  | [] => (None, w)
  | (id, p) :: updates =>
      match patch id p w with
      | (Some kind, w) => (Some kind, w)
      | (None, w) => send_updates patch updates w
      end
  end.

(** [_move_selected_node] up to its poll: [patch] is the client's [update_node] with a
    position, acting on what it talks to. *)
Definition move_selected_node {W} (patch : string → Z → W → option string * W) (t : table_reading) (step : Z)
    (d : Dash) (w : W) : Dash * W :=
  match move_target t step d with
  | None => (d, w)
  | Some target =>
      let order := swap (cursor_row t) target (d_node_row_order d) in
      match send_updates patch (position_updates (d_nodes_by_id d) order) w with
      | (Some kind, w) => (add_ui (ShowBanner (default kind (d_get BANNER_MESSAGES kind))) d, w)
      | (None, w) => (add_ui (MoveCursor target) (set_rows order (d_nodes_by_id d) d), w)
      end
  end.
