(* ===== verification/DashboardSafety.v ===== *)
(** * The dashboard's widgets and errors

    The terminal library refuses to mount two widgets with one id and to find a widget that
    is not mounted; [ui_step] states that contract.  Whatever the sequence of polls, the
    dashboard keeps to it ([widgets_stay_consistent]), and a poll whose answers have the
    gateway's shape ([entry_ok]) renders without an exception. *)

From S2P Require Import Prelude.
From S2P Require Import PyFloat.
From S2P Require Import PyStr.
From S2P Require Import PyNum.
From S2P Require Import PyBounds.
From S2P Require Import PyDict.
From S2P Require Import PyJson.
From S2P Require Import Diagnostics.
From S2P Require Import LoadCharts.
From S2P Require Import DashboardView.
From S2P Require Import Dashboard.

#[local] Open Scope list_scope.

(** ** The contract of the widgets *)

(** The mounted groups: the ids of the group, of its label and of its chart. *)
Definition widget : Type := string * string * string.
Definition group_of (w : widget) : string := w.1.1.
Definition label_of_widget (w : widget) : string := w.1.2.
Definition chart_of (w : widget) : string := w.2.

Definition widget_ids (ws : list widget) : list string :=
  mjoin ((λ w, [group_of w; label_of_widget w; chart_of w]) <$> ws).

(** [None] is [DuplicateIds] or [NoMatches]. *)
Definition ui_step (ws : list widget) (c : ui_command) : option (list widget) :=
  match c with
  | MountGroup g l s _ =>
      let ws' := ws ++ [(g, l, s)] in
      if decide (NoDup (widget_ids ws')) then Some ws' else None
  | RemoveGroup g => if decide (g ∈ group_of <$> ws) then Some (filter (λ w, group_of w ≠ g) ws) else None
  | UpdateLabel l _ => if decide (l ∈ label_of_widget <$> ws) then Some ws else None
  | SetChart s _ => if decide (s ∈ chart_of <$> ws) then Some ws else None
  | ArrangeGroups gs => if decide (Forall (λ g, g ∈ group_of <$> ws) gs) then Some ws else None
  | ShowBanner _ | ClearTable | AddRow _ | MoveCursor _ | SetTitle _ => Some ws
  end.

Definition ui_run (cs : list ui_command) : option (list widget) :=
  foldl (λ o c, ws ← o; ui_step ws c) (Some []) cs.

Lemma ui_run_snoc cs c : ui_run (cs ++ [c]) = ui_run cs ≫= λ ws, ui_step ws c.
Proof. unfold ui_run. by rewrite foldl_app. Qed.

(** ** The invariant *)

(** The three dictionaries describe the mounted groups. *)
Record synced (d : Dash) (ws : dict string widget) : Prop := {
  sy_groups : d_node_group_ids d = d_map group_of ws;
  sy_labels : d_label_ids d = d_map label_of_widget ws;
  sy_charts : d_sparkline_ids d = d_map chart_of ws;
  sy_keys : NoDup (d_keys ws);
  sy_ids : NoDup (widget_ids (d_values ws));
  sy_run : ui_run (d_ui d) = Some (d_values ws);
}.

Definition consistent (d : Dash) : Prop := ∃ ws, synced d ws.

Lemma consistent_new : consistent Dash_new.
Proof. exists []. by split; try constructor. Qed.

(** What leaves the widgets alone leaves them consistent. *)
Lemma consistent_ext d d' :
  d_node_group_ids d' = d_node_group_ids d → d_label_ids d' = d_label_ids d →
  d_sparkline_ids d' = d_sparkline_ids d → d_ui d' = d_ui d → consistent d → consistent d'.
Proof. intros E1 E2 E3 E4 [ws []]. exists ws. by split; rewrite ?E1, ?E2, ?E3, ?E4. Qed.

Lemma consistent_progress b d : consistent d → consistent (set_progress b d).
Proof. by apply consistent_ext. Qed.

Definition is_passive (c : ui_command) : bool :=
  match c with ShowBanner _ | ClearTable | AddRow _ | MoveCursor _ | SetTitle _ => true | _ => false end.

Lemma consistent_passive c d : is_passive c = true → consistent d → consistent (add_ui c d).
Proof.
  intros Hc [ws []]. exists ws. split; try done. cbn [d_ui add_ui]. rewrite ui_run_snoc, sy_run0. by destruct c.
Qed.

Lemma elem_of_widget_ids ws w :
  w ∈ ws → group_of w ∈ widget_ids ws ∧ label_of_widget w ∈ widget_ids ws ∧ chart_of w ∈ widget_ids ws.
Proof.
  intros Hw. unfold widget_ids. split_and!; apply list_elem_of_join;
    exists [group_of w; label_of_widget w; chart_of w]; (split; [set_solver|]); apply list_elem_of_fmap; by exists w.
Qed.

(** ** Answers of the gateway's shape *)

(** An integer small enough for exact arithmetic. *)
Definition slot_count (o : option json) : option Z :=
  match o with Some (JInt n) => if small_int n then Some n else None | _ => None end.

Definition rate_value (j : json) : bool := match j with JNull | JFloat _ => true | _ => false end.

(** One node, as the dashboard needs it; without a [health] it shows no failures. *)
Definition entry_ok (node : json) : bool :=
  match j_get node "host_id" with Some (JStr _) => true | _ => false end &&
  bool_decide (is_Some (j_get node "status")) &&
  bool_decide (is_Some (slot_count (j_get node "in_flight"))) &&
  bool_decide (is_Some (slot_count (j_get node "max_concurrent_requests"))) &&
  bool_decide (is_Some (j_get node "backend_type")) && bool_decide (is_Some (j_get node "last_seen")) &&
  match j_lookup node "health" with JObj _ | JNull => true | _ => false end &&
  rate_value (j_lookup (j_lookup node "throughput") "tasks_per_hour") &&
  rate_value (j_lookup (j_lookup node "throughput") "tasks_per_hour_per_slot").

Record entry_fields (node : json) : Prop := {
  ef_id : ∃ id, node_host_id node = Ret id;
  ef_status : ∃ v, node_item node "status" = Ret v;
  ef_running : ∃ n, node_item node "in_flight" = Ret (JInt n) ∧ small_int n = true;
  ef_max : ∃ n, node_item node "max_concurrent_requests" = Ret (JInt n) ∧ small_int n = true;
  ef_backend : ∃ v, node_item node "backend_type" = Ret v;
  ef_last_seen : ∃ v, node_item node "last_seen" = Ret v;
  ef_health : ∃ v, recent_failures node = Ret v;
  ef_rate : ∃ s, format_tasks_per_hour (j_lookup node "throughput") "tasks_per_hour" = Ret s;
  ef_slot_rate : ∃ s, format_tasks_per_hour (j_lookup node "throughput") "tasks_per_hour_per_slot" = Ret s;
}.

Lemma node_item_get node key v : j_get node key = Some v → node_item node key = Ret v.
Proof. by destruct node; simpl; try done; intros ->. Qed.

Lemma slot_item node key : is_Some (slot_count (j_get node key)) →
  ∃ n, node_item node key = Ret (JInt n) ∧ small_int n = true.
Proof.
  intros [n Hn]. destruct (j_get node key) as [[]|] eqn:E; try done. simpl in Hn.
  destruct (small_int n0) eqn:Hs; [|done]. exists n0. split; [by apply node_item_get|done].
Qed.

Lemma entry_ok_fields node : entry_ok node = true → entry_fields node.
Proof.
  unfold entry_ok. rewrite !andb_true_iff, !bool_decide_eq_true.
  intros ((((((((Hid & [st Hst]) & Hrun) & Hmax) & [bt Hbt]) & [ls Hls]) & Hh) & Hr1) & Hr2). split.
  - destruct (j_get node "host_id") as [[]|] eqn:E; try done. unfold node_host_id.
    rewrite (node_item_get _ _ _ E). eauto.
  - eauto using node_item_get.
  - by apply slot_item.
  - by apply slot_item.
  - eauto using node_item_get.
  - eauto using node_item_get.
  - unfold recent_failures. destruct (j_lookup node "health"); try done; simpl; [by eexists|].
    destruct (negb (negb _)); by eexists.
  - unfold format_tasks_per_hour, format_tenth. destruct (j_lookup _ "tasks_per_hour"); try done; simpl; eauto.
  - unfold format_tasks_per_hour, format_tenth. destruct (j_lookup _ "tasks_per_hour_per_slot"); try done; simpl; eauto.
Qed.

Lemma small_below n : small_int n = true → (Z.abs n < 2 ^ 54)%Z.
Proof. unfold small_int. rewrite andb_true_iff, !Z.leb_le. lia. Qed.

Lemma small_truediv n d : small_int n = true → d ≠ 0%Z → ∃ x, int_truediv n d = Ret x ∧ mag 55 x.
Proof. intros Hn%small_below Hd. by apply (int_truediv_mag n d 54). Qed.

Lemma hundred_mag : mag 7 (f_of_Z 100).
Proof. vm_compute. split; [split; [discriminate|split; discriminate|reflexivity]|discriminate]. Qed.

Lemma load_percent_ok n m : small_int n = true → ∃ t, load_percent (JInt n) (JInt m) = Ret t.
Proof.
  intros Hn. unfold load_percent. cbn [as_py_int]. destruct (Z.ltb_spec 0 m); [|by eexists].
  destruct (small_truediv n m Hn) as (x & -> & Hx); [lia|].
  pose proof (f_mul_mag x (f_of_Z 100) 55 7 Hx hundred_mag ltac:(lia)) as Hm.
  apply mag_finite in Hm. destruct (f_mul x (f_of_Z 100)); try done; cbn [py_round]; by eexists.
Qed.

Lemma load_label_ok node : entry_fields node → ∃ t, load_label node = Ret t.
Proof.
  intros [[id Hid] [st Hst] (n & Hn & Hs) (m & Hm & _)]. unfold load_label. rewrite Hn, Hm, Hid, Hst.
  destruct (load_percent_ok n m Hs) as [t ->]. by eexists.
Qed.

Lemma node_ratio_ok node : entry_fields node → ∃ r, node_ratio node = Ret r.
Proof.
  intros [_ _ (n & Hn & Hs) (m & Hm & _)]. unfold node_ratio. rewrite Hn, Hm. cbn [j_truthy].
  destruct (Z.eqb_spec m 0); cbn [negb]; unfold num_truediv; cbn [as_py_int].
  - destruct (small_truediv n 1 Hs) as (x & -> & _); [done|]. by eexists.
  - destruct (small_truediv n m Hs) as (x & -> & _); [done|]. by eexists.
Qed.

Lemma comprehend_ok {A B} (f : A → outcome dash_error B) xs :
  (∀ x, x ∈ xs → ∃ y, f x = Ret y) → ∃ ys, comprehend f xs = Ret ys ∧ Forall2 (λ x y, f x = Ret y) xs ys.
Proof.
  induction xs as [|x xs IH]; intros H; [by exists []|]. simpl.
  destruct (H x) as [y E]; [left|]. rewrite E. destruct IH as (ys & -> & Hys); [intros; apply H; by right|].
  exists (y :: ys). by split; [|constructor].
Qed.

Lemma comprehend_Forall2 {A B} (f : A → outcome dash_error B) xs ys :
  comprehend f xs = Ret ys → Forall2 (λ x y, f x = Ret y) xs ys.
Proof.
  revert ys. induction xs as [|x xs IH]; intros ys; simpl; [intros [= <-]; constructor|].
  destruct (f x) eqn:E; [|done]. destruct (comprehend f xs); [|done]. intros [= <-]. constructor; auto.
Qed.

Lemma d_of_list_elem {V} (ps : list (string * V)) k v : (k, v) ∈ d_of_list ps → (k, v) ∈ ps.
Proof.
  unfold d_of_list. induction ps as [|[k1 v1] ps IH] using rev_ind; [done|]. rewrite foldl_app. simpl.
  intros Hin. apply elem_of_app.
  assert (H : ∀ d : dict string V, (k, v) ∈ d_set d k1 v1 → (k, v) ∈ d ∨ (k, v) = (k1, v1)).
  { clear. induction d as [|[k2 v2] d IH]; simpl; [set_solver|]. case_decide; [set_solver|].
    intros [->|Hin]%elem_of_cons; [left; left|]. destruct (IH Hin); [left; by right|by right]. }
  destruct (H _ Hin) as [?|E]; [left; auto|right; rewrite E; left].
Qed.

Lemma d_of_list_NoDup {V} (ps : list (string * V)) : NoDup (d_keys (d_of_list ps)).
Proof.
  unfold d_of_list. induction ps as [|p ps IH] using rev_ind; [constructor|]. rewrite foldl_app. simpl.
  by apply d_keys_set_NoDup.
Qed.

(** ** Removing and mounting groups *)

Lemma widget_ids_app ws ws' : widget_ids (ws ++ ws') = widget_ids ws ++ widget_ids ws'.
Proof. unfold widget_ids. by rewrite fmap_app, join_app. Qed.

Lemma widget_ids_group ws : NoDup (widget_ids ws) → NoDup (group_of <$> ws).
Proof.
  induction ws as [|w ws IH]; [constructor|]. change (w :: ws) with ([w] ++ ws). rewrite widget_ids_app.
  intros (_ & Hw & Hnd)%NoDup_app. simpl. constructor; [|auto].
  intros (w' & E & Hin)%list_elem_of_fmap. apply (Hw (group_of w)); [left|]. rewrite E. by apply elem_of_widget_ids.
Qed.

Lemma values_pop (ws : dict string widget) id w :
  NoDup (group_of <$> d_values ws) → d_get ws id = Some w →
  filter (λ w', group_of w' ≠ group_of w) (d_values ws) = d_values (d_pop ws id).
Proof.
  induction ws as [|[id' w'] ws IH]; [done|]. cbn [d_get d_pop d_values fmap list_fmap].
  intros [Hn Hnd]%NoDup_cons. rewrite filter_cons. case_decide as Hid.
  - intros [= ->]. rewrite decide_False by tauto. simpl. apply Prelude.filter_true. intros x Hx E.
    apply Hn. cbn [snd]. rewrite <-E. by apply list_elem_of_fmap_2.
  - intros Hget. rewrite decide_True; [simpl; f_equal; by apply IH|]. simpl. intros E. apply Hn. cbn [snd]. rewrite E.
    apply list_elem_of_fmap_2. by apply (list_elem_of_fmap_2 snd ws (id, w)), d_get_elem.
Qed.

Lemma values_pop_sublist (ws : dict string widget) id : d_values (d_pop ws id) `sublist_of` d_values ws.
Proof.
  induction ws as [|[id' w'] ws IH]; simpl; [done|]. case_decide; simpl; [by apply sublist_cons|by apply sublist_skip].
Qed.

Lemma widget_ids_sublist ws ws' : ws `sublist_of` ws' → widget_ids ws `sublist_of` widget_ids ws'.
Proof.
  unfold widget_ids. induction 1 as [|w l l' _ IH|w l l' _ IH]; [done| |]; cbn [fmap list_fmap mjoin list_join].
  - by apply sublist_app.
  - by apply sublist_inserts_l.
Qed.

Lemma values_set_new (ws : dict string widget) id w : id ∉ d_keys ws → d_set ws id w = ws ++ [(id, w)].
Proof.
  induction ws as [|[id' w'] ws IH]; simpl; [done|]. unfold d_keys in *. simpl.
  intros [Hne Hin]%not_elem_of_cons. rewrite decide_False by done. f_equal. by apply IH.
Qed.

Lemma synced_remove d ws id w :
  synced d ws → d_get ws id = Some w →
  synced (add_ui (RemoveGroup (group_of w))
    (set_groups (d_load_history d) (d_pop (d_sparkline_ids d) id) (d_pop (d_label_ids d) id)
       (d_pop (d_node_group_ids d) id) d)) (d_pop ws id).
Proof.
  intros [Eg El Ec Hk Hi Hr] Hget.
  split; cbn [d_node_group_ids d_label_ids d_sparkline_ids d_ui set_groups add_ui]; rewrite ?Eg, ?El, ?Ec, ?d_map_pop; try done.
  - by apply d_keys_pop_NoDup.
  - eapply sublist_NoDup; [exact Hi|]. apply widget_ids_sublist, values_pop_sublist.
  - rewrite ui_run_snoc, Hr. simpl. rewrite decide_True.
    + f_equal. apply values_pop; [by apply widget_ids_group|done].
    + apply list_elem_of_fmap_2. by apply (list_elem_of_fmap_2 snd ws (id, w)), d_get_elem.
Qed.

Lemma synced_mount d ws id g l s label :
  synced d ws → id ∉ d_keys ws → NoDup [g; l; s] → (∀ x, x ∈ [g; l; s] → x ∉ widget_ids (d_values ws)) →
  synced (add_ui (MountGroup g l s label)
    (set_groups (d_load_history d) (d_set (d_sparkline_ids d) id s) (d_set (d_label_ids d) id l)
       (d_set (d_node_group_ids d) id g) d)) (d_set ws id (g, l, s)).
Proof.
  intros [Eg El Ec Hk Hi Hr] Hid Hnd Hfresh.
  assert (Hids : NoDup (widget_ids (d_values ws ++ [(g, l, s)]))).
  { rewrite widget_ids_app. apply NoDup_app. split_and!; [done| |done]. intros x Hx Hx'. by apply (Hfresh x). }
  assert (Ev : d_values (d_set ws id (g, l, s)) = d_values ws ++ [(g, l, s)]).
  { rewrite values_set_new by done. unfold d_values. by rewrite fmap_app. }
  split; cbn [d_node_group_ids d_label_ids d_sparkline_ids d_ui set_groups add_ui];
    rewrite ?Eg, ?El, ?Ec, ?d_map_set, ?Ev; try done.
  - by apply d_keys_set_NoDup.
  - rewrite ui_run_snoc, Hr. simpl. by rewrite decide_True.
Qed.

(** ** The load charts of a poll *)

(** What the charts do not touch. *)
Definition table_part (d : Dash) : list string * option string * dict string Z * option datetime :=
  (d_node_row_order d, d_sort_column d, d_last_completions_total d, d_last_completions_total_at d).

Lemma remove_stale_cons id stale d :
  remove_stale (id :: stale) d =
  remove_stale stale (add_ui (RemoveGroup (default "" (d_get (d_node_group_ids d) id)))
    (set_groups (d_load_history d) (d_pop (d_sparkline_ids d) id) (d_pop (d_label_ids d) id)
       (d_pop (d_node_group_ids d) id) d)).
Proof. reflexivity. Qed.

Lemma remove_stale_synced stale d ws :
  synced d ws → NoDup stale → Forall (λ id, id ∈ d_keys ws) stale →
  ∃ d' ws', remove_stale stale d = (Ret tt, d') ∧ synced d' ws' ∧
    table_part d' = table_part d.
Proof.
  revert d ws. induction stale as [|id stale IH]; intros d ws Hs Hnd Hin; [by exists d, ws|].
  apply NoDup_cons in Hnd as [Hn Hnd]. apply Forall_cons in Hin as [Hid Hin].
  apply d_get_is_Some in Hid as [w Hw].
  pose proof (synced_remove d ws id w Hs Hw) as Hs'.
  destruct (IH _ _ Hs' Hnd) as (d' & ws' & E & Hd' & Ho).
  { eapply Forall_impl; [apply Forall_and; split; [exact Hin|by apply Forall_forall; intros x Hx; exact Hx]|].
    intros x [Hx Hx']. apply d_get_is_Some. rewrite d_get_pop by apply Hs. rewrite decide_False by (by intros ->).
    by apply d_get_is_Some. }
  exists d', ws'. split_and!; [|done|done]. rewrite remove_stale_cons, <-E. do 3 f_equal.
  by rewrite (sy_groups _ _ Hs), d_get_map, Hw.
Qed.

Lemma new_widget_ids_fresh id used s g l used' :
  new_widget_ids id used = ((s, g, l), used') →
  NoDup [g; l; s] ∧ (∀ x, x ∈ [g; l; s] → x ∉ used) ∧ used' = {[l]} ∪ ({[g]} ∪ ({[s]} ∪ used)).
Proof.
  unfold new_widget_ids.
  pose proof (widget_id_fresh id "load" used) as H1.
  destruct (sparkline_widget_id id "load" used) as [s1 u1] eqn:E1.
  pose proof (widget_id_fresh id "group" u1) as H2.
  destruct (sparkline_widget_id id "group" u1) as [g1 u2] eqn:E2.
  pose proof (widget_id_fresh id "label" u2) as H3.
  destruct (sparkline_widget_id id "label" u2) as [l1 u3] eqn:E3.
  unfold sparkline_widget_id in E1, E2, E3. simplify_eq/=. intros [= <- <- <- <-].
  split_and!; [|set_solver|done]. repeat (constructor; [set_solver|]). constructor.
Qed.

(** Mounting a host that has no group yet. *)
Definition mount_state (id : string) (s g l : string) (label : text) (d : Dash) : Dash :=
  add_ui (MountGroup g l s label)
    (set_groups (d_load_history d) (d_set (d_sparkline_ids d) id s) (d_set (d_label_ids d) id l)
       (d_set (d_node_group_ids d) id g) d).

Definition refresh_state (id : string) (label : text) (d : Dash) : Dash :=
  add_ui (SetChart (default "" (d_get (d_sparkline_ids d) id)) (default [] (d_get (d_load_history d) id)))
    (add_ui (UpdateLabel (default "" (d_get (d_label_ids d) id)) label) d).

Lemma update_groups_known id node hosts used d label :
  is_Some (d_get (d_node_group_ids d) id) → load_label node = Ret label →
  update_groups ((id, node) :: hosts) used d = update_groups hosts used (refresh_state id label d).
Proof.
  intros H Hl. cbn [update_groups]. unfold mbind, dash_prog_bind, mbind, prog_bind, get.
  rewrite decide_True by done. unfold mret, dash_prog_ret, mret, prog_ret, lift. by rewrite Hl.
Qed.

Lemma update_groups_new id node hosts used d label s g l used' :
  ¬ is_Some (d_get (d_node_group_ids d) id) → load_label node = Ret label →
  new_widget_ids id used = ((s, g, l), used') →
  update_groups ((id, node) :: hosts) used d =
  update_groups hosts used' (refresh_state id label (mount_state id s g l label d)).
Proof.
  intros H Hl E. cbn [update_groups]. unfold mbind, dash_prog_bind, mbind, prog_bind, get.
  rewrite decide_False by done. rewrite E. cbv beta iota. unfold modify. cbv beta iota.
  unfold mret, dash_prog_ret, mret, prog_ret, lift. by rewrite Hl.
Qed.

Lemma synced_refresh d ws id label :
  synced d ws → id ∈ d_keys ws → synced (refresh_state id label d) ws.
Proof.
  intros [Eg El Ec Hk Hi Hr] [w Hw]%d_get_is_Some. unfold refresh_state.
  assert (Hin : w ∈ d_values ws) by (apply (list_elem_of_fmap_2 snd ws (id, w)), d_get_elem; done).
  split; try done. cbn [d_ui add_ui]. rewrite !ui_run_snoc, Hr. rewrite El, Ec, !d_get_map, Hw. simpl.
  rewrite decide_True by by apply list_elem_of_fmap_2. simpl. by rewrite decide_True by by apply list_elem_of_fmap_2.
Qed.

Lemma update_groups_synced hosts used d ws :
  synced d ws → (∀ id node, (id, node) ∈ hosts → entry_fields node) →
  (∀ x, x ∈ widget_ids (d_values ws) → x ∈ used) →
  ∃ d' ws', update_groups hosts used d = (Ret tt, d') ∧ synced d' ws' ∧
    table_part d' = table_part d.
Proof.
  revert used d ws. induction hosts as [|[id node] hosts IH]; intros used d ws Hs Hok Hused; [by exists d, ws|].
  destruct (load_label_ok node) as [label Hl]; [apply (Hok id); left|].
  assert (Hok' : ∀ id node, (id, node) ∈ hosts → entry_fields node) by (intros; eapply Hok; by right).
  destruct (decide (is_Some (d_get (d_node_group_ids d) id))) as [Hid|Hid].
  - rewrite (update_groups_known _ _ _ _ _ _ Hid Hl). apply (IH used (refresh_state id label d) ws); [|done|done].
    apply synced_refresh; [done|]. apply d_get_is_Some. rewrite (sy_groups _ _ Hs), d_get_map in Hid.
    by apply fmap_is_Some in Hid.
  - destruct (new_widget_ids id used) as [[[s g] l] used'] eqn:E.
    rewrite (update_groups_new _ _ _ _ _ _ _ _ _ _ Hid Hl E).
    destruct (new_widget_ids_fresh _ _ _ _ _ _ E) as (Hnd & Hfresh & ->).
    assert (Hk : id ∉ d_keys ws).
    { rewrite <-d_get_is_Some. intros [w Hw]. apply Hid. by rewrite (sy_groups _ _ Hs), d_get_map, Hw. }
    apply (IH _ (refresh_state id label (mount_state id s g l label d)) (d_set ws id (g, l, s))); [|done|].
    + apply synced_refresh; [|rewrite d_keys_set; case_decide; [done|set_solver]].
      apply synced_mount; auto. intros x Hx Hx'. by apply (Hfresh x), Hused.
    + intros x. rewrite values_set_new by done. unfold d_values. rewrite fmap_app, widget_ids_app. simpl.
      rewrite elem_of_app. intros [Hx|Hx]; [apply Hused in Hx; set_solver|set_solver].
Qed.

Lemma values_map {V W} (f : V → W) (d : dict string V) : d_values (d_map f d) = f <$> d_values d.
Proof. unfold d_values, d_map. by rewrite <-!list_fmap_compose. Qed.

Lemma used_ids_cover d ws x : synced d ws → x ∈ widget_ids (d_values ws) → x ∈ used_widget_ids d.
Proof.
  intros [Eg El Ec _ _ _]. unfold used_widget_ids, widget_ids.
  rewrite elem_of_list_to_set, Eg, El, Ec, !values_map, !elem_of_app, list_elem_of_join.
  intros (l & Hx & (w & -> & Hw)%list_elem_of_fmap). rewrite !elem_of_cons in Hx.
  destruct Hx as [->|[->|[->|[]%not_elem_of_nil]]];
    [left|right; right|right; left]; by apply list_elem_of_fmap_2.
Qed.

(** Answers whose entries are the gateway's, or no answer at all. *)
Definition answer_ok (nodes : answer json) : Prop :=
  match nodes with
  | Answered j => ∃ l, nodes_list j = Ret l ∧ Forall (λ node, entry_ok node = true) l
  | _ => True
  end.

Lemma entries_ok l : Forall (λ node, entry_ok node = true) l →
  ∃ entries, comprehend node_with_ratio l = Ret entries ∧
    ∀ id p, (id, p) ∈ d_of_list entries → entry_fields p.1.
Proof.
  intros Hl. rewrite Forall_forall in Hl.
  destruct (comprehend_ok node_with_ratio l) as (entries & E & H2).
  { intros node Hin%Hl%entry_ok_fields. unfold node_with_ratio. destruct (ef_id _ Hin) as [id ->].
    destruct (node_ratio_ok _ Hin) as [r ->]. eauto. }
  exists entries. split; [done|]. intros id p Hin%d_of_list_elem.
  apply list_elem_of_lookup in Hin as [i Hi]. destruct (Forall2_lookup_r _ _ _ _ _ H2 Hi) as (node & Hn & En).
  apply list_elem_of_lookup_2, Hl, entry_ok_fields in Hn. unfold node_with_ratio in En.
  destruct (node_host_id node); [|done]. destruct (node_ratio node); [|done]. by injection En as <- <-.
Qed.

Lemma render_load_sparklines_ok j l d :
  nodes_list j = Ret l → Forall (λ node, entry_ok node = true) l → consistent d →
  ∃ d', render_load_sparklines (Answered j) d = (Ret tt, d') ∧ consistent d' ∧ table_part d' = table_part d.
Proof.
  intros Hj Hl [ws Hs]. destruct (entries_ok l Hl) as (entries & E & Hok).
  unfold render_load_sparklines. unfold mbind, dash_prog_bind, mbind, prog_bind, lift, modify, get.
  rewrite Hj, E. cbv beta iota zeta.
  set (by_id := d_of_list entries). set (d1 := set_groups _ _ _ _ d).
  assert (Hs1 : synced d1 ws) by (destruct Hs; by split).
  destruct (remove_stale_synced (filter (λ id, id ∉ d_keys (d_map snd by_id)) (d_keys (d_node_group_ids d1))) d1 ws Hs1)
    as (d2 & ws2 & E2 & Hs2 & Ho2).
  { apply NoDup_filter. rewrite (sy_groups _ _ Hs1), d_keys_map. apply Hs1. }
  { apply Forall_forall. intros id [_ Hin]%list_elem_of_filter. by rewrite (sy_groups _ _ Hs1), d_keys_map in Hin. }
  rewrite E2.
  destruct (update_groups_synced (d_map fst by_id) (used_widget_ids d2) d2 ws2 Hs2) as (d3 & ws3 & E3 & Hs3 & Ho3).
  { intros id node Hin. apply list_elem_of_fmap in Hin as ([id' p] & [= -> ->] & Hp). by apply (Hok id'). }
  { intros x. by apply used_ids_cover. }
  rewrite E3. unfold emit, modify. eexists. split; [done|].
  split; [|transitivity (table_part d3); [done|by rewrite Ho3, Ho2]]. exists ws3. destruct Hs3 as [Eg El Ec Hk Hi Hr].
  split; try done. cbn [d_ui add_ui]. rewrite ui_run_snoc, Hr. simpl. rewrite decide_True; [done|].
  rewrite Eg. apply Forall_forall. intros g (id & _ & Hg)%list_elem_of_omap. rewrite d_get_map in Hg.
  destruct (d_get ws3 id) as [w|] eqn:Hw; [|done]. injection Hg as <-. apply list_elem_of_fmap_2.
  by apply (list_elem_of_fmap_2 snd ws3 (id, w)), d_get_elem.
Qed.

(** ** The node table leaves the widgets alone *)

Lemma preserves_lift {A} (I : Dash → Prop) (o : outcome dash_error A) : preserves I (lift o).
Proof. intros d Hd. by destruct o. Qed.

Lemma preserves_arith {A} (I : Dash → Prop) (o : outcome arith_error A) : preserves I (dash_arith o).
Proof. intros d Hd. by destruct o. Qed.

Lemma preserves_emit c : is_passive c = true → preserves consistent (emit c).
Proof. intros Hc d Hd. by apply consistent_passive. Qed.

Lemma preserves_dash_bind {A B} (I : Dash → Prop) (m : dash_prog A) (k : A → dash_prog B) :
  preserves I m → (∀ a, preserves I (k a)) → preserves I (m ≫= k).
Proof. apply (preserves_bind I). Qed.

Lemma preserves_rows order by_id : preserves (E := dash_error) consistent (modify (set_rows order by_id)).
Proof. intros d Hd. by apply (consistent_ext d). Qed.

Lemma preserves_node_row parsed rates id node : preserves consistent (node_row parsed rates id node).
Proof.
  unfold node_row. repeat (apply preserves_dash_bind; [first [apply preserves_lift | apply preserves_arith]|intros ?]).
  by intros d Hd.
Qed.

Lemma preserves_add_rows parsed rates hosts : preserves consistent (add_rows parsed rates hosts).
Proof.
  induction hosts as [|node hosts IH]; [by intros d Hd|]. cbn [add_rows].
  apply preserves_dash_bind; [apply preserves_lift|intros id].
  apply preserves_dash_bind; [apply preserves_node_row|intros cells].
  apply preserves_dash_bind; [by apply preserves_emit|intros _].
  apply preserves_dash_bind; [intros d Hd; by apply (consistent_ext d)|done].
Qed.

Lemma preserves_render_nodes t nodes metrics now : preserves consistent (render_nodes t nodes metrics now).
Proof.
  unfold render_nodes. apply preserves_dash_bind; [by intros d Hd|intros d].
  apply preserves_dash_bind; [by apply preserves_emit|intros _].
  apply preserves_dash_bind; [apply preserves_rows|intros _].
  apply preserves_dash_bind; [destruct metrics; try (by intros ? ?); apply preserves_arith|intros parsed].
  apply preserves_dash_bind; [apply preserves_arith|intros rates].
  apply preserves_dash_bind; [intros s Hs; by apply (consistent_ext s)|intros _].
  apply preserves_dash_bind; [apply preserves_lift|intros hosts].
  apply preserves_dash_bind; [apply preserves_lift|intros shown].
  apply preserves_dash_bind; [apply preserves_add_rows|intros _].
  apply preserves_dash_bind; [by intros ? ?|intros order].
  apply preserves_dash_bind; [destruct (_ ≫= _); [by apply preserves_emit|by intros ? ?]|intros _].
  by apply preserves_emit.
Qed.

(** One poll keeps the widgets consistent, whatever the scrape text was. *)
Lemma poll_end_consistent t nodes metrics now d :
  answer_ok nodes → consistent d → consistent (poll_end t nodes metrics now d).
Proof.
  intros Hn Hd. unfold poll_end. apply consistent_progress.
  destruct (client_errors nodes metrics); [|by apply consistent_passive].
  pose proof (consistent_passive (ShowBanner "") d eq_refl Hd) as Hd1.
  unfold render_poll, mbind, dash_prog_bind, mbind, prog_bind, emit, modify.
  pose proof (preserves_render_nodes t nodes metrics now _ Hd1) as Hd2.
  destruct (render_nodes t nodes metrics now _) as [[[]|e] d2]; cbn [snd] in Hd2; [|by apply consistent_passive].
  destruct nodes as [j| |]; [|by apply consistent_passive..].
  destruct Hn as (l & Hj & Hl). destruct (render_load_sparklines_ok j l d2 Hj Hl Hd2) as (d3 & E & Hd3 & _).
  by rewrite E.
Qed.

(** ** Events *)

Inductive dash_event :=
  | PollBegin
  | PollEnd (t : table_reading) (nodes : answer json) (metrics_text : answer string) (now : datetime)
  | CycleSort
  | ToggleDirection
  | ClearSort
  | MoveNode (t : table_reading) (step : Z) (replies : list (option string)).

(** The reply to each [PATCH], in order. *)
Definition next_reply (id : string) (p : Z) (replies : list (option string)) : option string * list (option string) :=
  match replies with [] => (None, []) | r :: replies => (r, replies) end.

Definition dash_step (e : dash_event) (d : Dash) : Dash :=
  match e with
  | PollBegin => default d (poll_begin d)
  | PollEnd t nodes metrics now => if d_poll_in_progress d then poll_end t nodes metrics now d else d
  | CycleSort => cycle_sort d
  | ToggleDirection => toggle_sort_direction d
  | ClearSort => clear_sort d
  | MoveNode t step replies => (move_selected_node next_reply t step d replies).1
  end.

Definition event_ok (e : dash_event) : Prop :=
  match e with PollEnd _ nodes _ _ => answer_ok nodes | _ => True end.

Definition dash_run (es : list dash_event) (d : Dash) : Dash := foldl (λ d e, dash_step e d) d es.

Lemma dash_step_consistent e d : event_ok e → consistent d → consistent (dash_step e d).
Proof.
  intros He Hd. destruct e as [|t nodes metrics now| | | |t step replies]; simpl.
  - unfold poll_begin. destruct (d_poll_in_progress d); [done|]. by apply (consistent_ext d).
  - destruct (d_poll_in_progress d); [|done]. by apply poll_end_consistent.
  - unfold cycle_sort. destruct (d_sort_column d); by apply (consistent_ext d).
  - by apply (consistent_ext d).
  - by apply (consistent_ext d).
  - unfold move_selected_node. destruct (move_target t step d) as [target|]; [|done].
    destruct (send_updates _ _ _) as [[kind|] w]; [by apply consistent_passive|].
    apply consistent_passive; [done|]. by apply (consistent_ext d).
Qed.

(** C35. Whatever polls and key presses follow each other, and whatever the polls meet (no
    answer, a client error, a scrape text that makes the rendering raise half way), the dashboard
    never mounts a widget under an id in use and never looks up, removes or arranges a widget
    that is not mounted, as long as the nodes it is answered have the gateway's shape.  Host
    ids that sanitize to the same text, hosts that leave and hosts that come back included. *)
Theorem widgets_stay_consistent es :
  Forall event_ok es → is_Some (ui_run (d_ui (dash_run es Dash_new))).
Proof.
  intros Hes. assert (H : consistent (dash_run es Dash_new)).
  { unfold dash_run. generalize consistent_new. generalize Dash_new as d.
    induction Hes as [|e es He _ IH]; intros d Hd; [done|]. by apply IH, dash_step_consistent. }
  destruct H as [ws Hs]. rewrite (sy_run _ _ Hs). by eexists.
Qed.

Definition sample_node (id : string) (running : Z) : json :=
  JObj [("host_id", JStr id); ("status", JStr "online"); ("in_flight", JInt running);
        ("max_concurrent_requests", JInt 4); ("backend_type", JStr "lmstudio"); ("last_seen", JStr "now")].

Definition sample_answer (ids : list string) : answer json :=
  Answered (JObj [("nodes", JList ((λ id, sample_node id 1) <$> ids))]).

Definition sample_reading : table_reading := {| cursor_row := 0; row_count := 0 |}.

Definition sample_events : list dash_event :=
  [PollBegin; PollEnd sample_reading (sample_answer ["node.1"; "node_1"]) (Answered "") 0;
   PollBegin; PollEnd sample_reading (sample_answer ["node_1"]) (Answered "") 2000000; CycleSort;
   PollBegin; PollEnd sample_reading (sample_answer ["node.1"; "node_1"]) (Answered "") 4000000].

Lemma widgets_stay_consistent_witness :
  ui_run (d_ui (dash_run sample_events Dash_new)) =
    Some [("group-node_1-2", "label-node_1-2", "load-node_1-2"); ("group-node_1", "label-node_1", "load-node_1")] ∧
  is_Some (ui_run (d_ui (dash_run sample_events Dash_new))).
Proof.
  split; [by vm_compute|]. apply (widgets_stay_consistent sample_events).
  assert (H : ∀ ids, answer_ok (sample_answer ids)).
  { intros ids. eexists. split; [reflexivity|]. apply Forall_fmap, Forall_forall. intros id _. done. }
  repeat constructor; apply H.
Defined.

(** ** A poll that renders *)

(** Counters small enough to subtract and divide exactly. *)
Definition small_totals (d : dict string Z) : Prop := ∀ h n, d_get d h = Some n → small_int n = true.

(** The range of [datetime], in microseconds. *)
Definition in_range (t : datetime) : Prop := (0 ≤ t < 2 ^ 60)%Z.

Lemma rates_loop_ok previous elapsed current :
  small_totals previous → (∀ h n, (h, n) ∈ current → small_int n = true) →
  match elapsed with S754_zero _ => False | _ => True end →
  ∃ rates, rates_loop previous elapsed current = Ret rates.
Proof.
  intros Hp Hc He. induction current as [|[h n] current IH]; [by eexists|]. cbn [rates_loop].
  assert (Hr : ∃ r, rate_of (d_get previous h) n elapsed = Ret r).
  { unfold rate_of. destruct (d_get previous h) as [prev|] eqn:E; [|by eexists].
    destruct (Z.ltb_spec n prev); [by eexists|].
    assert (Hm : mag 56 (f_of_Z (n - prev))).
    { apply (f_of_Z_mag _ 55); [lia|]. apply Hp, small_below in E.
      pose proof (small_below n ltac:(apply (Hc h); left)). lia. }
    unfold f_of_int. destruct (f_of_Z (n - prev)); try done; unfold float_truediv; destruct elapsed; try done; by eexists. }
  destruct Hr as [r ->]. destruct IH as [rates ->]; [|by eexists]. intros h' n' Hin. apply (Hc h'). by right.
Qed.

Lemma compute_token_rates_ok previous at_ current now :
  small_totals previous → (∀ h n, (h, n) ∈ current → small_int n = true) →
  (∀ t, at_ = Some t → in_range t) → in_range now →
  ∃ rates, compute_token_rates previous at_ current now = Ret rates.
Proof.
  intros Hp Hc Hat Hnow. unfold compute_token_rates. destruct at_ as [t|]; [|by eexists].
  specialize (Hat t eq_refl). unfold in_range in *.
  destruct (int_truediv_mag (now - t) (td_seconds 1) 61) as (x & -> & Hx); [lia|lia|done|].
  destruct (f_le x f_zero) eqn:E; [by eexists|]. apply rates_loop_ok; [done|done|].
  destruct x as [[]| | |]; done.
Qed.

Lemma column_value_ok column parsed rates id node :
  entry_fields node → ∃ v, column_value column parsed rates id node = Ret v.
Proof.
  intros Hn. unfold column_value. destruct (ef_status _ Hn) as [st ->].
  repeat (case_bool_decide; [by eexists|]). destruct (d_get _ id), (d_get _ id); by eexists.
Qed.

Lemma with_id_ok node : entry_fields node → ∃ p, with_id node = Ret p.
Proof. intros Hn. unfold with_id. destruct (ef_id _ Hn) as [id ->]. by eexists. Qed.

Lemma d_of_list_id {V} (ps : list (string * V)) : NoDup ps.*1 → d_of_list ps = ps.
Proof.
  unfold d_of_list. induction ps as [|[k v] ps IH] using rev_ind; [done|]. rewrite fmap_app, NoDup_app.
  intros (Hnd & Hk & _). rewrite foldl_app, IH by done. simpl. rewrite d_set_new; [done|].
  intros Hin. apply (Hk k Hin). left.
Qed.

(** The order in which the hosts [l], of the ids [ids], are shown: the gateway's, or by the values
    of the sorted column, the hosts without a value last. *)
Definition displayed (column : option string) (descending : bool) (parsed : ParsedMetrics)
    (rates : dict string (option float)) (l : list json) (ids order : list string) : Prop :=
  order ≡ₚ ids ∧
  match column with
  | None => order = ids
  | Some column =>
      ∃ keyed, keyed.*1 = ids ∧ Forall2 (λ k node, column_value column parsed rates k.1 node = Ret k.2) keyed l ∧
        order = sort_missing_last keyed descending
  end.

Lemma with_ids l ids pairs :
  comprehend node_host_id l = Ret ids → comprehend with_id l = Ret pairs → pairs.*1 = ids ∧ pairs.*2 = l.
Proof.
  revert ids pairs. induction l as [|node l IH]; intros ids pairs; simpl; [by intros [= <-] [= <-]|].
  unfold with_id at 1. destruct (node_host_id node) as [id|]; [|done].
  destruct (comprehend node_host_id l) as [ids'|]; [|done]. destruct (comprehend with_id l) as [pairs'|]; [|done].
  intros [= <-] [= <-]. destruct (IH _ _ eq_refl eq_refl) as [E1 E2]. split; simpl; f_equal; [exact E1|exact E2].
Qed.

(** Looking up the ids of [order] gives the nodes of these ids. *)
Lemma lookup_order (pairs : dict string json) order :
  (∀ id node, (id, node) ∈ pairs → node_host_id node = Ret id) → (∀ id, id ∈ order → id ∈ d_keys pairs) →
  comprehend node_host_id (omap (d_get pairs) order) = Ret order.
Proof.
  intros Hp. induction order as [|id order IH]; intros Hin; [done|].
  destruct (proj2 (d_get_is_Some pairs id)) as [node En]; [apply Hin; left|].
  cbn [omap list_omap]. rewrite En. cbn [comprehend]. rewrite (Hp id node) by by apply d_get_elem.
  rewrite IH; [done|]. intros id' Hid'. apply Hin. by right.
Qed.

(** A column sort fails on no entry and shows every entry once. *)
Lemma display_order_ok column descending l ids parsed rates :
  Forall entry_fields l → comprehend node_host_id l = Ret ids → NoDup ids →
  ∃ shown order, display_order column descending l parsed rates = Ret shown ∧ Forall (λ node, node ∈ l) shown ∧
    comprehend node_host_id shown = Ret order ∧ displayed column descending parsed rates l ids order.
Proof.
  intros Hh Hids Hnd. unfold display_order. destruct column as [column|].
  2:{ exists l, ids. split_and!; [done|by apply Forall_forall|done|by split]. }
  rewrite Forall_forall in Hh. destruct (comprehend_ok with_id l) as (pairs & Ep & H2).
  { intros node Hin. by apply with_id_ok, Hh. }
  rewrite Ep. destruct (with_ids _ _ _ Hids Ep) as [E1 E2]. rewrite d_of_list_id by by rewrite E1.
  assert (Hpairs : ∀ id node, (id, node) ∈ pairs → node ∈ l ∧ node_host_id node = Ret id).
  { intros id node Hin. split; [rewrite <-E2; by apply (list_elem_of_fmap_2 snd _ (id, node))|].
    apply list_elem_of_lookup in Hin as [i Hi]. destruct (Forall2_lookup_r _ _ _ _ _ H2 Hi) as (node' & _ & En).
    unfold with_id in En. destruct (node_host_id node') eqn:E; [|done]. by injection En as <- <-. }
  destruct (comprehend_ok (λ p, match column_value column parsed rates p.1 p.2 with
    | Ret v => Ret (p.1, v) | Raise e => Raise e end) pairs) as (keyed & -> & Hk).
  { intros [id node] Hin. cbn [fst snd]. destruct (column_value_ok column parsed rates id node) as [v ->];
      [by eapply Hh, Hpairs|]. by eexists. }
  assert (Hkeyed : keyed.*1 = pairs.*1 ∧
    Forall2 (λ k node, column_value column parsed rates k.1 node = Ret k.2) keyed pairs.*2).
  { clear -Hk. induction Hk as [|[id node] [id' v] pairs keyed H _ [IH1 IH2]]; [by split; [|constructor]|].
    cbn [fst snd fmap list_fmap] in *. destruct (column_value _ _ _ _ _) eqn:E; [|done]. injection H as -> ->.
    split; [by rewrite IH1|by constructor]. }
  destruct Hkeyed as [Ek Hv]. rewrite E1 in Ek. rewrite E2 in Hv. set (order := sort_missing_last keyed descending).
  assert (Hperm : order ≡ₚ ids).
  { unfold order, sort_missing_last. by rewrite sort_by_perm, present_missing, Ek. }
  exists (omap (d_get pairs) order), order. split_and!; [done| |apply lookup_order|split; [done|by exists keyed]].
  - apply Forall_forall. intros node (id & _ & Hg)%list_elem_of_omap. by eapply Hpairs, d_get_elem.
  - intros id node Hin. by apply Hpairs.
  - intros id Hin. unfold d_keys. by rewrite E1, <-Hperm.
Qed.

Lemma node_row_ok parsed rates id node :
  entry_fields node → ∃ cells, ∀ d, node_row parsed rates id node d = (Ret cells, d).
Proof.
  intros [_ [st Hst] (n & Hn & _) (m & Hm & _) [bt Hbt] [ls Hls] [h Hh] [r1 Hr1] [r2 Hr2]].
  unfold node_row, mbind, dash_prog_bind, mbind, prog_bind, lift, dash_arith.
  rewrite Hst, Hn, Hm, Hh, Hr1, Hr2, Hbt, Hls. by eexists.
Qed.

(** The table after some commands. *)
Definition table_step (rows : list (list text)) (c : ui_command) : list (list text) :=
  match c with ClearTable => [] | AddRow cells => rows ++ [cells] | _ => rows end.

Definition table_rows (cs : list ui_command) : list (list text) := foldl table_step [] cs.

Lemma table_rows_snoc cs c : table_rows (cs ++ [c]) = table_step (table_rows cs) c.
Proof. unfold table_rows. by rewrite foldl_app. Qed.

(** The cells of the row of a node. *)
Definition row_of_node (parsed : ParsedMetrics) (rates : dict string (option float)) (l : list json)
    (id : string) (cells : list text) : Prop :=
  head cells = Some (plain_text id) ∧
  ∃ node, node ∈ l ∧ node_host_id node = Ret id ∧ ∀ d, node_row parsed rates id node d = (Ret cells, d).

Lemma node_row_head parsed rates id node d cells d' :
  node_row parsed rates id node d = (Ret cells, d') → head cells = Some (plain_text id).
Proof.
  unfold node_row, mbind, dash_prog_bind, mbind, prog_bind, lift, dash_arith.
  repeat (match goal with |- context [match ?x with Ret _ => _ | Raise _ => _ end] => destruct x end; [|done]).
  by intros [= <- _].
Qed.

(** The rows follow the entries, one each. *)
Lemma add_rows_ok parsed rates l hosts d :
  Forall entry_fields hosts → Forall (λ node, node ∈ l) hosts →
  ∃ d' ids rows, add_rows parsed rates hosts d = (Ret tt, d') ∧ comprehend node_host_id hosts = Ret ids ∧
    d_node_row_order d' = d_node_row_order d ++ ids ∧
    table_rows (d_ui d') = table_rows (d_ui d) ++ rows ∧ Forall2 (row_of_node parsed rates l) ids rows ∧
    d_last_completions_total d' = d_last_completions_total d ∧
    d_last_completions_total_at d' = d_last_completions_total_at d.
Proof.
  intros Hh. revert d. induction Hh as [|node hosts Hn _ IH]; intros d Hl.
  { exists d, [], []. by rewrite !app_nil_r. }
  apply Forall_cons in Hl as [Hin Hl].
  destruct (ef_id _ Hn) as [id Hid]. destruct (node_row_ok parsed rates id node Hn) as [cells Hc].
  destruct (IH (set_rows (d_node_row_order d ++ [id]) (d_set (d_nodes_by_id d) id node) (add_ui (AddRow cells) d)) Hl)
    as (d' & ids & rows & E & Hids & Ho & Hr & Hrows & Ht & Ha).
  exists d', (id :: ids), (cells :: rows). split_and!.
  - rewrite <-E. cbn [add_rows]. unfold mbind at 1, dash_prog_bind, mbind at 1, prog_bind, lift. rewrite Hid.
    unfold mbind at 1, mbind at 1. by rewrite Hc.
  - cbn [comprehend]. by rewrite Hid, Hids.
  - rewrite Ho. cbn [d_node_row_order set_rows add_ui]. by rewrite <-app_assoc.
  - rewrite Hr. cbn [d_ui set_rows add_ui]. rewrite table_rows_snoc. simpl. by rewrite <-app_assoc.
  - constructor; [|done]. split; [by eapply (node_row_head _ _ _ _ d)|by exists node].
  - done.
  - done.
Qed.

Definition poll_ready (d : Dash) : Prop :=
  small_totals (d_last_completions_total d) ∧ (∀ t, d_last_completions_total_at d = Some t → in_range t).

(** What a poll leaves in the table: the hosts of the listing [l] in the order to be displayed,
    each with the cells of its entry. *)
Definition rendered_rows (d : Dash) (parsed : ParsedMetrics) (rates : dict string (option float)) (l : list json)
    (ids : list string) (d' : Dash) : Prop :=
  displayed (d_sort_column d) (d_sort_descending d) parsed rates l ids (d_node_row_order d') ∧
  Forall2 (row_of_node parsed rates l) (d_node_row_order d') (table_rows (d_ui d')).

Lemma render_nodes_ok t j text now d parsed l ids :
  nodes_list j = Ret l → Forall entry_fields l → comprehend node_host_id l = Ret ids → NoDup ids →
  parse_metrics_text text = Ret parsed →
  (∀ h n, (h, n) ∈ pm_host_completions_total parsed → small_int n = true) → poll_ready d → in_range now →
  ∃ d' rates, render_nodes t (Answered j) (Answered text) now d = (Ret tt, d') ∧
    compute_token_rates (d_last_completions_total d) (d_last_completions_total_at d)
      (pm_host_completions_total parsed) now = Ret rates ∧
    rendered_rows d parsed rates l ids d' ∧ poll_ready d'.
Proof.
  intros Hj Hl Hids Hnd Hparse Htot [Hlast Hat] Hnow.
  destruct (compute_token_rates_ok _ _ (pm_host_completions_total parsed) now Hlast Htot Hat Hnow) as [rates Hr].
  destruct (display_order_ok (d_sort_column d) (d_sort_descending d) l ids parsed rates Hl Hids Hnd)
    as (shown & order & Hs & Hsin & Hsids & Hdisp).
  assert (Hsok : Forall entry_fields shown).
  { rewrite Forall_forall in Hl. eapply Forall_impl; [exact Hsin|]. exact Hl. }
  set (d1 := set_last_total (pm_host_completions_total parsed) now (set_rows [] [] (add_ui ClearTable d))).
  destruct (add_rows_ok parsed rates l shown d1 Hsok Hsin) as (d2 & ids' & rows & E & Hids' & Ho & Hrows & H2 & Ht & Ha).
  assert (ids' = order) as -> by congruence.
  assert (Hready : poll_ready d2).
  { split; [rewrite Ht|rewrite Ha]; cbn.
    - intros h n Hg. by eapply Htot, d_get_elem.
    - by intros ? [= <-]. }
  assert (Hd1 : table_rows (d_ui d1) = []) by (cbn [d_ui d1 set_last_total set_rows add_ui]; by rewrite table_rows_snoc).
  rewrite Hd1 in Hrows. simpl in Ho, Hrows.
  unfold render_nodes, mbind, dash_prog_bind, mbind, prog_bind, get, emit, modify, dash_arith, lift, gets.
  cbv beta iota zeta. rewrite Hparse, Hr, Hj, Hs. fold d1. cbv beta iota zeta. rewrite E.
  match goal with |- context [selected_host ?t ?o] => destruct (selected_host t o) as [sel|] end; simpl;
    [destruct (index_of _ _)|]; eexists _, rates; (split; [reflexivity|]); (split; [done|]); (split; [|done]);
    (split; cbn [d_node_row_order d_ui add_ui]; rewrite ?table_rows_snoc, ?Ho, ?Hrows; done).
Qed.

(** The charts leave the rows alone. *)
Definition rows_are (rows : list (list text)) (d : Dash) : Prop := table_rows (d_ui d) = rows.

Definition is_chart (c : ui_command) : bool :=
  match c with ClearTable | AddRow _ => false | _ => true end.

Lemma preserves_rows_emit rows c : is_chart c = true → preserves (rows_are rows) (emit c).
Proof.
  intros Hc d Hd. unfold rows_are, emit, modify in *. cbn [snd d_ui add_ui]. rewrite table_rows_snoc, Hd. by destruct c.
Qed.

Ltac rows_kept :=
  repeat first [apply preserves_lift | by apply preserves_rows_emit | by intros ? ?
               | apply preserves_dash_bind; [|intros ?]].

Lemma preserves_rows_stale rows stale : preserves (rows_are rows) (remove_stale stale).
Proof. induction stale as [|id stale IH]; cbn [remove_stale]; rows_kept. done. Qed.

Lemma preserves_rows_groups rows hosts used : preserves (rows_are rows) (update_groups hosts used).
Proof.
  revert used. induction hosts as [|[id node] hosts IH]; intros used; cbn [update_groups]; [by intros ? ?|].
  apply preserves_dash_bind; [by intros ? ?|intros d].
  apply preserves_dash_bind; [|intros used'; rows_kept; apply IH].
  destruct (decide _); [by intros ? ?|]. destruct (new_widget_ids id used) as [[[load_id group_id] label_id] used']. rows_kept.
Qed.

Lemma preserves_rows_charts rows nodes : preserves (rows_are rows) (render_load_sparklines nodes).
Proof.
  unfold render_load_sparklines. rows_kept; [apply preserves_rows_stale|apply preserves_rows_groups].
Qed.

(** Answers of the gateway's shape render without an exception: the table has one row per
    node, in the order to be displayed, and the next poll can render too. *)
Lemma render_poll_ok t j text now d parsed l ids :
  consistent d → nodes_list j = Ret l → Forall (λ node, entry_ok node = true) l →
  comprehend node_host_id l = Ret ids → NoDup ids → parse_metrics_text text = Ret parsed →
  (∀ h n, (h, n) ∈ pm_host_completions_total parsed → small_int n = true) → poll_ready d → in_range now →
  ∃ d' rates, render_poll t (Answered j) (Answered text) now d = (Ret tt, d') ∧
    compute_token_rates (d_last_completions_total d) (d_last_completions_total_at d)
      (pm_host_completions_total parsed) now = Ret rates ∧
    rendered_rows d parsed rates l ids d' ∧ consistent d' ∧ poll_ready d'.
Proof.
  intros Hc Hj Hl Hids Hnd Hparse Htot Hready Hnow.
  assert (Hf : Forall entry_fields l) by (eapply Forall_impl; [exact Hl|apply entry_ok_fields]).
  pose proof (consistent_passive (ShowBanner "") d eq_refl Hc) as Hc1.
  destruct (render_nodes_ok t j text now (add_ui (ShowBanner "") d) parsed l ids)
    as (d2 & rates & E & Hrates & [Hdisp Hrows] & Hready2); [done..|].
  pose proof (preserves_render_nodes t (Answered j) (Answered text) now _ Hc1) as Hc2. rewrite E in Hc2. cbn [snd] in Hc2.
  destruct (render_load_sparklines_ok j l d2 Hj Hl Hc2) as (d3 & E3 & Hc3 & [= Er _ Et Ea]).
  pose proof (preserves_rows_charts _ (Answered j) d2 eq_refl) as Hkept. rewrite E3 in Hkept. unfold rows_are in Hkept.
  cbn [snd] in Hkept. exists d3, rates. split_and!; [|done| |done|].
  - unfold render_poll, mbind, dash_prog_bind, mbind, prog_bind, emit, modify. by rewrite E, E3.
  - split; rewrite Er, ?Hkept; [exact Hdisp|exact Hrows].
  - destruct Hready2 as [H1 H2]. split; [by rewrite Et|by rewrite Ea].
Qed.
