(* ===== verification/Alerts.v ===== *)
(** * Alerts ([observability/models.py], [observability/alerts.py])

    [AlertEvaluator] compares the fields of a snapshot with the rules' thresholds and
    reports the changes: an alert starts firing, or is resolved. *)

From S2P Require Import Prelude.
From S2P Require Import PyFloat.
From S2P Require Import PyStr.
From S2P Require Import PyDict.
From S2P Require Import PyJson.
From S2P Require Import Metrics.

#[local] Open Scope list_scope.

(** ** Data *)

Inductive AlertSeverity := CRITICAL | WARNING.
Inductive alert_kind := Threshold | SloBurn.


(** A Python number: thresholds and metrics may be [int] or [float]. *)
Inductive num := NInt (n : Z) | NFloat (x : float).

(** [n < x] for an integer and a float, compared exactly. *)
Definition int_float_compare (n : Z) (x : float) : option Datatypes.comparison :=
  match x with
  | S754_nan => None
  | S754_infinity true => Some Datatypes.Gt
  | S754_infinity false => Some Datatypes.Lt
  | S754_zero _ => Some (n ?= 0)%Z
  | S754_finite s m e =>
      let v := if s then Z.neg m else Z.pos m in
      Some (n * 2 ^ Z.max 0 (- e) ?= v * 2 ^ Z.max 0 e)%Z
  end.

Definition num_compare (a b : num) : option Datatypes.comparison :=
  match a, b with
  | NInt n, NInt m => Some (n ?= m)%Z
  | NInt n, NFloat x => int_float_compare n x
  | NFloat x, NInt n => CompOpp <$> int_float_compare n x
  | NFloat x, NFloat y => SFcompare x y
  end.

Definition num_gt (a b : num) : bool := bool_decide (num_compare a b = Some Datatypes.Gt).
Definition num_lt (a b : num) : bool := bool_decide (num_compare a b = Some Datatypes.Lt).

Record AlertRule := {
  ar_name : string;
  ar_kind : alert_kind;
  ar_metric : string;
  ar_comparison : string;
  ar_threshold_value : num;
  ar_window : timedelta;
  ar_severity : AlertSeverity;
  ar_runbook_url : string;
}.

Record AlertEvent := {
  ae_rule_name : string;
  ae_severity : AlertSeverity;
  ae_firing : bool;
  ae_value : num;
  ae_threshold_value : num;
  ae_runbook_url : string;
  ae_at : datetime;
}.

Inductive alert_error :=
  | AlertRuleFileError (msg : string)
  | AlertAttributeError (metric : string)
  | AlertTypeError
  | AlertKeyError (key : string)
  | AlertValueError (value : string).

(** ** Rules from JSON *)

Definition json_num (j : json) : option num :=
  match j with JInt n => Some (NInt n) | JFloat x => Some (NFloat x) | _ => None end.

Definition severity_of (s : string) : option AlertSeverity :=
  if decide (s = "critical") then Some CRITICAL
  else if decide (s = "warning") then Some WARNING else None.

(** [data[key]] decoded at type [A]: a missing key is a [KeyError]; a value of another type
    is refused here, where Python would keep it. *)
Definition rule_field {A} (dec : json → option A) (data : json) (key : string) : outcome alert_error A :=
  match j_get data key with
  | None => Raise (AlertKeyError key)
  | Some j => match dec j with Some a => Ret a | None => Raise AlertTypeError end
  end.

Definition outcome_bind {E A B} (o : outcome E A) (k : A → outcome E B) : outcome E B :=
  match o with Ret a => k a | Raise e => Raise e end.

Definition rule_from_dict (data : json) : outcome alert_error AlertRule :=
  outcome_bind (rule_field of_json data "kind") (λ kind : string,
  if negb (bool_decide (kind ∈ ["threshold"; "slo_burn"]))
  then Raise (AlertRuleFileError ("unknown alert rule kind: " +:+ str_repr kind))
  else
  outcome_bind (rule_field of_json data "name") (λ name,
  outcome_bind (rule_field of_json data "metric") (λ metric,
  outcome_bind (rule_field of_json data "comparison") (λ comparison,
  outcome_bind (rule_field json_num data "threshold_value") (λ threshold,
  outcome_bind (rule_field of_json data "window_seconds") (λ seconds,
  outcome_bind (rule_field of_json data "severity") (λ severity,
  match severity_of severity with
  | None => Raise (AlertValueError severity)
  | Some severity =>
      outcome_bind (rule_field of_json data "runbook_url") (λ runbook,
      Ret {| ar_name := name; ar_kind := if decide (kind = "threshold") then Threshold else SloBurn;
             ar_metric := metric; ar_comparison := comparison; ar_threshold_value := threshold;
             ar_window := td_seconds seconds; ar_severity := severity; ar_runbook_url := runbook |})
  end))))))).

(** ** Evaluation *)

(** [rule.comparison == "gt"], anything else counts as "lt". *)
Definition breaches (r : AlertRule) (value : num) : bool :=
  if decide (ar_comparison r = "gt") then num_gt value (ar_threshold_value r)
  else num_lt value (ar_threshold_value r).

Record AlertEvaluator := {
  al_rules : list AlertRule;
  al_firing : gmap string bool;
  al_active_events : dict string AlertEvent;
}.

Definition AlertEvaluator_new (rules : list AlertRule) : AlertEvaluator :=
  {| al_rules := rules; al_firing := ∅; al_active_events := [] |}.

Definition alert_prog (A : Type) : Type := prog AlertEvaluator alert_error A.

Definition set_firing (key : string) (b : bool) (e : AlertEvaluator) : AlertEvaluator :=
  {| al_rules := al_rules e; al_firing := <[key := b]> (al_firing e);
     al_active_events := al_active_events e |}.

Definition set_active (d : dict string AlertEvent) (e : AlertEvaluator) : AlertEvaluator :=
  {| al_rules := al_rules e; al_firing := al_firing e; al_active_events := d |}.

Definition mk_event (r : AlertRule) (key : string) (firing : bool) (value : num) (at_ : datetime) : AlertEvent :=
  {| ae_rule_name := key; ae_severity := ar_severity r; ae_firing := firing; ae_value := value;
     ae_threshold_value := ar_threshold_value r; ae_runbook_url := ar_runbook_url r; ae_at := at_ |}.

(** [del self._active_events[state_key]] raises when the key is absent. *)
Definition del_active (key : string) : alert_prog unit := λ e,
  match d_get (al_active_events e) key with
  | None => (Raise (AlertKeyError key), e)
  | Some _ => (Ret tt, set_active (d_pop (al_active_events e) key) e)
  end.

Definition evaluate_one (r : AlertRule) (key : string) (value : num) (at_ : datetime)
    : alert_prog (option AlertEvent) := λ e,
  let breached := breaches r value in
  let was_firing := default false (al_firing e !! key) in
  let e := set_firing key was_firing e in
  match breached, was_firing with
  | true, false =>
      let event := mk_event r key true value at_ in
      (Ret (Some event), set_active (d_set (al_active_events e) key event) (set_firing key true e))
  | false, true =>
      let event := mk_event r key false value at_ in
      (_ ← del_active key; mret (Some event)) (set_firing key false e)
  | _, _ => (Ret None, e)
  end.

(** What [getattr(snapshot, metric)] gives. *)
Inductive metric_value :=
  | MNum (x : num)
  | MDict (d : dict string num)
  | MIncomparable
  | MIncomparableDict (d : list string)
  | MMissing.

Definition num_dict {V} (f : V → num) (d : dict string V) : metric_value := MDict (d_map f d).

Definition snapshot_metric (s : SliSnapshot) (metric : string) : metric_value :=
  if decide (metric = "availability") then MNum (NFloat (availability s))
  else if decide (metric = "p95_latency_ms") then MNum (NFloat (p95_latency_ms s))
  else if decide (metric = "failover_success_rate") then
    match failover_success_rate s with Some x => MNum (NFloat x) | None => MIncomparable end
  else if decide (metric = "host_saturation") then num_dict NFloat (host_saturation s)
  else if decide (metric = "queue_depth") then MNum (NInt (queue_depth s))
  else if decide (metric = "token_usage_total") then num_dict NInt (token_usage_total s)
  else if decide (metric = "host_completion_stats") then
    MIncomparableDict (d_keys (host_completion_stats s))
  else MMissing.

Fixpoint evaluate_dict (r : AlertRule) (d : dict string num) (at_ : datetime) : alert_prog (list AlertEvent) :=
  match d with
  | [] => mret []
  | (k, v) :: d =>
      ev ← evaluate_one r (ar_name r +:+ ":" +:+ k) v at_;
      evs ← evaluate_dict r d at_;
      mret (option_list ev ++ evs)
  end.

Definition evaluate_rule (s : SliSnapshot) (at_ : datetime) (r : AlertRule) : alert_prog (list AlertEvent) :=
  match snapshot_metric s (ar_metric r) with
  | MNum x => ev ← evaluate_one r (ar_name r) x at_; mret (option_list ev)
  | MDict d => evaluate_dict r d at_
  | MIncomparable => raise AlertTypeError
  | MIncomparableDict [] => mret []
  | MIncomparableDict _ => raise AlertTypeError
  | MMissing => raise (AlertAttributeError (ar_metric r))
  end.

Fixpoint evaluate_rules (s : SliSnapshot) (at_ : datetime) (rs : list AlertRule) : alert_prog (list AlertEvent) :=
  match rs with
  | [] => mret []
  | r :: rs => evs ← evaluate_rule s at_ r; rest ← evaluate_rules s at_ rs; mret (evs ++ rest)
  end.

Definition evaluate (s : SliSnapshot) (at_ : datetime) : alert_prog (list AlertEvent) := λ e,
  evaluate_rules s at_ (al_rules e) e.

Definition current_state (e : AlertEvaluator) : list AlertEvent := d_values (al_active_events e).

(** ** The evaluator's invariant *)

(** The active events are those of the keys marked as firing. *)
Record alerts_wf (e : AlertEvaluator) : Prop := {
  aw_keys : NoDup (d_keys (al_active_events e));
  aw_firing k : al_firing e !! k = Some true ↔ is_Some (d_get (al_active_events e) k);
  aw_events k ev : d_get (al_active_events e) k = Some ev → ae_rule_name ev = k ∧ ae_firing ev = true;
}.

Definition active (e : AlertEvaluator) (key : string) : option AlertEvent := d_get (al_active_events e) key.

Lemma alerts_wf_new rules : alerts_wf (AlertEvaluator_new rules).
Proof.
  split; simpl; [constructor| |done]. intros k. rewrite lookup_empty. by split; [|intros [? ?]].
Qed.

(** What one evaluation of one key does. *)
Record evaluated (r : AlertRule) (key : string) (value : num) (at_ : datetime) (e : AlertEvaluator)
    (ev : option AlertEvent) (e' : AlertEvaluator) : Prop := {
  ev_wf : alerts_wf e';
  ev_rules : al_rules e' = al_rules e;
  (** the key is active afterwards exactly when the value breaches *)
  ev_active : is_Some (active e' key) ↔ breaches r value = true;
  (** an event is reported exactly when that changed, and it says what happened *)
  ev_event : ev = if bool_decide (is_Some (active e key) ↔ breaches r value = true) then None
                  else Some (mk_event r key (breaches r value) value at_);
  ev_other key' : key' ≠ key → active e' key' = active e key';
}.

Lemma set_firing_twice key b b' e : set_firing key b (set_firing key b' e) = set_firing key b e.
Proof. unfold set_firing. simpl. by rewrite insert_insert_eq. Qed.

Lemma evaluate_one_spec r key value at_ e :
  alerts_wf e → ∃ ev e', evaluate_one r key value at_ e = (Ret ev, e') ∧ evaluated r key value at_ e ev e'.
Proof.
  intros Hwf. unfold evaluate_one. pose proof (aw_firing _ Hwf key) as Hf.
  assert (Hact : is_Some (active e key) ↔ default false (al_firing e !! key) = true).
  { unfold active. rewrite <-Hf. destruct (al_firing e !! key) as [[]|]; simpl; naive_solver. }
  destruct (breaches r value) eqn:Eb, (default false (al_firing e !! key)) eqn:Ew.
  - eexists None, _. split; [done|]. split; simpl.
    + destruct Hwf as [Hk Hfi He]. split; [done| |done]. intros k. simpl.
      rewrite lookup_insert. case_decide; [subst|by apply Hfi]. naive_solver.
    + done.
    + unfold active in *. simpl. naive_solver.
    + rewrite bool_decide_true; [done|]. rewrite Eb. naive_solver.
    + done.
  - eexists _, _. split; [done|]. rewrite set_firing_twice. split; simpl.
    + destruct Hwf as [Hk Hfi He]. split; simpl.
      * by apply d_keys_set_NoDup.
      * intros k. rewrite lookup_insert, d_get_set. case_decide; [by split; [eexists|]|apply Hfi].
      * intros k ev. rewrite d_get_set. case_decide; [|apply He]. intros [= <-]. by subst.
    + done.
    + unfold active. simpl. rewrite d_get_set_eq. by split; [|eexists].
    + rewrite bool_decide_false; [by rewrite Eb|]. rewrite Eb. intros Hc.
      assert (is_Some (active e key)) as Ha%Hact by (by apply Hc). done.
    + intros key' Hne. unfold active. simpl. by rewrite d_get_set_ne.
  - unfold mbind, prog_bind, del_active, mret, prog_ret. rewrite set_firing_twice. simpl.
    assert (Ha : is_Some (d_get (al_active_events e) key)) by (by apply Hact).
    destruct Ha as [old Hold]. rewrite Hold. eexists _, _. split; [done|].
    split; simpl.
    + destruct Hwf as [Hk Hfi He]. split; simpl.
      * by apply d_keys_pop_NoDup.
      * intros k. rewrite lookup_insert, d_get_pop by done.
        case_decide; [split; [done|by intros [? ?]]|apply Hfi].
      * intros k ev. rewrite d_get_pop by done. case_decide; [done|apply He].
    + done.
    + unfold active. simpl. rewrite d_get_pop_eq by apply Hwf. rewrite Eb. by split; [intros [? ?]|].
    + rewrite bool_decide_false; [by rewrite Eb|]. rewrite Eb. intros Hc.
      assert (false = true) by (apply Hc; unfold active; by rewrite Hold). done.
    + intros key' Hne. unfold active. simpl. rewrite d_get_pop_ne; [done|apply Hwf|congruence].
  - eexists None, _. split; [done|]. split; simpl.
    + destruct Hwf as [Hk Hfi He]. split; [done| |done]. intros k. simpl.
      rewrite lookup_insert. case_decide; [subst|by apply Hfi].
      unfold active in Hact. split; [done|]. intros Ha%Hact. done.
    + done.
    + unfold active in *. simpl. rewrite Eb. naive_solver.
    + rewrite bool_decide_true; [done|]. rewrite Eb. naive_solver.
    + done.
Qed.

(** *** A metric per host *)

Definition rule_key (r : AlertRule) (host : string) : string := ar_name r +:+ ":" +:+ host.

Lemma evaluate_dict_spec r d at_ e :
  alerts_wf e →
  ∃ evs e', evaluate_dict r d at_ e = (Ret evs, e') ∧ alerts_wf e' ∧ al_rules e' = al_rules e ∧
    (∀ key, (∀ host, host ∈ d_keys d → rule_key r host ≠ key) → active e' key = active e key).
Proof.
  revert e. induction d as [|[k v] d IH]; intros e Hwf; cbn [evaluate_dict].
  { by exists [], e. }
  unfold mbind, prog_bind. destruct (evaluate_one_spec r (rule_key r k) v at_ e Hwf) as (ev & e1 & E & Hev).
  unfold rule_key in E. rewrite E. destruct (IH e1 (ev_wf _ _ _ _ _ _ _ Hev)) as (evs & e2 & -> & Hwf2 & Hr & Ho).
  eexists _, e2. split; [done|]. split; [done|]. split; [by rewrite Hr, (ev_rules _ _ _ _ _ _ _ Hev)|].
  intros key Hk. rewrite Ho by (intros host Hh; apply Hk; by right).
  apply (ev_other _ _ _ _ _ _ _ Hev). intros ->. by apply (Hk k); [left|].
Qed.

Lemma evaluate_rule_wf s at_ r e :
  alerts_wf e →
  (∃ evs e', evaluate_rule s at_ r e = (Ret evs, e') ∧ alerts_wf e' ∧ al_rules e' = al_rules e) ∨
  (∃ err, evaluate_rule s at_ r e = (Raise err, e) ∧ (err = AlertTypeError ∨ err = AlertAttributeError (ar_metric r))).
Proof.
  intros Hwf. unfold evaluate_rule. destruct (snapshot_metric s (ar_metric r)) as [x|d| |[|]|].
  - left. unfold mbind, prog_bind. destruct (evaluate_one_spec r (ar_name r) x at_ e Hwf) as (ev & e' & -> & Hev).
    eexists _, _. split; [done|]. split; [apply Hev|by rewrite (ev_rules _ _ _ _ _ _ _ Hev)].
  - left. destruct (evaluate_dict_spec r d at_ e Hwf) as (evs & e' & -> & ? & ? & _). by eexists _, _.
  - right. eexists. by split; [|left].
  - left. by eexists _, _.
  - right. eexists. by split; [|left].
  - right. eexists. by split; [|right].
Qed.

Lemma evaluate_rules_wf s at_ rs e :
  alerts_wf e → alerts_wf (evaluate_rules s at_ rs e).2 ∧ al_rules (evaluate_rules s at_ rs e).2 = al_rules e ∧
  ∀ k, (evaluate_rules s at_ rs e).1 ≠ Raise (AlertKeyError k).
Proof.
  revert e. induction rs as [|r rs IH]; intros e Hwf; [done|]. cbn [evaluate_rules].
  unfold mbind, prog_bind.
  destruct (evaluate_rule_wf s at_ r e Hwf) as [(evs & e1 & -> & Hwf1 & Hr)|(err & -> & Herr)].
  - destruct (IH e1 Hwf1) as (Hw & Hr2 & Hk).
    destruct (evaluate_rules s at_ rs e1) as [[evs'|err] e2]; simpl in *; split_and!; try done; by rewrite Hr2.
  - simpl. split_and!; [done|done|]. intros k [= ->]. by destruct Herr.
Qed.

Inductive alerts_reachable (rules : list AlertRule) : AlertEvaluator → Prop :=
  | alerts_reachable_new : alerts_reachable rules (AlertEvaluator_new rules)
  | alerts_reachable_step e s at_ : alerts_reachable rules e → alerts_reachable rules (evaluate s at_ e).2.

Lemma alerts_reachable_wf rules e : alerts_reachable rules e → alerts_wf e ∧ al_rules e = rules.
Proof.
  induction 1 as [|e s at_ _ [IH IHr]]; [by split; [apply alerts_wf_new|]|].
  destruct (evaluate_rules_wf s at_ (al_rules e) e IH) as (? & ? & _). unfold evaluate; split; [done|congruence].
Qed.

(** ** Properties *)

(** C34. Whatever snapshots were evaluated, evaluating one more value for a key makes the
    key active exactly when the value breaches the threshold, reports an event exactly when
    that is a change (firing or resolved), and touches no other key; the deletion of a
    resolved alert never misses. *)
Theorem alerts_track_breaches rules e r key value at_ :
  alerts_reachable rules e →
  (∃ ev e', evaluate_one r key value at_ e = (Ret ev, e') ∧
     (is_Some (active e' key) ↔ breaches r value = true) ∧
     ev = (if bool_decide (is_Some (active e key) ↔ breaches r value = true) then None
           else Some (mk_event r key (breaches r value) value at_)) ∧
     ∀ key', key' ≠ key → active e' key' = active e key') ∧
  (∀ k ev, active e k = Some ev → ae_rule_name ev = k ∧ ae_firing ev = true) ∧
  ∀ s at' k, (evaluate s at' e).1 ≠ Raise (AlertKeyError k).
Proof.
  intros [Hwf _]%alerts_reachable_wf. split_and!.
  - destruct (evaluate_one_spec r key value at_ e Hwf) as (ev & e' & E & Hev).
    exists ev, e'. split_and!; [done|apply Hev..].
  - apply Hwf.
  - intros s at' k. by apply evaluate_rules_wf.
Qed.

Definition sample_rule (metric : string) : AlertRule :=
  {| ar_name := "r"; ar_kind := Threshold; ar_metric := metric; ar_comparison := "gt";
     ar_threshold_value := NFloat (f_lit 9 10); ar_window := td_seconds 300; ar_severity := CRITICAL;
     ar_runbook_url := "" |}.

Definition sample_snapshot (saturated : list string) : SliSnapshot :=
  {| availability := f_of_Z 1; p95_latency_ms := f_zero; failover_success_rate := None;
     host_saturation := (λ h, (h, f_of_Z 1)) <$> saturated; queue_depth := 0;
     token_usage_total := []; host_completion_stats := [] |}.

Definition sample_evaluator : AlertEvaluator :=
  (evaluate (sample_snapshot ["h1"]) 0 (AlertEvaluator_new [sample_rule "host_saturation"])).2.

Lemma alerts_track_breaches_witness :
  ∃ ev e', evaluate_one (sample_rule "host_saturation") "r:h1" (NInt 0) 5 sample_evaluator = (Ret (Some ev), e') ∧
    ae_firing ev = false.
Proof.
  destruct (alerts_track_breaches _ sample_evaluator (sample_rule "host_saturation") "r:h1" (NInt 0) 5
    (alerts_reachable_step _ _ _ _ (alerts_reachable_new _))) as [(ev & e' & E & _ & Hev & _) _].
  exists (mk_event (sample_rule "host_saturation") "r:h1" false (NInt 0) 5), e'.
  split; [|done]. rewrite E, Hev. rewrite bool_decide_false; [done|].
  intros [H _]. assert (Hs : is_Some (active sample_evaluator "r:h1")) by (vm_compute; by eexists).
  apply H in Hs. vm_compute in Hs. done.
Defined.

(** A rule on a metric that has no data raises a [TypeError] and the rules after it
    are not evaluated: the failover success rate is [None] until a failover was involved,
    and the evaluation compares it with the threshold all the same. *)
Theorem no_data_raises s at_ r rules before e :
  alerts_reachable (before ++ r :: rules) e →
  ar_metric r = "failover_success_rate" → failover_success_rate s = None →
  ∃ err, (evaluate s at_ e).1 = Raise err.
Proof.
  intros [Hwf Hr]%alerts_reachable_wf Hm Hn. unfold evaluate. rewrite Hr. clear Hr.
  revert e Hwf. induction before as [|r0 before IH]; intros e Hwf; cbn [app evaluate_rules];
    unfold mbind, prog_bind.
  - unfold evaluate_rule. rewrite Hm. unfold snapshot_metric. simpl. rewrite Hn. by eexists.
  - destruct (evaluate_rule_wf s at_ r0 e Hwf) as [(evs & e1 & -> & Hwf1 & _)|(err & -> & _)]; [|by eexists].
    destruct (IH e1 Hwf1) as [err Herr]. destruct (evaluate_rules s at_ _ e1) as [[|] ?]; simpl in *;
      [done|by eexists].
Qed.

Lemma no_data_raises_witness :
  ∃ err, (evaluate (sample_snapshot []) 0 (AlertEvaluator_new [sample_rule "failover_success_rate"])).1 = Raise err.
Proof.
  apply (no_data_raises _ _ (sample_rule "failover_success_rate") [] []); [constructor|done|done].
Defined.

(** An alert on a host that has left the snapshot stays active: the evaluation of a
    per-host rule only looks at the hosts in the snapshot. *)
Theorem departed_host_keeps_firing s at_ r e host :
  alerts_reachable [r] e → ar_metric r = "host_saturation" →
  host ∉ d_keys (host_saturation s) →
  ∃ evs e', evaluate s at_ e = (Ret evs, e') ∧
    active e' (rule_key r host) = active e (rule_key r host).
Proof.
  intros [Hwf Hr]%alerts_reachable_wf Hm Hh. unfold evaluate. rewrite Hr. cbn [evaluate_rules].
  unfold mbind, prog_bind, evaluate_rule. rewrite Hm. unfold snapshot_metric. simpl.
  destruct (evaluate_dict_spec r (d_map NFloat (host_saturation s)) at_ e Hwf) as (evs & e' & -> & _ & _ & Ho).
  eexists _, e'. split; [done|]. apply Ho. rewrite d_keys_map. intros h Hin E.
  apply Hh. unfold rule_key in E. apply (inj (String.append (ar_name r))), (inj (String.append ":")) in E. by subst.
Qed.

Lemma departed_host_keeps_firing_witness :
  ∃ evs e', evaluate (sample_snapshot []) 9 sample_evaluator = (Ret evs, e') ∧ is_Some (active e' "r:h1").
Proof.
  destruct (departed_host_keeps_firing (sample_snapshot []) 9 (sample_rule "host_saturation")
    sample_evaluator "h1") as (evs & e' & E & Ha).
  - apply alerts_reachable_step, alerts_reachable_new.
  - done.
  - apply not_elem_of_nil.
  - exists evs, e'. split; [done|]. change "r:h1" with (rule_key (sample_rule "host_saturation") "h1").
    rewrite Ha. vm_compute. by eexists.
Defined.
