(* ===== verification/Nodes.v ===== *)
(** * Nodes as the gateway sees them ([api/app.py], the helpers of [create_app])

    The [World] is the state the request handlers share: the registry, the health monitor,
    the lease book, the backend cache, the metrics and the clocks.  This file models the
    helpers that look at it (which hosts serve a model, which are eligible, which can be
    reserved) and the node and lease endpoints; [Gateway] models the chat requests.

    [backend_factories] is an argument of [create_app]: the model knows which backend types
    have a factory and what a factory raises, if anything, and identifies a backend with the
    capabilities it was built from. *)

From S2P Require Import Prelude.
From S2P Require Import PyFloat.
From S2P Require Import PyStr.
From S2P Require Import PyDict.
From S2P Require Import PyJson.
From S2P Require Import ApiModels.
From S2P Require Import Registry.
From S2P Require Import Health.
From S2P Require Import Leases.
From S2P Require Import Scheduling.
From S2P Require Import Routing.
From S2P Require Import LoadProbe.
From S2P Require Import Throughput.
From S2P Require Import Metrics.

#[local] Open Scope list_scope.

(** ** The shared state *)

Record World := {
  w_registry : HostRegistry;
  w_health : HealthMonitor;
  w_book : NodeLeaseBook;
  w_backends : gmap string HostCapabilities;
  w_external_loads : gmap string ExternalLoadStatus;
  w_metrics : MetricsRegistry;
  w_completions : CompletionLog;
  w_now : datetime;
  w_lease_now : datetime;
}.

Definition set_registry (r : HostRegistry) (w : World) : World :=
  {| w_registry := r; w_health := w_health w; w_book := w_book w; w_backends := w_backends w;
     w_external_loads := w_external_loads w; w_metrics := w_metrics w; w_completions := w_completions w;
     w_now := w_now w; w_lease_now := w_lease_now w |}.
Definition set_health (h : HealthMonitor) (w : World) : World :=
  {| w_registry := w_registry w; w_health := h; w_book := w_book w; w_backends := w_backends w;
     w_external_loads := w_external_loads w; w_metrics := w_metrics w; w_completions := w_completions w;
     w_now := w_now w; w_lease_now := w_lease_now w |}.
Definition set_book (b : NodeLeaseBook) (w : World) : World :=
  {| w_registry := w_registry w; w_health := w_health w; w_book := b; w_backends := w_backends w;
     w_external_loads := w_external_loads w; w_metrics := w_metrics w; w_completions := w_completions w;
     w_now := w_now w; w_lease_now := w_lease_now w |}.
Definition set_backends (b : gmap string HostCapabilities) (w : World) : World :=
  {| w_registry := w_registry w; w_health := w_health w; w_book := w_book w; w_backends := b;
     w_external_loads := w_external_loads w; w_metrics := w_metrics w; w_completions := w_completions w;
     w_now := w_now w; w_lease_now := w_lease_now w |}.
Definition set_external_loads (l : gmap string ExternalLoadStatus) (w : World) : World :=
  {| w_registry := w_registry w; w_health := w_health w; w_book := w_book w; w_backends := w_backends w;
     w_external_loads := l; w_metrics := w_metrics w; w_completions := w_completions w;
     w_now := w_now w; w_lease_now := w_lease_now w |}.
Definition set_metrics (m : MetricsRegistry) (w : World) : World :=
  {| w_registry := w_registry w; w_health := w_health w; w_book := w_book w; w_backends := w_backends w;
     w_external_loads := w_external_loads w; w_metrics := m; w_completions := w_completions w;
     w_now := w_now w; w_lease_now := w_lease_now w |}.
Definition set_completions (c : CompletionLog) (w : World) : World :=
  {| w_registry := w_registry w; w_health := w_health w; w_book := w_book w; w_backends := w_backends w;
     w_external_loads := w_external_loads w; w_metrics := w_metrics w; w_completions := c;
     w_now := w_now w; w_lease_now := w_lease_now w |}.
Definition set_clock (now lease_now : datetime) (w : World) : World :=
  {| w_registry := w_registry w; w_health := w_health w; w_book := w_book w; w_backends := w_backends w;
     w_external_loads := w_external_loads w; w_metrics := w_metrics w; w_completions := w_completions w;
     w_now := now; w_lease_now := lease_now |}.

(** ** Errors and the responses the exception handlers make of them *)

Inductive app_error :=
  | RequestValidationError (msg : string)
  | BackendTimeoutError (msg : string)
  | BackendError (msg : string)
  | EHostNotRegistered (host_id : string)
  | ModelNotAvailableError (msg : string)
  | ModelCapacityExceededError (msg : string)
  | ENoAvailableBackend (msg : string)
  | ELease (e : lease_error)
  | EKeyError (key : string)
  | EArithmetic (e : arith_error)
  | EUnexpected (kind : string)
  | EQueue
  | ECancelled.

(** [_error_response(status, message, type, code)]; [None] where no handler matches and the
    server answers 500. *)
Definition error_response (e : app_error) : option (Z * string * string) :=
  match e with
  | RequestValidationError _ => Some (400, "invalid_request_error", "invalid_request")%Z
  | BackendTimeoutError _ => Some (504, "backend_error", "backend_timeout")%Z
  | BackendError _ => Some (503, "backend_error", "backend_unavailable")%Z
  | ENoAvailableBackend _ => Some (503, "backend_error", "no_available_backend")%Z
  | EHostNotRegistered _ => Some (404, "invalid_request_error", "host_not_registered")%Z
  | ModelNotAvailableError _ => Some (400, "invalid_request_error", "model_not_available")%Z
  | ModelCapacityExceededError _ => Some (503, "backend_error", "model_capacity_exceeded")%Z
  | ELease (LeaseRefusedError _) => Some (409, "invalid_request_error", "lease_refused")%Z
  | ELease (LeaseInvalidError _) => Some (400, "invalid_request_error", "lease_invalid")%Z
  | ELease (LeaseNotHeldError _) => Some (403, "invalid_request_error", "lease_not_held")%Z
  | ELease (LeaseEndedError _) => Some (409, "invalid_request_error", "lease_ended")%Z
  | ELease (LeaseNotFoundError _) => Some (404, "invalid_request_error", "lease_not_found")%Z
  | ELease (LeaseHostNotRegisteredError _) => Some (404, "invalid_request_error", "host_not_registered")%Z
  | EKeyError _ | EArithmetic _ | EUnexpected _ | EQueue | ECancelled => None
  end.

(** The status of the answer to a call. *)
Definition call_status {A} (r : outcome app_error A) : Z :=
  match r with
  | Ret _ => 200%Z
  | Raise e => match error_response e with Some (status, _, _) => status | None => 500%Z end
  end.

Definition app_prog (A : Type) : Type := prog World app_error A.
#[export] Instance app_prog_ret : MRet app_prog := λ A, @mret (prog World app_error) _ A.
#[export] Instance app_prog_bind : MBind app_prog := λ A B, @mbind (prog World app_error) _ A B.

(** Running a component's operation inside the world. *)
Definition in_book {A} (m : book_prog A) : app_prog A := λ w,
  let '(r, b) := m (w_book w) in
  (match r with Ret a => Ret a | Raise e => Raise (ELease e) end, set_book b w).

Definition reg_error (e : registry_error) : app_error :=
  match e with HostNotRegisteredError id => EHostNotRegistered id | HostKeyError id => EKeyError id end.

Definition in_registry {A} (m : prog HostRegistry registry_error A) : app_prog A := λ w,
  let '(r, reg) := m (w_registry w) in
  (match r with Ret a => Ret a | Raise e => Raise (reg_error e) end, set_registry reg w).

Definition of_arith {A} (o : outcome arith_error A) : app_prog A := λ w,
  match o with Ret a => (Ret a, w) | Raise e => (Raise (EArithmetic e), w) end.

(** [backend_factories]: the types in the table, and what the factory of a type raises over
    some capabilities, if anything (a variable of the environment that is no number, a URL
    the HTTP client refuses). *)
Record Factories := {
  fa_types : gset string;
  fa_error : HostCapabilities → option string;
}.

(** A table with one type, whose factory never raises. *)
#[export] Instance factories_singleton : Singleton string Factories :=
  λ t, {| fa_types := {[ t ]}; fa_error := λ _, None |}.

(** [backend_factories[capabilities.backend_type](capabilities)] *)
Definition build_error (factories : Factories) (c : HostCapabilities) : option app_error :=
  if decide (backend_type c ∈ fa_types factories) then EUnexpected <$> fa_error factories c
  else Some (EKeyError (backend_type c)).

(** A backend can be built from these capabilities. *)
Definition builds (factories : Factories) (c : HostCapabilities) : Prop := build_error factories c = None.

#[export] Instance builds_dec factories c : Decision (builds factories c).
Proof. unfold builds. destruct (build_error factories c); [by right|by left]. Defined.

(** The backends of the cache were built. *)
Definition cache_ok (factories : Factories) (w : World) : Prop :=
  map_Forall (λ _ c, builds factories c) (w_backends w).

Section nodes.
(** The table of factories, and the lease settings of the book. *)
Context (factories : Factories) (cfg : LeaseSettings).

(** ** Backends *)

(** [_backend_for]: the backend is identified by the capabilities it was built from. *)
Definition backend_for (id : string) (c : HostCapabilities) : app_prog unit := λ w,
  if decide (w_backends w !! id = Some c) then (Ret tt, w)
  else match build_error factories c with
       | None => (Ret tt, set_backends (<[id := c]> (w_backends w)) w)
       | Some e => (Raise e, w)
       end.

Definition live_ids (w : World) : gset string := list_to_set (host_id <$> host_infos (w_registry w)).

(** [_prune_backend_cache] *)
Definition prune_backend_cache (w : World) : World :=
  set_external_loads (filter (λ p, p.1 ∈ live_ids w) (w_external_loads w))
    (set_backends (filter (λ p, p.1 ∈ live_ids w) (w_backends w)) w).

(** ** Which hosts serve a model *)

(** [_fits_in_budget] *)
Definition fits_in_budget (h : HostInfo) (model : string) (loaded : list string) : bool :=
  match memory_budget_gb (capabilities h) with
  | None => false
  | Some budget =>
      let sizes := default ∅ (model_sizes_gb (capabilities h)) in
      match sizes !! model with
      | None => false
      | Some requested =>
          match foldl (λ acc m, usage ← acc; size ← sizes !! m; Some (f_add usage size))
                  (Some f_zero) loaded with
          | None => false
          | Some usage => f_le (f_add usage requested) budget
          end
      end
  end.

(** What a backend answers when asked for its models: it has no [list_models], gives [None]
    (no answer) or a list, or raises over an answer it cannot read. *)
Inductive models_answer := NoListModels | Models (loaded : option (list string)) | ModelsRaised (kind : string).

(** [loaded = await list_models()] *)
Definition await_models (a : models_answer) : app_prog models_answer :=
  match a with ModelsRaised kind => raise (EUnexpected kind) | a => mret a end.

Definition hosts_at (w : World) (locs : list nat) : list HostInfo :=
  omap (λ l, hr_objs (w_registry w) !! l) locs.

(** The host referenced by [l]; a reference is never dangling. *)
Definition deref (w : World) (l : nat) : option HostInfo := hr_objs (w_registry w) !! l.

(** Where the loop of [_model_capable_hosts] stands, with [capable] and [any_budget_blocked]
    so far: it awaits the answer of the host [l], with [rest] still to be looked at, or it is
    over. *)
Inductive scan :=
  | ScanAwaits (capable : list nat) (blocked : bool) (l : nat) (rest : list nat)
  | ScanDone (capable : list nat) (blocked : bool).

(** The loop up to its next [await].  A backend without [list_models] is capable at once in
    the code; here it is asked as well and answers [NoListModels], which only adds a point
    where other operations may come in between. *)
Fixpoint scan_hosts (model : string) (capable : list nat) (blocked : bool) (locs : list nat)
    : app_prog scan :=
  match locs with
  | [] => mret (ScanDone capable blocked)
  | l :: rest => λ w,
      match deref w l with
      | None => scan_hosts model capable blocked rest w
      | Some h =>
          match allowed_models (capabilities h) with
          | Some allowed =>
              scan_hosts model (if bool_decide (model ∈ allowed) then capable ++ [l] else capable)
                blocked rest w
          | None =>
              (backend_for (host_id h) (capabilities h) ;; mret (ScanAwaits capable blocked l rest)) w
          end
      end
  end.

(** What the loop makes of an answer; an exception does not get here. *)
Definition take_answer (w : World) (model : string) (l : nat) (a : models_answer)
    (capable : list nat) (blocked : bool) : list nat * bool :=
  match deref w l with
  | None => (capable, blocked)
  | Some h =>
      match a with
      | NoListModels | Models None => (capable ++ [l], blocked)
      | ModelsRaised _ => (capable, blocked)
      | Models (Some loaded) =>
          if bool_decide (model ∈ loaded) then (capable ++ [l], blocked)
          else if fits_in_budget h model loaded then (capable ++ [l], blocked)
          else if bool_decide (is_Some (memory_budget_gb (capabilities h))) then (capable, true)
          else (capable, blocked)
      end
  end.

(** The whole loop when nothing comes in between; [fuel] bounds the answers it awaits. *)
Fixpoint resume_scan (fuel : nat) (answers : string → models_answer) (model : string) (s : scan)
    : app_prog (list nat * bool) :=
  match s, fuel with
  | ScanDone capable blocked, _ => mret (capable, blocked)
  | ScanAwaits capable blocked _ _, O => mret (capable, blocked)
  | ScanAwaits capable blocked l rest, S fuel => λ w,
      let a := match deref w l with Some h => answers (host_id h) | None => NoListModels end in
      (a ← await_models a;
       ((λ w, let '(capable, blocked) := take_answer w model l a capable blocked in
              (s ← scan_hosts model capable blocked rest; resume_scan fuel answers model s) w)
         : app_prog (list nat * bool))) w
  end.

Definition model_capable_hosts (answers : string → models_answer) (model : string) (locs : list nat)
    : app_prog (list nat * bool) :=
  s ← scan_hosts model [] false locs; resume_scan (length locs) answers model s.

(** [_node_status] *)
Definition node_status (w : World) (id : string) (at_ : datetime) : string :=
  if has_probe_history (w_health w) id
  then if is_healthy (w_health w) id at_ then "online" else "offline"
  else "unknown".

(** [_eligible_candidates]: healthy hosts with room, ranked by their load. *)
Fixpoint eligible_candidates (locs : list nat) : app_prog (list RoutingCandidate) :=
  match locs with
  | [] => mret []
  | l :: locs => λ w,
      match deref w l with
      | None => eligible_candidates locs w
      | Some h =>
          if negb (is_healthy (w_health w) (host_id h) (w_now w)) then eligible_candidates locs w
          else if (max_concurrent_requests (capacity h) <=? in_flight h)%Z then eligible_candidates locs w
          else
            (load_ratio ← of_arith (int_truediv (in_flight h) (max_concurrent_requests (capacity h)));
             backend_for (host_id h) (capabilities h) ;;
             rest ← eligible_candidates locs;
             mret ({| rc_backend_id := host_id h; rc_latency_ms := load_ratio;
                      rc_context_window := context_window (capabilities h) |} :: rest)) w
      end
  end.

(** [_reservable_hosts], by the clock of the leases; [capable] is [None] when no model was asked for. *)
Definition reservable_hosts (capable : option (list nat)) (w : World) : list ReservableHost :=
  (λ h, {| rh_host_id := host_id h; rh_status := node_status w (host_id h) (w_lease_now w);
           rh_healthy := is_healthy (w_health w) (host_id h) (w_lease_now w);
           rh_serves_requested_model :=
             match capable with
             | None => true
             | Some locs => bool_decide (host_id h ∈ host_id <$> hosts_at w locs)
             end |}) <$> host_infos (w_registry w).

(** ** Node endpoints *)

(** [NodeUpdateRequest] as [exclude_unset] leaves it: [None] is a field that was not set.
    An explicit [null] for a field whose value is not optional is not modelled. *)
Record NodeUpdate := {
  up_backend_type : option string;
  up_context_window : option Z;
  up_base_url : option string;
  up_max_concurrent_requests : option Z;
  up_allowed_models : option (option (list string));
  up_memory_budget_gb : option (option float);
  up_model_sizes_gb : option (option (gmap string float));
  up_model_aliases : option (option (gmap string (list string)));
  up_position : option (option Z);
}.

(** [replace(existing.capabilities, ...)] *)
Definition replace_capabilities (u : NodeUpdate) (c : HostCapabilities) : HostCapabilities :=
  {| backend_type := default (backend_type c) (up_backend_type u);
     context_window := default (context_window c) (up_context_window u);
     base_url := default (base_url c) (up_base_url u);
     allowed_models := default (allowed_models c) (up_allowed_models u);
     memory_budget_gb := default (memory_budget_gb c) (up_memory_budget_gb u);
     model_sizes_gb := default (model_sizes_gb c) (up_model_sizes_gb u);
     model_aliases := default (model_aliases c) (up_model_aliases u);
     position := default (position c) (up_position u) |}.

Definition replace_capacity (u : NodeUpdate) (c : HostCapacity) : HostCapacity :=
  {| max_concurrent_requests := default (max_concurrent_requests c) (up_max_concurrent_requests u) |}.

Definition register_node (id : string) (c : HostCapabilities) (n : HostCapacity) : app_prog unit := λ w,
  (Ret tt, set_registry (register id c n (w_now w) (w_registry w)) w).

Definition update_node (id : string) (u : NodeUpdate) : app_prog unit :=
  l ← in_registry (get_host id);
  ((λ w, match deref w l with
         | None => (Raise (EHostNotRegistered id), w)
         | Some h => register_node id (replace_capabilities u (capabilities h))
                       (replace_capacity u (capacity h)) w
         end) : app_prog unit).

Definition heartbeat_node (id : string) : app_prog unit := λ w,
  in_registry (Registry.heartbeat id (w_now w)) w.

Definition deregister_node (id : string) : app_prog unit := λ w,
  (Ret tt, prune_backend_cache (set_registry (deregister id (w_registry w)) w)).

(** ** Lease endpoints *)

(** [_lease_body] *)
Definition lease_body (l : NodeLease) (now : datetime) (include_token : bool) : LeaseView :=
  let remaining := (Z.min (nl_expires_at l) (nl_hard_expires_at l) - now)%Z in
  public_dict l include_token (remaining <=? ls_expiring_soon cfg)%Z.

(** [create_node_lease], from the moment the models are known. *)
Definition create_node_lease (holder : string) (host model : option string) (ceiling_s : option Z)
    (capable : option (list nat)) (token : string) : app_prog LeaseView := λ w,
  let now := w_lease_now w in
  (l ← in_book (reserve cfg holder (reservable_hosts capable w) host model
                  (td_seconds <$> ceiling_s) now token);
   mret (lease_body l now true)) w.

Definition heartbeat_node_lease (header : option string) : app_prog LeaseView := λ w,
  let now := w_lease_now w in
  (l ← in_book (Leases.heartbeat cfg (default "" header) now); mret (lease_body l now false)) w.

Definition release_node_lease (header : option string) : app_prog unit := λ w,
  (_ ← in_book (release (default "" header) (w_lease_now w)); mret tt) w.

Definition force_release_node_lease (host : string) : app_prog unit := λ w,
  (_ ← in_book (force_release host (w_lease_now w)); mret tt) w.

(** ** Listings *)

(** The sort key [(position is None, position or 0)]. *)
Definition position_key (h : HostInfo) : Z * Z :=
  match position (capabilities h) with None => (1, 0)%Z | Some p => (0, p)%Z end.

Definition position_le (h1 h2 : HostInfo) : Prop :=
  let '(a1, b1) := position_key h1 in
  let '(a2, b2) := position_key h2 in
  (a1 < a2 ∨ a1 = a2 ∧ b1 ≤ b2)%Z.

#[export] Instance position_le_dec : RelDecision position_le.
Proof.
  intros h1 h2. unfold position_le. destruct (position_key h1), (position_key h2). apply _.
Defined.

#[export] Instance position_le_total : Total position_le.
Proof. intros h1 h2. unfold position_le. destruct (position_key h1), (position_key h2). lia. Qed.

#[export] Instance position_le_trans : Transitive position_le.
Proof.
  intros h1 h2 h3. unfold position_le. destruct (position_key h1), (position_key h2), (position_key h3). lia.
Qed.

(** The order of [GET /v1/nodes]. *)
Definition listed_hosts (w : World) : list HostInfo := sort_by position_le (host_infos (w_registry w)).

Definition lease_json (v : option LeaseView) : json :=
  match v with
  | None => JNull
  | Some v =>
      JObj ([("host_id", JStr (pd_host_id v)); ("holder", JStr (pd_holder v));
             ("expires_at", JStr (pd_expires_at v)); ("hard_expires_at", JStr (pd_hard_expires_at v));
             ("expiring_soon", JBool (pd_expiring_soon v))] ++
            match pd_token v with Some t => [("token", JStr t)] | None => [] end)
  end.

Definition load_json (l : ExternalLoadStatus) : json :=
  JObj [("available", JBool (els_available l)); ("status", to_json (els_status l));
        ("queued", to_json (els_queued l)); ("total_slots", to_json (els_total_slots l));
        ("busy_slots", to_json (els_busy_slots l))].

(** One entry of [GET /v1/nodes]. *)
Definition node_json (w : World) (h : HostInfo) (load : ExternalLoadStatus) (window_s rate : float)
    (slot_rate : option float) (lease : option LeaseView) : json :=
  let c := capabilities h in
  JObj [("host_id", JStr (host_id h)); ("backend_type", JStr (backend_type c));
        ("context_window", JInt (context_window c)); ("base_url", JStr (base_url c));
        ("allowed_models", to_json (allowed_models c));
        ("memory_budget_gb", to_json (memory_budget_gb c));
        ("model_sizes_gb", to_json (model_sizes_gb c));
        ("model_aliases", to_json (model_aliases c)); ("position", to_json (position c));
        ("max_concurrent_requests", JInt (max_concurrent_requests (capacity h)));
        ("in_flight", JInt (in_flight h)); ("last_seen", JStr (isoformat (last_seen h)));
        ("status", JStr (node_status w (host_id h) (w_now w)));
        ("health", JObj [("recent_failures", JInt (failure_count (w_health w) (host_id h)))]);
        ("external_load", load_json load);
        ("throughput", JObj [("window_s", JFloat window_s); ("tasks_per_hour", JFloat rate);
                             ("tasks_per_hour_per_slot", to_json slot_rate)]);
        ("lease", lease_json lease)].

Definition lease_view (id : string) : app_prog (option LeaseView) := λ w,
  let '(v, b) := view cfg id (w_lease_now w) (w_book w) in (Ret v, set_book b w).

(** A host that was not probed yet shows as unavailable.  Looking at a lease that has ended
    drops it. *)
Fixpoint list_views (hs : list HostInfo) : app_prog (list json) :=
  match hs with
  | [] => mret []
  | h :: hs => λ w,
      let at_ := w_now w in
      let load := default (unavailable at_) (w_external_loads w !! host_id h) in
      (window_s ← of_arith (int_truediv (cl_window (w_completions w)) (td_seconds 1));
       rate ← of_arith (tasks_per_hour (host_id h) at_ (w_completions w));
       slot_rate ← of_arith (tasks_per_hour_per_slot (host_id h) at_ (els_total_slots load) (w_completions w));
       lease ← lease_view (host_id h);
       rest ← list_views hs;
       mret (node_json w h load window_s rate slot_rate lease :: rest)) w
  end.

Definition list_nodes : app_prog (list json) := λ w, list_views (listed_hosts w) w.

(** [get_capacity] *)
Definition total_capacity (w : World) : Z :=
  foldr (λ h n, (if bool_decide (node_status w (host_id h) (w_now w) = "online")
                 then max_concurrent_requests (capacity h) + n else n)%Z) 0%Z
    (host_infos (w_registry w)).

(** ** Probing *)

(** A round of [_probe_all_hosts] prunes the caches and starts [_probe_one_host] for every
    host; each runs on its own up to its first [await].  A host whose backend type has no
    factory ends its own probe there. *)
Definition start_probes (w : World) : World :=
  foldl (λ w h, (backend_for (host_id h) (capabilities h) w).2) (prune_backend_cache w)
    (host_infos (w_registry w)).

(** The two steps after the awaits: [check_health] gave [healthy], the load probe [load]. *)
Definition probe_health (hc : HealthConfig) (id : string) (healthy : bool) (w : World) : World :=
  set_health (record_probe hc (w_health w) id healthy (w_now w)) w.

Definition probe_load (id : string) (load : ExternalLoadStatus) (w : World) : World :=
  set_external_loads (<[id := load]> (w_external_loads w)) w.

(** ** What the listing shows *)

(** A program that only looks at the registry and the observations. *)
Lemma list_views_shows hs w js w' :
  list_views hs w = (Ret js, w') →
  w_registry w' = w_registry w ∧ w_completions w' = w_completions w ∧
  (λ j, j_get j "host_id") <$> js = (λ h, Some (JStr (host_id h))) <$> hs.
Proof.
  revert w js w'. induction hs as [|h hs IH]; intros w js w'; [by intros [= <- <-]|].
  cbn [list_views]. unfold mbind, app_prog_bind, mbind, prog_bind, of_arith, lease_view.
  destruct (int_truediv _ _) as [ws|]; [|done]. destruct (tasks_per_hour _ _ _) as [rate|]; [|done].
  destruct (tasks_per_hour_per_slot _ _ _ _) as [sr|]; [|done].
  destruct (view cfg (host_id h) (w_lease_now w) (w_book w)) as [v b].
  destruct (list_views hs (set_book b w)) as [[rest|] w1] eqn:E; [|done].
  apply IH in E as (Er & Ec & Ej). intros [= <- <-]. split_and!; [done|done|].
  rewrite !fmap_cons. by f_equal.
Qed.

(** Whatever holds of the entry of a host holds along the listing. *)
Lemma list_views_Forall2 (P : json → HostInfo → Prop) hs w js w' :
  (∀ w h load ws rate slot_rate lease, P (node_json w h load ws rate slot_rate lease) h) →
  list_views hs w = (Ret js, w') → Forall2 P js hs.
Proof.
  intros HP. revert w js w'. induction hs as [|h hs IH]; intros w js w'; [intros [= <- <-]; constructor|].
  cbn [list_views]. unfold mbind, app_prog_bind, mbind, prog_bind, of_arith, lease_view.
  destruct (int_truediv _ _) as [ws|]; [|done]. destruct (tasks_per_hour _ _ _) as [rate|]; [|done].
  destruct (tasks_per_hour_per_slot _ _ _ _) as [sr|]; [|done].
  destruct (view cfg (host_id h) (w_lease_now w) (w_book w)) as [v b].
  destruct (list_views hs (set_book b w)) as [[rest|] w1] eqn:E; [|done].
  apply IH in E. intros [= <- <-]. by constructor.
Qed.

(** [GET /v1/nodes] shows every host once: the ones with a position by position, then the
    others in the order of their registration; showing them changes no host. *)
Theorem list_nodes_order w js w' :
  list_nodes w = (Ret js, w') →
  w_registry w' = w_registry w ∧
  (λ j, j_get j "host_id") <$> js = (λ h, Some (JStr (host_id h))) <$> listed_hosts w ∧
  listed_hosts w ≡ₚ host_infos (w_registry w) ∧
  StronglySorted position_le (listed_hosts w) ∧
  filter (λ h, position (capabilities h) = None) (listed_hosts w) =
    filter (λ h, position (capabilities h) = None) (host_infos (w_registry w)).
Proof.
  intros (Er & _ & Ej)%list_views_shows. split_and!; [done|done|apply sort_by_perm| |].
  - apply Sorted_StronglySorted, sort_by_sorted, _. intros ???; apply transitivity.
  - apply sort_by_stable. intros h1 h2 E1 E2. unfold position_le, position_key. rewrite E1, E2. lia.
Qed.

(** Where a host is listed depends on its position only. *)
Lemma position_le_same h1 h2 k1 k2 :
  position (capabilities k1) = position (capabilities h1) → position (capabilities k2) = position (capabilities h2) →
  position_le k1 k2 ↔ position_le h1 h2.
Proof. intros E1 E2. unfold position_le, position_key. by rewrite E1, E2. Qed.

Lemma position_le_unset h1 h2 : position (capabilities h2) = None → position_le h1 h2.
Proof. intros E. unfold position_le, position_key. rewrite E. destruct (position (capabilities h1)); lia. Qed.

(** Hosts with different positions are listed in one order, however they were registered. *)
Lemma listed_unique l k :
  l ≡ₚ k → NoDup ((λ h, position (capabilities h)) <$> l) → sort_by position_le l = sort_by position_le k.
Proof.
  intros Hp Hnd. apply sort_by_unique; [apply _..|done|]. intros h1 h2 [i Hi]%list_elem_of_lookup [j Hj]%list_elem_of_lookup H1 H2.
  assert (i = j) as ->; [|congruence]. eapply NoDup_lookup; [exact Hnd|by rewrite list_lookup_fmap, Hi|].
  rewrite list_lookup_fmap, Hj. simpl. f_equal. revert H1 H2. unfold position_le, position_key.
  destruct (position (capabilities h1)), (position (capabilities h2)); intros; (f_equal; lia) || lia.
Qed.

Lemma find_by_id (l : list HostInfo) h :
  NoDup (host_id <$> l) → h ∈ l → find (λ h', bool_decide (host_id h' = host_id h)) l = Some h.
Proof.
  induction l as [|x l IH]; [by intros _ ?%not_elem_of_nil|]. cbn [fmap list_fmap].
  intros [Hx Hl]%NoDup_cons [->|Hin]%elem_of_cons; cbn [find]; [by rewrite bool_decide_true|].
  rewrite bool_decide_false; [by apply IH|]. intros E. apply Hx. rewrite E. by apply list_elem_of_fmap_2.
Qed.

(** The ids in the order of the listing, after a host is registered under a position it had, or none. *)
Lemma listed_after_register r url c n now :
  reg_wf r → position c = (lookup_host r url ≫= λ h, position (capabilities h)) →
  host_id <$> sort_by position_le (host_infos (register url c n now r)) =
  (host_id <$> sort_by position_le (host_infos r)) ++ match lookup_host r url with Some _ => [] | None => [url] end.
Proof.
  intros Hwf Hpos. rewrite host_infos_register by done. set (h := new_info _ _ _ _ _).
  assert (Hph : position (capabilities h) = position c) by done.
  destruct (decide (url ∈ d_keys (hr_hosts r))) as [Hin|Hin].
  - apply d_get_is_Some in Hin as [l Hl]. destruct (wf_get _ _ _ Hwf Hl) as (old & Hold & Hid).
    assert (Elook : lookup_host r url = Some old) by (unfold lookup_host; by rewrite Hl).
    rewrite Elook in Hpos |- *. simpl in Hpos. rewrite app_nil_r.
    assert (Hnd : NoDup (host_id <$> host_infos r)) by (rewrite host_ids_infos by done; apply Hwf).
    rewrite lookup_host_find in Elook by done. set (f := λ h', if decide (host_id h' = url) then h else h').
    assert (Hf : ∀ h', h' ∈ host_infos r → position (capabilities (f h')) = position (capabilities h') ∧ host_id (f h') = host_id h').
    { intros h' Hin. unfold f. case_decide as E; [|done]. split; [|done]. rewrite Hph, Hpos.
      pose proof (find_by_id _ _ Hnd Hin) as Ef. rewrite E in Ef. congruence. }
    change (host_id <$> sort_by position_le (f <$> host_infos r) = host_id <$> sort_by position_le (host_infos r)).
    rewrite sort_by_fmap by (intros h1 h2 H1 H2; apply position_le_same; by apply Hf).
    rewrite <-list_fmap_compose. apply list_fmap_ext. intros i h' Hi. apply Hf.
    apply list_elem_of_lookup_2 in Hi. by rewrite sort_by_perm in Hi.
  - assert (Elook : lookup_host r url = None) by (unfold lookup_host; apply d_get_None in Hin; by rewrite Hin).
    rewrite Elook in Hpos |- *. rewrite sort_by_snoc_max; [by rewrite fmap_app|].
    intros h' _. apply position_le_unset. by rewrite Hph, Hpos.
Qed.

(** [update_node] of a registered host, and of another. *)
Lemma update_node_known id u w h :
  reg_wf (w_registry w) → lookup_host (w_registry w) id = Some h →
  update_node id u w = (Ret tt, set_registry (register id (replace_capabilities u (capabilities h))
                                                (replace_capacity u (capacity h)) (w_now w) (w_registry w)) w).
Proof.
  intros Hwf Hh. destruct (wf_lookup _ _ _ Hwf Hh) as (l & Hl & Ho & _).
  unfold update_node, in_registry, get_host, mbind, app_prog_bind, mbind, prog_bind. rewrite Hl.
  cbv beta iota zeta. unfold deref. cbn [w_registry set_registry]. rewrite Ho. by destruct w.
Qed.

Lemma update_node_unknown id u w :
  reg_wf (w_registry w) → lookup_host (w_registry w) id = None → update_node id u w = (Raise (EHostNotRegistered id), w).
Proof.
  intros Hwf Hh%wf_lookup_None; [|done].
  unfold update_node, in_registry, get_host, mbind, app_prog_bind, mbind, prog_bind. rewrite Hh. by destruct w.
Qed.

(** ** Which hosts are found *)

(** What the loop is for, host by host: an operator's list decides alone; without one, a host
    that does not say what it has loaded is given the benefit of the doubt. *)
Definition serves (answers : string → models_answer) (model : string) (h : HostInfo) : bool :=
  match allowed_models (capabilities h), answers (host_id h) with
  | Some allowed, _ => bool_decide (model ∈ allowed)
  | None, (NoListModels | Models None) => true
  | None, Models (Some loaded) => bool_decide (model ∈ loaded) || fits_in_budget h model loaded
  | None, ModelsRaised _ => false
  end.

(** The exception of a host that has to be asked: its backend cannot be built, or does not
    understand the answer. *)
Definition raises (answers : string → models_answer) (h : HostInfo) : option app_error :=
  match allowed_models (capabilities h), build_error factories (capabilities h), answers (host_id h) with
  | Some _, _, _ => None
  | None, Some e, _ => Some e
  | None, None, ModelsRaised kind => Some (EUnexpected kind)
  | None, None, _ => None
  end.

Definition blocked_by_budget (answers : string → models_answer) (model : string) (h : HostInfo) : bool :=
  bool_decide (allowed_models (capabilities h) = None) && negb (serves answers model h) &&
  bool_decide (is_Some (memory_budget_gb (capabilities h))).

(** With a cache of built backends, [_backend_for] raises exactly when none can be built. *)
Lemma backend_for_spec id c w :
  cache_ok factories w →
  ∃ w', backend_for id c w = (match build_error factories c with Some e => Raise e | None => Ret tt end, w') ∧
    w_registry w' = w_registry w ∧ cache_ok factories w'.
Proof.
  intros Hc. unfold backend_for. case_decide as E.
  - pose proof (Hc id c E) as Hb. unfold builds in Hb. rewrite Hb. by exists w.
  - destruct (build_error factories c) as [e|] eqn:Eb; [by exists w|]. eexists. split_and!; [done..|].
    intros id' c' Hl. simpl in Hl. apply lookup_insert_Some in Hl as [[_ <-]|[_ Hl]]; [done|by apply (Hc id')].
Qed.

(** A host with an operator's list is never asked; the others give [take_answer]'s verdict. *)
Lemma take_answer_spec answers model w l h capable blocked :
  deref w l = Some h → allowed_models (capabilities h) = None → raises answers h = None →
  take_answer w model l (answers (host_id h)) capable blocked =
    (if serves answers model h then capable ++ [l] else capable,
     blocked || blocked_by_budget answers model h).
Proof.
  intros Ed Ea Hr. unfold take_answer, blocked_by_budget, serves, raises in *. rewrite Ed, Ea. rewrite Ea in Hr.
  destruct (build_error _ _); [done|].
  destruct (answers (host_id h)) as [|[loaded|]|]; simpl; rewrite ?orb_false_r; try done.
  destruct (bool_decide (model ∈ loaded)), (fits_in_budget h model loaded); simpl; rewrite ?orb_false_r; try done.
  case_bool_decide; simpl; by rewrite ?orb_true_r, ?orb_false_r.
Qed.

Lemma scan_exact answers model locs hs fuel capable blocked w :
  Forall2 (λ l h, deref w l = Some h) locs hs → (length locs ≤ fuel)%nat → cache_ok factories w →
  ∃ w', w_registry w' = w_registry w ∧
    (s ← scan_hosts model capable blocked locs; resume_scan fuel answers model s) w =
      (match head (omap (raises answers) hs) with
       | Some e => Raise e
       | None => Ret (capable ++ (filter (λ p, serves answers model p.2 = true) (zip locs hs)).*1,
                      blocked || existsb (blocked_by_budget answers model) hs)
       end, w').
Proof.
  intros H2. revert hs fuel capable blocked w H2.
  induction locs as [|l locs IH]; intros hs fuel capable blocked w H2 Hn Hf.
  { apply Forall2_nil_inv_l in H2 as ->. exists w. split; [done|]. simpl.
    rewrite app_nil_r, orb_false_r. by destruct fuel. }
  apply Forall2_cons_inv_l in H2 as (h & hs' & Ed & H2 & ->).
  assert (Hd : ∀ w', w_registry w' = w_registry w → Forall2 (λ l h, deref w' l = Some h) locs hs').
  { intros w' Er. eapply Forall2_impl; [exact H2|]. intros l0 h0. unfold deref. by rewrite Er. }
  simpl in Hn. cbn [scan_hosts zip zip_with existsb]. rewrite filter_cons. simpl.
  unfold mbind, app_prog_bind, mbind, prog_bind. rewrite Ed.
  destruct (allowed_models (capabilities h)) as [allowed|] eqn:Ea.
  - assert (Eb : blocked_by_budget answers model h = false).
    { unfold blocked_by_budget. by rewrite Ea. }
    assert (Eno : raises answers h = None) by (unfold raises; by rewrite Ea).
    destruct (IH hs' fuel (if bool_decide (model ∈ allowed) then capable ++ [l] else capable) blocked w
      (Hd w eq_refl) ltac:(lia) Hf) as (w' & Er & E). exists w'. split; [done|].
    unfold mbind, app_prog_bind, mbind, prog_bind in E. rewrite E, Eb. simpl. rewrite Eno. unfold serves. rewrite Ea.
    case_bool_decide; simpl; [by rewrite <-app_assoc|done].
  - destruct (backend_for_spec (host_id h) (capabilities h) w Hf) as (w1 & -> & Er1 & Hf1).
    destruct (raises answers h) as [e|] eqn:Eno.
    { exists w1. split; [done|]. unfold raises in Eno. rewrite Ea in Eno.
      destruct (build_error factories (capabilities h)); [by injection Eno as ->|]. simpl.
      destruct fuel as [|fuel]; [lia|]. simpl.
      assert (Ed1 : deref w1 l = Some h) by (unfold deref in *; by rewrite Er1). rewrite Ed1.
      destruct (answers (host_id h)); try done. by injection Eno as <-. }
    assert (build_error factories (capabilities h) = None ∧
      await_models (answers (host_id h)) w1 = (Ret (answers (host_id h)), w1)) as [-> Eaw].
    { unfold raises in Eno. rewrite Ea in Eno. destruct (build_error _ _); [done|]. by destruct (answers (host_id h)). }
    simpl. destruct fuel as [|fuel]; [lia|]. simpl.
    assert (Ed1 : deref w1 l = Some h) by (unfold deref in *; by rewrite Er1). rewrite Ed1.
    unfold mbind, app_prog_bind, mbind, prog_bind. rewrite Eaw.
    rewrite (take_answer_spec answers model w1 l h capable blocked Ed1 Ea Eno).
    destruct (IH hs' fuel (if serves answers model h then capable ++ [l] else capable)
      (blocked || blocked_by_budget answers model h) w1 (Hd w1 Er1) ltac:(lia) Hf1) as (w' & Er & E).
    exists w'. split; [by rewrite Er|].
    unfold mbind, app_prog_bind, mbind, prog_bind in E |- *. rewrite E, orb_assoc.
    destruct (serves answers model h); simpl; [by rewrite <-app_assoc|done].
Qed.

(** C15. Left alone, with backends in the cache that were built, the loop finds exactly the
    hosts that serve the model, in the order of the registry, and reports whether some host
    was only kept out by its memory budget; it awaits at most one answer per host.  It raises
    exactly when some host without an operator's list is of an unknown type, has a backend that
    cannot be built, or gives an answer that cannot be read, and then what the first such
    host raises. *)
Theorem model_capable_exact answers model locs hs w :
  Forall2 (λ l h, deref w l = Some h) locs hs → cache_ok factories w →
  ∃ w', w_registry w' = w_registry w ∧
    model_capable_hosts answers model locs w =
      (match head (omap (raises answers) hs) with
       | Some e => Raise e
       | None => Ret ((filter (λ p, serves answers model p.2 = true) (zip locs hs)).*1,
                      existsb (blocked_by_budget answers model) hs)
       end, w').
Proof.
  intros H2 Hf. unfold model_capable_hosts.
  destruct (scan_exact answers model locs hs (length locs) [] false w H2 (le_n _) Hf) as (w' & Er & E).
  by exists w'.
Qed.
End nodes.

(** Two hosts: ["a"] has a list of models, ["b"] is asked and has no room for the model. *)
Definition sample_node (allowed : option (list string)) : HostCapabilities :=
  {| backend_type := "lmstudio"; context_window := 4096; base_url := "http://a"; allowed_models := allowed;
     memory_budget_gb := Some (f_of_Z 8);
     model_sizes_gb := Some (<["m" := f_of_Z 6]> (<["n" := f_of_Z 4]> ∅));
     model_aliases := None; position := None |}.

Definition sample_nodes : World :=
  {| w_registry := register "b" (sample_node None) {| max_concurrent_requests := 1 |} 0
                     (register "a" (sample_node (Some ["m"])) {| max_concurrent_requests := 1 |} 0
                        empty_registry);
     w_health := HealthMonitor_new; w_book := NodeLeaseBook_new; w_backends := ∅; w_external_loads := ∅;
     w_metrics := MetricsRegistry_new (td_seconds 60);
     w_completions := {| cl_window := td_seconds 60; cl_started_at := 0; cl_completions := ∅ |};
     w_now := 0; w_lease_now := 0 |}.

Lemma model_capable_exact_witness :
  host_infos (w_registry sample_nodes) ≠ [] ∧
  ∃ w', w_registry w' = w_registry sample_nodes ∧
    model_capable_hosts {["lmstudio"]} (λ _, Models (Some ["n"])) "m" [0; 1] sample_nodes = (Ret ([0], true), w').
Proof.
  split; [by vm_compute|].
  destruct (model_capable_exact {["lmstudio"]} (λ _, Models (Some ["n"])) "m" [0; 1]
    (host_infos (w_registry sample_nodes)) sample_nodes) as (w' & Er & E).
  - repeat constructor.
  - apply map_Forall_empty.
  - exists w'. split; [exact Er|]. by rewrite E.
Defined.
