(* ===== verification/DashboardGateway.v ===== *)
(** * The dashboard and the gateway together

    What [GET /v1/nodes] and [GET /metrics] answer is shown in the table row by row
    ([dashboard_shows_gateway]), and moving a row in the dashboard makes the gateway list the
    hosts in the order the operator sees ([moved_order_is_listed]): the [PATCH]es the dashboard
    sends are run by the gateway's own handler. *)

From S2P Require Import Prelude.
From S2P Require Import PyFloat.
From S2P Require Import PyStr.
From S2P Require Import PyDict.
From S2P Require Import PyJson.
From S2P Require Import Registry.
From S2P Require Import Health.
From S2P Require Import Leases.
From S2P Require Import LoadProbe.
From S2P Require Import Throughput.
From S2P Require Import Metrics.
From S2P Require Import MetricsText.
From S2P Require Import Diagnostics.
From S2P Require Import Nodes.
From S2P Require Import LoadCharts.
From S2P Require Import DashboardView.
From S2P Require Import Dashboard.
From S2P Require Import DashboardSafety.

#[local] Open Scope list_scope.

(** ** The shape of the listing *)

(** The body of [GET /v1/nodes]. *)
Definition nodes_body (js : list json) : json := JObj [("nodes", JList js)].

(** Slot counts the dashboard divides exactly. *)
Definition small_slots (h : HostInfo) : Prop :=
  small_int (in_flight h) = true ∧ small_int (max_concurrent_requests (capacity h)) = true.

Section listing.
Context (cfg : LeaseSettings).

Lemma node_json_ok w h load ws rate slot_rate lease :
  small_int (in_flight h) = true → small_int (max_concurrent_requests (capacity h)) = true →
  entry_ok (node_json w h load ws rate slot_rate lease) = true.
Proof.
  intros Hr Hm. unfold entry_ok, j_lookup. set (j := node_json _ _ _ _ _ _ _).
  assert (E : j_get j "host_id" = Some (JStr (host_id h)) ∧ j_get j "status" = Some (JStr (node_status w (host_id h) (w_now w))) ∧
    j_get j "in_flight" = Some (JInt (in_flight h)) ∧
    j_get j "max_concurrent_requests" = Some (JInt (max_concurrent_requests (capacity h))) ∧
    j_get j "backend_type" = Some (JStr (backend_type (capabilities h))) ∧
    j_get j "last_seen" = Some (JStr (isoformat (last_seen h)))) by (split_and!; reflexivity).
  destruct E as (-> & -> & -> & -> & -> & ->). cbn [slot_count]. rewrite Hr, Hm.
  assert (E : (∃ o, j_get j "health" = Some (JObj o)) ∧ ∃ o, j_get j "throughput" = Some (JObj o) ∧
    d_get o "tasks_per_hour" = Some (JFloat rate) ∧ d_get o "tasks_per_hour_per_slot" = Some (to_json slot_rate)).
  { split; [eexists; reflexivity|]. eexists. split_and!; reflexivity. }
  destruct E as ([o ->] & (o' & -> & E1 & E2)). cbn [default from_option j_get id].
  rewrite E1, E2. by destruct slot_rate.
Qed.

Lemma list_views_conform hs w js w' :
  Forall small_slots hs →
  list_views cfg hs w = (Ret js, w') → Forall (λ j, entry_ok j = true) js.
Proof.
  intros Hhs. revert w js w'. induction Hhs as [|h hs [Hr Hm] _ IH]; intros w js w'; [by intros [= <- <-]|].
  cbn [list_views]. unfold mbind, app_prog_bind, mbind, prog_bind, of_arith, lease_view.
  destruct (int_truediv _ _) as [ws|]; [|done]. destruct (tasks_per_hour _ _ _) as [rate|]; [|done].
  destruct (tasks_per_hour_per_slot _ _ _ _) as [sr|]; [|done].
  destruct (view cfg (host_id h) (w_lease_now w) (w_book w)) as [v b].
  destruct (list_views cfg hs (set_book b w)) as [[rest|] w1] eqn:E; [|done].
  apply IH in E. intros [= <- <-]. constructor; [by apply node_json_ok|done].
Qed.
End listing.

(** ** Moving a row *)

(** [NodeUpdateRequest(position=p)] *)
Definition position_update (p : Z) : NodeUpdate :=
  {| up_backend_type := None; up_context_window := None; up_base_url := None; up_max_concurrent_requests := None;
     up_allowed_models := None; up_memory_budget_gb := None; up_model_sizes_gb := None; up_model_aliases := None;
     up_position := Some (Some p) |}.

(** The client's [PATCH] answered by the gateway's handler. *)
Definition gateway_patch (id : string) (p : Z) (w : World) : option string * World :=
  match update_node id (position_update p) w with
  | (Ret _, w) => (raise_for_error_status 200, w)
  | (Raise e, w) =>
      (raise_for_error_status (match error_response e with Some (status, _, _) => status | None => 500 end), w)
  end.

Definition position_of (w : World) (id : string) : option Z :=
  lookup_host (w_registry w) id ≫= λ h, position (capabilities h).

Definition known (w : World) (id : string) : Prop := is_Some (lookup_host (w_registry w) id).

(** A position given to a known host. *)
Lemma gateway_patch_spec id p w :
  reg_wf (w_registry w) → known w id →
  ∃ w', gateway_patch id p w = (None, w') ∧ reg_wf (w_registry w') ∧
    d_keys (hr_hosts (w_registry w')) = d_keys (hr_hosts (w_registry w)) ∧
    (∀ id', known w' id' ↔ known w id') ∧
    (∀ id', position_of w' id' = if decide (id = id') then Some p else position_of w id').
Proof.
  intros Hwf [h Hh]. unfold gateway_patch. rewrite (update_node_known _ _ _ _ Hwf Hh).
  eexists. split; [reflexivity|]. cbn [w_registry set_registry].
  destruct (wf_lookup _ _ _ Hwf Hh) as (l & Hl & _).
  assert (Hlook := λ id', lookup_register (w_registry w) id (replace_capabilities (position_update p) (capabilities h))
    (replace_capacity (position_update p) (capacity h)) (w_now w) id' Hwf).
  split_and!.
  - by apply register_wf.
  - unfold register, bind_host. cbn [hr_hosts with_rows]. rewrite d_keys_set. rewrite decide_True; [done|].
    apply d_get_is_Some. by eexists.
  - intros id'. unfold known. cbn [w_registry set_registry]. rewrite Hlook. case_decide; [subst|done].
    rewrite Hh. split; intros _; by eexists.
  - intros id'. unfold position_of. cbn [w_registry set_registry]. rewrite Hlook. by case_decide.
Qed.

Lemma send_updates_spec updates w :
  reg_wf (w_registry w) → Forall (λ u, known w u.1) updates → NoDup (d_keys updates) →
  ∃ w', send_updates gateway_patch updates w = (None, w') ∧ reg_wf (w_registry w') ∧
    d_keys (hr_hosts (w_registry w')) = d_keys (hr_hosts (w_registry w)) ∧
    (∀ id, position_of w' id = match d_get updates id with Some p => Some p | None => position_of w id end).
Proof.
  revert w. induction updates as [|[id p] updates IH]; intros w Hwf Hk Hnd; [by exists w|].
  apply Forall_cons in Hk as [Hid Hk]. rewrite d_keys_cons in Hnd. apply NoDup_cons in Hnd as [Hn Hnd].
  destruct (gateway_patch_spec id p w Hwf Hid) as (w1 & E1 & Hwf1 & Hkeys1 & Hkn1 & Hpos1).
  destruct (IH w1 Hwf1) as (w2 & E2 & Hwf2 & Hkeys2 & Hpos2); [|done|].
  { eapply Forall_impl; [exact Hk|]. intros u Hu. by apply Hkn1. }
  exists w2. cbn [send_updates]. rewrite E1. split_and!; [done|done|congruence|].
  intros id'. rewrite Hpos2, Hpos1. cbn [d_get]. case_decide as Hd; [subst id'|done].
  by apply d_get_None in Hn as ->.
Qed.

(** The position an order gives to an id: its index. *)
Definition place (order : list string) (id : string) : Z :=
  match index_of id order with Some i => Z.of_nat i | None => -1 end.

Lemma index_of_lookup order id i : NoDup order → order !! i = Some id → index_of id order = Some i.
Proof.
  intros Hnd Hi. unfold index_of. destruct (list_find (id =.) order) as [[j x]|] eqn:E.
  - apply list_find_Some in E as (Hj & <- & _). simpl. f_equal. by eapply NoDup_lookup.
  - apply list_find_None in E. rewrite Forall_forall in E. by destruct (E id (list_elem_of_lookup_2 _ _ _ Hi)).
Qed.

Lemma place_order order : NoDup order → place order <$> order = Z.of_nat <$> seq 0 (length order).
Proof.
  intros Hnd. apply list_eq. intros i. rewrite !list_lookup_fmap. destruct (order !! i) as [id|] eqn:Hi; simpl.
  - unfold place. rewrite (index_of_lookup _ _ _ Hnd Hi). rewrite lookup_seq_lt by (by eapply lookup_lt_Some). done.
  - apply lookup_ge_None in Hi. by rewrite lookup_seq_ge by lia.
Qed.

Lemma seq_sorted k n : StronglySorted Z.le (Z.of_nat <$> seq k n).
Proof.
  revert k. induction n as [|n IH]; intros k; simpl; constructor; [apply IH|].
  apply Forall_fmap, Forall_forall. intros i Hi%elem_of_seq. simpl. lia.
Qed.

Lemma map_inj_on {A B} (f : A → B) (l1 l2 : list A) :
  (∀ x y, x ∈ l1 → y ∈ l2 → f x = f y → x = y) → f <$> l1 = f <$> l2 → l1 = l2.
Proof.
  revert l2. induction l1 as [|x l1 IH]; intros [|y l2] Hinj; try done. cbn [fmap list_fmap]. intros [= E El]. f_equal.
  - apply Hinj; [left|left|done].
  - apply IH; [|done]. intros u v Hu Hv. apply Hinj; by right.
Qed.

Lemma place_inj order id1 id2 :
  NoDup order → id1 ∈ order → id2 ∈ order → place order id1 = place order id2 → id1 = id2.
Proof.
  intros Hnd [i Hi]%list_elem_of_lookup [j Hj]%list_elem_of_lookup. unfold place.
  rewrite (index_of_lookup _ _ _ Hnd Hi), (index_of_lookup _ _ _ Hnd Hj). intros E%Nat2Z.inj. subst j. congruence.
Qed.

(** When every host has its index as its position, the gateway lists them in that order. *)
Lemma listed_by_place w order :
  reg_wf (w_registry w) → order ≡ₚ d_keys (hr_hosts (w_registry w)) →
  (∀ id, id ∈ order → position_of w id = Some (place order id)) →
  host_id <$> listed_hosts w = order.
Proof.
  intros Hwf Hperm Hpos. set (hs := listed_hosts w).
  assert (Hnd : NoDup order) by (rewrite Hperm; apply Hwf).
  assert (Hids : host_id <$> hs ≡ₚ order).
  { unfold hs, listed_hosts. by rewrite sort_by_perm, host_ids_infos, Hperm. }
  assert (Hplace : ∀ h, h ∈ hs → position (capabilities h) = Some (place order (host_id h))).
  { intros h Hh. rewrite <-Hpos by (rewrite <-Hids; by apply list_elem_of_fmap_2).
    unfold hs, listed_hosts in Hh. rewrite sort_by_perm in Hh.
    unfold position_of, lookup_host. unfold host_infos in Hh. apply list_elem_of_omap in Hh as (l & Hl & Ho).
    apply list_elem_of_fmap in Hl as ([id l'] & -> & Hin). cbn [snd] in Ho.
    destruct (wf_bound _ Hwf _ _ Hin) as (h' & Ho' & <-). assert (h' = h) as -> by congruence.
    apply (d_get_elem_iff _ _ _ (wf_keys _ Hwf)) in Hin. rewrite Hin. simpl. by rewrite Ho. }
  assert (Hsorted : StronglySorted Z.le ((λ h, place order (host_id h)) <$> hs)).
  { assert (Hs : StronglySorted position_le hs) by (apply Sorted_StronglySorted; [exact _|apply sort_by_sorted, _]).
    revert Hplace. clear -Hs. induction Hs as [|h hs Hs IH Hall]; intros Hplace; [constructor|]. constructor.
    - apply IH. intros x Hx. apply Hplace. by right.
    - rewrite Forall_forall in Hall. apply Forall_fmap, Forall_forall. intros x Hx. specialize (Hall x Hx).
      unfold position_le, position_key in Hall. rewrite (Hplace h), (Hplace x) in Hall by set_solver. simpl. lia. }
  assert (E : (λ h, place order (host_id h)) <$> hs = place order <$> order).
  { apply (StronglySorted_unique Z.le); [done| |].
    - rewrite place_order by done. apply seq_sorted.
    - rewrite (list_fmap_compose host_id (place order)). by apply fmap_Permutation. }
  rewrite (list_fmap_compose host_id (place order)) in E.
  apply (map_inj_on (place order)); [|exact E]. intros x y Hx Hy. apply place_inj; [done| |done]. by rewrite <-Hids.
Qed.

Lemma swap_perm i j l : swap i j l ≡ₚ l.
Proof.
  unfold swap. destruct (l !! i) eqn:Hi; [|done]. destruct (l !! j) eqn:Hj; [|done]. by apply Permutation_insert_swap.
Qed.

(** The [PATCH] for one place of the order. *)
Definition update_for (by_id : dict string json) (p : nat * string) : option (string * Z) :=
  if py_equals_int (j_lookup (default JNull (d_get by_id p.2)) "position") (Z.of_nat p.1) then None
  else Some (p.2, Z.of_nat p.1).

Lemma position_updates_alt by_id order :
  position_updates by_id order = omap (update_for by_id) (zip (seq 0 (length order)) order).
Proof.
  unfold position_updates. generalize (zip (seq 0 (length order)) order) as l.
  induction l as [|[i id] l IH]; [done|]. cbn [omap list_omap].
  unfold update_for at 1. cbn [fst snd]. destruct (py_equals_int _ _); [exact IH|by f_equal].
Qed.

Lemma updates_keys by_id k order :
  d_keys (omap (update_for by_id) (zip (seq k (length order)) order)) `sublist_of` order.
Proof.
  revert k. induction order as [|id order IH]; intros k; [done|]. cbn [length seq zip zip_with omap list_omap].
  unfold update_for at 1. cbn [fst snd]. destruct (py_equals_int _ _); [by apply sublist_cons|].
  rewrite d_keys_cons. by apply sublist_skip.
Qed.

Lemma updates_get by_id order i id :
  NoDup order → order !! i = Some id →
  d_get (position_updates by_id order) id =
    if py_equals_int (j_lookup (default JNull (d_get by_id id)) "position") (Z.of_nat i) then None else Some (Z.of_nat i).
Proof.
  intros Hnd Hi. rewrite position_updates_alt. pose proof (updates_keys by_id 0 order) as Hsub.
  set (ups := omap _ _) in *. assert (Hk : NoDup (d_keys ups)) by (by eapply sublist_NoDup).
  assert (Hin : ∀ p, (id, p) ∈ ups ↔ update_for by_id (i, id) = Some (id, p)).
  { intros p. unfold ups. rewrite list_elem_of_omap. split.
    - intros ([j id'] & Hz & E). assert (id' = id) as ->.
      { unfold update_for in E. cbn [fst snd] in E. destruct (py_equals_int _ _); [done|]. by injection E. }
      apply list_elem_of_lookup in Hz as [m Hm]. rewrite lookup_zip_with_Some in Hm.
      destruct Hm as (j' & id' & [= -> ->] & Hj & Hid). apply lookup_seq in Hj as [-> _].
      rewrite (NoDup_lookup _ _ _ _ Hnd Hi Hid). exact E.
    - intros E. exists (i, id). split; [|done]. apply list_elem_of_lookup. exists i.
      rewrite lookup_zip_with_Some. exists i, id. split_and!; [done| |done].
      apply lookup_seq. split; [done|]. by apply lookup_lt_Some in Hi. }
  unfold update_for in Hin. cbn [fst snd] in Hin. destruct (py_equals_int _ _) eqn:E.
  - destruct (d_get ups id) as [p|] eqn:Hp; [|done]. apply (d_get_elem_iff _ _ _ Hk), Hin in Hp. done.
  - apply (d_get_elem_iff _ _ _ Hk), Hin. done.
Qed.

Lemma move_target_step t step d target :
  move_target t step d = Some target →
  Z.of_nat target = (Z.of_nat (cursor_row t) + step)%Z ∧ (target < length (d_node_row_order d))%nat.
Proof.
  unfold move_target. destruct (_ || _); [done|]. destruct (_ && _) eqn:E; [|done]. intros [= <-].
  apply andb_true_iff in E as [E1%Z.leb_le E2%Z.ltb_lt]. lia.
Qed.

Lemma swap_lookups i j (l : list string) :
  (i < length l)%nat → (j < length l)%nat → swap i j l !! j = l !! i ∧ swap i j l !! i = l !! j.
Proof.
  intros [x Hx]%lookup_lt_is_Some_2 [y Hy]%lookup_lt_is_Some_2. unfold swap. rewrite Hx, Hy.
  pose proof (lookup_lt_Some _ _ _ Hx). pose proof (lookup_lt_Some _ _ _ Hy).
  split; [by rewrite list_lookup_insert_eq by by rewrite length_insert|].
  destruct (decide (i = j)) as [->|Hne].
  - rewrite list_lookup_insert_eq by by rewrite length_insert. congruence.
  - by rewrite list_lookup_insert_ne, list_lookup_insert_eq.
Qed.

(** C37. Moving a row moves the host.  Let the rows and the positions the dashboard keeps be those
    the gateway has, that is, no other client has written since the poll, and let its registry
    be one its own operations reach.  A move that is allowed (no column is sorted, and
    there is a row [step] rows away) swaps the selected row with that one, sets the cursor on
    it there, and every [PATCH] it sends succeeds; the gateway then lists the hosts in exactly
    the order the table shows.  Every host then has its row as its position, also one that had
    none, and no position is sent that the host already has. *)
Theorem moved_order_is_listed t step d w target :
  reg_wf (w_registry w) →
  d_node_row_order d = host_id <$> listed_hosts w →
  (∀ h, h ∈ host_infos (w_registry w) →
     j_lookup (default JNull (d_get (d_nodes_by_id d) (host_id h))) "position" = to_json (position (capabilities h))) →
  (cursor_row t < length (d_node_row_order d))%nat →
  move_target t step d = Some target →
  let order := swap (cursor_row t) target (d_node_row_order d) in
  ∃ w', move_selected_node gateway_patch t step d w =
      (add_ui (MoveCursor target) (set_rows order (d_nodes_by_id d) d), w') ∧
    host_id <$> listed_hosts w' = order ∧
    (∀ i id, order !! i = Some id → position_of w' id = Some (Z.of_nat i)) ∧
    Z.of_nat target = (Z.of_nat (cursor_row t) + step)%Z ∧
    order !! target = d_node_row_order d !! cursor_row t ∧ order !! cursor_row t = d_node_row_order d !! target ∧
    (∀ id p, (id, p) ∈ position_updates (d_nodes_by_id d) order → position_of w id ≠ Some p).
Proof.
  intros Hwf Hrows Hby Hcur Hmove order. destruct (move_target_step _ _ _ _ Hmove) as [Hstep Htarget].
  destruct (swap_lookups _ _ _ Hcur Htarget) as [Hto Hfrom].
  assert (Hperm : order ≡ₚ d_keys (hr_hosts (w_registry w))).
  { unfold order. rewrite swap_perm, Hrows. unfold listed_hosts. by rewrite sort_by_perm, host_ids_infos. }
  assert (Hnd : NoDup order) by (rewrite Hperm; apply Hwf).
  assert (Hview : ∀ id, id ∈ order → known w id ∧
    j_lookup (default JNull (d_get (d_nodes_by_id d) id)) "position" = to_json (position_of w id)).
  { intros id Hid. rewrite Hperm in Hid. apply d_get_is_Some in Hid as [l Hl].
    destruct (wf_get _ _ _ Hwf Hl) as (h & Ho & <-). unfold known, position_of, lookup_host. rewrite Hl. simpl. rewrite Ho.
    split; [by eexists|]. apply Hby. unfold host_infos. apply list_elem_of_omap. exists l. split; [|done].
    by apply (list_elem_of_fmap_2 snd (hr_hosts (w_registry w)) (host_id h, l)), d_get_elem. }
  assert (Heq : ∀ id i, id ∈ order → py_equals_int (j_lookup (default JNull (d_get (d_nodes_by_id d) id)) "position")
    (Z.of_nat i) = true ↔ position_of w id = Some (Z.of_nat i)).
  { intros id i Hid. rewrite (proj2 (Hview id Hid)). destruct (position_of w id) as [p|]; simpl; [|done].
    rewrite Z.eqb_eq. split; congruence. }
  pose proof (updates_keys (d_nodes_by_id d) 0 order) as Hsub. rewrite <-position_updates_alt in Hsub.
  destruct (send_updates_spec (position_updates (d_nodes_by_id d) order) w Hwf) as (w' & E & Hwf' & Hkeys & Hpos).
  { apply Forall_forall. intros [id p] Hin. apply Hview. eapply elem_of_sublist; [|exact Hsub].
    apply (list_elem_of_fmap_2 fst _ _ Hin). }
  { by eapply sublist_NoDup. }
  unfold move_selected_node. rewrite Hmove. fold order. rewrite E. eexists.
  assert (Hplace : ∀ i id, order !! i = Some id → position_of w' id = Some (Z.of_nat i)).
  { intros i id Hi. rewrite Hpos, (updates_get _ _ _ _ Hnd Hi). destruct (py_equals_int _ _) eqn:Ep; [|done].
    apply Heq in Ep; [done|]. by eapply list_elem_of_lookup_2. }
  split_and!; [reflexivity| |exact Hplace|done|exact Hto|exact Hfrom|].
  - apply listed_by_place; [done|by rewrite Hkeys|]. intros id Hid. pose proof Hid as [i Hi]%list_elem_of_lookup.
    unfold place. by rewrite (index_of_lookup _ _ _ Hnd Hi), (Hplace _ _ Hi).
  - intros id p Hin Hp. assert (Hk : NoDup (d_keys (position_updates (d_nodes_by_id d) order))) by by eapply sublist_NoDup.
    pose proof (proj2 (d_get_elem_iff _ _ _ Hk) Hin) as Hget.
    assert (Hid : id ∈ order) by (eapply elem_of_sublist; [|exact Hsub]; apply (list_elem_of_fmap_2 fst _ _ Hin)).
    pose proof Hid as [i Hi]%list_elem_of_lookup. rewrite (updates_get _ _ _ _ Hnd Hi) in Hget.
    destruct (py_equals_int _ _) eqn:Ep; [done|]. injection Hget as <-. apply Heq in Hp; [|done]. congruence.
Qed.

(** ** A poll of the gateway *)

Lemma printable_totals s h n :
  printable s = true → (h, n) ∈ pm_host_completions_total (parsed_of s) → small_int n = true.
Proof.
  unfold printable. rewrite !andb_true_iff. intros [_ Hs] Hin.
  apply list_elem_of_fmap in Hin as ([h' st] & [= -> ->] & Hin).
  pose proof (forallb_value _ _ _ _ Hs Hin) as Hp. unfold printable_stats in Hp. cbn [forallb] in Hp.
  rewrite !andb_true_iff in Hp. tauto.
Qed.

Lemma listed_ids js w :
  (λ j, j_get j "host_id") <$> js = (λ h, Some (JStr (host_id h))) <$> listed_hosts w →
  comprehend node_host_id js = Ret (host_id <$> listed_hosts w).
Proof.
  generalize (listed_hosts w) as hs. induction js as [|j js IH]; intros [|h hs]; try done.
  cbn [fmap list_fmap comprehend]. intros [= Hj Hjs]. unfold node_host_id at 1.
  rewrite (node_item_get _ _ _ Hj). by rewrite (IH hs Hjs).
Qed.


(** Three hosts, the last two without a position, as the dashboard last saw them. *)
Definition three_caps (p : option Z) : HostCapabilities :=
  {| backend_type := "lmstudio"; context_window := 4096; base_url := "http://a"; allowed_models := None;
     memory_budget_gb := None; model_sizes_gb := None; model_aliases := None; position := p |}.

Definition three_hosts : World :=
  let add id p := register id (three_caps p) {| max_concurrent_requests := 1 |} 0 in
  {| w_registry := add "c" None (add "b" None (add "a" (Some 0%Z) empty_registry));
     w_health := HealthMonitor_new; w_book := NodeLeaseBook_new; w_backends := ∅; w_external_loads := ∅;
     w_metrics := MetricsRegistry_new (td_seconds 60);
     w_completions := {| cl_window := td_seconds 60; cl_started_at := 0; cl_completions := ∅ |};
     w_now := 0; w_lease_now := 0 |}.

Lemma three_hosts_wf : reg_wf (w_registry three_hosts).
Proof. unfold three_hosts. cbn [w_registry]. auto using register_wf, empty_registry_wf. Qed.

Definition three_rows : Dash :=
  set_rows ["a"; "b"; "c"] [("a", JObj [("position", JInt 0)]); ("b", JObj [("position", JNull)]); ("c", JObj [])] Dash_new.

Lemma moved_order_is_listed_witness :
  ∃ w', (move_selected_node gateway_patch {| cursor_row := 2; row_count := 3 |} (-1) three_rows three_hosts).2 = w' ∧
    host_id <$> listed_hosts w' = ["a"; "c"; "b"].
Proof.
  destruct (moved_order_is_listed {| cursor_row := 2; row_count := 3 |} (-1) three_rows three_hosts 1)
    as (w' & E & H & _).
  - exact three_hosts_wf.
  - by vm_compute.
  - apply Forall_forall. vm_compute. repeat constructor.
  - simpl. lia.
  - by vm_compute.
  - exists w'. split; [by rewrite E|exact H].
Defined.

(** The dashboard sorts by the name of the node, from the end. *)
Definition sorted_dash : Dash := set_sort (Some "node") true Dash_new.

Definition first_poll : outcome dash_error unit * Dash :=
  render_poll {| cursor_row := 0; row_count := 0 |}
    (request_answer (inr (200, nodes_body match (list_nodes default_lease_settings three_hosts).1 with
                                         Ret js => js | Raise _ => [] end))%Z)
    (request_answer (inr (200, match (render_prometheus 5 (host_infos (w_registry three_hosts)) 0
                                        (w_metrics three_hosts)).1 with Ret text => text | Raise _ => "" end))%Z)
    1000000 sorted_dash.

Example first_poll_rows :
  (λ cells, head cells) <$> table_rows (d_ui first_poll.2) = [Some (plain_text "c"); Some (plain_text "b"); Some (plain_text "a")].
Proof. by vm_compute. Qed.

