(* ===== verification/NodeForm.v ===== *)
(** * The node form of the dashboard ([tui/app.py], [NodeFormScreen] and [RemoveNodeConfirmScreen])

    The form shows a node's capabilities as text, collects them again when it is saved, and
    sends them in one [PATCH] (or registration).  The state is the text of its inputs.  The
    round trip says when saving a form nobody touched leaves the host as it was
    ([edit_form_round_trip]), and what it does to an empty allow list
    ([saving_lifts_empty_allow_list]). *)

From S2P Require Import Prelude.
From S2P Require Import PyFloat.
From S2P Require Import PyStr.
From S2P Require Import PyNum.
From S2P Require Import PyRound.
From S2P Require Import PyDict.
From S2P Require Import PyJson.
From S2P Require Import Registry.
From S2P Require Import Leases.
From S2P Require Import LoadProbe.
From S2P Require Import Nodes.
From S2P Require Import DashboardView.

#[local] Open Scope list_scope.

(** ** Strings *)

(** [s.split(c)] *)
Fixpoint str_split (c : ascii) (s : string) : list string :=
  match s with
  | EmptyString => [""]
  | String d s =>
      if bool_decide (d = c) then "" :: str_split c s
      else match str_split c s with
           | [] => [String d ""]
           | p :: ps => String d p :: ps
           end
  end.

Definition comma : ascii := ",".

(** [[m.strip() for m in s.split(",") if m.strip()]] *)
Definition split_names (s : string) : list string :=
  filter (λ m, m ≠ "") (str_strip <$> str_split comma s).

(** ** The form *)

Definition KNOWN_BACKEND_TYPES : list string := ["lmstudio"; "llamaserver"].

Definition DEFAULT_BASE_URLS : dict string string :=
  [("lmstudio", "http://localhost:1234"); ("llamaserver", "http://localhost:8080")].

Inductive form_mode := FormRegister | FormEdit.

(** A row of a mapping: its widget id, the name and the value. *)
Record form_row := { fr_id : string; fr_name : string; fr_value : string }.

Record NodeForm := {
  nf_mode : form_mode;
  nf_host_id : string;
  nf_backend_type : string;
  nf_backend_type_options : list string;
  nf_context_window : string;
  nf_max_concurrent_requests : string;
  nf_base_url : string;
  nf_allowed_models : string;
  nf_memory_budget_gb : string;
  nf_size_rows : list form_row;
  nf_alias_rows : list form_row;
  nf_size_row_seq : Z;
  nf_alias_row_seq : Z;
  nf_suggested_base_url : option string;
  nf_error : string;
}.

(** [x or None] of a text. *)
Definition or_none (s : string) : option string := if bool_decide (s = "") then None else Some s.

(** [cast(list, value) or []]: [None] where the value is neither absent nor a list of texts. *)
Definition str_list (j : json) : option (list string) :=
  if negb (j_truthy j) then Some []
  else match j with
       | JList l => mapM (λ j, match j with JStr s => Some s | _ => None end) l
       | _ => None
       end.

Definition obj_items (j : json) : option (list (string * json)) :=
  if negb (j_truthy j) then Some [] else match j with JObj o => Some o | _ => None end.

(** [_add_size_row], [_add_alias_row]: the sequence number names the row. *)
Fixpoint number_rows (prefix : string) (seq : Z) (rows : list (string * string)) : list form_row :=
  match rows with
  | [] => []
  | (name, value) :: rows =>
      {| fr_id := prefix +:+ str_of_Z (seq + 1); fr_name := name; fr_value := value |} ::
      number_rows prefix (seq + 1) rows
  end.

(** [compose] and [on_mount] for an entry of [GET /v1/nodes], or [{}] for a new node; [None] where
    the entry has a field of another type. *)
Definition open_form (mode : form_mode) (node : json) : option NodeForm :=
  allowed_models ← str_list (j_lookup node "allowed_models");
  sizes ← obj_items (j_lookup node "model_sizes_gb");
  aliases ← obj_items (j_lookup node "model_aliases");
  alias_rows ← mapM (λ p : string * json, pair p.1 ∘ str_join ", " <$> str_list p.2) aliases;
  let memory_budget_gb := j_lookup node "memory_budget_gb" in
  let backend_type := let b := j_lookup node "backend_type" in if j_truthy b then py_str b else "lmstudio" in
  let shown key := match j_get node key with Some v => py_str v | None => "" end in
  let base_url := shown "base_url" in
  let suggestion := default "" (d_get DEFAULT_BASE_URLS backend_type) in
  Some {| nf_mode := mode; nf_host_id := ""; nf_backend_type := backend_type;
          nf_backend_type_options :=
            if bool_decide (backend_type ∈ KNOWN_BACKEND_TYPES) then KNOWN_BACKEND_TYPES
            else KNOWN_BACKEND_TYPES ++ [backend_type];
          nf_context_window := shown "context_window";
          nf_max_concurrent_requests := shown "max_concurrent_requests";
          nf_base_url := if bool_decide (base_url = "") then suggestion else base_url;
          nf_allowed_models := str_join ", " allowed_models;
          nf_memory_budget_gb := match memory_budget_gb with JNull => "" | v => py_str v end;
          nf_size_rows := number_rows "size-row-" 0 ((λ p, (p.1, py_str p.2)) <$> sizes);
          nf_alias_rows := number_rows "alias-row-" 0 alias_rows;
          nf_size_row_seq := Z.of_nat (length sizes);
          nf_alias_row_seq := Z.of_nat (length alias_rows);
          nf_suggested_base_url := if bool_decide (base_url = "") then or_none suggestion else None;
          nf_error := "" |}.

(** ** Collecting *)

Record FormFields := {
  ff_backend_type : string;
  ff_context_window : Z;
  ff_max_concurrent_requests : Z;
  ff_base_url : string;
  ff_host_id : option string;
  ff_allowed_models : option (list string);
  ff_memory_budget_gb : option float;
  ff_model_sizes_gb : option (dict string float);
  ff_model_aliases : option (dict string (list string));
}.

(** A message for the operator. *)
Abbreviation form_result A := (string + A)%type.

(** [_collect_mapping_rows]: a row without a name or a value is skipped, but its name counts as
    seen. *)
Fixpoint collect_rows {V} (parse_value : string → option V) (value_error : string) (rows : list form_row)
    (result : dict string V) (seen : list string) : form_result (dict string V) :=
  match rows with
  | [] => inr result
  | row :: rows =>
      let name := str_strip (fr_name row) in
      if bool_decide (name = "") then collect_rows parse_value value_error rows result seen
      else if bool_decide (name ∈ seen) then
        inl ("duplicate model name " +:+ String dquote_char "" +:+ name +:+ String dquote_char "")
      else
        let raw_value := str_strip (fr_value row) in
        if bool_decide (raw_value = "") then collect_rows parse_value value_error rows result (name :: seen)
        else match parse_value raw_value with
             | None => inl value_error
             | Some v => collect_rows parse_value value_error rows (d_set result name v) (name :: seen)
             end
  end.

(** [d or None] *)
Definition dict_or_none {V} (d : dict string V) : option (dict string V) :=
  match d with [] => None | _ => Some d end.

Definition collect_memory (raw : string) : form_result (option float) :=
  if bool_decide (raw = "") then inr None
  else match float_of_str raw with
       | Some x => inr (Some x)
       | None => inl "memory_budget_gb must be a number"
       end.

Definition collect_host_id (f : NodeForm) : form_result (option string) :=
  match nf_mode f with
  | FormEdit => inr None
  | FormRegister =>
      let host_id := str_strip (nf_host_id f) in
      if bool_decide (host_id = "") then inl "host_id must not be empty" else inr (Some host_id)
  end.

Definition collect_fields (f : NodeForm) : form_result FormFields :=
  match int_of_str (nf_context_window f), int_of_str (nf_max_concurrent_requests f) with
  | Some context_window, Some max_concurrent_requests =>
      let base_url := str_strip (nf_base_url f) in
      if bool_decide (base_url = "") then inl "base_url must not be empty"
      else match collect_host_id f with
      | inl e => inl e
      | inr host_id =>
      let allowed_models_raw := str_strip (nf_allowed_models f) in
      match collect_memory (str_strip (nf_memory_budget_gb f)) with
      | inl e => inl e
      | inr memory_budget_gb =>
      match collect_rows float_of_str "model_sizes_gb values must be numbers" (nf_size_rows f) [] [] with
      | inl e => inl e
      | inr sizes =>
      match collect_rows (Some ∘ split_names) "model_aliases values must not be empty" (nf_alias_rows f) [] [] with
      | inl e => inl e
      | inr aliases =>
          inr {| ff_backend_type := nf_backend_type f; ff_context_window := context_window;
                 ff_max_concurrent_requests := max_concurrent_requests; ff_base_url := base_url;
                 ff_host_id := host_id;
                 ff_allowed_models := if bool_decide (allowed_models_raw = "") then None
                                      else Some (split_names allowed_models_raw);
                 ff_memory_budget_gb := memory_budget_gb; ff_model_sizes_gb := dict_or_none sizes;
                 ff_model_aliases := dict_or_none aliases |}
      end end end end
  | _, _ => inl "context_window and max_concurrent_requests must be whole numbers"
  end.

(** ** Events *)

Definition set_rows (sizes aliases : list form_row) (size_seq alias_seq : Z) (f : NodeForm) : NodeForm :=
  {| nf_mode := nf_mode f; nf_host_id := nf_host_id f; nf_backend_type := nf_backend_type f;
     nf_backend_type_options := nf_backend_type_options f; nf_context_window := nf_context_window f;
     nf_max_concurrent_requests := nf_max_concurrent_requests f; nf_base_url := nf_base_url f;
     nf_allowed_models := nf_allowed_models f; nf_memory_budget_gb := nf_memory_budget_gb f; nf_size_rows := sizes;
     nf_alias_rows := aliases; nf_size_row_seq := size_seq; nf_alias_row_seq := alias_seq;
     nf_suggested_base_url := nf_suggested_base_url f; nf_error := nf_error f |}.

Definition set_backend (backend_type base_url : string) (suggested : option string) (f : NodeForm) : NodeForm :=
  {| nf_mode := nf_mode f; nf_host_id := nf_host_id f; nf_backend_type := backend_type;
     nf_backend_type_options := nf_backend_type_options f; nf_context_window := nf_context_window f;
     nf_max_concurrent_requests := nf_max_concurrent_requests f; nf_base_url := base_url;
     nf_allowed_models := nf_allowed_models f; nf_memory_budget_gb := nf_memory_budget_gb f;
     nf_size_rows := nf_size_rows f; nf_alias_rows := nf_alias_rows f; nf_size_row_seq := nf_size_row_seq f;
     nf_alias_row_seq := nf_alias_row_seq f; nf_suggested_base_url := suggested; nf_error := nf_error f |}.

Definition set_error (e : string) (f : NodeForm) : NodeForm :=
  {| nf_mode := nf_mode f; nf_host_id := nf_host_id f; nf_backend_type := nf_backend_type f;
     nf_backend_type_options := nf_backend_type_options f; nf_context_window := nf_context_window f;
     nf_max_concurrent_requests := nf_max_concurrent_requests f; nf_base_url := nf_base_url f;
     nf_allowed_models := nf_allowed_models f; nf_memory_budget_gb := nf_memory_budget_gb f;
     nf_size_rows := nf_size_rows f; nf_alias_rows := nf_alias_rows f; nf_size_row_seq := nf_size_row_seq f;
     nf_alias_row_seq := nf_alias_row_seq f; nf_suggested_base_url := nf_suggested_base_url f; nf_error := e |}.

(** [on_select_changed]: an address the operator typed is left alone. *)
Definition select_backend_type (backend_type : string) (f : NodeForm) : NodeForm :=
  if negb (bool_decide (str_strip (nf_base_url f) = "")) &&
     negb (bool_decide (Some (nf_base_url f) = nf_suggested_base_url f))
  then set_backend backend_type (nf_base_url f) (nf_suggested_base_url f) f
  else
    let suggestion := default "" (d_get DEFAULT_BASE_URLS backend_type) in
    set_backend backend_type suggestion (or_none suggestion) f.

Inductive form_button := SaveButton | CancelButton | AddSizeButton | AddMappingButton | RemoveButton (row_id : string).

(** What the screen is dismissed with: [None] while it stays open. *)
Definition press (b : form_button) (f : NodeForm) : NodeForm * option (option FormFields) :=
  let seq := nf_size_row_seq f in
  let alias_seq := nf_alias_row_seq f in
  match b with
  | CancelButton => (f, Some None)
  | AddSizeButton =>
      (set_rows (nf_size_rows f ++ number_rows "size-row-" seq [("", "")]) (nf_alias_rows f) (seq + 1) alias_seq f, None)
  | AddMappingButton =>
      (set_rows (nf_size_rows f) (nf_alias_rows f ++ number_rows "alias-row-" alias_seq [("", "")]) seq (alias_seq + 1) f,
       None)
  | RemoveButton row_id =>
      (set_rows (filter (λ r, fr_id r ≠ row_id) (nf_size_rows f)) (filter (λ r, fr_id r ≠ row_id) (nf_alias_rows f))
         seq alias_seq f, None)
  | SaveButton =>
      match collect_fields f with
      | inl e => (set_error e f, None)
      | inr fields => (f, Some (Some fields))
      end
  end.

(** [RemoveNodeConfirmScreen.on_button_pressed] *)
Definition confirm_removal (button_id : string) : bool := bool_decide (button_id = "confirm").

(** ** What the gateway makes of the fields *)

(** The body of the [PATCH]: every field is set, the position is not among them. *)
Definition fields_update (f : FormFields) : NodeUpdate :=
  {| up_backend_type := Some (ff_backend_type f); up_context_window := Some (ff_context_window f);
     up_base_url := Some (ff_base_url f); up_max_concurrent_requests := Some (ff_max_concurrent_requests f);
     up_allowed_models := Some (ff_allowed_models f); up_memory_budget_gb := Some (ff_memory_budget_gb f);
     up_model_sizes_gb := Some (list_to_map <$> ff_model_sizes_gb f);
     up_model_aliases := Some (list_to_map <$> ff_model_aliases f); up_position := None |}.

(** ** Trimmed texts *)

Definition trimmed (s : string) : bool :=
  negb (bool_decide (s = "")) && bool_decide (str_lstrip s = s) && bool_decide (str_rstrip s = s).

Lemma trimmed_inv s : trimmed s = true → s ≠ "" ∧ str_lstrip s = s ∧ str_rstrip s = s.
Proof. unfold trimmed. rewrite !andb_true_iff, negb_true_iff, bool_decide_eq_false, !bool_decide_eq_true. tauto. Qed.

Lemma trimmed_strip s : trimmed s = true → str_strip s = s.
Proof. intros (_ & Hl & Hr)%trimmed_inv. unfold str_strip. by rewrite Hl. Qed.

Lemma lstrip_app s t : s ≠ "" → str_lstrip s = s → str_lstrip (s +:+ t) = s +:+ t.
Proof.
  destruct s as [|c s]; [done|]. intros _ Hl. rewrite str_cons_app. cbn [str_lstrip] in *.
  destruct (py_isspace c); [|done]. exfalso. apply (f_equal String.length) in Hl.
  assert (H : ∀ u, (String.length (str_lstrip u) ≤ String.length u)%nat).
  { induction u as [|d u IH]; simpl; [done|]. destruct (py_isspace d); simpl; lia. }
  specialize (H s). cbn [String.length] in Hl. lia.
Qed.

Lemma rstrip_app s t : str_rstrip t ≠ "" → str_rstrip (s +:+ t) = s +:+ str_rstrip t.
Proof.
  intros Ht. induction s as [|c s IH]; [done|]. rewrite !str_cons_app. cbn [str_rstrip]. rewrite IH.
  destruct s; [|done]. rewrite str_app_nil_l. by destruct (str_rstrip t).
Qed.

(** A list of trimmed names written with [", ".join]. *)
Definition name_ok (s : string) : bool := trimmed s && negb (str_contains comma s).

Lemma join_cons p q ps : str_join ", " (p :: q :: ps) = p +:+ ", " +:+ str_join ", " (q :: ps).
Proof. done. Qed.

Lemma join_trimmed l : l ≠ [] → forallb name_ok l = true → trimmed (str_join ", " l) = true.
Proof.
  intros Hne. assert (Ht : ∀ s, name_ok s = true → s ≠ "" ∧ str_lstrip s = s ∧ str_rstrip s = s).
  { intros s [H _]%andb_true_iff. by apply trimmed_inv. }
  induction l as [|p [|q l] IH]; [done| |].
  - simpl. rewrite andb_true_r. by intros [H _]%andb_true_iff.
  - rewrite join_cons. intros [Hp Hl]%andb_true_iff. apply IH in Hl; [|done].
    destruct (Ht p Hp) as (Hp1 & Hp2 & _). destruct (trimmed_inv _ Hl) as (Hl1 & _ & Hl3).
    unfold trimmed. rewrite !andb_true_iff, negb_true_iff, bool_decide_eq_false, !bool_decide_eq_true. split_and!.
    + by destruct p.
    + by apply lstrip_app.
    + rewrite <-str_app_assoc, rstrip_app by by rewrite Hl3. by rewrite Hl3.
Qed.

Lemma split_no_comma s : str_contains comma s = false → str_split comma s = [s].
Proof.
  unfold str_contains. rewrite negb_false_iff. induction s as [|c s IH]; [done|]. cbn [str_all str_split].
  rewrite andb_true_iff. intros [Hc%negb_true_iff Hs]. by rewrite Hc, IH.
Qed.

Lemma split_app_comma s t : str_contains comma s = false → str_split comma (s +:+ String comma t) = s :: str_split comma t.
Proof.
  unfold str_contains. rewrite negb_false_iff. induction s as [|c s IH].
  - intros _. rewrite str_app_nil_l. cbn [str_split]. by rewrite bool_decide_eq_true_2.
  - cbn [str_all]. rewrite andb_true_iff, str_cons_app. intros [Hc%negb_true_iff Hs]. cbn [str_split].
    by rewrite Hc, IH.
Qed.

Lemma strip_leading_space s : str_strip (String " "%char s) = str_strip s.
Proof. reflexivity. Qed.

Lemma split_leading_space s : ∃ p ps, str_split comma s = p :: ps ∧ str_split comma (String " "%char s) = String " "%char p :: ps.
Proof.
  cbn [str_split]. rewrite bool_decide_eq_false_2 by done.
  assert (H : str_split comma s ≠ []). { destruct s; simpl; [done|]. case_bool_decide; [done|]. by destruct (str_split _ _). }
  destruct (str_split comma s) as [|p ps]; [done|]. by exists p, ps.
Qed.

(** Splitting what [join] wrote gives the names back. *)
Lemma split_join l : l ≠ [] → forallb name_ok l = true → str_strip <$> str_split comma (str_join ", " l) = l.
Proof.
  intros Hne. induction l as [|p [|q l] IH]; [done| |].
  - cbn [forallb]. rewrite andb_true_r. intros [Hp Hc%negb_true_iff]%andb_true_iff.
    cbn [str_join]. rewrite split_no_comma by done. cbn. by rewrite trimmed_strip.
  - cbn [forallb]. intros [[Hp Hc%negb_true_iff]%andb_true_iff Hl]%andb_true_iff. rewrite join_cons.
    change (", " +:+ str_join ", " (q :: l)) with (String comma (String " "%char (str_join ", " (q :: l)))).
    rewrite split_app_comma by done. cbn [fmap list_fmap]. rewrite trimmed_strip by done. f_equal.
    destruct (split_leading_space (str_join ", " (q :: l))) as (p' & ps & E1 & E2). rewrite E2. cbn [fmap list_fmap].
    rewrite strip_leading_space. specialize (IH ltac:(done) Hl). by rewrite E1 in IH.
Qed.

Lemma split_names_join l : l ≠ [] → forallb name_ok l = true → split_names (str_join ", " l) = l.
Proof.
  intros Hne Hl. unfold split_names. rewrite split_join by done. clear Hne.
  induction l as [|p l IH]; [done|]. cbn [forallb] in Hl. apply andb_true_iff in Hl as [Hp Hl].
  apply andb_true_iff in Hp as [(Hp & _)%trimmed_inv _]. rewrite filter_cons, decide_True by done. f_equal. auto.
Qed.

(** ** Rows *)

(** Rows whose values parse give their dictionary back. *)
Lemma collect_rows_ok {V} (parse : string → option V) err prefix seq0 (rows : list (string * string)) (d : dict string V) result seen :
  Forall2 (λ r p, r.1 = p.1 ∧ trimmed r.1 = true ∧ trimmed r.2 = true ∧ parse r.2 = Some p.2) rows d →
  NoDup (d_keys d) → (∀ k, k ∈ d_keys d → (k ∉ seen) ∧ (k ∉ d_keys result)) →
  collect_rows parse err (number_rows prefix seq0 rows) result seen = inr (result ++ d).
Proof.
  intros H. revert seq0 result seen. induction H as [|[name value] [k v] rows d (Hk & Hn & Hv & Hp) _ IH];
    intros seq0 result seen Hnd Hfresh; [by rewrite app_nil_r|].
  cbn [fst snd] in *. subst k. rewrite d_keys_cons in Hnd. apply NoDup_cons in Hnd as [Hnew Hnd].
  destruct (Hfresh name) as [Hseen Hres]; [left|]. cbn [number_rows collect_rows fr_name fr_value].
  rewrite !trimmed_strip by done. destruct (trimmed_inv _ Hn) as [Hn' _]. destruct (trimmed_inv _ Hv) as [Hv' _].
  rewrite !bool_decide_eq_false_2 by done. rewrite Hp.
  assert (Eset : d_set result name v = result ++ [(name, v)]).
  { clear -Hres. induction result as [|[k w] result IHr]; [done|]. rewrite d_keys_cons in Hres.
    apply not_elem_of_cons in Hres as [Hk Hres]. simpl. rewrite decide_False by done. f_equal. by apply IHr. }
  rewrite Eset, IH; [by rewrite <-app_assoc|done|].
  intros k Hk. destruct (Hfresh k) as [H1 H2]; [by right|]. split.
  - apply not_elem_of_cons. split; [by intros ->|done].
  - unfold d_keys in *. rewrite fmap_app. apply not_elem_of_app. split; [done|]. simpl. intros ->%list_elem_of_singleton.
    by apply Hnew.
Qed.

(** ** The round trip *)

Lemma word_trimmed s : is_word s = true → trimmed s = true.
Proof.
  unfold is_word. rewrite andb_true_iff, negb_true_iff, bool_decide_eq_false. intros [Hs Hne].
  unfold trimmed. rewrite !andb_true_iff, negb_true_iff, bool_decide_eq_false, !bool_decide_eq_true. split_and!; [done| |].
  - destruct s as [|c s]; [done|]. cbn [str_all] in Hs. apply andb_true_iff in Hs as [Hc%negb_true_iff _].
    cbn [str_lstrip]. by rewrite Hc.
  - clear Hne. induction s as [|c s IH]; [done|]. cbn [str_all] in Hs. apply andb_true_iff in Hs as [Hc%negb_true_iff Hs].
    cbn [str_rstrip]. rewrite IH by done. destruct s; [by rewrite Hc|done].
Qed.

Definition printable_int (n : Z) : bool := (Z.of_nat (String.length (str_of_Z (Z.abs n))) <=? max_str_digits)%Z.
Definition names_ok (l : list string) : bool := negb (bool_decide (l = [])) && forallb name_ok l.

(** The capabilities a form can show: texts that survive trimming, lists that are not empty,
    names without commas, and floats that are values of [float]. *)
Definition editable (c : HostCapabilities) (n : HostCapacity) : bool :=
  trimmed (base_url c) && negb (bool_decide (backend_type c = "")) &&
  printable_int (context_window c) && printable_int (max_concurrent_requests n) &&
  match allowed_models c with None => true | Some l => names_ok l end &&
  match memory_budget_gb c with None => true | Some x => valid_binary f_prec f_emax x end &&
  match model_sizes_gb c with
  | None => true
  | Some m => negb (bool_decide (m = ∅)) &&
              forallb (λ p : string * float, trimmed p.1 && valid_binary f_prec f_emax p.2) (map_to_list m)
  end &&
  match model_aliases c with
  | None => true
  | Some m => negb (bool_decide (m = ∅)) &&
              forallb (λ p : string * list string, trimmed p.1 && names_ok p.2) (map_to_list m)
  end.

Lemma mapM_strings l : mapM (λ j, match j with JStr s => Some s | _ => None end) (JStr <$> l) = Some l.
Proof. by apply mapM_fmap_Some. Qed.

Lemma str_list_strings l : str_list (JList (JStr <$> l)) = Some l.
Proof. unfold str_list. destruct l as [|s l]; [done|]. exact (mapM_strings (s :: l)). Qed.

Lemma names_ok_inv l : names_ok l = true → l ≠ [] ∧ forallb name_ok l = true.
Proof. unfold names_ok. by rewrite andb_true_iff, negb_true_iff, bool_decide_eq_false. Qed.

Lemma dict_or_none_map {V} (m : gmap string V) :
  m ≠ ∅ → list_to_map <$> dict_or_none (map_to_list m) = Some m.
Proof.
  intros Hm. rewrite <-(list_to_map_to_list m) at 2. destruct (map_to_list m) eqn:E; [|done].
  by apply map_to_list_empty_iff in E.
Qed.

Lemma obj_items_map {V} (f : V → json) (m : gmap string V) :
  obj_items (JObj ((λ p, (p.1, f p.2)) <$> map_to_list m)) = Some ((λ p, (p.1, f p.2)) <$> map_to_list m).
Proof. unfold obj_items. by destruct (map_to_list m). Qed.

(** The mappings of the form, one after the other. *)
Lemma sizes_round_trip (o : option (gmap string float)) items :
  match o with None => true | Some m => negb (bool_decide (m = ∅)) &&
    forallb (λ p : string * float, trimmed p.1 && valid_binary f_prec f_emax p.2) (map_to_list m) end = true →
  obj_items (to_json o) = Some items →
  ∃ d, collect_rows float_of_str "model_sizes_gb values must be numbers"
         (number_rows "size-row-" 0 ((λ p, (p.1, py_str p.2)) <$> items)) [] [] = inr d ∧
       list_to_map <$> dict_or_none d = o.
Proof.
  intros Ho Hi. destruct o as [m|]; [|injection Hi as <-; by exists []].
  apply andb_true_iff in Ho as [Hne%negb_true_iff%bool_decide_eq_false Hall].
  change (to_json (Some m)) with (JObj ((λ p : string * float, (p.1, JFloat p.2)) <$> map_to_list m)) in Hi.
  rewrite obj_items_map in Hi. injection Hi as <-. exists (map_to_list m). split; [|by apply dict_or_none_map].
  apply (collect_rows_ok _ _ _ _ _ (map_to_list m) [] []); [|apply NoDup_fst_map_to_list|set_solver].
  rewrite <-list_fmap_compose. apply Forall2_fmap_l, Forall_Forall2_diag, Forall_forall. intros [k x] Hin. simpl.
  rewrite forallb_forall in Hall. specialize (Hall _ (proj1 (list_elem_of_In _ _) Hin)). cbn [fst snd] in Hall.
  apply andb_true_iff in Hall as [Hk Hx]. split_and!; [done|done| |by apply float_of_str_of_float].
  by apply word_trimmed, str_of_float_word.
Qed.

Lemma aliases_round_trip (o : option (gmap string (list string))) items rows :
  match o with None => true | Some m => negb (bool_decide (m = ∅)) &&
    forallb (λ p : string * list string, trimmed p.1 && names_ok p.2) (map_to_list m) end = true →
  obj_items (to_json o) = Some items →
  mapM (λ p : string * json, pair p.1 ∘ str_join ", " <$> str_list p.2) items = Some rows →
  ∃ d, collect_rows (Some ∘ split_names) "model_aliases values must not be empty"
         (number_rows "alias-row-" 0 rows) [] [] = inr d ∧
       list_to_map <$> dict_or_none d = o.
Proof.
  intros Ho Hi Hr. destruct o as [m|]; [|injection Hi as <-; injection Hr as <-; by exists []].
  apply andb_true_iff in Ho as [Hne%negb_true_iff%bool_decide_eq_false Hall].
  change (to_json (Some m)) with (JObj ((λ p : string * list string, (p.1, JList (JStr <$> p.2))) <$> map_to_list m)) in Hi.
  rewrite (obj_items_map (λ l, JList (JStr <$> l))) in Hi. injection Hi as <-. exists (map_to_list m). split; [|by apply dict_or_none_map].
  apply (collect_rows_ok _ _ _ _ _ (map_to_list m) [] []); [|apply NoDup_fst_map_to_list|set_solver].
  apply mapM_Some, Forall2_fmap_l in Hr. apply Forall2_lookup. intros i.
  pose proof (proj1 (Forall2_lookup _ _ _) Hr i) as Hri. clear Hr. rename Hri into Hr.
  destruct (map_to_list m !! i) as [[k l]|] eqn:Hi; inversion Hr as [? [name value] E Hx Hy|]; constructor.
  unfold compose in E. cbn [fst snd] in E. rewrite str_list_strings in E. injection E as <- <-. cbn [fst snd].
  rewrite forallb_forall in Hall. specialize (Hall _ (proj1 (list_elem_of_In _ _) (list_elem_of_lookup_2 _ _ _ Hi))).
  cbn [fst snd] in Hall. apply andb_true_iff in Hall as [Hk (Hl & Hl')%names_ok_inv].
  split_and!; [done|done|by apply join_trimmed|]. simpl. by rewrite split_names_join.
Qed.

(** The entry of a host with the capabilities [c]. *)
Definition shows_capabilities (node : json) (c : HostCapabilities) (n : HostCapacity) : Prop :=
  j_get node "backend_type" = Some (JStr (backend_type c)) ∧
  j_get node "context_window" = Some (JInt (context_window c)) ∧
  j_get node "base_url" = Some (JStr (base_url c)) ∧
  j_get node "max_concurrent_requests" = Some (JInt (max_concurrent_requests n)) ∧
  j_get node "allowed_models" = Some (to_json (allowed_models c)) ∧
  j_get node "memory_budget_gb" = Some (to_json (memory_budget_gb c)) ∧
  j_get node "model_sizes_gb" = Some (to_json (model_sizes_gb c)) ∧
  j_get node "model_aliases" = Some (to_json (model_aliases c)).

Lemma node_json_shows w h load ws rate slot_rate lease :
  shows_capabilities (node_json w h load ws rate slot_rate lease) (capabilities h) (capacity h).
Proof. split_and!; reflexivity. Qed.

Lemma allowed_round_trip (o : option (list string)) l :
  match o with None => true | Some l => names_ok l end = true → str_list (to_json o) = Some l →
  (if bool_decide (str_strip (str_join ", " l) = "") then None
   else Some (split_names (str_strip (str_join ", " l)))) = o.
Proof.
  intros Ho Hl. destruct o as [names|]; [|by injection Hl as <-].
  change (to_json (Some names)) with (JList (JStr <$> names)) in Hl. rewrite str_list_strings in Hl. injection Hl as <-.
  apply names_ok_inv in Ho as [Hne Hall]. pose proof (join_trimmed _ Hne Hall) as Ht.
  rewrite trimmed_strip by done. apply trimmed_inv in Ht as [Ht _]. rewrite bool_decide_eq_false_2 by done.
  by rewrite split_names_join.
Qed.

Lemma memory_round_trip (o : option float) :
  match o with None => true | Some x => valid_binary f_prec f_emax x end = true →
  collect_memory (str_strip match to_json o with JNull => "" | _ => py_str (to_json o) end) = inr o.
Proof.
  intros Ho. destruct o as [x|]; [|done]. change (to_json (Some x)) with (JFloat x). cbn [py_str py_repr].
  pose proof (word_trimmed _ (str_of_float_word x Ho)) as Ht. rewrite trimmed_strip by done.
  apply trimmed_inv in Ht as [Ht _]. unfold collect_memory. rewrite bool_decide_eq_false_2 by done.
  by rewrite float_of_str_of_float.
Qed.

Lemma aliases_open (o : option (gmap string (list string))) :
  ∃ items rows, obj_items (to_json o) = Some items ∧
    mapM (λ p : string * json, pair p.1 ∘ str_join ", " <$> str_list p.2) items = Some rows.
Proof.
  destruct o as [m|]; [|by exists [], []].
  exists ((λ p : string * list string, (p.1, JList (JStr <$> p.2))) <$> map_to_list m),
    ((λ p : string * list string, (p.1, str_join ", " p.2)) <$> map_to_list m).
  split; [apply (obj_items_map (λ l, JList (JStr <$> l)))|].
  apply mapM_Some, Forall2_fmap, Forall_Forall2_diag, Forall_forall. intros [k l] _. unfold compose. cbn [fst snd].
  by rewrite str_list_strings.
Qed.

Lemma sizes_open (o : option (gmap string float)) : ∃ items, obj_items (to_json o) = Some items.
Proof. destruct o as [m|]; [|by exists []]. eexists. apply (obj_items_map JFloat). Qed.

(** The capabilities [c] at another place of the order. *)
Definition with_position (p : option Z) (c : HostCapabilities) : HostCapabilities :=
  {| backend_type := backend_type c; context_window := context_window c; base_url := base_url c;
     allowed_models := allowed_models c; memory_budget_gb := memory_budget_gb c; model_sizes_gb := model_sizes_gb c;
     model_aliases := model_aliases c; position := p |}.

(** What a form nobody touched sends: everything it showed, whatever the host is by then. *)
Lemma untouched_form node c n :
  shows_capabilities node c n → editable c n = true →
  ∃ form fields, open_form FormEdit node = Some form ∧ collect_fields form = inr fields ∧
    (∀ c', replace_capabilities (fields_update fields) c' = with_position (position c') c) ∧
    ∀ n', replace_capacity (fields_update fields) n' = n.
Proof.
  intros (Hb & Hw & Hu & Hn & Ha & Hm & Hs & Hal). unfold editable. rewrite !andb_true_iff, negb_true_iff, bool_decide_eq_false.
  intros (((((((Eu & Eb) & Ew) & En) & Ea) & Em) & Es) & Eal).
  assert (Hal' : ∃ l, str_list (to_json (allowed_models c)) = Some l).
  { destruct (allowed_models c) as [l|]; [|by exists []]. exists l. apply str_list_strings. }
  destruct Hal' as [l Hl]. destruct (sizes_open (model_sizes_gb c)) as [items Hi].
  destruct (aliases_open (model_aliases c)) as (aitems & rows & Hai & Hrows).
  destruct (sizes_round_trip _ _ Es Hi) as (sizes & Ecol & Esz).
  destruct (aliases_round_trip _ _ _ Eal Hai Hrows) as (aliases & Eacol & Eals).
  assert (Ebt : j_truthy (JStr (backend_type c)) = true) by (simpl; by rewrite bool_decide_eq_false_2).
  destruct (trimmed_inv _ Eu) as [Eu' _].
  unfold open_form, j_lookup. rewrite Hb, Hw, Hu, Hn, Ha, Hm, Hs, Hal. cbn [default from_option id].
  rewrite Hl, Hi, Hai. cbn [mbind option_bind]. rewrite Hrows. cbn [mbind option_bind]. rewrite Ebt.
  eexists. exists {| ff_backend_type := backend_type c; ff_context_window := context_window c;
    ff_max_concurrent_requests := max_concurrent_requests n; ff_base_url := base_url c; ff_host_id := None;
    ff_allowed_models := allowed_models c; ff_memory_budget_gb := memory_budget_gb c;
    ff_model_sizes_gb := dict_or_none sizes; ff_model_aliases := dict_or_none aliases |}.
  split_and!; [reflexivity| | |by intros n'; destruct n].
  - unfold collect_fields. cbn [nf_context_window nf_max_concurrent_requests nf_base_url nf_mode nf_allowed_models
      nf_memory_budget_gb nf_size_rows nf_alias_rows nf_backend_type collect_host_id].
    rewrite memory_round_trip by done. change (py_str (JStr ?t)) with t. change (py_str (JInt ?k)) with (str_of_Z k).
    rewrite !int_of_str_of_Z by by apply Z.leb_le. rewrite (bool_decide_eq_false_2 (base_url c = "")) by done.
    rewrite trimmed_strip by done. rewrite bool_decide_eq_false_2 by done.
    rewrite Ecol, Eacol. by rewrite (allowed_round_trip (allowed_models c)).
  - intros c'. unfold replace_capabilities, fields_update. cbn. by rewrite Esz, Eals.
Qed.

(** Opening the edit form of a host and saving it unchanged changes nothing: the fields
    collected are the host's capabilities again, so the [PATCH] leaves its backend type, its
    context window, its address, its slots, its allow list, its memory budget, its model
    sizes and its aliases as they were, floats to the last bit, and does not touch its
    position.  Needed: texts without surrounding space, model names and aliases without commas, and
    no list or mapping that is present but empty. *)
Theorem edit_form_round_trip node c n :
  shows_capabilities node c n → editable c n = true →
  ∃ form fields, open_form FormEdit node = Some form ∧ collect_fields form = inr fields ∧
    replace_capabilities (fields_update fields) c = c ∧ replace_capacity (fields_update fields) n = n.
Proof.
  intros Hs He. destruct (untouched_form _ _ _ Hs He) as (form & fields & Ho & Hc & Hcap & Hn).
  exists form, fields. split_and!; [done|done| |done]. rewrite Hcap. by destruct c.
Qed.

Definition sample_capabilities : HostCapabilities :=
  {| backend_type := "vllm"; context_window := 8192; base_url := "http://gpu:8000"; allowed_models := Some ["qwen"; "mistral 7b"];
     memory_budget_gb := Some (f_lit 235 10); model_sizes_gb := Some {["qwen" := f_lit 1 3]};
     model_aliases := Some {["qwen" := ["q"; "coder"]]}; position := Some 2%Z |}.

Definition sample_entry (c : HostCapabilities) (n : HostCapacity) : json :=
  JObj [("backend_type", JStr (backend_type c)); ("context_window", JInt (context_window c)); ("base_url", JStr (base_url c));
        ("allowed_models", to_json (allowed_models c)); ("memory_budget_gb", to_json (memory_budget_gb c));
        ("model_sizes_gb", to_json (model_sizes_gb c)); ("model_aliases", to_json (model_aliases c));
        ("max_concurrent_requests", JInt (max_concurrent_requests n))].

Lemma edit_form_round_trip_witness :
  ∃ form fields, open_form FormEdit (sample_entry sample_capabilities {| max_concurrent_requests := 3 |}) = Some form ∧
    nf_allowed_models form = "qwen, mistral 7b" ∧ nf_memory_budget_gb form = "23.5" ∧
    collect_fields form = inr fields ∧
    replace_capabilities (fields_update fields) sample_capabilities = sample_capabilities.
Proof.
  destruct (edit_form_round_trip (sample_entry sample_capabilities {| max_concurrent_requests := 3 |})
    sample_capabilities {| max_concurrent_requests := 3 |}) as (form & fields & Ef & Ec & Er & _).
  - split_and!; reflexivity.
  - by vm_compute.
  - exists form, fields. assert (H : Some form = open_form FormEdit (sample_entry sample_capabilities
      {| max_concurrent_requests := 3 |})) by by rewrite Ef. vm_compute in H. injection H as ->.
    split_and!; [exact Ef|reflexivity|reflexivity|exact Ec|exact Er].
Defined.

(** An allow list that is present but empty does not survive the form: the host serves no model, and
    once its form was opened and saved unchanged it has no list at all, which lets it serve
    every model. *)
Theorem saving_lifts_empty_allow_list node c n form fields answers model :
  shows_capabilities node c n → allowed_models c = Some [] →
  open_form FormEdit node = Some form → collect_fields form = inr fields →
  (∀ h, capabilities h = c → serves answers model h = false) ∧
  allowed_models (replace_capabilities (fields_update fields) c) = None ∧
  (∀ h, capabilities h = replace_capabilities (fields_update fields) c → answers (host_id h) = Models (Some [model]) →
     serves answers model h = true).
Proof.
  intros (_ & _ & _ & _ & Ha & _) Hc Hopen Hsave. rewrite Hc in Ha.
  assert (Hform : nf_allowed_models form = "").
  { unfold open_form, j_lookup in Hopen. rewrite Ha in Hopen.
    apply bind_Some in Hopen as (names & Hnames & Hopen). injection Hnames as <-.
    do 3 apply bind_Some in Hopen as (? & _ & Hopen). by injection Hopen as <-. }
  assert (Hnone : ff_allowed_models fields = None).
  { unfold collect_fields in Hsave. rewrite Hform in Hsave. revert Hsave.
    repeat case_match; try done; by intros [= <-]. }
  assert (Hrep : allowed_models (replace_capabilities (fields_update fields) c) = None) by (cbn; by rewrite Hnone).
  split_and!; [|done|].
  - intros h Hh. unfold serves. by rewrite Hh, Hc.
  - intros h Hh Ha'. unfold serves. rewrite Hh, Hrep, Ha'. by rewrite bool_decide_eq_true_2 by left.
Qed.

Definition closed_capabilities : HostCapabilities :=
  {| backend_type := "lmstudio"; context_window := 8192; base_url := "http://gpu:8000"; allowed_models := Some [];
     memory_budget_gb := None; model_sizes_gb := None; model_aliases := None; position := None |}.

Lemma saving_lifts_empty_allow_list_witness :
  ∃ fields, allowed_models (replace_capabilities (fields_update fields) closed_capabilities) = None ∧
    context_window (replace_capabilities (fields_update fields) closed_capabilities) = 8192%Z.
Proof.
  destruct (open_form FormEdit (sample_entry closed_capabilities {| max_concurrent_requests := 3 |})) as [form|] eqn:Ef;
    [|by vm_compute in Ef].
  destruct (collect_fields form) as [e|fields] eqn:Ec.
  { exfalso. assert (H : Some form = open_form FormEdit (sample_entry closed_capabilities {| max_concurrent_requests := 3 |}))
      by by rewrite Ef. vm_compute in H. injection H as ->. by vm_compute in Ec. }
  exists fields. split.
  - apply (saving_lifts_empty_allow_list (sample_entry closed_capabilities {| max_concurrent_requests := 3 |})
      closed_capabilities {| max_concurrent_requests := 3 |} form fields (λ _, Models None) "m"); [|done|exact Ef|exact Ec].
    split_and!; reflexivity.
  - assert (H : Some form = open_form FormEdit (sample_entry closed_capabilities {| max_concurrent_requests := 3 |}))
      by by rewrite Ef. vm_compute in H. injection H as ->. vm_compute in Ec. injection Ec as <-. reflexivity.
Defined.
