(* ===== verification/Gateway.v ===== *)
(** * Chat requests through the gateway ([api/app.py], [chat_completions])

    The handler is a coroutine: between two [await]s it runs without interruption, and other
    requests run while it awaits.  The model cuts it at its awaits: a request arrives, asks
    one backend after the other which models it has, is admitted after the last answer, may
    wait in the queue and wake up at every poll, runs on a backend and ends.  [run_op] makes one such step, or
    one step of the rest of the system; a sequence of operations is an interleaving.

    A request holds its hosts as references into the registry's heap, as the coroutine
    does. *)

From S2P Require Import Prelude.
From S2P Require Import PyFloat.
From S2P Require Import PyStr.
From S2P Require Import PyDict.
From S2P Require Import PyJson.
From S2P Require Import ApiModels.
From S2P Require Import Registry.
From S2P Require Import Health.
From S2P Require Import Leases.
From S2P Require Import Scheduling.
From S2P Require Import Routing.
From S2P Require Import LoadProbe.
From S2P Require Import Throughput.
From S2P Require Import Metrics.
From S2P Require Import Nodes.

#[local] Open Scope list_scope.

(** ** Requests *)

(** What the handler of a request holds: its body, its lease header and the time at which it
    began. *)
Record Chat := {
  ch_request : ChatCompletionRequest;
  ch_token : option string;
  ch_now : datetime;
}.

(** What a backend call ends with. *)
Inductive backend_result :=
  | BackendOk (content : string) (finish_reason : string) (prompt_tokens completion_tokens : Z)
      (latency_ms : float)
  | BackendFailed (timeout : bool) (msg : string)
  | BackendAborted.

(** What a stream ends with: it ran to its end, or the iteration stopped by an exception or
    because the client went away. *)
Inductive stream_result :=
  | StreamEnded (usage : option (Z * Z)) (saw_content : bool) (last_finish_reason : option string)
      (latency_ms : float)
  | StreamAborted (e : app_error).

Inductive chat_state :=
  | Probing (c : Chat) (capable : list nat) (blocked : bool) (l : nat) (rest : list nat)
  | Waiting (c : Chat) (locs : list nat) (failover : bool) (waited : float)
  | Running (c : Chat) (backend_id : string) (failover : bool)
  | Finished (r : option app_error).

Abbreviation queue := (SchedulingQueue World app_error).

Record Gateway := {
  g_world : World;
  g_queue : queue;
  g_router : RoutingEngine;
  g_requests : gmap string chat_state;
}.

Definition gw_prog (A : Type) : Type := prog Gateway app_error A.
#[export] Instance gw_prog_ret : MRet gw_prog := λ A, @mret (prog Gateway app_error) _ A.
#[export] Instance gw_prog_bind : MBind gw_prog := λ A B, @mbind (prog Gateway app_error) _ A B.

Definition set_world (w : World) (g : Gateway) : Gateway :=
  {| g_world := w; g_queue := g_queue g; g_router := g_router g; g_requests := g_requests g |}.
Definition set_queue (q : queue) (g : Gateway) : Gateway :=
  {| g_world := g_world g; g_queue := q; g_router := g_router g; g_requests := g_requests g |}.
Definition set_router (r : RoutingEngine) (g : Gateway) : Gateway :=
  {| g_world := g_world g; g_queue := g_queue g; g_router := r; g_requests := g_requests g |}.
Definition set_request (rid : string) (s : chat_state) (g : Gateway) : Gateway :=
  {| g_world := g_world g; g_queue := g_queue g; g_router := g_router g;
     g_requests := <[rid := s]> (g_requests g) |}.

Definition in_world {A} (m : app_prog A) : gw_prog A := λ g,
  let '(r, w) := m (g_world g) in (r, set_world w g).

Definition route_error (e : routing_error) : app_error :=
  match e with NoAvailableBackendError m => ENoAvailableBackend m end.

Definition in_router {A} (m : route_prog A) : gw_prog A := λ g,
  let '(r, e) := m (g_router g) in
  (match r with Ret a => Ret a | Raise e => Raise (route_error e) end, set_router e g).

Definition queue_error_of (e : queue_error app_error) : app_error :=
  match e with CallbackError e => e | _ => EQueue end.

Definition in_queue {A} (m : sched_prog (W := World) (X := app_error) A) : gw_prog A := λ g,
  let '(r, (q, w)) := m (g_queue g, g_world g) in
  (match r with Ret a => Ret a | Raise e => Raise (queue_error_of e) end, set_world w (set_queue q g)).

(** [if token]: an empty header is no token. *)
Definition token_of (c : Chat) : option string :=
  match ch_token c with Some "" | None => None | Some t => Some t end.

Definition infos (w : World) : list HostInfo := host_infos (w_registry w).

Section gateway.
Context (factories : Factories) (cfg : LeaseSettings) (hc : HealthConfig).
(** [dispatch_wait_timeout] and [dispatch_poll_interval] *)
Context (wait_timeout poll_interval : float).

(** ** Admission *)

(** [lease_book.require(token, ...) if token else None] *)
Definition pinned_lease (c : Chat) : app_prog (option NodeLease) := λ w,
  match token_of c with
  | None => (Ret None, w)
  | Some t => (l ← in_book (require t (w_lease_now w)); mret (Some l)) w
  end.

Definition held (id : string) : app_prog bool := λ w,
  let '(b, book) := is_held id (w_lease_now w) (w_book w) in (Ret b, set_book book w).

(** The hosts of [locs] that [keep] keeps, asking in order. *)
Fixpoint filter_hosts (keep : HostInfo → app_prog bool) (locs : list nat) : app_prog (list nat) :=
  match locs with
  | [] => mret []
  | l :: locs => λ w,
      match deref w l with
      | None => filter_hosts keep locs w
      | Some h => (b ← keep h; rest ← filter_hosts keep locs; mret (if b : bool then l :: rest else rest)) w
      end
  end.

Definition open_host (h : HostInfo) : app_prog bool := b ← held (host_id h); mret (negb b).

(** [current_candidates] *)
Definition current_candidates (c : Chat) (locs : list nat) : app_prog (list RoutingCandidate) :=
  live ← pinned_lease c;
  hosts ← filter_hosts (λ h, match live with
                             | Some l => mret (bool_decide (host_id h = nl_host_id l))
                             | None => open_host h
                             end) locs;
  eligible_candidates factories hosts.

Definition candidate_ids (cs : list RoutingCandidate) : gset string :=
  list_to_set (rc_backend_id <$> cs).

(** [queued_host_ids]: the callback left in the queue. *)
Definition queued_host_ids (c : Chat) (locs : list nat) : callback (W := World) (X := app_error) := λ w,
  match current_candidates c locs w with
  | (Ret cs, w') => (Ret (candidate_ids cs), w')
  | (Raise (ELease (LeaseEndedError _)), w') => (Ret ∅, w')
  | (Raise (ELease (LeaseNotHeldError _)), w') => (Ret ∅, w')
  | (Raise e, w') => (Raise e, w')
  end.

Definition reserved_msg : string := "every host that serves this model is reserved for a test".

(** The hosts the request may use, as opposed to those that serve the model. *)
Definition usable_hosts (c : Chat) (pinned : option NodeLease) (capable : list nat) (budget_blocked : bool)
    : app_prog (list nat) := λ w,
  let m := str_repr (model (ch_request c)) in
  match pinned with
  | Some l =>
      match filter (λ loc, (host_id <$> deref w loc) = Some (nl_host_id l)) capable with
      | [] => (Raise (ModelNotAvailableError
                 ("leased node " +:+ str_repr (nl_host_id l) +:+ " does not serve model " +:+ m)), w)
      | hosts => (Ret hosts, w)
      end
  | None =>
      match filter_hosts open_host capable w with
      | (Ret [], w') =>
          (Raise (match capable with
                  | _ :: _ => ENoAvailableBackend reserved_msg
                  | [] => if budget_blocked
                          then ModelCapacityExceededError
                                 ("model " +:+ m +:+ " would exceed a host's memory budget right now")
                          else ModelNotAvailableError ("no registered host serves model " +:+ m)
                  end), w')
      | r => r
      end
  end.

Definition any_unhealthy (w : World) (now : datetime) (locs : list nat) : bool :=
  existsb (λ h, negb (is_healthy (w_health w) (host_id h) now)) (hosts_at w locs).

Definition on_world (f : World → World) : gw_prog unit := modify (λ g, set_world (f (g_world g)) g).

Definition failover_outcome (failover succeeded : bool) (w : World) : World :=
  if failover then set_metrics (record_failover_outcome succeeded (w_now w) (w_metrics w)) w else w.

(** From the routing decision to the slot; a streaming response is built at once, and a
    failover counts as a success then. *)
Definition start (rid : string) (c : Chat) (candidates : list RoutingCandidate) (failover : bool)
    : gw_prog unit :=
  d ← in_router (select_backend (ch_request c) candidates (req_session_id (ch_request c)));
  (λ g, match w_backends (g_world g) !! rd_backend_id d with
        | None => (Raise (EKeyError (rd_backend_id d)), g)
        | Some _ => (Ret tt, g)
        end) ;;
  in_world (in_registry (acquire_slot (rd_backend_id d))) ;;
  (if stream (ch_request c) then on_world (failover_outcome failover true) else mret ()) ;;
  modify (set_request rid (Running c (rd_backend_id d) failover)).

(** [request.session_id or request_id] *)
Definition queue_session (rid : string) (c : Chat) : string :=
  match req_session_id (ch_request c) with Some "" | None => rid | Some s => s end.

Definition leave_queue (rid : string) (c : Chat) (g : Gateway) : Gateway :=
  set_queue (cancel rid (queue_session rid c) 0 (g_queue g)) g.

(** [try: body finally: cancel] *)
Definition finally_cancel {A} (rid : string) (c : Chat) (body : gw_prog A) : gw_prog A := λ g,
  let '(r, g') := body g in (r, leave_queue rid c g').

Definition dispatch_timeout (failover : bool) : gw_prog unit :=
  on_world (failover_outcome failover false) ;;
  raise (ENoAvailableBackend "no host became available before the dispatch timeout").

(** The handler once [_model_capable_hosts] has returned, up to its next [await] or the
    backend call. *)
Definition admission (rid : string) (c : Chat) (capable : list nat) (blocked : bool) : gw_prog unit :=
  pinned ← in_world (pinned_lease c);
  usable ← in_world (usable_hosts c pinned capable blocked);
  g ← get;
  let failover := any_unhealthy (g_world g) (ch_now c) usable in
  candidates ← in_world (current_candidates c capable);
  match candidates with
  | _ :: _ => start rid c candidates failover
  | [] =>
      modify (λ g, set_queue (enqueue rid (queue_session rid c) 0 (ch_now c)
                                (Some (queued_host_ids c capable)) (g_queue g)) g) ;;
      if f_lt f_zero wait_timeout
      then modify (set_request rid (Waiting c capable failover f_zero))
      else finally_cancel rid c (dispatch_timeout failover)
  end.

(** The loop of [_model_capable_hosts] goes on over [locs]: to the next host that has to be
    asked, or to its end and what the handler does then. *)
Definition go_on (rid : string) (c : Chat) (capable : list nat) (blocked : bool) (locs : list nat)
    : gw_prog unit :=
  s ← in_world (scan_hosts factories (model (ch_request c)) capable blocked locs);
  match s with
  | ScanAwaits capable blocked l rest => modify (set_request rid (Probing c capable blocked l rest))
  | ScanDone capable blocked => admission rid c capable blocked
  end.

(** A request begins. *)
Definition arrive (rid : string) (c : Chat) : gw_prog unit :=
  _ ← in_world (pinned_lease c);
  locs ← gets (λ g, hosts (w_registry (g_world g)));
  go_on rid c [] false locs.

(** The host [l] has answered. *)
Definition answered (rid : string) (c : Chat) (capable : list nat) (blocked : bool) (l : nat)
    (rest : list nat) (a : models_answer) : gw_prog unit :=
  a ← in_world (await_models a);
  found ← gets (λ g, take_answer (g_world g) (model (ch_request c)) l a capable blocked);
  go_on rid c found.1 found.2 rest.

(** One turn of the wait loop, from the end of its sleep to the next sleep or the end. *)
Definition wake (rid : string) (c : Chat) (locs : list nat) (failover : bool) (waited : float)
    : gw_prog unit := λ g,
  let waited := f_add waited poll_interval in
  let poll : gw_prog (option (list RoutingCandidate)) :=
    candidates ← in_world (current_candidates c locs);
    match candidates with
    | [] => mret None
    | _ =>
        r ← in_queue (λ s, dispatch infos (w_now s.2) (Some (candidate_ids candidates)) (Some rid) s);
        mret (if bool_decide (r = Some rid) then Some candidates else None)
    end in
  match poll g with
  | (Ret (Some candidates), g') => start rid c candidates failover (leave_queue rid c g')
  | (Ret None, g') =>
      if f_lt waited wait_timeout then (Ret tt, set_request rid (Waiting c locs failover waited) g')
      else finally_cancel rid c (dispatch_timeout failover) g'
  | (Raise e, g') => (Raise e, leave_queue rid c g')
  end.

(** ** The end of a request *)

(** [_is_degenerate_completion] *)
Definition is_degenerate_completion (content finish_reason : string) : bool :=
  bool_decide (str_strip content = "") || negb (bool_decide (finish_reason = "stop")).

Definition host_completion (id : string) (latency : float) (p c : Z) (w : World) : World :=
  set_metrics (record_host_completion id latency p c (w_metrics w)) w.

Definition token_usage (id : string) (p c : Z) (w : World) : World :=
  set_metrics (record_token_usage id p c (w_metrics w)) w.

Definition completed (id : string) (w : World) : World :=
  set_completions (Throughput.record id (w_now w) (w_completions w)) w.

(** [result = await backend.complete(request)] and what follows. *)
Definition complete (id : string) (failover : bool) (r : backend_result) : gw_prog unit :=
  match r with
  | BackendFailed timeout msg =>
      on_world (failover_outcome failover false) ;;
      on_world (probe_health hc id false) ;;
      in_world (in_registry (release_slot id)) ;;
      raise (if timeout then BackendTimeoutError msg else BackendError msg)
  | BackendAborted => in_world (in_registry (release_slot id)) ;; raise ECancelled
  | BackendOk content finish_reason p c latency =>
      in_world (in_registry (release_slot id)) ;;
      on_world (failover_outcome failover true) ;;
      on_world (token_usage id p c) ;;
      let healthy := negb (is_degenerate_completion content finish_reason) in
      (if healthy then on_world (host_completion id latency p c) ;; on_world (completed id)
       else mret ()) ;;
      on_world (probe_health hc id healthy)
  end.

(** A stream: the bookkeeping of [_stream_chunks] when it ran to its end, and the release by
    [SlotStream].  In between the generator yields the closing line, and the slot is given
    back when it is asked for the next item or closed; here that is one step.  [Adapters] has
    these yields one by one. *)
Definition stream_complete (id : string) (r : stream_result) : gw_prog unit :=
  match r with
  | StreamEnded usage saw_content last latency =>
      let healthy := saw_content && bool_decide (last = Some "stop") in
      match usage with
      | Some (p, c) =>
          on_world (token_usage id p c) ;;
          if healthy then on_world (host_completion id latency p c) else mret ()
      | None => mret ()
      end ;;
      (if healthy then on_world (completed id) else mret ()) ;;
      on_world (probe_health hc id healthy) ;;
      in_world (in_registry (release_slot id))
  | StreamAborted e => in_world (in_registry (release_slot id)) ;; raise e
  end.

(** ** Steps *)

(** The node endpoints. *)
Inductive node_op :=
  | NRegister (id : string) (c : HostCapabilities) (n : HostCapacity)
  | NUpdate (id : string) (u : NodeUpdate)
  | NHeartbeat (id : string)
  | NDeregister (id : string).

Definition run_node_op (o : node_op) : app_prog unit :=
  match o with
  | NRegister id c n => register_node id c n
  | NUpdate id u => update_node id u
  | NHeartbeat id => heartbeat_node id
  | NDeregister id => deregister_node id
  end.

(** The background probes. *)
Inductive probe_op :=
  | PStart
  | PHealth (id : string) (healthy : bool)
  | PLoad (id : string) (load : ExternalLoadStatus).

Definition run_probe_op (o : probe_op) (w : World) : World :=
  match o with
  | PStart => start_probes factories w
  | PHealth id healthy => probe_health hc id healthy w
  | PLoad id load => probe_load id load w
  end.

Inductive gw_op :=
  | GArrive (rid : string) (c : Chat)
  | GAnswer (rid : string) (a : models_answer)
  | GWake (rid : string)
  | GDisconnect (rid : string)
  | GComplete (rid : string) (r : backend_result)
  | GStream (rid : string) (r : stream_result)
  | GNode (o : node_op)
  | GLease (o : book_op)
  | GProbe (o : probe_op)
  | GClock (now lease_now : datetime).

(** Run a step of the request [rid]; if it raises, the request is over. *)
Definition step_request (rid : string) (m : gw_prog unit) (g : Gateway) : Gateway :=
  match m g with
  | (Ret tt, g') => g'
  | (Raise e, g') => set_request rid (Finished (Some e)) g'
  end.

(** The request is over when [m] is, however it ends. *)
Definition finish_request (rid : string) (m : gw_prog unit) (g : Gateway) : Gateway :=
  match m g with
  | (Ret tt, g') => set_request rid (Finished None) g'
  | (Raise e, g') => set_request rid (Finished (Some e)) g'
  end.

Definition run_op (g : Gateway) (o : gw_op) : Gateway :=
  match o with
  | GArrive rid c =>
      match g_requests g !! rid with None => step_request rid (arrive rid c) g | Some _ => g end
  | GAnswer rid a =>
      match g_requests g !! rid with
      | Some (Probing c capable blocked l rest) =>
          step_request rid (answered rid c capable blocked l rest a) g
      | _ => g
      end
  | GWake rid =>
      match g_requests g !! rid with
      | Some (Waiting c locs failover waited) => step_request rid (wake rid c locs failover waited) g
      | _ => g
      end
  | GDisconnect rid =>
      match g_requests g !! rid with
      | Some (Probing _ _ _ _ _) => set_request rid (Finished (Some ECancelled)) g
      | Some (Waiting c _ _ _) => set_request rid (Finished (Some ECancelled)) (leave_queue rid c g)
      | _ => g
      end
  | GComplete rid r =>
      match g_requests g !! rid with
      | Some (Running c id failover) =>
          if stream (ch_request c) then g else finish_request rid (complete id failover r) g
      | _ => g
      end
  | GStream rid r =>
      match g_requests g !! rid with
      | Some (Running c id failover) =>
          if stream (ch_request c) then finish_request rid (stream_complete id r) g else g
      | _ => g
      end
  | GNode o => (in_world (run_node_op o) g).2
  | GLease o => set_world (set_book (run_book_op cfg (w_book (g_world g)) o) (g_world g)) g
  | GProbe o => set_world (run_probe_op o (g_world g)) g
  | GClock now lease_now => set_world (set_clock now lease_now (g_world g)) g
  end.

Definition run_gw (g : Gateway) (ops : list gw_op) : Gateway := foldl run_op g ops.
End gateway.

(** The defaults of [create_app]: 30 seconds, polled every tenth of a second. *)
Definition default_wait_timeout : float := f_of_Z 30.
Definition default_poll_interval : float := f_lit 1 10.
