(* ===== verification/GatewayFrames.v ===== *)
(** * What a step of the gateway leaves alone

    Frame lemmas for the handler of [Gateway]: looking for candidates touches nothing but
    ended leases and the backend cache; what is known of a candidate when it was found; and
    how a step of a request that holds no slot can end ([stepped]): raising, running on an
    admissible host with its slot taken, or still waiting. *)

From S2P Require Import Prelude.
From S2P Require Import PyFloat.
From S2P Require Import PyStr.
From S2P Require Import PyDict.
From S2P Require Import PyJson.
From S2P Require Import ApiModels.
From S2P Require Import Registry.
From S2P Require Import Health.
From S2P Require Import Leases.
From S2P Require Import Scheduling.
From S2P Require Import Routing.
From S2P Require Import LoadProbe.
From S2P Require Import Throughput.
From S2P Require Import Metrics.
From S2P Require Import Nodes.
From S2P Require Import Gateway.

#[local] Open Scope list_scope.

(** ** What a step leaves alone *)

(** Looking for candidates may drop ended leases and refresh the backend cache; it leaves
    the rest of the world as it is. *)
Record same_core (w w' : World) : Prop := {
  sc_registry : w_registry w' = w_registry w;
  sc_health : w_health w' = w_health w;
  sc_now : w_now w' = w_now w;
  sc_lease_now : w_lease_now w' = w_lease_now w;
  sc_live : same_live (w_lease_now w) (w_book w) (w_book w');
  (** what was built stays built *)
  sc_backends id : is_Some (w_backends w !! id) → is_Some (w_backends w' !! id);
}.

#[export] Instance same_core_preorder : PreOrder same_core.
Proof.
  split; [done|]. intros w1 w2 w3 [? ? ? E1 H1 B1] [? ? ? E2 H2 B2]. split; try congruence; [|auto].
  rewrite E1 in H2. by etrans.
Qed.

Definition wframe {A} (m : app_prog A) : Prop := ∀ w, same_core w (m w).2.

Lemma wframe_ret {A} (a : A) : wframe (mret a).
Proof. done. Qed.

Lemma wframe_bind {A B} (m : app_prog A) (k : A → app_prog B) :
  wframe m → (∀ a, wframe (k a)) → wframe (m ≫= k).
Proof.
  intros Hm Hk w. specialize (Hm w). unfold mbind, app_prog_bind, mbind, prog_bind.
  destruct (m w) as [[a|e] w']; simpl in *; [|done]. etrans; [done|apply Hk].
Qed.

Lemma wframe_require t w : same_core w (in_book (require t (w_lease_now w)) w).2.
Proof.
  unfold in_book. pose proof (require_look t (w_lease_now w) (w_book w)) as H.
  by destruct (require t (w_lease_now w) (w_book w)).
Qed.

Lemma wframe_arith {A} (o : outcome arith_error A) : wframe (of_arith o).
Proof. intros w. by destruct o. Qed.

Create HintDb gateway.
#[export] Hint Resolve wframe_ret wframe_arith : gateway.
#[export] Hint Extern 2 (wframe (_ ≫= _)) => apply wframe_bind; [|intros ?] : gateway.

Section frames.
Context (factories : Factories) (cfg : LeaseSettings) (hc : HealthConfig).

Lemma wframe_backend_for id c : wframe (backend_for factories id c).
Proof.
  intros w. unfold backend_for. case_decide; [done|]. destruct (build_error factories c); [done|].
  split; try done. intros id' Hid. simpl.
  rewrite lookup_insert. by case_decide.
Qed.

(** The background probes touch the caches and the health monitor. *)
Lemma registry_backend_for id c w : w_registry (backend_for factories id c w).2 = w_registry w.
Proof. apply wframe_backend_for. Qed.

Lemma registry_probe o w : w_registry (run_probe_op factories hc o w) = w_registry w.
Proof.
  destruct o as [|id healthy|id load]; [|done|done]. simpl. unfold start_probes.
  generalize (host_infos (w_registry w)). intros hs.
  change (w_registry w) with (w_registry (prune_backend_cache w)). generalize (prune_backend_cache w).
  induction hs as [|h hs IH]; intros w'; [done|]. simpl. by rewrite IH, registry_backend_for.
Qed.

Lemma wframe_scan m capable blocked locs : wframe (scan_hosts factories m capable blocked locs).
Proof.
  revert capable. induction locs as [|l locs IH]; intros capable; [done|]. intros w. cbn [scan_hosts].
  destruct (deref w l) as [h|]; [|apply IH]. destruct (allowed_models (capabilities h)); [apply IH|].
  revert w. apply wframe_bind; [apply wframe_backend_for|done].
Qed.

Lemma wframe_eligible locs : wframe (eligible_candidates factories locs).
Proof.
  induction locs as [|l locs IH]; [done|]. intros w. cbn [eligible_candidates].
  destruct (deref w l) as [h|]; [|apply IH].
  destruct (negb _); [apply IH|]. destruct (_ <=? _)%Z; [apply IH|]. revert w.
  apply wframe_bind; [apply wframe_arith|intros r].
  apply wframe_bind; [apply wframe_backend_for|intros _]. by apply wframe_bind.
Qed.

Lemma wframe_pinned c : wframe (pinned_lease c).
Proof.
  intros w. unfold pinned_lease. destruct (token_of c) as [t|]; [|done].
  pose proof (wframe_require t w) as H. unfold mbind, app_prog_bind, mbind, prog_bind.
  by destruct (in_book _ w) as [[]].
Qed.

Lemma wframe_held id : wframe (held id).
Proof.
  intros w. unfold held. pose proof (is_held_look id (w_lease_now w) (w_book w)) as H.
  by destruct (is_held id (w_lease_now w) (w_book w)).
Qed.

Lemma wframe_open h : wframe (open_host h).
Proof. apply wframe_bind; [apply wframe_held|]. auto with gateway. Qed.

Lemma wframe_filter keep locs : (∀ h, wframe (keep h)) → wframe (filter_hosts keep locs).
Proof.
  intros Hk. induction locs as [|l locs IH]; [done|]. intros w. cbn [filter_hosts].
  destruct (deref w l) as [h|]; [|apply IH]. revert w. apply wframe_bind; [done|intros b].
  by apply wframe_bind.
Qed.

Lemma wframe_candidates c locs : wframe (current_candidates factories c locs).
Proof.
  apply wframe_bind; [apply wframe_pinned|intros live].
  apply wframe_bind; [|intros; apply wframe_eligible].
  apply wframe_filter. intros h. destruct live; [done|apply wframe_open].
Qed.

Lemma wframe_usable c pinned capable blocked : wframe (usable_hosts c pinned capable blocked).
Proof.
  intros w. unfold usable_hosts. destruct pinned as [l|]; [by destruct (filter _ _)|].
  pose proof (wframe_filter open_host capable wframe_open w) as H.
  by destruct (filter_hosts open_host capable w) as [[[|]|] w'].
Qed.

Lemma callback_along c locs w : same_core w (queued_host_ids factories c locs w).2.
Proof.
  unfold queued_host_ids. pose proof (wframe_candidates c locs w) as H.
  destruct (current_candidates factories c locs w) as [[cs|e] w']; [done|].
  by destruct e as [| | | | | | |[]| | | | |].
Qed.
End frames.

(** ** What is known of a candidate *)

(** The leases let the request of [c] use host [id]: its own lease is on that host, or it
    has none and neither has anyone on that host. *)
Definition lease_allows (w : World) (c : Chat) (id : string) : Prop :=
  let live := purge_unlocked (w_lease_now w) (w_book w) in
  match token_of c with
  | Some t => ∃ l, lb_by_token live !! t = Some l ∧ nl_host_id l = id
  | None => lb_by_host live !! id = None
  end.

(** A host among [locs] is up and has room. *)
Definition has_room (w : World) (locs : list nat) (id : string) : Prop :=
  ∃ l h, l ∈ locs ∧ deref w l = Some h ∧ host_id h = id ∧
    is_healthy (w_health w) id (w_now w) = true ∧ (in_flight h < max_concurrent_requests (capacity h))%Z.

Definition admissible (w : World) (c : Chat) (locs : list nat) (id : string) : Prop :=
  has_room w locs id ∧ (book_wf (w_book w) → lease_allows w c id).

Lemma deref_core w w' l : same_core w w' → deref w' l = deref w l.
Proof. intros [E _ _ _ _ _]. unfold deref. by rewrite E. Qed.

Lemma has_room_core w w' locs id : same_core w w' → has_room w' locs id → has_room w locs id.
Proof.
  intros Hc (l & h & Hl & Hd & Hid & Hh & Hr). exists l, h. rewrite (deref_core w w' l Hc) in Hd.
  destruct Hc as [_ E2 E3 _ _ _]. rewrite E2, E3 in Hh. done.
Qed.

Lemma lease_allows_core w w' c id :
  same_core w w' → book_wf (w_book w) → lease_allows w' c id → lease_allows w c id.
Proof.
  intros [_ _ _ E Hl _] Hwf. destruct (Hl Hwf) as [_ Ep]. unfold lease_allows. by rewrite E, Ep.
Qed.

Lemma admissible_core w w' c locs id : same_core w w' → admissible w' c locs id → admissible w c locs id.
Proof.
  intros Hc [Hr Hl]. split; [by eapply has_room_core|]. intros Hwf.
  eapply lease_allows_core; [done..|]. apply Hl. by apply (sc_live _ _ Hc).
Qed.

Lemma admissible_incl w c locs locs' id :
  locs ⊆ locs' → admissible w c locs id → admissible w c locs' id.
Proof. intros Hi [(l & h & Hl & Hr) Ha]. split; [|done]. exists l, h. split; [by apply Hi|done]. Qed.

(** One step of a program in the world. *)
Lemma bind_ret {A B} (m : app_prog A) (k : A → app_prog B) w b w' :
  (m ≫= k) w = (Ret b, w') → ∃ a w1, m w = (Ret a, w1) ∧ k a w1 = (Ret b, w').
Proof.
  unfold mbind, app_prog_bind, mbind, prog_bind. destruct (m w) as [[a|e] w1]; [|done].
  intros H. by exists a, w1.
Qed.

Section candidates.
Context (factories : Factories).

Lemma eligible_spec locs w cs w' :
  eligible_candidates factories locs w = (Ret cs, w') →
  ∀ cand, cand ∈ cs → has_room w locs (rc_backend_id cand).
Proof.
  revert w cs. induction locs as [|l locs IH]; intros w cs; cbn [eligible_candidates].
  { intros [= <- <-] cand Hc. by apply not_elem_of_nil in Hc. }
  assert (Hrec : ∀ cs, eligible_candidates factories locs w = (Ret cs, w') →
    ∀ cand, cand ∈ cs → has_room w (l :: locs) (rc_backend_id cand)).
  { intros cs' E cand Hin. destruct (IH _ _ E _ Hin) as (l' & h' & ? & ?). exists l', h'.
    split; [by right|done]. }
  destruct (deref w l) as [h|] eqn:Ed; [|apply Hrec].
  destruct (is_healthy (w_health w) (host_id h) (w_now w)) eqn:Eh; simpl; [|apply Hrec].
  destruct (Z.leb_spec (max_concurrent_requests (capacity h)) (in_flight h)); [apply Hrec|].
  intros (ratio & w1 & E1 & (u & w2 & E2 & (rest & w3 & E3 & E4)%bind_ret)%bind_ret)%bind_ret.
  injection E4 as <- <-. intros cand [->|Hin]%elem_of_cons; simpl.
  - exists l, h. split; [left|]. done.
  - assert (Hc : same_core w w2).
    { pose proof (wframe_arith (int_truediv (in_flight h) (max_concurrent_requests (capacity h))) w) as H1.
      pose proof (wframe_backend_for factories (host_id h) (capabilities h) w1) as H2.
      rewrite E1 in H1. rewrite E2 in H2. by etrans. }
    destruct (has_room_core w w2 locs _ Hc (IH _ _ E3 _ Hin)) as (l' & h' & ? & ?).
    exists l', h'. split; [by right|done].
Qed.

(** The hosts a scan has found or still has to look at. *)
Definition scan_locs (s : scan) : list nat :=
  match s with ScanAwaits capable _ l rest => capable ++ l :: rest | ScanDone capable _ => capable end.

Lemma scan_incl m capable blocked locs w s w' :
  scan_hosts factories m capable blocked locs w = (Ret s, w') → scan_locs s ⊆ capable ++ locs.
Proof.
  revert capable w. induction locs as [|l locs IH]; intros capable w; cbn [scan_hosts].
  { intros [= <- <-]. simpl. by rewrite app_nil_r. }
  destruct (deref w l) as [h|]; [|intros E%IH; set_solver].
  destruct (allowed_models (capabilities h)); [intros E%IH; case_bool_decide; set_solver|].
  by intros (_ & w1 & _ & [= <- <-])%bind_ret.
Qed.

Lemma take_answer_incl w m l a capable blocked :
  (take_answer w m l a capable blocked).1 ⊆ capable ++ [l].
Proof.
  unfold take_answer. destruct (deref w l); [|set_solver]. destruct a as [|[loaded|]|]; simpl; [done| |done|set_solver].
  repeat case_match; set_solver.
Qed.

Lemma filter_hosts_spec keep locs w ls w' :
  (∀ h, wframe (keep h)) → filter_hosts keep locs w = (Ret ls, w') →
  ∀ l, l ∈ ls → l ∈ locs ∧ ∃ h w0 w1, same_core w w0 ∧ deref w l = Some h ∧ keep h w0 = (Ret true, w1).
Proof.
  intros Hk. revert w ls. induction locs as [|l0 locs IH]; intros w ls; cbn [filter_hosts].
  { intros [= <- <-] l Hl. by apply not_elem_of_nil in Hl. }
  destruct (deref w l0) as [h0|] eqn:Ed.
  - intros (b & w1 & E1 & (rest & w2 & E2 & E3)%bind_ret)%bind_ret. injection E3 as <- <-.
    pose proof (Hk h0 w) as Hc. rewrite E1 in Hc. simpl in Hc.
    assert (Hrest : ∀ l, l ∈ rest → l ∈ l0 :: locs ∧ ∃ h w0 w1, same_core w w0 ∧ deref w l = Some h ∧
      keep h w0 = (Ret true, w1)).
    { intros l Hl. destruct (IH _ _ E2 l Hl) as (Hin & h & wa & wb & Hca & Hd & Hkeep).
      split; [by right|]. exists h, wa, wb. split; [by etrans|]. by rewrite <-(deref_core w w1 l Hc). }
    intros l. destruct b; [|apply Hrest]. intros [->|Hl]%elem_of_cons; [|by apply Hrest].
    split; [left|]. by exists h0, w, w1.
  - intros E l Hl. destruct (IH _ _ E l Hl) as (Hin & ?). split; [by right|done].
Qed.

Lemma pinned_spec c w live w' :
  pinned_lease c w = (Ret live, w') →
  match token_of c with
  | None => live = None
  | Some t => ∃ l, live = Some l ∧ lb_by_token (w_book w) !! t = Some l ∧
                Leases.live (w_lease_now w) l
  end.
Proof.
  unfold pinned_lease. destruct (token_of c) as [t|]; [|by intros [= <- <-]].
  intros (l & w1 & E & [= <- <-])%bind_ret. exists l. split; [done|].
  unfold in_book, require in E.
  destruct (live_unlocked t (w_lease_now w) (w_book w)) as [[l'|e] b] eqn:El; [|done].
  injection E as -> _. apply live_unlocked_spec in El as (_ & ? & ?). done.
Qed.

(** Every candidate is up, has room and is allowed by the leases. *)
Lemma candidates_admissible c locs w cs w' :
  current_candidates factories c locs w = (Ret cs, w') →
  ∀ cand, cand ∈ cs → admissible w c locs (rc_backend_id cand).
Proof.
  unfold current_candidates.
  intros (live & w1 & E1 & (hs & w2 & E2 & E3)%bind_ret)%bind_ret cand Hin.
  pose proof (wframe_pinned c w) as Hc1. rewrite E1 in Hc1. simpl in Hc1.
  set (keep := λ h, _) in E2. assert (Hk : ∀ h, wframe (keep h)).
  { intros h. unfold keep. destruct live; [done|apply wframe_open]. }
  pose proof (wframe_filter keep locs Hk w1) as Hc2. rewrite E2 in Hc2. simpl in Hc2.
  assert (Hc : same_core w w2) by (by etrans).
  destruct (has_room_core w w2 hs _ Hc (eligible_spec _ _ _ _ E3 _ Hin))
    as (l & h & Hl & Hd & Hid & Hup & Hroom).
  destruct (filter_hosts_spec keep locs w1 hs w2 Hk E2 l Hl) as (Hlocs & h' & wa & wb & Hca & Hd' & Hkeep).
  rewrite (deref_core w w1 l Hc1), Hd in Hd'. injection Hd' as <-.
  split; [exists l, h; split_and!; done|]. intros Hwf. rewrite <-Hid. unfold lease_allows.
  pose proof (pinned_spec c w live w1 E1) as Hp. destruct (token_of c) as [t|].
  - destruct Hp as (lease & -> & Ht & Hlive). exists lease. split; [by apply purge_by_token|].
    unfold keep in Hkeep. injection Hkeep as Hb _. by apply bool_decide_eq_true in Hb.
  - subst live. unfold keep, open_host in Hkeep. apply bind_ret in Hkeep as (b & wc & Eh & [= Hb _]).
    destruct b; [done|]. assert (Hwa : same_core w wa) by (etrans; [exact Hc1|exact Hca]).
    destruct (sc_live _ _ Hwa Hwf) as [Hwfa Ep]. rewrite <-Ep, <-(sc_lease_now _ _ Hwa).
    apply is_held_purge; [done|]. unfold held in Eh.
    destruct (is_held (host_id h) (w_lease_now wa) (w_book wa)) as [b bk]. by injection Eh as -> _.
Qed.
End candidates.

(** *** Frames on the whole gateway *)

(** The registry, the health, the clocks and the requests are as before, and the queue's
    callbacks still only look. *)
Definition calm (g : Gateway) : Prop := callbacks_along same_core (g_queue g).

Record same_gw (g g' : Gateway) : Prop := {
  sg_core : same_core (g_world g) (g_world g');
  sg_requests : g_requests g' = g_requests g;
  sg_calm : calm g → calm g';
}.

#[export] Instance same_gw_preorder : PreOrder same_gw.
Proof.
  split; [by intros g; split|]. intros g1 g2 g3 [? ? ?] [? ? ?].
  split; [by etrans|congruence|auto].
Qed.

Lemma same_gw_world {A} (m : app_prog A) g : wframe m → same_gw g (in_world m g).2.
Proof.
  intros Hm. specialize (Hm (g_world g)). unfold in_world. by destruct (m (g_world g)) as [r w'].
Qed.

Lemma same_gw_on_world f g :
  (∀ w, same_core w (f w)) → same_gw g (on_world f g).2.
Proof. intros Hf. split; simpl; [apply Hf|done|done]. Qed.

Lemma same_core_failover f s w : same_core w (failover_outcome f s w).
Proof. by destruct f. Qed.

Lemma same_gw_leave rid c g : same_gw g (leave_queue rid c g).
Proof.
  split; [done|done|]. unfold calm, callbacks_along. simpl. rewrite cancel_eligibility.
  intros Hc. by apply map_Forall_delete.
Qed.

Lemma same_gw_router {A} (m : route_prog A) g : same_gw g (in_router m g).2.
Proof. unfold in_router. by destruct (m (g_router g)). Qed.

Lemma same_gw_dispatch now avail rid g :
  calm g → same_gw g (in_queue (λ s, dispatch infos (now s) (avail s) (rid s) s) g).2.
Proof.
  intros Hc. unfold in_queue.
  destruct (dispatch_along infos same_core (now (g_queue g, g_world g)) (avail (g_queue g, g_world g))
    (rid (g_queue g, g_world g)) (g_queue g) (g_world g) Hc) as [Hw Hcb].
  destruct (dispatch infos _ _ _ _) as [r [q w']]. split; simpl in *; [done|done|done].
Qed.

Definition runs_on (id : string) (s : chat_state) : nat :=
  match s with Running _ b _ => if decide (b = id) then 1 else 0 | _ => 0 end.

(** The hosts a waiting or arriving request holds on to. *)
Definition locs_of (s : chat_state) : list nat :=
  match s with
  | Probing _ capable _ l rest => capable ++ l :: rest
  | Waiting _ locs _ _ => locs
  | _ => []
  end.

Definition not_running (s : option chat_state) : Prop := ∀ id, from_option (runs_on id) 0 s = 0.

Section effects_of_steps.
Context (factories : Factories) (cfg : LeaseSettings) (hc : HealthConfig)
  (wait_timeout poll_interval : float).

(** The slot a step takes: none, or one on a registered host, for this request. *)
Inductive started (P : string → Prop) (rid : string) (c : Chat) (f : bool) (g : Gateway) : Gateway → Prop :=
  started_intro id g0 g' :
    same_gw g g0 → P id → is_Some (d_get (hr_hosts (w_registry (g_world g))) id) →
    w_registry (g_world g') = (acquire_slot id (w_registry (g_world g))).2 →
    g_requests g' = <[rid := Running c id f]> (g_requests g) →
    g_queue g' = g_queue g0 →
    started P rid c f g g'.

Lemma started_before P rid c f g g0 g' :
  same_gw g g0 → started P rid c f g0 g' → started P rid c f g g'.
Proof.
  intros Hs [id g1 g2 Hs1 Hadm Hid Hr Hq Hqu]. pose proof (sc_registry _ _ (sg_core _ _ Hs)) as Er.
  econstructor; [by etrans|exact Hadm| | | |done]; [by rewrite <-Er|by rewrite <-Er|by rewrite <-(sg_requests _ _ Hs)].
Qed.

Lemma start_effect (P : string → Prop) rid c cs f g :
  (∀ cand, cand ∈ cs → P (rc_backend_id cand)) →
  match start rid c cs f g with
  | (Raise _, g') => same_gw g g'
  | (Ret _, g') => started P rid c f g g'
  end.
Proof.
  intros Hadm. unfold start, mbind, gw_prog_bind, mbind, prog_bind.
  pose proof (same_gw_router (select_backend (ch_request c) cs (req_session_id (ch_request c))) g) as H1.
  pose proof (select_backend_in (ch_request c) cs (req_session_id (ch_request c)) (g_router g)) as Hin.
  unfold in_router in *.
  destruct (select_backend (ch_request c) cs (req_session_id (ch_request c)) (g_router g)) as [[d|e] rt];
    simpl in H1; [|done]. specialize (Hin d rt eq_refl).
  apply list_elem_of_fmap in Hin as (cand & Ecand & Hcand). apply Hadm in Hcand. rewrite <-Ecand in Hcand.
  set (g1 := set_router rt g) in *.
  destruct (w_backends (g_world g1) !! rd_backend_id d); [|done].
  unfold in_world, in_registry, acquire_slot, adjust_slots.
  destruct (d_get (hr_hosts (w_registry (g_world g1))) (rd_backend_id d)) as [l|] eqn:El.
  - cbn. pose proof (sc_registry _ _ (sg_core _ _ H1)) as Er.
    assert (Hid : is_Some (d_get (hr_hosts (w_registry (g_world g))) (rd_backend_id d)))
      by (rewrite <-Er; by eexists).
    assert (Eacq : with_objs (w_registry (g_world g1)) (alter (add_in_flight 1) l (hr_objs (w_registry (g_world g1))))
      = (acquire_slot (rd_backend_id d) (w_registry (g_world g))).2).
    { unfold acquire_slot, adjust_slots. rewrite <-Er, El. done. }
    destruct (stream (ch_request c)); cbn.
    + econstructor; [exact H1|exact Hcand|exact Hid| | |]; simpl.
      * destruct f; exact Eacq.
      * done.
      * done.
    + econstructor; [exact H1|exact Hcand|exact Hid|exact Eacq| |done]. simpl. done.
  - cbn. split; simpl; [etrans; [apply H1|done]|apply H1|apply H1].
Qed.
(** *** Admission and waking *)

(** How a step of a request that holds no slot ends. *)
Inductive stepped (P : string → Prop) (rid : string) (c : Chat) (locs : list nat) (g : Gateway)
    : outcome app_error unit → Gateway → Prop :=
  | stepped_raise e g' : same_gw g g' → stepped P rid c locs g (Raise e) g'
  | stepped_running f g' : started P rid c f g g' → stepped P rid c locs g (Ret tt) g'
  | stepped_idle s g' :
      not_running (Some s) → same_core (g_world g) (g_world g') → (calm g → calm g') →
      (∀ l, l ∈ locs_of s → l ∈ locs) →
      g_requests g' = <[rid := s]> (g_requests g) → stepped P rid c locs g (Ret tt) g'.

(** Closes a step that only sets the request's state to one that holds no slot. *)
Ltac idle_step := eapply stepped_idle; [| | | |reflexivity]; done.

Lemma stepped_before P rid c locs g g0 r g' :
  same_gw g g0 → stepped P rid c locs g0 r g' → stepped P rid c locs g r g'.
Proof.
  intros Hs [e g1 H1|f g1 H1|s g1 Hn Hc Hcalm Hlocs Hr].
  - constructor. by etrans.
  - econstructor. by eapply started_before.
  - eapply stepped_idle; [exact Hn|etrans; [apply Hs|done]|intros; by apply Hcalm, Hs|exact Hlocs|].
    by rewrite Hr, (sg_requests _ _ Hs).
Qed.

Lemma stepped_start (P : string → Prop) rid c cs locs f g :
  (∀ cand, cand ∈ cs → P (rc_backend_id cand)) →
  stepped P rid c locs g (start rid c cs f g).1 (start rid c cs f g).2.
Proof.
  intros Hadm. pose proof (start_effect P rid c cs f g Hadm) as H. destruct (start rid c cs f g) as [[[]|e] g']; simpl.
  - by econstructor.
  - by constructor.
Qed.

(** Binding after a step that is only a look. *)
Lemma stepped_bind {A} P rid c locs (m : gw_prog A) (k : A → gw_prog unit) g :
  same_gw g (m g).2 → (∀ a g', same_gw g g' → m g = (Ret a, g') → stepped P rid c locs g' (k a g').1 (k a g').2) →
  stepped P rid c locs g ((m ≫= k) g).1 ((m ≫= k) g).2.
Proof.
  intros Hm Hk. unfold mbind, gw_prog_bind, mbind, prog_bind.
  destruct (m g) as [[a|e] g'] eqn:E; simpl in *; [|by constructor].
  eapply stepped_before; [exact Hm|by apply Hk].
Qed.

Lemma timeout_effect P rid c locs f g :
  stepped P rid c locs g (finally_cancel rid c (dispatch_timeout f) g).1 (finally_cancel rid c (dispatch_timeout f) g).2.
Proof.
  unfold finally_cancel, dispatch_timeout. cbn. constructor.
  etrans; [|apply same_gw_leave]. apply (same_gw_on_world (failover_outcome f false)).
  intros w. apply same_core_failover.
Qed.

Lemma same_gw_enqueue rid s p at_ c locs g :
  same_gw g (set_queue (enqueue rid s p at_ (Some (queued_host_ids factories c locs)) (g_queue g)) g).
Proof.
  split; [done|done|]. intros Hc. unfold calm, callbacks_along. simpl.
  apply map_Forall_insert_2; [|done]. intros w. apply callback_along.
Qed.

Lemma in_world_ret {A} (m : app_prog A) g a g' :
  in_world m g = (Ret a, g') → m (g_world g) = (Ret a, g_world g').
Proof. unfold in_world. destruct (m (g_world g)) as [r w]. by intros [= -> <-]. Qed.

Lemma stepped_incl (P Q : string → Prop) rid c locs locs' g r g' :
  (∀ id, P id → Q id) → locs ⊆ locs' → stepped P rid c locs g r g' → stepped Q rid c locs' g r g'.
Proof.
  intros HPQ Hi [e g1 H1|f g1 [id g0 g2 Hs HP Hid Hr Hq Hqu]|s g1 Hn Hc Hcalm Hlocs Hr].
  - by constructor.
  - econstructor. by econstructor; [exact Hs|apply HPQ|..].
  - eapply stepped_idle; [exact Hn|exact Hc|exact Hcalm| |exact Hr]. intros l Hl. by apply Hi, Hlocs.
Qed.

Lemma admission_effect rid c capable blocked g :
  stepped (admissible (g_world g) c capable) rid c capable g
    (admission factories wait_timeout rid c capable blocked g).1
    (admission factories wait_timeout rid c capable blocked g).2.
Proof.
  unfold admission.
  apply stepped_bind; [apply same_gw_world, wframe_pinned|intros pinned g2 H2 _].
  apply stepped_bind; [apply same_gw_world, wframe_usable|intros usable g3 H3 _].
  apply stepped_bind; [done|intros g3' g4 H4 _].
  apply stepped_bind; [apply same_gw_world, wframe_candidates|intros cs g5 H5 E5].
  apply in_world_ret in E5.
  destruct cs as [|c0 cs].
  - apply stepped_bind; [apply same_gw_enqueue|intros _ g6 _ _].
    destruct (f_lt f_zero wait_timeout); [|apply timeout_effect]. idle_step.
  - apply stepped_start. intros cand Hc. apply (admissible_core _ (g_world g4)).
    + etrans; [apply H2|]. etrans; [apply H3|apply H4].
    + by eapply candidates_admissible.
Qed.

Lemma go_on_effect rid c capable blocked locs locs' g :
  capable ++ locs ⊆ locs' →
  stepped (admissible (g_world g) c locs') rid c locs' g
    (go_on factories wait_timeout rid c capable blocked locs g).1
    (go_on factories wait_timeout rid c capable blocked locs g).2.
Proof.
  intros Hi. unfold go_on. apply stepped_bind; [apply same_gw_world, wframe_scan|intros s g1 H1 E].
  apply in_world_ret, scan_incl in E. destruct s as [capable' blocked' l rest|capable' blocked']; simpl in E.
  - eapply stepped_idle; [| | | |reflexivity]; [done|done|done|]. intros l' Hl'. by apply Hi, E.
  - eapply stepped_incl; [| |apply admission_effect]; [|by etrans].
    intros id Hadm. eapply admissible_core; [apply H1|]. eapply admissible_incl; [|exact Hadm]. by etrans.
Qed.

Lemma arrive_effect rid c g :
  stepped (admissible (g_world g) c (hosts (w_registry (g_world g)))) rid c (hosts (w_registry (g_world g))) g
    (arrive factories wait_timeout rid c g).1 (arrive factories wait_timeout rid c g).2.
Proof.
  unfold arrive. apply stepped_bind; [apply same_gw_world, wframe_pinned|intros _ g1 H1 _].
  apply stepped_bind; [done|intros locs g2 H2 [= <- <-]].
  rewrite (sc_registry _ _ (sg_core _ _ H1)).
  eapply stepped_incl; [|done|by apply go_on_effect].
  intros id. apply admissible_core, H1.
Qed.

Lemma wframe_await a : wframe (await_models a).
Proof. intros w. by destruct a. Qed.

Lemma await_cases a g :
  in_world (await_models a) g = (Ret a, g) ∨ ∃ k, in_world (await_models a) g = (Raise (EUnexpected k), g).
Proof. unfold in_world. destruct a as [| |k], g; [by left..|]. right. by exists k. Qed.

Lemma answered_effect rid c capable blocked l rest a g :
  stepped (admissible (g_world g) c (capable ++ l :: rest)) rid c (capable ++ l :: rest) g
    (answered factories wait_timeout rid c capable blocked l rest a g).1
    (answered factories wait_timeout rid c capable blocked l rest a g).2.
Proof.
  unfold answered. apply stepped_bind; [apply same_gw_world, wframe_await|intros a' g0 H0 E].
  assert (g0 = g) as -> by (destruct (await_cases a g) as [E'|[k E']]; rewrite E' in E; by simplify_eq).
  apply stepped_bind; [done|intros found g1 H1 [= <- <-]].
  apply go_on_effect. pose proof (take_answer_incl (g_world g) (model (ch_request c)) l a' capable blocked).
  set_solver.
Qed.

Lemma wake_effect rid c locs f x g :
  calm g →
  stepped (admissible (g_world g) c locs) rid c locs g
    (wake factories wait_timeout poll_interval rid c locs f x g).1
    (wake factories wait_timeout poll_interval rid c locs f x g).2.
Proof.
  intros Hcalm. unfold wake. set (x' := f_add x poll_interval).
  set (poll := mbind _ _).
  assert (Hpoll : same_gw g (poll g).2 ∧ ∀ cs g1, poll g = (Ret (Some cs), g1) →
    ∀ cand, cand ∈ cs → admissible (g_world g) c locs (rc_backend_id cand)).
  { unfold poll, mbind, gw_prog_bind, mbind, prog_bind.
    pose proof (same_gw_world (current_candidates factories c locs) g (wframe_candidates factories c locs)) as H1.
    destruct (in_world _ g) as [[cs|e] g1] eqn:E1; simpl in H1; [|done]. destruct cs as [|c0 cs]; [done|].
    apply in_world_ret in E1.
    pose proof (same_gw_dispatch (λ s, w_now s.2) (λ _, Some (candidate_ids (c0 :: cs))) (λ _, Some rid) g1
      (sg_calm _ _ H1 Hcalm)) as H2.
    destruct (in_queue _ g1) as [[r|e] g2]; simpl in *; split; try (by etrans); try done.
    intros cs' g3. case_bool_decide; [|done]. intros [= <- <-]. by eapply candidates_admissible. }
  destruct Hpoll as [Hpoll Hadm].
  destruct (poll g) as [[[cs|]|e] g1]; simpl in Hpoll.
  - eapply stepped_before; [etrans; [exact Hpoll|apply same_gw_leave]|].
    apply stepped_start. by eapply Hadm.
  - destruct (f_lt x' wait_timeout).
    + eapply stepped_before; [exact Hpoll|]. idle_step.
    + eapply stepped_before; [exact Hpoll|apply timeout_effect].
  - simpl. constructor. etrans; [exact Hpoll|apply same_gw_leave].
Qed.

(** *** The end of a request *)

(** Everything but the slot and the observations is as it was. *)
Record ended (id : string) (g g' : Gateway) : Prop := {
  en_registry : w_registry (g_world g') = (release_slot id (w_registry (g_world g))).2;
  en_requests : g_requests g' = g_requests g;
  en_queue : g_queue g' = g_queue g;
}.

Definition released (id : string) (g : Gateway) : Gateway :=
  set_world (set_registry (release_slot id (w_registry (g_world g))).2 (g_world g)) g.

Lemma release_bind {A} id (k : gw_prog A) g :
  is_Some (d_get (hr_hosts (w_registry (g_world g))) id) →
  (in_world (in_registry (release_slot id)) ;; k) g = k (released id g).
Proof.
  intros [l Hl]. unfold released, mbind, gw_prog_bind, mbind, prog_bind, in_world, in_registry, release_slot,
    adjust_slots. by rewrite Hl.
Qed.

Lemma on_world_bind {A} (f : World → World) (k : gw_prog A) g :
  (on_world f ;; k) g = k (set_world (f (g_world g)) g).
Proof. done. Qed.

(** Observing before or after the release makes no difference to what [ended] says. *)
Lemma ended_observe_before id f g g' :
  (∀ w, w_registry (f w) = w_registry w) → ended id (set_world (f (g_world g)) g) g' → ended id g g'.
Proof. intros Hf [Hr Hq Hu]. split; simpl in *; [by rewrite Hr, Hf|done|done]. Qed.

Lemma ended_observe_after id f g g' :
  (∀ w, w_registry (f w) = w_registry w) → ended id g g' → ended id g (set_world (f (g_world g')) g').
Proof. intros Hf [Hr Hq Hu]. split; simpl; [by rewrite Hf|done|done]. Qed.

Lemma ended_released id g : ended id g (released id g).
Proof. done. Qed.

Lemma registry_failover f s w : w_registry (failover_outcome f s w) = w_registry w.
Proof. by destruct f. Qed.

Lemma complete_ended id f r g :
  is_Some (d_get (hr_hosts (w_registry (g_world g))) id) → ended id g (complete hc id f r g).2.
Proof.
  intros Hid. destruct r as [content fr p c lat|timeout msg|]; unfold complete.
  - rewrite release_bind, !on_world_bind by done.
    assert (He : ended id g (set_world (token_usage id p c (g_world
      (set_world (failover_outcome f true (g_world (released id g))) (released id g))))
      (set_world (failover_outcome f true (g_world (released id g))) (released id g)))).
    { apply ended_observe_after; [done|]. apply ended_observe_after; [apply registry_failover|done]. }
    revert He. generalize (set_world (token_usage id p c (g_world
      (set_world (failover_outcome f true (g_world (released id g))) (released id g))))
      (set_world (failover_outcome f true (g_world (released id g))) (released id g))) as g'.
    intros g' [Hr Hq Hu]. destruct (negb _); by split.
  - rewrite !on_world_bind. rewrite release_bind by (simpl; by rewrite registry_failover).
    apply (ended_observe_before id (failover_outcome f false)); [apply registry_failover|].
    by apply (ended_observe_before id (probe_health hc id false)).
  - by rewrite release_bind.
Qed.

Lemma stream_ended id r g :
  is_Some (d_get (hr_hosts (w_registry (g_world g))) id) → ended id g (stream_complete hc id r g).2.
Proof.
  intros Hid. destruct r as [usage saw last lat|e]; unfold stream_complete; [|by rewrite release_bind].
  set (h := saw && _).
  assert (Hrel : ∀ g', w_registry (g_world g') = w_registry (g_world g) → g_requests g' = g_requests g →
    g_queue g' = g_queue g → ended id g (in_world (in_registry (release_slot id)) g').2).
  { intros g' Er Eq Eu. unfold in_world, in_registry. rewrite Er.
    destruct (release_slot id (w_registry (g_world g))) as [r' reg'] eqn:E.
    split; simpl; [by rewrite E|done|done]. }
  destruct usage as [[p c]|], h; by apply Hrel.
Qed.
End effects_of_steps.
