(* ===== verification/GatewaySafety.v ===== *)
(** * Safety of the gateway under every interleaving

    Invariants of [Gateway.run_gw]: the slots of each host count the requests that run on
    it, a request starts only where the leases allow it and a host has room, the queue holds
    exactly the requests that wait, and no request waits forever. *)

From S2P Require Import Prelude.
From S2P Require Import PyFloat.
From S2P Require Import PyStr.
From S2P Require Import PyDict.
From S2P Require Import PyJson.
From S2P Require Import ApiModels.
From S2P Require Import Registry.
From S2P Require Import Health.
From S2P Require Import Leases.
From S2P Require Import Scheduling.
From S2P Require Import Routing.
From S2P Require Import LoadProbe.
From S2P Require Import Throughput.
From S2P Require Import Metrics.
From S2P Require Import Nodes.
From S2P Require Import Gateway.
From S2P Require Import GatewayFrames.

#[local] Open Scope list_scope.

(** ** Slots *)

(** The number of requests that run on [id]. *)
Definition running_on (id : string) (reqs : gmap string chat_state) : nat := map_sum (runs_on id) reqs.

Lemma running_on_insert id reqs rid s :
  running_on id (<[rid := s]> reqs) + from_option (runs_on id) 0 (reqs !! rid) = runs_on id s + running_on id reqs.
Proof. apply map_sum_insert. Qed.

Record slot_inv (g : Gateway) : Prop := {
  si_wf : reg_wf (w_registry (g_world g));
  si_calm : calm g;
  si_slots id h : lookup_host (w_registry (g_world g)) id = Some h →
    in_flight h = Z.of_nat (running_on id (g_requests g));
  si_registered rid c id f : g_requests g !! rid = Some (Running c id f) →
    is_Some (lookup_host (w_registry (g_world g)) id);
}.

(** A request that holds no slot before and after. *)
Lemma slot_inv_idle g g' rid s :
  slot_inv g → w_registry (g_world g') = w_registry (g_world g) → (calm g → calm g') →
  not_running (g_requests g !! rid) → not_running (Some s) →
  g_requests g' = <[rid := s]> (g_requests g) → slot_inv g'.
Proof.
  intros [Hwf Hcalm Hs Hreg] Er Hc Hold Hnew Eq. split; rewrite ?Er, ?Eq; [done|auto| |].
  - intros id h Hh. rewrite (Hs id h Hh). f_equal.
    pose proof (running_on_insert id (g_requests g) rid s) as H.
    rewrite (Hold id) in H. specialize (Hnew id). simpl in Hnew. lia.
  - intros rid' c id f. rewrite lookup_insert_Some. intros [[_ ->]|[_ H]]; [|by eapply Hreg].
    specialize (Hnew id). simpl in Hnew. by rewrite decide_True in Hnew.
Qed.

Lemma slot_inv_same g g' : slot_inv g → same_gw g g' → slot_inv g'.
Proof.
  intros [Hwf Hcalm Hs Hreg] [[Er _ _ _] Eq Hc]. split; rewrite ?Er, ?Eq; auto.
Qed.

Lemma lookup_bound r id : reg_wf r → is_Some (d_get (hr_hosts r) id) ↔ is_Some (lookup_host r id).
Proof. intros Hwf. rewrite <-!not_eq_None_Some, wf_lookup_None by done. done. Qed.

(** Changing a host's slots by [n] while the number of requests that run on it changes by
    as much. *)
Lemma slot_inv_adjust g g' rid s n id0 :
  slot_inv g → w_registry (g_world g') = (adjust_slots n id0 (w_registry (g_world g))).2 →
  (calm g → calm g') → g_requests g' = <[rid := s]> (g_requests g) →
  (∀ id, (Z.of_nat (runs_on id s) - Z.of_nat (from_option (runs_on id) 0%nat (g_requests g !! rid)) =
     if decide (id0 = id) then n else 0)%Z) →
  (∀ c id f, s = Running c id f → is_Some (lookup_host (w_registry (g_world g)) id)) →
  slot_inv g'.
Proof.
  intros [Hwf Hcalm Hs Hreg] Er Hc Eq Hn Hnew.
  assert (Hl : ∀ id, is_Some (lookup_host (w_registry (g_world g')) id) ↔ is_Some (lookup_host (w_registry (g_world g)) id)).
  { intros id. rewrite Er, lookup_adjust_slots by done. case_decide; [subst; by rewrite fmap_is_Some|done]. }
  split; rewrite ?Eq; [rewrite Er; by apply adjust_slots_wf|auto| |].
  - intros id h. rewrite Er, lookup_adjust_slots by done. specialize (Hn id).
    pose proof (running_on_insert id (g_requests g) rid s) as Hr. case_decide as Hid.
    + subst id0. intros (h0 & Hh0 & ->)%fmap_Some. simpl. rewrite (Hs id h0 Hh0). lia.
    + intros Hh. rewrite (Hs id h Hh). lia.
  - intros rid' c id f. rewrite lookup_insert_Some, Hl. intros [[_ E]|[_ H]]; [by eapply Hnew|by eapply Hreg].
Qed.

Section slots.
Context (factories : Factories) (cfg : LeaseSettings) (hc : HealthConfig)
  (wait_timeout poll_interval : float).

Lemma slot_inv_step_request P rid c locs m g :
  slot_inv g → not_running (g_requests g !! rid) → stepped P rid c locs g (m g).1 (m g).2 →
  slot_inv (step_request rid m g).
Proof.
  intros Hinv Hold Hm. unfold step_request. destruct (m g) as [r g']; simpl in Hm.
  destruct Hm as [e g1 Hs|f g1 [id g0 g2 Hs Hadm Hid Hr Hq Hqu]|s g1 Hn Hc Hcalm Hlocs Hq].
  - apply (slot_inv_idle g _ rid (Finished (Some e))); [exact Hinv| | |exact Hold| |]; simpl.
    + apply (sc_registry _ _ (sg_core _ _ Hs)).
    + apply Hs.
    + done.
    + by rewrite (sg_requests _ _ Hs).
  - eapply slot_inv_adjust; [exact Hinv|exact Hr| |exact Hq| |].
    + intros Hcalm. unfold calm. rewrite Hqu. by apply Hs.
    + intros id'. rewrite (Hold id'). simpl. case_decide; lia.
    + intros c' id' f' [= -> -> ->]. apply lookup_bound; [apply Hinv|done].
  - eapply slot_inv_idle; [exact Hinv|apply Hc|exact Hcalm|exact Hold|exact Hn|exact Hq].
Qed.

Lemma slot_inv_finish rid m c id f g :
  slot_inv g → g_requests g !! rid = Some (Running c id f) → ended id g (m g).2 →
  slot_inv (finish_request rid m g).
Proof.
  intros Hinv Hrid He. destruct He as [Er Eq Eu].
  assert (H : ∀ e, slot_inv (set_request rid (Finished e) (m g).2)).
  { intros e. eapply slot_inv_adjust; [exact Hinv|exact Er| | | |].
    - intros Hcalm. unfold calm. simpl. by rewrite Eu.
    - simpl. by rewrite Eq.
    - intros id'. rewrite Hrid. simpl. case_decide; lia.
    - done. }
  unfold finish_request. destruct (m g) as [[[]|e] g']; apply H.
Qed.

(** The endpoints that do not remove a host. *)
Definition no_deregister (o : gw_op) : Prop := match o with GNode (NDeregister _) => False | _ => True end.

Lemma slot_inv_registry g r :
  slot_inv g → reg_wf r →
  (∀ id h, lookup_host r id = Some h →
     match lookup_host (w_registry (g_world g)) id with
     | Some h0 => in_flight h = in_flight h0
     | None => in_flight h = 0%Z
     end) →
  (∀ id, is_Some (lookup_host (w_registry (g_world g)) id) → is_Some (lookup_host r id)) →
  slot_inv (set_world (set_registry r (g_world g)) g).
Proof.
  intros [Hwf Hcalm Hs Hreg] Hr Hin Hk. split; simpl; [done|done| |].
  - intros id h Hh. specialize (Hin id h Hh).
    destruct (lookup_host (w_registry (g_world g)) id) as [h0|] eqn:E; [by rewrite Hin, (Hs id h0)|].
    rewrite Hin. unfold running_on. rewrite map_sum_zero; [done|].
    intros rid s Hrid. destruct s as [| |c b f|]; try done. simpl. case_decide; [|done]. subst b.
    apply Hreg in Hrid. rewrite E in Hrid. by destruct Hrid.
  - intros rid c id f Hrid. by eapply Hk, Hreg.
Qed.

Lemma slot_inv_register g id c n :
  slot_inv g → slot_inv (in_world (register_node id c n) g).2.
Proof.
  intros Hinv. pose proof (si_wf _ Hinv) as Hwf. apply slot_inv_registry; [done|by apply register_wf| |].
  - intros id' h. rewrite lookup_register by done. case_decide; [|by intros ->].
    subst id'. intros [= <-]. simpl. by destruct (lookup_host _ id).
  - intros id'. rewrite lookup_register by done. case_decide; [by eexists|done].
Qed.

Lemma slot_inv_node o g :
  slot_inv g → no_deregister (GNode o) → slot_inv (in_world (run_node_op o) g).2.
Proof.
  intros Hinv Hno. destruct o as [id c n|id u|id|id]; simpl in Hno; [by apply slot_inv_register| | |done].
  - unfold run_node_op, update_node, in_world, mbind, app_prog_bind, mbind, prog_bind, in_registry, get_host.
    assert (Hw : ∀ w, set_registry (w_registry w) w = w) by (by intros []).
    assert (Hg : set_world (g_world g) g = g) by (by destruct g).
    destruct (d_get (hr_hosts (w_registry (g_world g))) id) as [l|]; rewrite Hw; [|simpl; by rewrite Hg].
    destruct (deref (g_world g) l) as [h|]; [|simpl; by rewrite Hg].
    apply (slot_inv_register g id (replace_capabilities u (capabilities h)) (replace_capacity u (capacity h)) Hinv).
  - unfold run_node_op, heartbeat_node, in_world, in_registry.
    pose proof (si_wf _ Hinv) as Hwf.
    pose proof (lookup_heartbeat (w_registry (g_world g)) id (w_now (g_world g))) as Hl.
    pose proof (heartbeat_wf id (w_now (g_world g)) _ Hwf) as Hwf'.
    destruct (Registry.heartbeat id (w_now (g_world g)) (w_registry (g_world g))) as [r reg].
    simpl in *. apply slot_inv_registry; [done|done| |].
    + intros id' h. rewrite Hl by done. case_decide; [|by intros ->]. subst id'.
      intros (h0 & -> & ->)%fmap_Some. done.
    + intros id'. rewrite Hl by done. case_decide; [|done]. subst id'. by rewrite fmap_is_Some.
Qed.

Lemma slot_inv_op g o :
  slot_inv g → no_deregister o →
  slot_inv (run_op factories cfg hc wait_timeout poll_interval g o).
Proof.
  intros Hinv Hno. pose proof (si_wf _ Hinv) as Hwf.
  destruct o as [rid c|rid a|rid|rid|rid r|rid r|o|o|po|now lnow]; simpl.
  - destruct (g_requests g !! rid) eqn:E; [done|]. eapply slot_inv_step_request; [done|by rewrite E|].
    apply arrive_effect.
  - destruct (g_requests g !! rid) as [[c capable blocked l rest| | |]|] eqn:E; try done.
    eapply slot_inv_step_request; [done|by rewrite E|apply answered_effect].
  - destruct (g_requests g !! rid) as [[|c locs f x| |]|] eqn:E; try done.
    eapply slot_inv_step_request; [done|by rewrite E|apply wake_effect, Hinv].
  - destruct (g_requests g !! rid) as [[c capable blocked l rest|c locs f x| |]|] eqn:E; try done.
    + by apply (slot_inv_idle g _ rid (Finished (Some ECancelled))); rewrite ?E.
    + apply (slot_inv_idle g _ rid (Finished (Some ECancelled))); rewrite ?E; [done|done| |done|done|done].
      simpl. intros Hc. by apply (same_gw_leave rid c g).
  - destruct (g_requests g !! rid) as [[| |c id f|]|] eqn:E; try done.
    destruct (stream (ch_request c)); [done|]. eapply slot_inv_finish; [done|exact E|].
    apply complete_ended. apply lookup_bound; [done|]. by eapply (si_registered _ Hinv).
  - destruct (g_requests g !! rid) as [[| |c id f|]|] eqn:E; try done.
    destruct (stream (ch_request c)); [|done]. eapply slot_inv_finish; [done|exact E|].
    apply stream_ended. apply lookup_bound; [done|]. by eapply (si_registered _ Hinv).
  - by apply slot_inv_node.
  - by destruct Hinv.
  - destruct Hinv. split; simpl; rewrite ?registry_probe; done.
  - by destruct Hinv.
Qed.
End slots.

(** ** Runs *)

(** A gateway that has just started: no request, an empty queue, hosts with free slots. *)
Record idle_gateway (g : Gateway) : Prop := {
  ig_requests : g_requests g = ∅;
  ig_queue : g_queue g = SchedulingQueue_new;
  ig_registry : reg_wf (w_registry (g_world g));
  ig_slots id h : lookup_host (w_registry (g_world g)) id = Some h → in_flight h = 0%Z;
}.

Lemma calm_new : callbacks_along (X := app_error) same_core SchedulingQueue_new.
Proof. apply map_Forall_empty. Qed.

Lemma idle_slot_inv g : idle_gateway g → slot_inv g.
Proof.
  intros [Er Eq Hwf Hs]. split; [done| | |].
  - unfold calm. rewrite Eq. apply calm_new.
  - intros id h Hh. rewrite (Hs id h Hh), Er. unfold running_on. by rewrite map_sum_empty.
  - intros rid c id f. by rewrite Er, lookup_empty.
Qed.

(** A property of every state a run goes through, from what each operation preserves. *)
Lemma run_gw_ind factories cfg hc wt pi (I : Gateway → Prop) (P : gw_op → Prop) g ops :
  (∀ g o, I g → P o → I (run_op factories cfg hc wt pi g o)) → I g → Forall P ops →
  I (run_gw factories cfg hc wt pi g ops).
Proof.
  intros Hstep. revert g. induction ops as [|o ops IH]; intros g Hg Hops; [done|].
  apply Forall_cons in Hops as [Ho Hops]. apply IH; [by apply Hstep|done].
Qed.

Section runs.
Context (factories : Factories) (cfg : LeaseSettings) (hc : HealthConfig)
  (wait_timeout poll_interval : float).

Abbreviation run_op := (run_op factories cfg hc wait_timeout poll_interval).

(** *** Calm *)

Lemma calm_step_request P rid c locs m g :
  calm g → stepped P rid c locs g (m g).1 (m g).2 → calm (step_request rid m g).
Proof.
  intros Hc Hm. unfold step_request. destruct (m g) as [r g']; simpl in Hm.
  destruct Hm as [e g1 Hs|f g1 [id g0 g2 Hs Hadm Hid Hr Hq Hqu]|s g1 Hn Hcore Hcalm Hlocs Hq].
  - by apply (sg_calm _ _ Hs).
  - unfold calm. rewrite Hqu. by apply Hs.
  - by apply Hcalm.
Qed.

(** A step that changes neither the queue nor the requests, by computation. *)
Lemma queue_complete id f r g : g_queue (complete hc id f r g).2 = g_queue g.
Proof.
  destruct r as [content fr p c lat|timeout msg|];
    unfold complete, mbind, gw_prog_bind, mbind, prog_bind, in_world, in_registry; simpl;
    destruct (release_slot id _) as [[[]|] reg]; try done.
  simpl. by destruct (negb _).
Qed.

Lemma queue_stream id r g : g_queue (stream_complete hc id r g).2 = g_queue g.
Proof.
  destruct r as [usage saw last lat|e];
    unfold stream_complete, mbind, gw_prog_bind, mbind, prog_bind, in_world, in_registry; simpl.
  - destruct usage as [[p c]|]; destruct (saw && _); simpl; by destruct (release_slot id _) as [[[]|] reg].
  - by destruct (release_slot id _) as [[[]|] reg].
Qed.

Lemma queue_finish rid m g : g_queue (m g).2 = g_queue g → g_queue (finish_request rid m g) = g_queue g.
Proof. unfold finish_request. by destruct (m g) as [[[]|e] g']. Qed.

Lemma queue_node o g : g_queue (in_world (run_node_op o) g).2 = g_queue g.
Proof. unfold in_world. by destruct (run_node_op o (g_world g)). Qed.

Lemma calm_op g o : calm g → calm (run_op g o).
Proof.
  intros Hc.
  assert (Hq : ∀ g', g_queue g' = g_queue g → calm g') by (unfold calm; by intros g' ->).
  destruct o as [rid c|rid a|rid|rid|rid r|rid r|o|o|po|now lnow]; simpl; try by apply Hq.
  - destruct (g_requests g !! rid); [done|]. by eapply calm_step_request, arrive_effect.
  - destruct (g_requests g !! rid) as [[c capable blocked l rest| | |]|]; try done. by eapply calm_step_request, answered_effect.
  - destruct (g_requests g !! rid) as [[|c locs f x| |]|]; try done. by eapply calm_step_request, wake_effect.
  - destruct (g_requests g !! rid) as [[c capable blocked l rest|c locs f x| |]|]; try done. by apply (same_gw_leave rid c g).
  - destruct (g_requests g !! rid) as [[| |c id f|]|]; try done. destruct (stream (ch_request c)); [done|].
    apply Hq, queue_finish, queue_complete.
  - destruct (g_requests g !! rid) as [[| |c id f|]|]; try done. destruct (stream (ch_request c)); [|done].
    apply Hq, queue_finish, queue_stream.
  - apply Hq, queue_node.
Qed.

Lemma calm_run g ops :
  g_queue g = SchedulingQueue_new → calm (run_gw factories cfg hc wait_timeout poll_interval g ops).
Proof.
  intros Hg. apply (run_gw_ind _ _ _ _ _ calm (λ _, True)); [intros; by apply calm_op| |by apply Forall_true].
  unfold calm. rewrite Hg. apply calm_new.
Qed.

(** *** Who starts to run *)

Lemma requests_complete id f r g : g_requests (complete hc id f r g).2 = g_requests g.
Proof.
  destruct r as [content fr p c lat|timeout msg|];
    unfold complete, mbind, gw_prog_bind, mbind, prog_bind, in_world, in_registry; simpl;
    destruct (release_slot id _) as [[[]|] reg]; try done.
  simpl. by destruct (negb _).
Qed.

Lemma requests_stream id r g : g_requests (stream_complete hc id r g).2 = g_requests g.
Proof.
  destruct r as [usage saw last lat|e];
    unfold stream_complete, mbind, gw_prog_bind, mbind, prog_bind, in_world, in_registry; simpl.
  - destruct usage as [[p c]|]; destruct (saw && _); simpl; by destruct (release_slot id _) as [[[]|] reg].
  - by destruct (release_slot id _) as [[[]|] reg].
Qed.

Lemma requests_node o g : g_requests (in_world (run_node_op o) g).2 = g_requests g.
Proof. unfold in_world. by destruct (run_node_op o (g_world g)). Qed.

(** The end of a request changes its own state only. *)
Lemma requests_finish rid m g :
  g_requests (m g).2 = g_requests g →
  ∃ e, g_requests (finish_request rid m g) = <[rid := Finished e]> (g_requests g).
Proof.
  unfold finish_request. destruct (m g) as [[[]|e] g']; simpl; intros ->; [by exists None|by exists (Some e)].
Qed.

(** A request that runs after a step ran before, or the step was its own and took the slot. *)
Lemma running_step_request P rid c locs m g rid' c' id f :
  stepped P rid c locs g (m g).1 (m g).2 →
  g_requests (step_request rid m g) !! rid' = Some (Running c' id f) →
  g_requests g !! rid' = Some (Running c' id f) ∨
  rid' = rid ∧ c' = c ∧ P id ∧
    w_registry (g_world (step_request rid m g)) = (acquire_slot id (w_registry (g_world g))).2.
Proof.
  intros Hm. unfold step_request. destruct (m g) as [r g']; simpl in Hm.
  destruct Hm as [e g1 Hs|f' g1 [id' g0 g2 Hs Hadm Hid Hr Hq Hqu]|s g1 Hn Hcore Hcalm Hlocs Hq]; simpl.
  - rewrite lookup_insert_Some, (sg_requests _ _ Hs). intros [[_ [=]]|[_ H]]. by left.
  - rewrite Hq, lookup_insert_Some. intros [[<- [= <- <- <-]]|[_ H]]; [|by left].
    right. split_and!; [done|done|exact Hadm|exact Hr].
  - rewrite Hq, lookup_insert_Some. intros [[_ ->]|[_ H]]; [|by left].
    specialize (Hn id). simpl in Hn. by rewrite decide_True in Hn.
Qed.

(** The hosts a request that is not running yet may be given. *)
Definition pending_on (g : Gateway) (rid : string) (c : Chat) (locs : list nat) : Prop :=
  match g_requests g !! rid with
  | None => locs = hosts (w_registry (g_world g))
  | Some (Probing c' capable _ l rest) => c' = c ∧ locs = capable ++ l :: rest
  | Some (Waiting c' locs' _ _) => c' = c ∧ locs' = locs
  | Some (Running _ _ _ | Finished _) => False
  end.

Lemma running_op g o rid c id f :
  calm g → g_requests (run_op g o) !! rid = Some (Running c id f) →
  g_requests g !! rid = Some (Running c id f) ∨
  ∃ locs, pending_on g rid c locs ∧ admissible (g_world g) c locs id ∧
    w_registry (g_world (run_op g o)) = (acquire_slot id (w_registry (g_world g))).2.
Proof.
  intros Hcalm.
  assert (Hfin : ∀ rid' m, g_requests (m g).2 = g_requests g →
    g_requests (finish_request rid' m g) !! rid = Some (Running c id f) →
    g_requests g !! rid = Some (Running c id f)).
  { intros rid' m Hm. destruct (requests_finish rid' m g Hm) as [e ->]. rewrite lookup_insert_Some. naive_solver. }
  destruct o as [rid' c'|rid' a|rid'|rid'|rid' r|rid' r|o|o|po|now lnow]; simpl; try (by left).
  - destruct (g_requests g !! rid') as [s|] eqn:E; [by left|]. intros H.
    eapply running_step_request in H; [|apply arrive_effect].
    destruct H as [H|(-> & -> & Hadm & Hr)]; [by left|]. right. eexists. unfold pending_on. by rewrite E.
  - destruct (g_requests g !! rid') as [[c0 capable blocked l rest| | |]|] eqn:E; try (by left). intros H.
    eapply running_step_request in H; [|apply answered_effect].
    destruct H as [H|(-> & -> & Hadm & Hr)]; [by left|]. right. eexists. unfold pending_on. by rewrite E.
  - destruct (g_requests g !! rid') as [[|c0 locs f0 x| |]|] eqn:E; try (by left). intros H.
    eapply running_step_request in H; [|by apply wake_effect].
    destruct H as [H|(-> & -> & Hadm & Hr)]; [by left|]. right. exists locs. unfold pending_on. by rewrite E.
  - destruct (g_requests g !! rid') as [[c0 capable blocked l rest|c0 locs f0 x| |]|] eqn:E; try (by left);
      simpl; rewrite lookup_insert_Some; naive_solver.
  - destruct (g_requests g !! rid') as [[| |c0 b f0|]|]; try (by left). destruct (stream (ch_request c0)); [by left|].
    intros H. left. eapply Hfin; [|exact H]. apply requests_complete.
  - destruct (g_requests g !! rid') as [[| |c0 b f0|]|]; try (by left). destruct (stream (ch_request c0)); [|by left].
    intros H. left. eapply Hfin; [|exact H]. apply requests_stream.
  - rewrite requests_node. by left.
Qed.

(** *** Waiting *)

(** The polls of a request among some operations. *)
Definition polls (rid : string) (o : gw_op) : bool :=
  match o with GWake r => bool_decide (r = rid) | _ => false end.
Definition wakes (rid : string) (ops : list gw_op) : nat := length (filter (λ o, polls rid o = true) ops).

(** What [n] polls make of the time waited. *)
Definition waited_after (x : float) (n : nat) : float := Nat.iter n (λ x, f_add x poll_interval) x.

(** A request that left the queue. *)
Definition settled (s : option chat_state) : Prop :=
  match s with Some (Running _ _ _) | Some (Finished _) => True | _ => False end.

(** A step of another request. *)
Lemma step_request_other P rid c locs m g rid' :
  rid' ≠ rid → stepped P rid c locs g (m g).1 (m g).2 →
  g_requests (step_request rid m g) !! rid' = g_requests g !! rid'.
Proof.
  intros Hne Hm. unfold step_request. destruct (m g) as [r g']; simpl in Hm.
  destruct Hm as [e g1 Hs|f' g1 [id' g0 g2 Hs Hadm Hid Hr Hq Hqu]|s g1 Hn Hcore Hcalm Hlocs Hq]; simpl.
  - by rewrite lookup_insert_ne, (sg_requests _ _ Hs).
  - by rewrite Hq, lookup_insert_ne.
  - by rewrite Hq, lookup_insert_ne.
Qed.

Lemma timeout_raises rid c f g : ∃ e g', finally_cancel rid c (dispatch_timeout f) g = (Raise e, g').
Proof. by eexists _, _. Qed.

(** What a poll leaves of a waiting request. *)
Lemma wake_waited rid c locs f x g :
  calm g →
  let g' := step_request rid (wake factories wait_timeout poll_interval rid c locs f x) g in
  settled (g_requests g' !! rid) ∨
  g_requests g' !! rid = Some (Waiting c locs f (f_add x poll_interval)) ∧
    f_lt (f_add x poll_interval) wait_timeout = true.
Proof.
  intros Hcalm. unfold step_request. cbv zeta.
  assert (Hstart : ∀ cs g0 r g', start rid c cs f g0 = (r, g') → r = Ret tt → settled (g_requests g' !! rid)).
  { intros cs g0 r g' E ->. pose proof (start_effect (λ _, True) rid c cs f g0 (λ _ _, I)) as H.
    rewrite E in H. destruct H as [id g1 g2 Hs Hadm Hid Hr Hq Hqu]. by rewrite Hq, lookup_insert_eq. }
  unfold wake. set (poll := mbind _ _). destruct (poll g) as [[[cs|]|e] g1].
  - destruct (start rid c cs f (leave_queue rid c g1)) as [[[]|e] g2] eqn:E.
    + left. by eapply Hstart.
    + left. simpl. by rewrite lookup_insert_eq.
  - destruct (f_lt (f_add x poll_interval) wait_timeout) eqn:El.
    + right. simpl. by rewrite lookup_insert_eq.
    + left. destruct (timeout_raises rid c f g1) as (e & g2 & ->). simpl. by rewrite lookup_insert_eq.
  - left. simpl. by rewrite lookup_insert_eq.
Qed.

Lemma waiting_op g o rid c locs f x :
  calm g → g_requests g !! rid = Some (Waiting c locs f x) →
  settled (g_requests (run_op g o) !! rid) ∨
  ∃ x', g_requests (run_op g o) !! rid = Some (Waiting c locs f x') ∧
    if polls rid o then x' = f_add x poll_interval ∧ f_lt x' wait_timeout = true else x' = x.
Proof.
  intros Hcalm E.
  assert (Hsame : ∀ g', polls rid o = false → g_requests g' !! rid = g_requests g !! rid →
    settled (g_requests g' !! rid) ∨ ∃ x', g_requests g' !! rid = Some (Waiting c locs f x') ∧
    if polls rid o then x' = f_add x poll_interval ∧ f_lt x' wait_timeout = true else x' = x).
  { intros g' Hp Eg. right. exists x. by rewrite Eg, E, Hp. }
  destruct o as [rid' c'|rid' a|rid'|rid'|rid' r|rid' r|o|o|po|now lnow]; simpl; try (by apply Hsame).
  - destruct (g_requests g !! rid') as [s|] eqn:E'; [by apply Hsame|]. apply Hsame; [done|].
    eapply step_request_other; [congruence|apply arrive_effect].
  - destruct (g_requests g !! rid') as [[c0 capable blocked l rest| | |]|] eqn:E'; try (by apply Hsame). apply Hsame; [done|].
    eapply step_request_other; [congruence|apply answered_effect].
  - simpl in Hsame. case_bool_decide as Hr; [subst rid'|].
    + rewrite E. destruct (wake_waited rid c locs f x g Hcalm) as [H|[H1 H2]]; [by left|right].
      exists (f_add x poll_interval). done.
    + destruct (g_requests g !! rid') as [[|c0 locs0 f0 x0| |]|] eqn:E'; try (by apply Hsame).
      apply Hsame; [done|]. eapply step_request_other; [done|by apply wake_effect].
  - destruct (decide (rid' = rid)) as [->|Hne].
    + rewrite E. left. simpl. by rewrite lookup_insert_eq.
    + destruct (g_requests g !! rid') as [[c0 capable blocked l rest|c0 locs0 f0 x0| |]|]; try (by apply Hsame).
      * apply (Hsame (set_request rid' (Finished (Some ECancelled)) g)); [done|]. by apply lookup_insert_ne.
      * apply (Hsame (set_request rid' (Finished (Some ECancelled)) (leave_queue rid' c0 g))); [done|].
        by apply lookup_insert_ne.
  - destruct (g_requests g !! rid') as [[| |c0 b f0|]|] eqn:E'; try (by apply Hsame).
    destruct (stream (ch_request c0)); [by apply Hsame|]. apply Hsame; [done|].
    destruct (requests_finish rid' (complete hc b f0 r) g (requests_complete _ _ _ _)) as [e ->].
    rewrite lookup_insert_ne; congruence.
  - destruct (g_requests g !! rid') as [[| |c0 b f0|]|] eqn:E'; try (by apply Hsame).
    destruct (stream (ch_request c0)); [|by apply Hsame]. apply Hsame; [done|].
    destruct (requests_finish rid' (stream_complete hc b r) g (requests_stream _ _ _)) as [e ->].
    rewrite lookup_insert_ne; congruence.
  - apply Hsame; [done|]. by rewrite requests_node.
Qed.

Lemma settled_op g o rid : calm g → settled (g_requests g !! rid) → settled (g_requests (run_op g o) !! rid).
Proof.
  intros Hcalm Hs.
  assert (Hstep : ∀ P rid' c locs m, stepped P rid' c locs g (m g).1 (m g).2 →
    g_requests g !! rid' ≠ g_requests g !! rid → settled (g_requests (step_request rid' m g) !! rid)).
  { intros P rid' c locs m Hm Hne. erewrite step_request_other; [exact Hs| |exact Hm]. congruence. }
  assert (Hfin : ∀ rid' m, g_requests (m g).2 = g_requests g →
    settled (g_requests (finish_request rid' m g) !! rid)).
  { intros rid' m Hm. destruct (requests_finish rid' m g Hm) as [e ->]. rewrite lookup_insert. by case_decide. }
  destruct o as [rid' c'|rid' a|rid'|rid'|rid' r|rid' r|o|o|po|now lnow]; simpl; try done.
  - destruct (g_requests g !! rid') as [s|] eqn:E; [done|].
    eapply Hstep; [apply arrive_effect|]. rewrite E. intros H. by rewrite <-H in Hs.
  - destruct (g_requests g !! rid') as [[c0 capable blocked l rest| | |]|] eqn:E; try done.
    eapply Hstep; [apply answered_effect|]. rewrite E. intros H. by rewrite <-H in Hs.
  - destruct (g_requests g !! rid') as [[|c0 locs f0 x| |]|] eqn:E; try done.
    eapply Hstep; [by apply wake_effect|]. rewrite E. intros H. by rewrite <-H in Hs.
  - destruct (g_requests g !! rid') as [[c0 capable blocked l rest|c0 locs f0 x| |]|] eqn:E; try done;
      simpl; rewrite lookup_insert; by case_decide.
  - destruct (g_requests g !! rid') as [[| |c0 b f0|]|]; try done. destruct (stream (ch_request c0)); [done|].
    apply Hfin, requests_complete.
  - destruct (g_requests g !! rid') as [[| |c0 b f0|]|]; try done. destruct (stream (ch_request c0)); [|done].
    apply Hfin, requests_stream.
  - by rewrite requests_node.
Qed.

(** A waiting request has waited as many polls as it woke, each within the timeout. *)
Lemma waiting_run g ops rid c locs f x :
  calm g → g_requests g !! rid = Some (Waiting c locs f x) →
  let g' := run_gw factories cfg hc wait_timeout poll_interval g ops in
  settled (g_requests g' !! rid) ∨
  g_requests g' !! rid = Some (Waiting c locs f (waited_after x (wakes rid ops))) ∧
    ∀ k, 0 < k ≤ wakes rid ops → f_lt (waited_after x k) wait_timeout = true.
Proof.
  intros Hcalm E. cbv zeta. induction ops as [|o ops IH] using rev_ind; [right; split; [done|]; intros k Hk; unfold wakes in Hk; simpl in Hk; lia|].
  unfold run_gw in *. rewrite foldl_app. simpl. set (g1 := foldl _ g ops) in *.
  assert (Hc1 : calm g1).
  { apply (run_gw_ind _ _ _ _ _ calm (λ _, True)); [intros; by apply calm_op|done|by apply Forall_true]. }
  destruct IH as [Hs|[E1 Hk]]; [left; by apply settled_op|].
  destruct (waiting_op g1 o rid c locs f _ Hc1 E1) as [|(x' & E2 & Hx)]; [by left|right].
  unfold wakes. rewrite filter_app, length_app. fold (wakes rid ops).
  rewrite filter_cons, filter_nil. destruct (polls rid o); simpl.
  - destruct Hx as [-> Hlt]. rewrite Nat.add_1_r. split; [done|]. intros k Hkn.
    destruct (decide (k = S (wakes rid ops))) as [->|]; [done|]. apply Hk. lia.
  - subst x'. by rewrite Nat.add_0_r.
Qed.
End runs.

(** ** The queue holds the requests that wait *)

Section own_entries.
Implicit Types q : queue.

Definition mine (rid : string) q p s : list QueueEntry := filter (λ e, request_id e = rid) (queued q p s).

(** [q'] differs from [q] by entries and callbacks of [rid] only. *)
Definition own_only (rid : string) q q' : Prop :=
  queue_wf q → queue_wf q' ∧ (∀ p s, uncancelled rid (queued q' p s) = uncancelled rid (queued q p s)) ∧
    ∀ rid', rid' ≠ rid → sq_eligibility q' !! rid' = sq_eligibility q !! rid'.

#[export] Instance own_only_preorder rid : PreOrder (own_only rid).
Proof.
  split; [done|]. intros q1 q2 q3 H1 H2 Hwf. destruct (H1 Hwf) as (Hwf2 & E1 & C1), (H2 Hwf2) as (Hwf3 & E2 & C2).
  split; [done|]. split; [intros p s; by rewrite E2|intros rid' Hne; by rewrite C2, C1].
Qed.

(** [rid] has no entry; no entry but in its session; exactly one, in its session. *)
Definition q_none rid q : Prop := ∀ p s, mine rid q p s = [].
Definition q_at rid (c : Chat) q : Prop :=
  ∀ p s, ¬ (p = 0%Z ∧ s = queue_session rid c) → mine rid q p s = [].
Definition q_one rid (c : Chat) q : Prop :=
  ∀ p s, length (mine rid q p s) = if decide (p = 0%Z ∧ s = queue_session rid c) then 1 else 0.

Lemma q_none_at rid c q : q_none rid q → q_at rid c q.
Proof. intros H p s _. apply H. Qed.

Lemma q_one_at rid c q : q_one rid c q → q_at rid c q.
Proof.
  intros H p s Hn. specialize (H p s). rewrite decide_False in H by done. by apply nil_length_inv.
Qed.

Lemma filter_disjoint rid (l : list QueueEntry) : filter (λ e, request_id e = rid) (uncancelled rid l) = [].
Proof.
  unfold uncancelled. induction l as [|e l IH]; [done|]. rewrite filter_cons. case_decide; [|done].
  by rewrite filter_cons, decide_False.
Qed.

Lemma uncancelled_other rid rid' (l : list QueueEntry) :
  rid' ≠ rid → filter (λ e, request_id e = rid') (uncancelled rid l) = filter (λ e, request_id e = rid') l.
Proof.
  intros Hne. unfold uncancelled. induction l as [|e l IH]; [done|]. rewrite !filter_cons.
  destruct (decide (request_id e ≠ rid)) as [|Hr]; [rewrite filter_cons; by rewrite IH|].
  apply dec_stable in Hr. rewrite IH, decide_False; [done|]. congruence.
Qed.

(** The entries of another request are as before. *)
Lemma own_only_other rid rid' q q' p s :
  queue_wf q → own_only rid q q' → rid' ≠ rid → mine rid' q' p s = mine rid' q p s.
Proof.
  intros Hwf Ho Hne. destruct (Ho Hwf) as (_ & E & _). unfold mine.
  by rewrite <-(uncancelled_other rid rid' (queued q' p s)), E, uncancelled_other.
Qed.

Lemma own_only_enqueue rid s p at_ el q : own_only rid q (enqueue rid s p at_ el q).
Proof.
  intros Hwf. split; [by apply enqueue_wf|]. split.
  - intros p' s'. rewrite queued_enqueue by done. case_decide; [|done].
    unfold uncancelled. rewrite filter_app, filter_cons, decide_False by (simpl; tauto).
    by rewrite filter_nil, app_nil_r.
  - intros rid' Hne. destruct el; [|done]. by apply lookup_insert_ne.
Qed.

Lemma q_one_enqueue rid c at_ el q :
  queue_wf q → q_none rid q → q_one rid c (enqueue rid (queue_session rid c) 0 at_ el q).
Proof.
  intros Hwf Hn p s. unfold mine. rewrite queued_enqueue by done. case_decide.
  - rewrite filter_app. fold (mine rid q p s). by rewrite Hn, filter_cons, decide_True.
  - fold (mine rid q p s). by rewrite Hn.
Qed.

Lemma own_only_cancel rid s p q : own_only rid q (cancel rid s p q).
Proof.
  intros Hwf. split; [by apply cancel_wf|]. split.
  - intros p' s'. rewrite queued_cancel by done. case_decide; [|done].
    unfold uncancelled. rewrite list_filter_filter. apply list_filter_iff. tauto.
  - intros rid' Hne. rewrite cancel_eligibility. by apply lookup_delete_ne.
Qed.

Lemma q_none_cancel rid c q :
  queue_wf q → q_at rid c q → q_none rid (cancel rid (queue_session rid c) 0 q).
Proof.
  intros Hwf Ha p s. unfold mine. rewrite queued_cancel by done. case_decide as Hd; [apply filter_disjoint|].
  by apply Ha.
Qed.

(** [dispatch] for [rid] takes at most the entry of [rid]. *)
Lemma dispatch_own (now : queue * World → datetime) avail rid g r g' :
  queue_wf (g_queue g) → in_queue (λ s, dispatch infos (now s) (avail s) (Some rid) s) g = (r, g') →
  own_only rid (g_queue g) (g_queue g') ∧ (∀ c, q_at rid c (g_queue g) → q_at rid c (g_queue g')) ∧
  g_requests g' = g_requests g ∧ (r ≠ Ret (Some rid) → g_queue g' = g_queue g).
Proof.
  intros Hwf. unfold in_queue. cbv beta.
  destruct (dispatch_spec infos (now (g_queue g, g_world g)) (avail (g_queue g, g_world g)) (Some rid)
    (g_queue g) (g_world g) Hwf) as (r0 & q' & w' & -> & Hd).
  intros [= <- <-]. simpl. pose proof (dispatched_wf _ _ _ _ Hwf Hd) as Hwf'.
  destruct Hd as [e| |p s e rest Hs Hw]; [done..|].
  apply bool_decide_eq_false, dec_stable in Hw.
  pose proof (λ p' s', queued_pop p s e rest (g_queue g) p' s' Hs) as Hq.
  assert (He : queued (g_queue g) p s = e :: rest) by (unfold queued; by rewrite Hs).
  split_and!; [| |done|by rewrite Hw].
  - intros _. split; [done|]. split; [|intros rid' Hne; simpl; rewrite Hw; by apply lookup_delete_ne].
    intros p' s'. rewrite Hq. case_decide as Hd; [|done]. destruct Hd as [-> ->].
    rewrite He. unfold uncancelled. rewrite filter_cons, decide_False; [done|]. rewrite Hw. tauto.
  - intros c Ha p' s' Hn. specialize (Ha p' s' Hn). unfold mine in *. rewrite Hq. case_decide as Hd; [|done].
    destruct Hd as [-> ->]. rewrite He, filter_cons, decide_True in Ha by done. done.
Qed.
End own_entries.

Section queue_steps.
Context (factories : Factories) (cfg : LeaseSettings) (hc : HealthConfig)
  (wait_timeout poll_interval : float).

(** What a step of [rid] does to the queue: only its own entries change, and there is one
    left exactly when it still waits, with the callback that looks for its hosts. *)
Definition own_fits (rid : string) (g : Gateway) : Prop :=
  match g_requests g !! rid with
  | Some (Waiting c locs _ _) =>
      q_one rid c (g_queue g) ∧ sq_eligibility (g_queue g) !! rid = Some (queued_host_ids factories c locs)
  | _ => q_none rid (g_queue g)
  end.

Record queue_step (rid : string) (g g' : Gateway) : Prop := {
  qs_own : own_only rid (g_queue g) (g_queue g');
  qs_others rid' : rid' ≠ rid → g_requests g' !! rid' = g_requests g !! rid';
  qs_fits : queue_wf (g_queue g) → own_fits rid g';
}.

(** A step whose request is over. *)
Lemma queue_step_finished rid g g' e :
  own_only rid (g_queue g) (g_queue g') → g_requests g' = g_requests g →
  (queue_wf (g_queue g) → q_none rid (g_queue g')) → queue_step rid g (set_request rid (Finished e) g').
Proof.
  intros Ho Er Hn. split; simpl; [done| |].
  - intros rid' Hne. by rewrite lookup_insert_ne, Er.
  - unfold own_fits. simpl. by rewrite lookup_insert_eq.
Qed.

(** A step that looks at the world before it goes on. *)
Definition looks {A} (m : gw_prog A) : Prop :=
  ∀ g, g_queue (m g).2 = g_queue g ∧ g_requests (m g).2 = g_requests g.

Lemma looks_world {A} (m : app_prog A) : looks (in_world m).
Proof. intros g. unfold in_world. by destruct (m (g_world g)). Qed.

Lemma looks_router {A} (m : route_prog A) : looks (in_router m).
Proof. intros g. unfold in_router. by destruct (m (g_router g)). Qed.

Lemma looks_on_world f : looks (on_world f).
Proof. done. Qed.

Lemma queue_step_bind {A} rid (m : gw_prog A) (k : A → gw_prog unit) g :
  looks m → q_none rid (g_queue g) →
  (∀ a g', q_none rid (g_queue g') → queue_step rid g' (step_request rid (k a) g')) →
  queue_step rid g (step_request rid (m ≫= k) g).
Proof.
  intros Hm Hn Hk. destruct (Hm g) as [Eq Er]. unfold step_request, mbind, gw_prog_bind, mbind, prog_bind.
  destruct (m g) as [[a|e] g']; simpl in Eq, Er.
  - destruct (Hk a g') as [Ho Hr Hf]; [by rewrite Eq|]. unfold step_request in *. rewrite Eq in Ho, Hf.
    split; [done| |done]. intros rid' Hne. by rewrite Hr, Er.
  - apply queue_step_finished; [by rewrite Eq|done|by rewrite Eq].
Qed.

Lemma queue_step_start rid c cs f g :
  q_none rid (g_queue g) → queue_step rid g (step_request rid (start rid c cs f) g).
Proof.
  intros Hn. unfold start. apply queue_step_bind; [apply looks_router|done|intros d g1 H1].
  apply queue_step_bind; [by intros g'; destruct (_ !! _)|done|intros _ g2 H2].
  apply queue_step_bind; [apply looks_world|done|intros _ g3 H3].
  apply queue_step_bind; [by destruct (stream _)|done|intros _ g4 H4].
  split; simpl; [done|intros; by apply lookup_insert_ne|].
  unfold own_fits. simpl. by rewrite lookup_insert_eq.
Qed.

(** The timeout, with what may be left of the request's entry. *)
Lemma queue_step_timeout rid c f g g' :
  own_only rid (g_queue g) (g_queue g') → g_requests g' = g_requests g →
  (queue_wf (g_queue g) → queue_wf (g_queue g') ∧ q_at rid c (g_queue g')) →
  queue_step rid g (step_request rid (finally_cancel rid c (dispatch_timeout f)) g').
Proof.
  intros Ho Er Ha. apply queue_step_finished; simpl; [|done|].
  - etrans; [exact Ho|apply own_only_cancel].
  - intros Hwf. by apply q_none_cancel; apply Ha.
Qed.

Lemma queue_step_admission rid c capable blocked g :
  q_none rid (g_queue g) →
  queue_step rid g (step_request rid (admission factories wait_timeout rid c capable blocked) g).
Proof.
  intros Hn. unfold admission.
  apply queue_step_bind; [apply looks_world|done|intros pinned g2 H2].
  apply queue_step_bind; [apply looks_world|done|intros usable g3 H3].
  apply queue_step_bind; [done|done|intros g3' g4 H4].
  apply queue_step_bind; [apply looks_world|done|intros cs g5 H5].
  destruct cs as [|c0 cs]; [|by apply queue_step_start].
  unfold mbind, gw_prog_bind, mbind, prog_bind, modify.
  set (q := enqueue rid (queue_session rid c) 0 (ch_now c)
    (Some (queued_host_ids factories c capable)) (g_queue g5)). set (g6 := set_queue q g5).
  assert (Ho : own_only rid (g_queue g5) (g_queue g6)) by apply own_only_enqueue.
  assert (H6 : queue_wf (g_queue g5) → q_one rid c (g_queue g6)) by (intros Hwf; by apply q_one_enqueue).
  destruct (f_lt f_zero wait_timeout).
  - split; simpl; [exact Ho|intros; by apply lookup_insert_ne|].
    unfold own_fits. simpl. rewrite !lookup_insert_eq. intros Hwf. split; [by apply H6|done].
  - refine (queue_step_timeout rid c _ g5 g6 Ho eq_refl _).
    intros Hwf. split; [by apply (Ho Hwf)|]. by apply q_one_at, H6.
Qed.

(** A request that holds no entry and is asking the backends. *)
Lemma queue_step_go_on rid c capable blocked locs g :
  q_none rid (g_queue g) →
  queue_step rid g (step_request rid (go_on factories wait_timeout rid c capable blocked locs) g).
Proof.
  intros Hn. unfold go_on. apply queue_step_bind; [apply looks_world|done|intros s g1 H1].
  destruct s as [capable' blocked' l rest|capable' blocked']; [|by apply queue_step_admission].
  split; simpl; [done|intros; by apply lookup_insert_ne|].
  unfold own_fits. simpl. by rewrite lookup_insert_eq.
Qed.

Lemma queue_step_arrive rid c g :
  q_none rid (g_queue g) →
  queue_step rid g (step_request rid (arrive factories wait_timeout rid c) g).
Proof.
  intros Hn. unfold arrive. apply queue_step_bind; [apply looks_world|done|intros _ g1 H1].
  apply queue_step_bind; [done|done|intros locs g2 H2]. by apply queue_step_go_on.
Qed.

Lemma queue_step_answered rid c capable blocked l rest a g :
  q_none rid (g_queue g) →
  queue_step rid g (step_request rid (answered factories wait_timeout rid c capable blocked l rest a) g).
Proof.
  intros Hn. unfold answered. apply queue_step_bind; [apply looks_world|done|intros a' g0 H0].
  apply queue_step_bind; [done|done|intros found g1 H1]. by apply queue_step_go_on.
Qed.

Lemma queue_step_wake rid c locs f x g :
  queue_wf (g_queue g) → q_one rid c (g_queue g) →
  sq_eligibility (g_queue g) !! rid = Some (queued_host_ids factories c locs) →
  queue_step rid g (step_request rid (wake factories wait_timeout poll_interval rid c locs f x) g).
Proof.
  intros Hwf H1 Hcb. pose proof (q_one_at _ _ _ H1) as Ha. unfold step_request, wake.
  set (x' := f_add x poll_interval). set (poll := mbind _ _).
  assert (Hpoll : own_only rid (g_queue g) (g_queue (poll g).2) ∧ q_at rid c (g_queue (poll g).2) ∧
    g_requests (poll g).2 = g_requests g ∧ ((poll g).1 = Ret None → g_queue (poll g).2 = g_queue g)).
  { unfold poll, mbind, gw_prog_bind, mbind, prog_bind.
    destruct (looks_world (current_candidates factories c locs) g) as [E1 E2].
    destruct (in_world _ g) as [[cs|e] g1]; simpl in E1, E2; [|simpl; by rewrite E1, E2].
    destruct cs as [|c0 cs]; [simpl; by rewrite E1, E2|].
    destruct (in_queue (λ s, dispatch infos (w_now s.2) (Some (candidate_ids (c0 :: cs))) (Some rid) s) g1)
      as [r g2] eqn:Ed.
    destruct (dispatch_own (λ s, w_now s.2) (λ _, Some (candidate_ids (c0 :: cs))) rid g1 r g2) as (Ho & Hat & Er & Eq);
      [by rewrite E1|exact Ed|]. rewrite E1 in *. rewrite E2 in *. specialize (Hat c Ha).
    destruct r as [r|e]; simpl; [|done]. split_and!; [done..|].
    case_bool_decide as Hr; [done|]. intros _. apply Eq. congruence. }
  destruct Hpoll as (Ho & Hat & Er & Hkept). destruct (Ho Hwf) as [Hwf' _].
  assert (Hleave : q_none rid (g_queue (leave_queue rid c (poll g).2))) by (by apply q_none_cancel).
  assert (Hol : own_only rid (g_queue g) (g_queue (leave_queue rid c (poll g).2))).
  { etrans; [exact Ho|apply own_only_cancel]. }
  destruct (poll g) as [[[cs|]|e] g1]; simpl in *.
  - destruct (queue_step_start rid c cs f (leave_queue rid c g1) Hleave) as [Hos Hrs Hfs].
    unfold step_request in *. split.
    + etrans; [exact Hol|exact Hos].
    + intros rid' Hne. rewrite Hrs by done. simpl. by rewrite Er.
    + intros _. apply Hfs. by apply (cancel_wf rid (queue_session rid c) 0).
  - specialize (Hkept eq_refl). destruct (f_lt x' wait_timeout).
    + split; simpl; [done|intros; by rewrite lookup_insert_ne, Er|].
      unfold own_fits. simpl. by rewrite lookup_insert_eq, Hkept.
    + refine (queue_step_timeout rid c f g g1 Ho Er (λ _, conj Hwf' Hat)).
  - by apply queue_step_finished.
Qed.
(** ** The invariant of the queue *)

(** The session in which a request waits. *)
Definition waits_in (reqs : gmap string chat_state) (rid : string) : option string :=
  match reqs !! rid with Some (Waiting c _ _ _) => Some (queue_session rid c) | _ => None end.

Definition queue_inv (g : Gateway) : Prop := queue_wf (g_queue g) ∧ ∀ rid, own_fits rid g.

Lemma queue_inv_step rid g g' : queue_inv g → queue_step rid g g' → queue_inv g'.
Proof.
  intros [Hwf Hf] [Ho Hr Hfit]. split; [by apply Ho|]. intros rid'.
  destruct (decide (rid' = rid)) as [->|Hne]; [by apply Hfit|].
  specialize (Hf rid'). pose proof (λ p s, own_only_other rid rid' (g_queue g) (g_queue g') p s Hwf Ho Hne) as Hm.
  destruct (Ho Hwf) as (_ & _ & Hcb). unfold own_fits, q_one, q_none in *. rewrite Hr, Hcb by done.
  destruct (g_requests g !! rid') as [[]|]; [| |..]; try (intros p s; by rewrite Hm).
  split; [intros p s; rewrite Hm|]; by apply Hf.
Qed.

Lemma queue_inv_same g g' :
  g_queue g' = g_queue g → g_requests g' = g_requests g → queue_inv g → queue_inv g'.
Proof. unfold queue_inv, own_fits. by intros -> ->. Qed.

Lemma queue_inv_none g rid :
  queue_inv g → (∀ c locs f x, g_requests g !! rid ≠ Some (Waiting c locs f x)) → q_none rid (g_queue g).
Proof.
  intros [_ Hf] Hn. specialize (Hf rid). unfold own_fits in Hf.
  destruct (g_requests g !! rid) as [[|c locs f x| |]|]; try done. by destruct (Hn c locs f x).
Qed.

(** The end of a running request. *)
Lemma queue_inv_finish rid m g c b f :
  queue_inv g → g_requests g !! rid = Some (Running c b f) →
  g_queue (m g).2 = g_queue g → g_requests (m g).2 = g_requests g → queue_inv (finish_request rid m g).
Proof.
  intros Hinv E Eq Er. apply (queue_inv_step rid g); [done|].
  assert (Hn : q_none rid (g_queue g)) by (apply queue_inv_none; [done|by rewrite E]).
  unfold finish_request. destruct (m g) as [[[]|e] g']; simpl in Eq, Er;
    (apply queue_step_finished; [by rewrite Eq|done|by rewrite Eq]).
Qed.

Lemma queue_inv_op g o :
  queue_inv g → queue_inv (run_op factories cfg hc wait_timeout poll_interval g o).
Proof.
  intros Hinv. pose proof (queue_inv_none g) as Hn.
  destruct o as [rid c|rid a|rid|rid|rid r|rid r|o|o|po|now lnow]; simpl;
    try (by apply (queue_inv_same g)).
  - destruct (g_requests g !! rid) eqn:E; [done|]. eapply queue_inv_step; [done|].
    apply queue_step_arrive, Hn; [done|by rewrite E].
  - destruct (g_requests g !! rid) as [[c capable blocked l rest| | |]|] eqn:E; try done. eapply queue_inv_step; [done|].
    apply queue_step_answered, Hn; [done|by rewrite E].
  - destruct (g_requests g !! rid) as [[|c locs f x| |]|] eqn:E; try done. eapply queue_inv_step; [done|].
    destruct Hinv as [Hwf Hf]. specialize (Hf rid). unfold own_fits in Hf. rewrite E in Hf.
    destruct Hf as [H1 Hcb]. by apply queue_step_wake.
  - destruct (g_requests g !! rid) as [[c capable blocked l rest|c locs f x| |]|] eqn:E; try done; apply (queue_inv_step rid g); try done.
    + apply queue_step_finished; [done|done|]. intros _. apply Hn; [done|by rewrite E].
    + apply (queue_step_finished rid g (leave_queue rid c g)); [apply own_only_cancel|done|].
      destruct Hinv as [Hwf Hf]. specialize (Hf rid). unfold own_fits in Hf. rewrite E in Hf.
      intros _. apply q_none_cancel; [done|]. by apply q_one_at, Hf.
  - destruct (g_requests g !! rid) as [[| |c b f|]|] eqn:E; try done. destruct (stream (ch_request c)); [done|].
    eapply queue_inv_finish; [done|exact E|apply queue_complete|apply requests_complete].
  - destruct (g_requests g !! rid) as [[| |c b f|]|] eqn:E; try done. destruct (stream (ch_request c)); [|done].
    eapply queue_inv_finish; [done|exact E|apply queue_stream|apply requests_stream].
  - apply (queue_inv_same g); [apply queue_node|apply requests_node|done].
Qed.

Lemma queue_inv_run g ops :
  g_requests g = ∅ → g_queue g = SchedulingQueue_new →
  queue_inv (run_gw factories cfg hc wait_timeout poll_interval g ops).
Proof.
  intros Hr Hq. apply (run_gw_ind factories cfg hc wait_timeout poll_interval queue_inv (λ _, True));
    [intros; by apply queue_inv_op| |by apply Forall_true].
  split; [rewrite Hq; apply queue_wf_new|]. intros rid'. unfold own_fits. rewrite Hr, Hq, lookup_empty.
  intros p' s'. unfold mine, queued, tier_of. simpl. by rewrite !lookup_empty.
Qed.
End queue_steps.

(** ** Limits *)

(** The operations that leave every [HostInfo] object bound to its id. *)
Definition no_rebinding (o : gw_op) : Prop :=
  match o with GNode (NRegister _ _ _) | GNode (NUpdate _ _) | GNode (NDeregister _) => False | _ => True end.

Definition within_limit (h : HostInfo) : Prop := (in_flight h ≤ Z.max 0 (max_concurrent_requests (capacity h)))%Z.

Record limit_inv (g : Gateway) : Prop := {
  li_wf : reg_wf (w_registry (g_world g));
  li_calm : calm g;
  (** what a request holds on to is what the registry holds *)
  li_locs rid l : l ∈ from_option locs_of [] (g_requests g !! rid) → l ∈ hosts (w_registry (g_world g));
  li_limit id h : lookup_host (w_registry (g_world g)) id = Some h → within_limit h;
}.

Section limits.
Context (factories : Factories) (cfg : LeaseSettings) (hc : HealthConfig)
  (wait_timeout poll_interval : float).

Lemma hosts_adjust n id r : hosts (adjust_slots n id r).2 = hosts r.
Proof. unfold adjust_slots, hosts. by destruct (d_get _ id). Qed.

(** The object a registered reference points to is the one its id is bound to. *)
Lemma bound_lookup w l h :
  reg_wf (w_registry w) → l ∈ hosts (w_registry w) → deref w l = Some h →
  lookup_host (w_registry w) (host_id h) = Some h.
Proof.
  intros Hwf Hl Hd. unfold hosts, d_values in Hl. apply list_elem_of_fmap in Hl as ([id l'] & -> & Hin).
  destruct (wf_bound _ Hwf _ _ Hin) as (h' & Hh' & Hid). unfold deref in Hd. simpl in Hd.
  rewrite Hh' in Hd. injection Hd as <-. unfold lookup_host. subst id.
  rewrite (proj2 (d_get_elem_iff _ _ l' (wf_keys _ Hwf)) Hin). exact Hh'.
Qed.

(** Slots change by [n] on a host that can take it; the request [rid] holds no host then. *)
Lemma limit_adjust g g' n id rid s :
  limit_inv g → w_registry (g_world g') = (adjust_slots n id (w_registry (g_world g))).2 →
  (calm g → calm g') → g_requests g' = <[rid := s]> (g_requests g) →
  (∀ l, l ∈ locs_of s → l ∈ hosts (w_registry (g_world g))) →
  (∀ h, lookup_host (w_registry (g_world g)) id = Some h → within_limit h → within_limit (add_in_flight n h)) →
  limit_inv g'.
Proof.
  intros [Hwf Hcalm Hl Hb] Er Hc Eq Hs Hn. split; rewrite ?Er, ?Eq.
  - by apply adjust_slots_wf.
  - auto.
  - intros rid' l. rewrite hosts_adjust, lookup_insert. case_decide; [apply Hs|apply Hl].
  - intros id' h. rewrite lookup_adjust_slots by done. case_decide; [|apply Hb]. subst id'.
    intros (h0 & Hh0 & ->)%fmap_Some. apply Hn; [done|]. by eapply Hb.
Qed.

(** A step that takes no slot. *)
Lemma limit_idle g g' rid s :
  limit_inv g → w_registry (g_world g') = w_registry (g_world g) → (calm g → calm g') →
  g_requests g' = <[rid := s]> (g_requests g) →
  (∀ l, l ∈ locs_of s → l ∈ hosts (w_registry (g_world g))) → limit_inv g'.
Proof.
  intros [Hwf Hcalm Hl Hb] Er Hc Eq Hs. split; rewrite ?Er, ?Eq; [done|auto| |done].
  intros rid' l. rewrite lookup_insert. case_decide; [apply Hs|apply Hl].
Qed.

Lemma limit_step_request rid c locs m g :
  limit_inv g → (∀ l, l ∈ locs → l ∈ hosts (w_registry (g_world g))) →
  stepped (admissible (g_world g) c locs) rid c locs g (m g).1 (m g).2 → limit_inv (step_request rid m g).
Proof.
  intros Hinv Hlocs Hm. unfold step_request. destruct (m g) as [r g']; simpl in Hm.
  destruct Hm as [e g1 Hs|f g1 [id g0 g2 Hs [Hroom _] Hid Hr Hq Hqu]|s g1 Hn Hcore Hcalm Hl Hq].
  - apply (limit_idle g _ rid (Finished (Some e))); simpl; [done|apply Hs|apply Hs|by rewrite (sg_requests _ _ Hs)|].
    intros l Hl%not_elem_of_nil. done.
  - eapply limit_adjust; [exact Hinv|exact Hr| |exact Hq| |].
    + intros Hc. unfold calm. rewrite Hqu. by apply Hs.
    + intros l Hl%not_elem_of_nil. done.
    + destruct Hroom as (l & h0 & Hl & Hd & <- & _ & Hlt). intros h Hh _.
      rewrite (bound_lookup _ _ _ (li_wf _ Hinv) (Hlocs l Hl) Hd) in Hh. injection Hh as <-.
      unfold within_limit. simpl. lia.
  - eapply limit_idle; [exact Hinv|apply Hcore|exact Hcalm|exact Hq|]. intros l H. by apply Hlocs, Hl.
Qed.

Lemma registry_complete id f r g :
  w_registry (g_world (complete hc id f r g).2) = (release_slot id (w_registry (g_world g))).2.
Proof.
  destruct r as [content fr p c lat|timeout msg|];
    unfold complete, mbind, gw_prog_bind, mbind, prog_bind, in_world, in_registry; simpl;
    rewrite ?registry_failover; destruct (release_slot id _) as [[[]|] reg]; try done.
  simpl. destruct (negb _); simpl; by rewrite ?registry_failover.
Qed.

Lemma registry_stream id r g :
  w_registry (g_world (stream_complete hc id r g).2) = (release_slot id (w_registry (g_world g))).2.
Proof.
  destruct r as [usage saw last lat|e];
    unfold stream_complete, mbind, gw_prog_bind, mbind, prog_bind, in_world, in_registry; simpl.
  - destruct usage as [[p c]|]; destruct (saw && _); simpl; by destruct (release_slot id _) as [[[]|] reg].
  - by destruct (release_slot id _) as [[[]|] reg].
Qed.

Lemma limit_finish rid m id g :
  limit_inv g → g_requests (m g).2 = g_requests g → g_queue (m g).2 = g_queue g →
  w_registry (g_world (m g).2) = (release_slot id (w_registry (g_world g))).2 → limit_inv (finish_request rid m g).
Proof.
  intros Hinv Eq Equ Er.
  assert (H : ∀ e, limit_inv (set_request rid (Finished e) (m g).2)).
  { intros e. eapply limit_adjust; [exact Hinv|exact Er| | | |].
    - unfold calm. simpl. by rewrite Equ.
    - simpl. by rewrite Eq.
    - intros l Hl%not_elem_of_nil. done.
    - unfold within_limit. simpl. lia. }
  unfold finish_request. destruct (m g) as [[[]|e] g']; apply H.
Qed.

Lemma limit_heartbeat id g : limit_inv g → limit_inv (in_world (run_node_op (NHeartbeat id)) g).2.
Proof.
  intros [Hwf Hcalm Hl Hb]. unfold run_node_op, heartbeat_node, in_world, in_registry.
  pose proof (lookup_heartbeat (w_registry (g_world g)) id (w_now (g_world g))) as Hlk.
  pose proof (heartbeat_wf id (w_now (g_world g)) _ Hwf) as Hwf'.
  assert (Hh : hosts (Registry.heartbeat id (w_now (g_world g)) (w_registry (g_world g))).2
                 = hosts (w_registry (g_world g))) by (unfold Registry.heartbeat, hosts; by destruct (d_get _ id)).
  destruct (Registry.heartbeat id (w_now (g_world g)) (w_registry (g_world g))) as [r reg].
  simpl in *. split; simpl; [done|done|by rewrite Hh|].
  intros id' h. rewrite Hlk by done. case_decide; [|apply Hb]. subst id'.
  intros (h0 & Hh0 & ->)%fmap_Some. by apply (Hb _ _ Hh0).
Qed.

Lemma limit_op g o :
  limit_inv g → no_rebinding o → limit_inv (run_op factories cfg hc wait_timeout poll_interval g o).
Proof.
  intros Hinv Hno.
  assert (Hlocs : ∀ rid s, g_requests g !! rid = Some s → ∀ l, l ∈ locs_of s → l ∈ hosts (w_registry (g_world g))).
  { intros rid s E l Hl. apply (li_locs _ Hinv rid). by rewrite E. }
  destruct o as [rid c|rid a|rid|rid|rid r|rid r|o|o|po|now lnow]; simpl.
  - destruct (g_requests g !! rid) eqn:E; [done|]. eapply limit_step_request; [done| |apply arrive_effect]. done.
  - destruct (g_requests g !! rid) as [[c capable blocked l rest| | |]|] eqn:E; try done.
    eapply limit_step_request; [done|by apply (Hlocs rid (Probing c capable blocked l rest))|apply answered_effect].
  - destruct (g_requests g !! rid) as [[|c locs f x| |]|] eqn:E; try done.
    eapply limit_step_request; [done|by apply (Hlocs rid (Waiting c locs f x))|apply wake_effect, Hinv].
  - destruct (g_requests g !! rid) as [[c capable blocked l rest|c locs f x| |]|] eqn:E; try done;
      (apply (limit_idle g _ rid (Finished (Some ECancelled))); [done|done| |done|by intros l0 Hl%not_elem_of_nil]).
    + done.
    + simpl. intros Hc. by apply (same_gw_leave rid c g).
  - destruct (g_requests g !! rid) as [[| |c id f|]|] eqn:E; try done. destruct (stream (ch_request c)); [done|].
    eapply limit_finish; [done|apply requests_complete|apply queue_complete|apply registry_complete].
  - destruct (g_requests g !! rid) as [[| |c id f|]|] eqn:E; try done. destruct (stream (ch_request c)); [|done].
    eapply limit_finish; [done|apply requests_stream|apply queue_stream|apply registry_stream].
  - destruct o as [| |id|]; try done. by apply limit_heartbeat.
  - by destruct Hinv.
  - destruct Hinv. split; simpl; rewrite ?registry_probe; done.
  - by destruct Hinv.
Qed.

Lemma limit_inv_run g ops :
  idle_gateway g → Forall no_rebinding ops → limit_inv (run_gw factories cfg hc wait_timeout poll_interval g ops).
Proof.
  intros Hg Hops. apply (run_gw_ind factories cfg hc wait_timeout poll_interval limit_inv no_rebinding);
    [intros; by apply limit_op| |done].
  split; [apply Hg|unfold calm; rewrite (ig_queue _ Hg); apply calm_new| |].
  - intros rid l. rewrite (ig_requests _ Hg), lookup_empty. by intros Hl%not_elem_of_nil.
  - intros id h Hh. unfold within_limit. rewrite (ig_slots _ Hg id h Hh). lia.
Qed.
End limits.

(** ** Properties *)

Section properties.
Context (factories : Factories) (cfg : LeaseSettings) (hc : HealthConfig).

(** C1. However requests arrive, are admitted, wait, time out, disconnect, complete, fail or
    stream, and however nodes register, change and beat in between, the slots taken on a
    host are the requests that run on it: none is leaked, none is given back twice. *)
Theorem slots_accounted wait_timeout poll_interval g ops :
  idle_gateway g → Forall no_deregister ops →
  let g' := run_gw factories cfg hc wait_timeout poll_interval g ops in
  ∀ id h, lookup_host (w_registry (g_world g')) id = Some h →
    in_flight h = Z.of_nat (running_on id (g_requests g')).
Proof.
  intros Hg Hops g'. apply (run_gw_ind factories cfg hc wait_timeout poll_interval slot_inv no_deregister);
    [|by apply idle_slot_inv|done].
  intros. by apply slot_inv_op.
Qed.

(** C3. As long as no node is registered, changed or removed in between, no host ever runs
    more requests than its [max_concurrent_requests], whatever else interleaves: the check
    and the [acquire_slot] that follows it are not torn apart. *)
Theorem limits_respected wait_timeout poll_interval g ops :
  idle_gateway g → Forall no_rebinding ops →
  let g' := run_gw factories cfg hc wait_timeout poll_interval g ops in
  ∀ id h, lookup_host (w_registry (g_world g')) id = Some h →
    (in_flight h ≤ Z.max 0 (max_concurrent_requests (capacity h)))%Z.
Proof.
  intros Hg Hops g'. by apply (limit_inv_run factories cfg hc wait_timeout poll_interval).
Qed.

(** C2. A request starts to run only where it may: at that moment one of the hosts it held on
    to (the registered ones, for a request that has just arrived) is up, has room and has the chosen id, the leases leave that host to it (its own
    lease is on the host, or it has none and nobody holds the host), and the step takes
    one slot there. *)
Theorem admission_is_safe wait_timeout poll_interval g ops o rid c id f :
  g_queue g = SchedulingQueue_new →
  let before := run_gw factories cfg hc wait_timeout poll_interval g ops in
  let after := run_op factories cfg hc wait_timeout poll_interval before o in
  book_wf (w_book (g_world before)) →
  g_requests before !! rid ≠ Some (Running c id f) →
  g_requests after !! rid = Some (Running c id f) →
  ∃ locs, pending_on before rid c locs ∧
    has_room (g_world before) locs id ∧ lease_allows (g_world before) c id ∧
    w_registry (g_world after) = (acquire_slot id (w_registry (g_world before))).2.
Proof.
  intros Hq before after Hwf Hn Ha.
  pose proof (calm_run factories cfg hc wait_timeout poll_interval g ops Hq) as Hcalm.
  destruct (running_op _ _ _ _ _ _ o rid c id f Hcalm Ha) as [|(locs & Hp & [Hr Hl] & Hreg)]; [done|].
  exists locs. auto.
Qed.

(** C4. The queue holds exactly the requests that wait: at every moment a request that waits
    has one entry, in its session at priority 0, and a request that is probing, runs or is
    over has none, however its wait ended. *)
Theorem queue_matches_waiting wait_timeout poll_interval g ops :
  g_requests g = ∅ → g_queue g = SchedulingQueue_new →
  let g' := run_gw factories cfg hc wait_timeout poll_interval g ops in
  ∀ rid p s, length (mine rid (g_queue g') p s) =
    if decide (p = 0%Z ∧ waits_in (g_requests g') rid = Some s) then 1 else 0.
Proof.
  intros Hr Hq g' rid p s.
  destruct (queue_inv_run factories cfg hc wait_timeout poll_interval g ops Hr Hq) as [_ Hf].
  fold g' in Hf. specialize (Hf rid). unfold own_fits, waits_in in *.
  destruct (g_requests g' !! rid) as [[|c locs f x| |]|]; [| destruct Hf as [Hf _]|..];
    unfold q_one, q_none in Hf; rewrite Hf; try (rewrite decide_False by naive_solver; done).
  repeat case_decide; naive_solver.
Qed.

(** C5. No request waits forever: whatever happens in between, after 300 polls a request that
    started to wait has left the queue, for a host or with an answer (the 30 seconds of the
    default timeout, added up in tenths of a second). *)
Theorem wait_is_bounded g ops ops' rid c locs f :
  let run := run_gw factories cfg hc default_wait_timeout default_poll_interval in
  g_queue g = SchedulingQueue_new →
  g_requests (run g ops) !! rid = Some (Waiting c locs f f_zero) →
  (300 ≤ wakes rid ops')%nat →
  settled (g_requests (run (run g ops) ops') !! rid).
Proof.
  intros run Hq E Hn.
  destruct (waiting_run factories cfg hc default_wait_timeout default_poll_interval _ ops' rid c locs f f_zero
    (calm_run factories cfg hc default_wait_timeout default_poll_interval g ops Hq) E) as [|[_ Hk]]; [done|].
  specialize (Hk 300 ltac:(lia)). by vm_compute in Hk.
Qed.
End properties.

(** ** Concrete runs *)

(** One host with room for one request, and requests for its model. *)
Definition sample_caps : HostCapabilities :=
  {| backend_type := "lmstudio"; context_window := 4096; base_url := "http://a"; allowed_models := None;
     memory_budget_gb := None; model_sizes_gb := None; model_aliases := None; position := None |}.

Definition sample_world (maxes : list (string * Z)) : World :=
  {| w_registry := foldl (λ r p, register p.1 sample_caps {| max_concurrent_requests := p.2 |} 0 r)
                     {| hr_objs := ∅; hr_next := 0; hr_hosts := []; hr_rows := [] |} maxes;
     w_health := HealthMonitor_new; w_book := NodeLeaseBook_new; w_backends := ∅; w_external_loads := ∅;
     w_metrics := MetricsRegistry_new (td_seconds 60);
     w_completions := {| cl_window := td_seconds 60; cl_started_at := 0; cl_completions := ∅ |};
     w_now := 0; w_lease_now := 0 |}.

Definition sample_gateway (maxes : list (string * Z)) : Gateway :=
  {| g_world := sample_world maxes; g_queue := SchedulingQueue_new;
     g_router := RoutingEngine_new latency_policy true; g_requests := ∅ |}.

Definition sample_chat (streamed : bool) : Chat :=
  {| ch_request := {| model := "m"; messages := [{| role := "user"; content := "hi" |}]; stream := streamed;
       req_session_id := None; task_type := None; temperature := None; max_tokens := None;
       chat_template_kwargs := None; response_format := None |};
     ch_token := None; ch_now := 0 |}.

Abbreviation run_sample := (run_gw {["lmstudio"]} default_lease_settings default_health_config
  default_wait_timeout default_poll_interval).

(** ["r1"] runs on the only slot, ["r2"] waits for it. *)
Definition two_arrive : list gw_op :=
  [GArrive "r1" (sample_chat false); GAnswer "r1" (Models (Some ["m"]));
   GArrive "r2" (sample_chat true); GAnswer "r2" (Models None)].

(** What can be compared of a request's state. *)
Definition runs_at (g : Gateway) (rid : string) : option string :=
  match g_requests g !! rid with Some (Running _ b _) => Some b | _ => None end.
Definition waits (g : Gateway) (rid : string) : bool :=
  match g_requests g !! rid with Some (Waiting _ _ _ _) => true | _ => false end.

Lemma sample_idle : idle_gateway (sample_gateway [("a", 1%Z)]).
Proof.
  split; [done|done| |].
  - apply register_wf. split; simpl; [constructor|by intros id l H%not_elem_of_nil| |done].
    intros l. rewrite lookup_empty. by intros [? ?].
  - intros id h. simpl. rewrite lookup_register; [case_decide|].
    + by intros [= <-].
    + done.
    + split; simpl; [constructor|by intros id' l H%not_elem_of_nil| |done].
      intros l. rewrite lookup_empty. by intros [? ?].
Qed.

Lemma slots_accounted_witness :
  let g := run_sample (sample_gateway [("a", 1%Z)]) (two_arrive ++ [GNode (NHeartbeat "a")]) in
  runs_at g "r1" = Some "a" ∧ waits g "r2" = true ∧
  ∀ id h, lookup_host (w_registry (g_world g)) id = Some h → in_flight h = Z.of_nat (running_on id (g_requests g)).
Proof.
  cbv zeta. split; [by vm_compute|split; [by vm_compute|]].
  apply slots_accounted; [apply sample_idle|]. repeat constructor.
Defined.

Lemma limits_respected_witness :
  let g := run_sample (sample_gateway [("a", 1%Z)]) two_arrive in
  in_flight <$> lookup_host (w_registry (g_world g)) "a" = Some 1%Z ∧
  ∀ id h, lookup_host (w_registry (g_world g)) id = Some h →
    (in_flight h ≤ Z.max 0 (max_concurrent_requests (capacity h)))%Z.
Proof.
  cbv zeta. split; [by vm_compute|]. apply limits_respected; [apply sample_idle|]. repeat constructor.
Defined.

Lemma admission_is_safe_witness :
  let g := run_sample (sample_gateway [("a", 1%Z)])
    (two_arrive ++ [GComplete "r1" (BackendOk "hello" "stop" 1 1 f_zero)]) in
  ∃ locs, pending_on g "r2" (sample_chat true) locs ∧
    has_room (g_world g) locs "a" ∧ lease_allows (g_world g) (sample_chat true) "a" ∧
    w_registry (g_world (run_op {["lmstudio"]} default_lease_settings default_health_config
      default_wait_timeout default_poll_interval g (GWake "r2"))) = (acquire_slot "a" (w_registry (g_world g))).2.
Proof.
  apply (admission_is_safe {["lmstudio"]} default_lease_settings default_health_config default_wait_timeout
    default_poll_interval (sample_gateway [("a", 1%Z)]) _ (GWake "r2") "r2" (sample_chat true) "a" false).
  - reflexivity.
  - replace (w_book _) with NodeLeaseBook_new by (vm_compute; reflexivity). apply book_wf_new.
  - vm_compute. discriminate.
  - vm_compute. reflexivity.
Defined.

Lemma queue_matches_waiting_witness :
  let g := run_sample (sample_gateway [("a", 1%Z)]) two_arrive in
  waits g "r2" = true ∧
  ∀ rid p s, length (mine rid (g_queue g) p s) =
    if decide (p = 0%Z ∧ waits_in (g_requests g) rid = Some s) then 1 else 0.
Proof.
  cbv zeta. split; [by vm_compute|]. apply queue_matches_waiting; reflexivity.
Defined.

Lemma wait_is_bounded_witness :
  let g := run_sample (sample_gateway [("a", 1%Z)]) two_arrive in
  waits g "r2" = true ∧ settled (g_requests (run_sample g (replicate 300 (GWake "r2"))) !! "r2").
Proof.
  cbv zeta. split; [by vm_compute|].
  apply (wait_is_bounded {["lmstudio"]} default_lease_settings default_health_config
    (sample_gateway [("a", 1%Z)]) two_arrive _ "r2" (sample_chat true) [0] false).
  - reflexivity.
  - vm_compute. reflexivity.
  - vm_compute. lia.
Defined.

(** A [PATCH] while a request waits for the backends' answers: the request is admitted on
    the object the registry held before, whose count no longer moves, and the host takes
    more requests than it allows. *)
Theorem update_race_overadmits :
  let same := {| up_backend_type := None; up_context_window := None; up_base_url := None;
                 up_max_concurrent_requests := None; up_allowed_models := None; up_memory_budget_gb := None;
                 up_model_sizes_gb := None; up_model_aliases := None; up_position := None |} in
  let g := run_sample (sample_gateway [("a", 1%Z)])
    [GArrive "r1" (sample_chat false); GNode (NUpdate "a" same);
     GArrive "r2" (sample_chat false); GAnswer "r2" (Models (Some ["m"]));
     GAnswer "r1" (Models (Some ["m"]))] in
  (λ h, (in_flight h, max_concurrent_requests (capacity h))) <$> lookup_host (w_registry (g_world g)) "a"
    = Some (2, 1)%Z.
Proof. by vm_compute. Qed.
