(* ===== verification/GatewayProgress.v ===== *)
(** * Progress of the queue ([api/app.py], [chat_completions]; [scheduling/queue.py])

    What a request sees when it looks for candidates, exactly; and that room is used: when
    a host has room for the head of some session, then one round of polls, in whatever order,
    gives one of the waiting requests its turn.  The first such head in the order of the
    queue gets it, so a request behind it waits although a host has room for it. *)

From S2P Require Import Prelude.
From S2P Require Import PyFloat.
From S2P Require Import PyBounds.
From S2P Require Import PyDict.
From S2P Require Import ApiModels.
From S2P Require Import Leases.
From S2P Require Import Registry.
From S2P Require Import Health.
From S2P Require Import Scheduling.
From S2P Require Import Routing.
From S2P Require Import Nodes.
From S2P Require Import Gateway.
From S2P Require Import GatewayFrames.
From S2P Require Import GatewaySafety.

#[local] Open Scope list_scope.

(** ** What a look finds *)

Section looks.
Context (factories : Factories).

(** A host nothing raises on: its backend can be built, its slots are counted right, and its
    capacity has fewer than some 270 digits, so that its load is a float. *)
Definition host_ok (h : HostInfo) : Prop :=
  builds factories (capabilities h) ∧ (0 ≤ in_flight h)%Z ∧ (max_concurrent_requests (capacity h) < 2 ^ 900)%Z.

Definition hosts_ok (w : World) (locs : list nat) : Prop := ∀ l h, l ∈ locs → deref w l = Some h → host_ok h.

Lemma hosts_ok_core w w' locs : same_core w w' → hosts_ok w locs → hosts_ok w' locs.
Proof. intros Hc Hok l h Hl. rewrite (deref_core w w' l Hc). by apply Hok. Qed.

Lemma load_ratio_ok h :
  host_ok h → (in_flight h < max_concurrent_requests (capacity h))%Z →
  ∃ x, int_truediv (in_flight h) (max_concurrent_requests (capacity h)) = Ret x.
Proof.
  intros (_ & H0 & Hm) Hlt.
  destruct (int_truediv_mag (in_flight h) (max_concurrent_requests (capacity h)) 900) as (x & E & _); [lia..|].
  by exists x.
Qed.

Lemma backend_for_ok w h :
  host_ok h → ∃ w', backend_for factories (host_id h) (capabilities h) w = (Ret tt, w') ∧ same_core w w' ∧
    is_Some (w_backends w' !! host_id h).
Proof.
  intros (Ht & _). pose proof (wframe_backend_for factories (host_id h) (capabilities h) w) as Hc.
  unfold backend_for in *. case_decide as E; [by exists w; rewrite E|]. unfold builds in Ht. rewrite Ht in Hc |- *.
  eexists. split; [done|]. split; [done|]. simpl. by rewrite lookup_insert_eq.
Qed.

(** The candidates among [locs] are the hosts that are up and have room, and their backends are built. *)
Lemma eligible_exact locs w :
  hosts_ok w locs →
  ∃ cs w', eligible_candidates factories locs w = (Ret cs, w') ∧
    (∀ id, id ∈ candidate_ids cs ↔ has_room w locs id) ∧
    ∀ id, id ∈ candidate_ids cs → is_Some (w_backends w' !! id).
Proof.
  intros Hok. destruct (eligible_candidates factories locs w) as [r w'] eqn:E.
  assert (H : ∃ cs, r = Ret cs ∧ (∀ id, has_room w locs id → id ∈ candidate_ids cs) ∧
    ∀ id, id ∈ candidate_ids cs → is_Some (w_backends w' !! id)).
  { revert w r w' Hok E. induction locs as [|l locs IH]; intros w r w' Hok E; cbn [eligible_candidates] in E.
    { injection E as <- <-. exists []. split_and!; [done| |done]. by intros id (l & _ & Hl%not_elem_of_nil & _). }
    assert (Hok' : hosts_ok w locs) by (intros l' h Hl; apply Hok; by right).
    destruct (deref w l) as [h|] eqn:Ed.
    - destruct (is_healthy (w_health w) (host_id h) (w_now w)) eqn:Eh; cbn [negb] in E.
      + destruct (Z.leb_spec (max_concurrent_requests (capacity h)) (in_flight h)) as [Hf|Hf].
        * destruct (IH _ _ _ Hok' E) as (cs & -> & Hin & Hb). exists cs. split_and!; [done| |done].
          intros id (l' & h' & [->|Hl]%elem_of_cons & Hd & Hid & Hh & Hr); [|apply Hin; by exists l', h'].
          rewrite Ed in Hd. injection Hd as <-. lia.
        * pose proof (Hok l h ltac:(left) Ed) as Hh. destruct (load_ratio_ok h Hh Hf) as [x Ex].
          destruct (backend_for_ok w h Hh) as (w1 & Eb & Hc & Hbs).
          unfold mbind, app_prog_bind, mbind, prog_bind, of_arith in E. rewrite Ex, Eb in E.
          pose proof (wframe_eligible factories locs w1) as Hc1.
          destruct (eligible_candidates factories locs w1) as [r1 w2] eqn:E1.
          destruct (IH _ _ _ (hosts_ok_core _ _ _ Hc Hok') E1) as (cs & -> & Hin & Hb). injection E as <- <-.
          eexists. split; [done|]. split.
          -- intros id (l' & h' & [->|Hl]%elem_of_cons & Hd & Hid & Hh' & Hr).
             ++ rewrite Ed in Hd. injection Hd as <-. unfold candidate_ids. simpl. set_solver.
             ++ assert (id ∈ candidate_ids cs); [|unfold candidate_ids in *; simpl; set_solver].
                apply Hin. exists l', h'. rewrite (deref_core _ _ l' Hc), (sc_health _ _ Hc), (sc_now _ _ Hc). done.
          -- intros id Hid. unfold candidate_ids in Hid. simpl in Hid. apply elem_of_union in Hid as [Hid|Hid]; [|by apply Hb].
             apply elem_of_singleton in Hid as ->. by apply (sc_backends _ _ Hc1).
      + destruct (IH _ _ _ Hok' E) as (cs & -> & Hin & Hb). exists cs. split_and!; [done| |done].
        intros id (l' & h' & [->|Hl]%elem_of_cons & Hd & Hid & Hh & Hr); [|apply Hin; by exists l', h'].
        rewrite Ed in Hd. injection Hd as <-. congruence.
    - destruct (IH _ _ _ Hok' E) as (cs & -> & Hin & Hb). exists cs. split_and!; [done| |done].
      intros id (l' & h' & [->|Hl]%elem_of_cons & Hd & Hr); [congruence|]. apply Hin. by exists l', h'. }
  destruct H as (cs & -> & Hin & Hb). exists cs, w'. split_and!; [done| |done].
  intros id. split; [|apply Hin]. unfold candidate_ids. rewrite elem_of_list_to_set. intros (cand & -> & Hc)%list_elem_of_fmap.
  by eapply eligible_spec.
Qed.

(** The loop over the hosts keeps the hosts that pass. *)
Lemma filter_exact keep (P : HostInfo → bool) locs w :
  (∀ h, wframe (keep h)) → (∀ h w', same_core w w' → (keep h w').1 = Ret (P h)) →
  ∃ ls w', filter_hosts keep locs w = (Ret ls, w') ∧
    ∀ l, l ∈ ls ↔ l ∈ locs ∧ ∃ h, deref w l = Some h ∧ P h = true.
Proof.
  intros Hk. revert w. induction locs as [|l locs IH]; intros w HP; cbn [filter_hosts].
  { exists [], w. split; [done|]. intros l. split; [by intros H%not_elem_of_nil|by intros [H%not_elem_of_nil _]]. }
  destruct (deref w l) as [h|] eqn:Ed.
  - pose proof (HP h w ltac:(reflexivity)) as Hh. pose proof (Hk h w) as Hc.
    unfold mbind, app_prog_bind, mbind, prog_bind. destruct (keep h w) as [r w1]. simpl in Hh, Hc. subst r.
    destruct (IH w1) as (ls & w2 & -> & Hls); [intros h' w' Hw; apply HP; by etrans|].
    eexists _, w2. split; [done|]. intros l'. specialize (Hls l').
    setoid_rewrite (deref_core w w1 l' Hc) in Hls. destruct (P h) eqn:Ep; rewrite ?elem_of_cons, Hls; naive_solver congruence.
  - destruct (IH w HP) as (ls & w2 & -> & Hls). exists ls, w2. split; [done|]. intros l'. rewrite Hls, elem_of_cons.
    naive_solver congruence.
Qed.

Lemma open_host_exact h w :
  book_wf (w_book w) →
  (open_host h w).1 = Ret (bool_decide (lb_by_host (purge_unlocked (w_lease_now w) (w_book w)) !! host_id h = None)).
Proof.
  intros Hwf. pose proof (is_held_purge (host_id h) (w_lease_now w) (w_book w) Hwf) as H.
  unfold open_host, held, mbind, app_prog_bind, mbind, prog_bind.
  destruct (is_held (host_id h) (w_lease_now w) (w_book w)) as [b bk]. simpl in *. do 2 f_equal.
  destruct b; simpl; [rewrite bool_decide_false|rewrite bool_decide_true]; naive_solver.
Qed.

(** The lease of a request: none, the live one of its token, or an error it is told apart by. *)
Lemma pinned_exact c w :
  book_wf (w_book w) →
  match token_of c with
  | None => pinned_lease c w = (Ret None, w)
  | Some t =>
      match lb_by_token (purge_unlocked (w_lease_now w) (w_book w)) !! t with
      | Some l => pinned_lease c w = (Ret (Some l), w)
      | None => ∃ m, (pinned_lease c w).1 = Raise (ELease (LeaseEndedError m)) ∨
                     (pinned_lease c w).1 = Raise (ELease (LeaseNotHeldError m))
      end
  end.
Proof.
  intros Hwf. unfold pinned_lease. destruct (token_of c) as [t|]; [|done].
  pose proof (purge_by_token (w_lease_now w) (w_book w) t) as Hp.
  unfold mbind, app_prog_bind, mbind, prog_bind, in_book, require, live_unlocked, live in *.
  destruct (lb_by_token (purge_unlocked (w_lease_now w) (w_book w)) !! t) as [l|] eqn:El.
  - destruct (proj1 (Hp l Hwf) eq_refl) as [-> ->]. simpl. by destruct w.
  - destruct (lb_by_token (w_book w) !! t) as [l|] eqn:Et; [|by eexists; right].
    destruct (has_ended (w_lease_now w) l) eqn:Ee; [by eexists; left|].
    assert (None = Some l) by (by apply Hp). done.
Qed.

(** The hosts that pass, and among them those that are up and have room. *)
Lemma filtered_exact keep P c locs w :
  (∀ h, wframe (keep h)) → (∀ h w', same_core w w' → (keep h w').1 = Ret (P h)) →
  book_wf (w_book w) → hosts_ok w locs → (∀ h, P h = true ↔ lease_allows w c (host_id h)) →
  ∃ cs w', (hosts ← filter_hosts keep locs; eligible_candidates factories hosts) w = (Ret cs, w') ∧
    ∀ id, (id ∈ candidate_ids cs ↔ admissible w c locs id) ∧ (id ∈ candidate_ids cs → is_Some (w_backends w' !! id)).
Proof.
  intros Hk HP Hwf Hok Ha. destruct (filter_exact keep P locs w Hk HP) as (ls & w1 & E1 & Hls).
  pose proof (wframe_filter keep locs Hk w) as Hc. rewrite E1 in Hc. simpl in Hc.
  assert (Hok1 : hosts_ok w1 ls).
  { apply (hosts_ok_core w); [done|]. intros l h Hl. apply Hok. by apply Hls. }
  destruct (eligible_exact ls w1 Hok1) as (cs & w2 & E2 & Hin & Hb). exists cs, w2.
  unfold mbind, app_prog_bind, mbind, prog_bind. rewrite E1, E2. split; [done|]. intros id. split; [|apply Hb].
  rewrite Hin. split.
  - intros Hr%(has_room_core _ _ _ _ Hc). destruct Hr as (l & h & Hl & Hd & Hid & Hh & Hroom).
    apply Hls in Hl as (Hl & h' & Hd' & Hp). rewrite Hd in Hd'. injection Hd' as <-.
    split; [by exists l, h|]. intros _. rewrite <-Hid. by apply Ha.
  - intros [(l & h & Hl & Hd & Hid & Hh & Hroom) Hal]. exists l, h.
    rewrite (deref_core _ _ l Hc), (sc_health _ _ Hc), (sc_now _ _ Hc). split; [|done].
    apply Hls. split; [done|]. exists h. split; [done|]. apply Ha. rewrite Hid. by apply Hal.
Qed.

Lemma look_exact c locs w :
  book_wf (w_book w) → hosts_ok w locs →
  match current_candidates factories c locs w with
  | (Ret cs, w') => ∀ id, (id ∈ candidate_ids cs ↔ admissible w c locs id) ∧
      (id ∈ candidate_ids cs → is_Some (w_backends w' !! id))
  | (Raise e, _) => (∃ m, e = ELease (LeaseEndedError m) ∨ e = ELease (LeaseNotHeldError m)) ∧
      (∃ t, token_of c = Some t ∧ lb_by_token (purge_unlocked (w_lease_now w) (w_book w)) !! t = None)
  end.
Proof.
  intros Hwf Hok. pose proof (pinned_exact c w Hwf) as Hp. unfold current_candidates.
  set (k := λ live, _ ≫= _).
  assert (Hret : ∀ live (P : HostInfo → bool), pinned_lease c w = (Ret live, w) →
    (∀ h w', same_core w w' →
      ((match live with Some l => mret (bool_decide (host_id h = nl_host_id l)) | None => open_host h end : app_prog bool) w').1
        = Ret (P h)) →
    (∀ h, P h = true ↔ lease_allows w c (host_id h)) →
    match (pinned_lease c ≫= k) w with
    | (Ret cs, w') => ∀ id, (id ∈ candidate_ids cs ↔ admissible w c locs id) ∧
        (id ∈ candidate_ids cs → is_Some (w_backends w' !! id))
    | (Raise e, _) => False
    end).
  { intros live P E HP Ha.
    destruct (filtered_exact (λ h, match live with
        | Some l => mret (bool_decide (host_id h = nl_host_id l)) | None => open_host h end) P c locs w)
      as (cs & w' & E' & H); try done.
    { intros h. destruct live; [by intros w'|apply wframe_open]. }
    unfold mbind, app_prog_bind, mbind, prog_bind in E' |- *. rewrite E. unfold k. unfold mbind, app_prog_bind, mbind, prog_bind.
    by rewrite E'. }
  unfold lease_allows in Hret.
  destruct (token_of c) as [t|] eqn:Et.
  - destruct (lb_by_token (purge_unlocked (w_lease_now w) (w_book w)) !! t) as [l|] eqn:El.
    + specialize (Hret (Some l) (λ h, bool_decide (host_id h = nl_host_id l)) Hp). cbv beta zeta in Hret.
      destruct ((pinned_lease c ≫= k) w) as [[cs|e] w']; [|exfalso]; apply Hret; try done;
        (intros h; rewrite bool_decide_eq_true; naive_solver).
    + destruct Hp as [m Hp]. unfold mbind, app_prog_bind, mbind, prog_bind.
      destruct (pinned_lease c w) as [r w']. simpl in Hp.
      destruct Hp as [->| ->]; (split; [exists m; auto|by exists t]).
  - specialize (Hret None (λ h, bool_decide (lb_by_host (purge_unlocked (w_lease_now w) (w_book w)) !! host_id h = None)) Hp).
    destruct ((pinned_lease c ≫= k) w) as [[cs|e] w']; [|exfalso]; apply Hret;
      try (intros h; by rewrite bool_decide_eq_true);
      (intros h w1 Hw; destruct (sc_live _ _ Hw Hwf) as [Hwf1 Ep]; rewrite (open_host_exact h w1 Hwf1);
       by rewrite (sc_lease_now _ _ Hw), Ep).
Qed.

(** C14. A request sees exactly the hosts it may have.  Let the book of leases be one its own
    operations reach (C9), and let every host of the request be one nothing raises on: its type
    has a factory that can build its backend, its slot count is not negative and its capacity
    is below 2^900.  Then, looking for candidates among its hosts, the request finds those that
    are up, have room and are open to it by the leases, each with its backend built, and no
    other; when its own lease is over it is told so, and then there is none. *)
Theorem candidates_exact c locs w :
  book_wf (w_book w) → hosts_ok w locs →
  match current_candidates factories c locs w with
  | (Ret cs, w') => ∀ id, (id ∈ candidate_ids cs ↔ admissible w c locs id) ∧
      (id ∈ candidate_ids cs → is_Some (w_backends w' !! id))
  | (Raise e, _) => (∃ m, e = ELease (LeaseEndedError m) ∨ e = ELease (LeaseNotHeldError m)) ∧
      is_Some (token_of c) ∧ ∀ id, ¬ admissible w c locs id
  end.
Proof.
  intros Hwf Hok. pose proof (look_exact c locs w Hwf Hok) as H.
  destruct (current_candidates factories c locs w) as [[cs|e] w']; [done|]. destruct H as (He & t & Et & El).
  split; [done|]. split; [by exists t|]. intros id [_ Ha]. specialize (Ha Hwf). unfold lease_allows in Ha.
  rewrite Et, El in Ha. by destruct Ha as (l & ? & _).
Qed.
End looks.

(** ** Whose turn it is *)

(** Worlds that show what [w0] shows. *)
Definition shows (w0 w w' : World) : Prop := same_core w0 w ∧ same_core w0 w'.

#[export] Instance shows_sym w0 : Symmetric (shows w0).
Proof. by intros w w' [? ?]. Qed.
#[export] Instance shows_trans w0 : Transitive (shows w0).
Proof. by intros w w' w'' [? ?] [? ?]. Qed.
#[export] Instance infos_shows w0 : Proper (shows w0 ==> eq) infos.
Proof. intros w w' [H H']. unfold infos. by rewrite (sc_registry _ _ H), (sc_registry _ _ H'). Qed.

Lemma admissible_core_back w w' c locs id :
  book_wf (w_book w) → same_core w w' → admissible w c locs id → admissible w' c locs id.
Proof.
  intros Hwf Hc [(l & h & Hl & Hd & Hid & Hh & Hr) Ha]. split.
  - exists l, h. by rewrite (deref_core _ _ l Hc), (sc_health _ _ Hc), (sc_now _ _ Hc).
  - intros _. destruct (sc_live _ _ Hc Hwf) as [_ Ep]. specialize (Ha Hwf). unfold lease_allows in *.
    by rewrite (sc_lease_now _ _ Hc), Ep.
Qed.

Section turns.
Context (factories : Factories) (cfg : LeaseSettings) (hc : HealthConfig) (wait_timeout poll_interval : float).

Abbreviation run_op := (run_op factories cfg hc wait_timeout poll_interval).
Abbreviation run_gw := (run_gw factories cfg hc wait_timeout poll_interval).

(** The callback of a request finds the hosts it may have, and shows nothing. *)
Lemma callback_exact c locs w0 w :
  book_wf (w_book w0) → hosts_ok factories w0 locs → same_core w0 w →
  ∃ ids w', queued_host_ids factories c locs w = (Ret ids, w') ∧ ∀ id, id ∈ ids ↔ admissible w0 c locs id.
Proof.
  intros Hwf Hok Hc. destruct (sc_live _ _ Hc Hwf) as [Hwf' _].
  pose proof (look_exact factories c locs w Hwf' (hosts_ok_core _ _ _ _ Hc Hok)) as H.
  assert (Ha : ∀ id, admissible w0 c locs id ↔ admissible w c locs id).
  { intros id. split; [by apply admissible_core_back|by apply admissible_core]. }
  unfold queued_host_ids. destruct (current_candidates factories c locs w) as [[cs|e] w'].
  - eexists _, w'. split; [done|]. intros id. rewrite Ha. apply H.
  - destruct H as ((m & Hm) & t & Et & El). exists ∅, w'. split; [by destruct Hm as [->| ->]|].
    intros id. rewrite Ha. split; [by intros ?%not_elem_of_empty|]. intros [_ Hl]. specialize (Hl Hwf').
    unfold lease_allows in Hl. rewrite Et, El in Hl. by destruct Hl as (? & ? & _).
Qed.

Lemma callback_quiet c locs w0 :
  book_wf (w_book w0) → hosts_ok factories w0 locs → quiet (shows w0) (queued_host_ids factories c locs).
Proof.
  intros Hwf Hok. split_and!.
  - intros w [Hc _]. destruct (callback_exact c locs w0 w Hwf Hok Hc) as (ids & w' & -> & _). by exists ids.
  - intros w [Hc _]. split; [|done]. etrans; [exact Hc|apply callback_along].
  - intros w1 w2 [H1 H2].
    destruct (callback_exact c locs w0 w1 Hwf Hok H1) as (ids1 & w1' & -> & E1).
    destruct (callback_exact c locs w0 w2 Hwf Hok H2) as (ids2 & w2' & -> & E2).
    simpl. f_equal. apply set_eq. intros id. by rewrite E1, E2.
Qed.

(** A gateway in the middle of a run, with hosts nothing raises on. *)
Record ready (g : Gateway) : Prop := {
  rd_queue : queue_inv factories g;
  rd_limit : limit_inv g;
  rd_book : book_wf (w_book (g_world g));
  rd_hosts : hosts_ok factories (g_world g) (hosts (w_registry (g_world g)));
}.

(** The request waits, and a host may be given to it. *)
Definition may_run (g : Gateway) (rid : string) : Prop :=
  ∃ c locs f x id, g_requests g !! rid = Some (Waiting c locs f x) ∧ admissible (g_world g) c locs id.

(** It heads its session, it may run, and no head of a session before it may. *)
Definition its_turn (g : Gateway) (rid : string) : Prop :=
  may_run g rid ∧ ∃ pre p s post, schedule (g_queue g) = pre ++ (p, s) :: post ∧
    head_request (g_queue g) p s = Some rid ∧
    ∀ p' s' rid', (p', s') ∈ pre → head_request (g_queue g) p' s' = Some rid' → ¬ may_run g rid'.

(** Every entry of the queue is one of a request that waits. *)
Lemma entry_waits g p s e :
  queue_inv factories g → e ∈ queued (g_queue g) p s →
  ∃ c locs f x, g_requests g !! request_id e = Some (Waiting c locs f x) ∧ p = 0%Z ∧ s = queue_session (request_id e) c ∧
    sq_eligibility (g_queue g) !! request_id e = Some (queued_host_ids factories c locs).
Proof.
  intros [_ Hf] He. specialize (Hf (request_id e)). unfold own_fits in Hf.
  assert (Hin : e ∈ mine (request_id e) (g_queue g) p s) by (unfold mine; by apply list_elem_of_filter).
  destruct (g_requests g !! request_id e) as [[|c locs f x| |]|];
    try (unfold q_none in Hf; rewrite Hf in Hin; by apply not_elem_of_nil in Hin).
  destruct Hf as [Hq Hcb]. exists c, locs, f, x. specialize (Hq p s). case_decide as Hd.
  - by destruct Hd.
  - apply nil_length_inv in Hq. rewrite Hq in Hin. by apply not_elem_of_nil in Hin.
Qed.

Lemma waiting_hosts g rid c locs f x :
  ready g → g_requests g !! rid = Some (Waiting c locs f x) →
  locs ⊆ hosts (w_registry (g_world g)) ∧ hosts_ok factories (g_world g) locs.
Proof.
  intros Hg E. assert (Hl : locs ⊆ hosts (w_registry (g_world g))).
  { intros l Hl. apply (li_locs _ (rd_limit _ Hg) rid). by rewrite E. }
  split; [done|]. intros l h Hin. by apply (rd_hosts _ Hg), Hl.
Qed.

Lemma quiet_gw g : ready g → quiet_queue (shows (g_world g)) (g_queue g).
Proof.
  intros Hg rid cb Ecb. destruct (rd_queue _ Hg) as [Hwf _].
  destruct (qw_eligibility _ Hwf rid) as (p & s & e & He & Hrid); [by eexists|].
  destruct (entry_waits g p s e (rd_queue _ Hg) He) as (c & locs & f & x & E & _ & _ & Hcb).
  rewrite Hrid in *. rewrite Hcb in Ecb. injection Ecb as <-.
  apply callback_quiet; [apply Hg|]. by eapply waiting_hosts.
Qed.

(** A host that may be given is one the registry shows with room. *)
Lemma room_shown w w' c locs ids id :
  same_core w w' → locs ⊆ hosts (w_registry w) → id ∈ ids → admissible w c locs id →
  has_free_capacity (infos w') (Some ids) = true.
Proof.
  intros Hc Hl Hid [(l & h & Hin & Hd & E & _ & Hr) _]. unfold has_free_capacity. apply existsb_exists. exists h. split.
  - apply list_elem_of_In. unfold infos. rewrite (sc_registry _ _ Hc). apply list_elem_of_omap. exists l. split; [by apply Hl|done].
  - rewrite bool_decide_true by (by rewrite E). apply andb_true_intro. split; [by apply Z.ltb_lt|done].
Qed.
(** A session can run when its head may. *)
Lemma runnable_turn g avail w p s :
  ready g → same_core (g_world g) w →
  runnable infos (g_queue g) avail w (p, s) = true ↔
    ∃ rid, head_request (g_queue g) p s = Some rid ∧ may_run g rid.
Proof.
  intros Hg Hc. unfold runnable, head_request, queued. simpl.
  destruct (tier_of (g_queue g) p !! s) as [[|e l]|] eqn:Et; simpl;
    [split; [done|by intros (rid & [=] & _)]| |split; [done|by intros (rid & [=] & _)]].
  assert (He : e ∈ queued (g_queue g) p s) by (unfold queued; rewrite Et; left).
  destruct (entry_waits g p s e (rd_queue _ Hg) He) as (c & locs & f & x & E & _ & _ & Hcb).
  destruct (waiting_hosts _ _ _ _ _ _ Hg E) as [Hl Hok].
  destruct (callback_exact c locs (g_world g) w (rd_book _ Hg) Hok Hc) as (ids & w' & Ecb & Hids).
  assert (Hc' : same_core (g_world g) w').
  { etrans; [exact Hc|]. pose proof (callback_along factories c locs w) as H. by rewrite Ecb in H. }
  assert (Eal : allowed_hosts (g_queue g) avail e w = (Ret (Some ids), w')).
  { unfold allowed_hosts. unfold callback in Hcb |- *. rewrite Hcb. unfold mbind, prog_bind. by rewrite Ecb. }
  unfold can_run. rewrite Eal. split.
  - intros Hr. exists (request_id e). split; [done|]. unfold has_free_capacity in Hr.
    apply existsb_exists in Hr as (h & _ & [_ Hid%bool_decide_eq_true]%andb_prop).
    exists c, locs, f, x, (host_id h). split; [done|]. by apply Hids.
  - intros (rid & [= <-] & c' & locs' & f' & x' & id & E' & Ha). rewrite E in E'. injection E' as <- <- <- <-.
    eapply room_shown; [exact Hc'|exact Hl|by apply Hids|exact Ha].
Qed.

Lemma head_scheduled q p s rid : queue_wf q → head_request (W := World) (X := app_error) q p s = Some rid → (p, s) ∈ schedule q.
Proof.
  intros Hwf Hh. apply elem_of_schedule; [done|]. apply (tw_sessions _ _ _ (qw_tier _ Hwf p)).
  unfold head_request, queued in Hh. by destruct (tier_of q p !! s).
Qed.

(** The first session that can run is the one whose head has its turn. *)
Lemma turn_found g avail w p s :
  ready g → same_core (g_world g) w → find (runnable infos (g_queue g) avail w) (schedule (g_queue g)) = Some (p, s) →
  ∃ rid, head_request (g_queue g) p s = Some rid ∧ its_turn g rid.
Proof.
  intros Hg Hc (pre & post & Es & Hr & Hpre)%find_split. rewrite Forall_forall in Hpre.
  apply (runnable_turn g avail w) in Hr as (rid & Hh & Hm); [|done..]. exists rid. split; [done|]. split; [done|].
  exists pre, p, s, post. split_and!; [done..|]. intros p' s' rid' Hin Hh' Hm'. specialize (Hpre _ Hin). simpl in Hpre.
  apply not_true_iff_false in Hpre. apply Hpre, runnable_turn; [done..|]. by exists rid'.
Qed.

Lemma turn_find g avail w rid :
  ready g → same_core (g_world g) w → its_turn g rid →
  ∃ p s, find (runnable infos (g_queue g) avail w) (schedule (g_queue g)) = Some (p, s) ∧
    head_request (g_queue g) p s = Some rid.
Proof.
  intros Hg Hc (Hm & pre & p & s & post & Es & Hhead & Hpre). exists p, s. split; [|done].
  rewrite Es. apply find_first.
  - apply Forall_forall. intros [p' s'] Hin. apply not_true_is_false.
    intros (rid' & Hh & Hm')%runnable_turn; [|done..]. by eapply Hpre.
  - apply runnable_turn; [done..|]. by exists rid.
Qed.

Lemma turn_unique g rid rid' : ready g → its_turn g rid → its_turn g rid' → rid = rid'.
Proof.
  intros Hg (p & s & E & Hh)%(turn_find g None (g_world g)) (p' & s' & E' & Hh')%(turn_find g None (g_world g)); [|done..].
  rewrite E in E'. injection E' as <- <-. congruence.
Qed.

(** A poll's dispatch takes the entry of its request when it is that one's turn, and otherwise
    nothing. *)
Lemma dispatch_turn g now avail rid w :
  ready g → same_core (g_world g) w → has_free_capacity (infos w) avail = true →
  ∃ r q' w', dispatch infos now avail (Some rid) (g_queue g, w) = (Ret r, (q', w')) ∧ same_core w w' ∧
    (r = Some rid ↔ its_turn g rid) ∧ (r ≠ Some rid → q' = g_queue g).
Proof.
  intros Hg Hc Hroom. destruct (rd_queue _ Hg) as [Hwf _].
  destruct (dispatch_refines infos (shows (g_world g)) now avail (Some rid) (g_queue g) w Hwf (quiet_gw g Hg)) as (w' & _ & E);
    [done|].
  destruct (dispatch_along infos same_core now avail (Some rid) (g_queue g) w (li_calm _ (rd_limit _ Hg))) as [Hw _].
  rewrite E in *. simpl in Hw. eexists _, _, w'. split; [done|]. split; [done|].
  clear E. unfold dispatch_ref. rewrite Hroom. simpl. split; [split|].
  - destruct (find _ _) as [[p s]|] eqn:Ef; [|intros [=]].
    apply turn_found in Ef as (rid' & Hh & Ht); [|done..]. revert Hh. unfold head_request, queued.
    destruct (tier_of (g_queue g) p !! s) as [[|e l]|]; cbn [fst]; [intros _ [=]| |intros _ [=]].
    case_bool_decide; cbn [fst]; [intros _ [=]|]. by intros [= ->] [= <-].
  - intros (p & s & -> & Hhead)%(turn_find g avail w); [|done..].
    unfold head_request, queued in Hhead. destruct (tier_of (g_queue g) p !! s) as [[|e l]|]; [done| |done].
    injection Hhead as <-. by rewrite bool_decide_false by auto.
  - destruct (find _ _) as [[p s]|]; [|done]. destruct (tier_of (g_queue g) p !! s) as [[|e l]|]; [done| |done].
    case_bool_decide as Hu; simpl; [done|]. intros Hr. destruct Hr. by rewrite Hu.
Qed.

(** What the routing answers when no candidate's context window is large enough. *)
Definition no_fit (c : Chat) : app_error := ENoAvailableBackend (no_window (estimate_token_budget (ch_request c))).

(** With its candidates registered and their backends built, a request that may start does. *)
Lemma start_exact rid c cs f g :
  cs ≠ [] →
  (∀ id, id ∈ candidate_ids cs → is_Some (w_backends (g_world g) !! id) ∧ is_Some (d_get (hr_hosts (w_registry (g_world g))) id)) →
  match start rid c cs f g with
  | (Ret _, g') => ∃ id, id ∈ candidate_ids cs ∧ g_requests g' = <[rid := Running c id f]> (g_requests g)
  | (Raise e, g') => e = no_fit c ∧ g_requests g' = g_requests g
  end.
Proof.
  intros Hne Hcs. unfold start, mbind, gw_prog_bind, mbind, prog_bind, in_router.
  pose proof (select_backend_in (ch_request c) cs (req_session_id (ch_request c)) (g_router g)) as Hin.
  destruct (select_backend (ch_request c) cs (req_session_id (ch_request c)) (g_router g)) as [[d|e] rt] eqn:Es.
  - specialize (Hin d rt eq_refl). assert (Hid : rd_backend_id d ∈ candidate_ids cs) by (by apply elem_of_list_to_set).
    destruct (Hcs _ Hid) as [[b Hb] [l Hl]]. cbn. rewrite Hb. unfold in_world, in_registry, acquire_slot, adjust_slots. cbn.
    rewrite Hl. cbn. destruct (stream (ch_request c)); cbn; by exists (rd_backend_id d).
  - split; [|done]. revert Es. unfold select_backend. destruct (fitting (ch_request c) cs) as [|c0 cs'].
    + by intros [= <- _].
    + destruct (score_candidates _ _ _) as [scores rules]. destruct (req_session_id (ch_request c)); [|done].
      destruct (re_sticky_sessions_enabled (g_router g)); [|done].
      destruct (re_sticky_assignments (g_router g) !! _); [|done]. by case_bool_decide.
Qed.
(** A request whose next poll is not its last: the time is not up and its lease, if it has one, is live. *)
Definition patient (g : Gateway) (rid : string) : Prop :=
  ∀ c locs f x, g_requests g !! rid = Some (Waiting c locs f x) →
    f_lt (f_add x poll_interval) wait_timeout = true ∧
    ∀ t, token_of c = Some t → is_Some (lb_by_token (purge_unlocked (w_lease_now (g_world g)) (w_book (g_world g))) !! t).

(** What a poll makes of a request: it starts, or is told that no context window is large
    enough, when it is its turn ... *)
Definition served (g : Gateway) (rid : string) (c : Chat) (locs : list nat) (f : bool) (s : chat_state) : Prop :=
  (∃ id, s = Running c id f ∧ admissible (g_world g) c locs id) ∨ s = Finished (Some (no_fit c)).

(** ... and otherwise it does not, and nothing shows. *)
Record passed_over (g : Gateway) (rid : string) (s : chat_state) (g' : Gateway) : Prop := {
  po_state : not_running (Some s);
  po_patient c locs f x : g_requests g !! rid = Some (Waiting c locs f x) → patient g rid →
    s = Waiting c locs f (f_add x poll_interval) ∧ g_queue g' = g_queue g ∧ same_core (g_world g) (g_world g');
}.

Lemma not_served c locs f x g rid :
  g_requests g !! rid = Some (Waiting c locs f x) → (∀ id, ¬ admissible (g_world g) c locs id) → ¬ its_turn g rid.
Proof.
  intros E H [(c' & locs' & f' & x' & id & E' & Ha) _]. rewrite E in E'. injection E' as <- <- <- <-. by eapply H.
Qed.

Lemma step_request_eq rid m g m' g' : m g = m' g' → step_request rid m g = step_request rid m' g'.
Proof. unfold step_request. by intros ->. Qed.

(** The end of a turn that was not the request's. *)
Definition keep_waiting rid c locs f x : gw_prog unit := λ g,
  if f_lt (f_add x poll_interval) wait_timeout
  then (Ret tt, set_request rid (Waiting c locs f (f_add x poll_interval)) g)
  else finally_cancel rid c (dispatch_timeout f) g.

Lemma keep_waiting_step c locs f x g g1 rid :
  g_requests g !! rid = Some (Waiting c locs f x) → g_requests g1 = g_requests g →
  g_queue g1 = g_queue g → same_core (g_world g) (g_world g1) →
  let g' := step_request rid (keep_waiting rid c locs f x) g1 in
  ∃ s, g_requests g' = <[rid := s]> (g_requests g) ∧ passed_over g rid s g'.
Proof.
  intros E Er Eq Hc. unfold step_request, keep_waiting. destruct (f_lt _ _) eqn:Et; cbv zeta.
  - eexists. simpl. rewrite Er. split; [done|]. split; [done|]. intros c' locs' f' x' E'. rewrite E in E'.
    by injection E' as <- <- <- <-.
  - eexists. simpl. rewrite Er. split; [done|]. split; [done|]. intros c' locs' f' x' E' Hp. apply Hp in E as [E _]. congruence.
Qed.

Lemma admissible_bound g rid c locs f x id :
  ready g → g_requests g !! rid = Some (Waiting c locs f x) → admissible (g_world g) c locs id →
  is_Some (d_get (hr_hosts (w_registry (g_world g))) id).
Proof.
  intros Hg E [(l & h & Hin & Hd & <- & _) _]. destruct (waiting_hosts _ _ _ _ _ _ Hg E) as [Hl _].
  pose proof (li_wf _ (rd_limit _ Hg)) as Hwf. apply lookup_bound; [done|]. exists h.
  by apply (bound_lookup _ l); [|apply Hl|].
Qed.

(** The turn of the request: the slot is taken, or no context window is large enough. *)
Lemma served_step rid c locs f x cs g g2 :
  ready g → g_requests g !! rid = Some (Waiting c locs f x) → cs ≠ [] →
  g_requests g2 = g_requests g → same_core (g_world g) (g_world g2) →
  (∀ id, id ∈ candidate_ids cs → admissible (g_world g) c locs id ∧ is_Some (w_backends (g_world g2) !! id)) →
  ∃ s, g_requests (step_request rid (start rid c cs f) g2) = <[rid := s]> (g_requests g) ∧ served g rid c locs f s.
Proof.
  intros Hg E Hne Er Hc Hcs. pose proof (start_exact rid c cs f g2 Hne) as H. unfold step_request.
  destruct (start rid c cs f g2) as [[[]|e] g3].
  - destruct H as (id & Hid & ->); [|exists (Running c id f); rewrite Er; split; [done|]; left; exists id; split; [done|by apply Hcs]].
    intros id [Ha Hb]%Hcs. split; [done|]. rewrite (sc_registry _ _ Hc). by eapply admissible_bound.
  - destruct H as [-> H]; [|exists (Finished (Some (no_fit c))); simpl; rewrite H, Er; split; [done|by right]].
    intros id [Ha Hb]%Hcs. split; [done|]. rewrite (sc_registry _ _ Hc). by eapply admissible_bound.
Qed.

Lemma wake_exact rid c locs f x g :
  ready g → g_requests g !! rid = Some (Waiting c locs f x) →
  let g' := run_op g (GWake rid) in
  ∃ s, g_requests g' = <[rid := s]> (g_requests g) ∧
    ((its_turn g rid ∧ served g rid c locs f s) ∨ (¬ its_turn g rid ∧ passed_over g rid s g')).
Proof.
  intros Hg E. cbv zeta. unfold Gateway.run_op. rewrite E.
  destruct (waiting_hosts _ _ _ _ _ _ Hg E) as [Hl Hok].
  pose proof (look_exact factories c locs (g_world g) (rd_book _ Hg) Hok) as Hlook.
  pose proof (wframe_candidates factories c locs (g_world g)) as Hc1.
  destruct (current_candidates factories c locs (g_world g)) as [[cs|e] w1] eqn:Ec; simpl in Hc1.
  - destruct cs as [|c0 cs].
    + rewrite (step_request_eq rid _ _ (keep_waiting rid c locs f x) (set_world w1 g)).
      2: { unfold wake, in_world, mbind, gw_prog_bind, mbind, prog_bind. by rewrite Ec. }
      destruct (keep_waiting_step c locs f x g (set_world w1 g) rid E eq_refl eq_refl Hc1) as (s & Es & Hs).
      exists s. split; [exact Es|]. right. split; [|done]. eapply not_served; [done|]. intros id Ha%Hlook. by apply elem_of_empty in Ha.
    + set (ids := candidate_ids (c0 :: cs)) in *.
      assert (Hid : rc_backend_id c0 ∈ ids) by (apply elem_of_list_to_set; left).
      destruct (dispatch_turn g (w_now w1) (Some ids) rid w1 Hg Hc1) as (r & q' & w2 & Ed & Hc2 & Hturn & Hkept).
      { eapply room_shown; [exact Hc1|exact Hl|exact Hid|]. by apply Hlook. }
      destruct (decide (r = Some rid)) as [Hr|Hr].
      * set (g2 := leave_queue rid c (set_world w2 (set_queue q' (set_world w1 g)))).
        rewrite (step_request_eq rid _ _ (start rid c (c0 :: cs) f) g2).
        2: { unfold wake, in_world, in_queue, mbind, gw_prog_bind, mbind, prog_bind. rewrite Ec. cbn -[candidate_ids dispatch]. fold ids. rewrite Ed. subst r. by rewrite bool_decide_true. }
        destruct (served_step rid c locs f x (c0 :: cs) g g2 Hg E) as (s & Es & Hs); [done|done|by etrans| |].
        { intros id Hi. split; [by apply Hlook|]. simpl. apply (sc_backends _ _ Hc2). by apply Hlook. }
        exists s. split; [done|]. left. split; [by apply Hturn|done].
      * rewrite (step_request_eq rid _ _ (keep_waiting rid c locs f x) (set_world w2 (set_queue q' (set_world w1 g)))).
        2: { unfold wake, in_world, in_queue, mbind, gw_prog_bind, mbind, prog_bind. rewrite Ec. cbn -[candidate_ids dispatch]. fold ids. rewrite Ed. by rewrite bool_decide_false. }
        destruct (keep_waiting_step c locs f x g (set_world w2 (set_queue q' (set_world w1 g))) rid E eq_refl)
          as (s & Es & Hs); [by apply Hkept|by etrans|].
        exists s. split; [exact Es|]. right. split; [by rewrite <-Hturn|done].
  - destruct Hlook as (_ & t & Et & El).
    assert (Hw : wake factories wait_timeout poll_interval rid c locs f x g = (Raise e, leave_queue rid c (set_world w1 g))).
    { unfold wake, in_world, mbind, gw_prog_bind, mbind, prog_bind. by rewrite Ec. }
    exists (Finished (Some e)). unfold step_request. rewrite Hw. simpl. split; [done|]. right. split.
    + eapply not_served; [done|]. intros id [_ Ha]. specialize (Ha (rd_book _ Hg)). unfold lease_allows in Ha.
      rewrite Et, El in Ha. by destruct Ha as (? & ? & _).
    + split; [done|]. intros c' locs' f' x' E' Hp. apply Hp in E as [_ E]. specialize (E t Et). rewrite El in E. by destruct E.
Qed.
(** ** A round of polls *)

(** A poll changes no other request. *)
Lemma wake_other rid rid' g :
  calm g → rid' ≠ rid → g_requests (run_op g (GWake rid)) !! rid' = g_requests g !! rid'.
Proof.
  intros Hc Hne. unfold Gateway.run_op. destruct (g_requests g !! rid) as [[|c locs f x| |]|] eqn:E; try done.
  unfold step_request. pose proof (wake_effect factories wait_timeout poll_interval rid c locs f x g Hc) as H.
  destruct (wake _ _ _ rid c locs f x g) as [[[]|e] g']; simpl in H.
  - inversion H as [|? ? Hs|? ? ? ? ? ? Er]; subst; [destruct Hs as [? ? ? ? ? ? ? Er]|]; by rewrite Er, lookup_insert_ne.
  - inversion H as [? ? Hs| |]; subst. simpl. by rewrite lookup_insert_ne, (sg_requests _ _ Hs).
Qed.

Lemma wakes_other rids rid g :
  calm g → rid ∉ rids → g_requests (run_gw g (GWake <$> rids)) !! rid = g_requests g !! rid.
Proof.
  revert g. induction rids as [|r rids IH]; intros g Hc Hni; [done|]. apply not_elem_of_cons in Hni as [Hne Hni].
  rewrite fmap_cons. unfold Gateway.run_gw in *. simpl foldl. rewrite IH; [by apply wake_other| |done].
  by apply (calm_op factories cfg hc wait_timeout poll_interval g (GWake r)).
Qed.

(** A poll that passes a patient request over leaves a gateway in which the same requests may run. *)
Lemma passed_over_ready rid c locs f x g :
  ready g → g_requests g !! rid = Some (Waiting c locs f x) → patient g rid → ¬ its_turn g rid →
  let g' := run_op g (GWake rid) in
  ready g' ∧ g_queue g' = g_queue g ∧ same_core (g_world g) (g_world g') ∧
  g_requests g' = <[rid := Waiting c locs f (f_add x poll_interval)]> (g_requests g).
Proof.
  intros Hg E Hp Hn g'. destruct (wake_exact rid c locs f x g Hg E) as (s & Es & [[Ht _]|[_ Hs]]); [done|].
  destruct (po_patient _ _ _ _ Hs c locs f x E Hp) as (-> & Eq & Hc). fold g' in Es, Eq, Hc.
  split_and!; [|done..]. split.
  - by apply queue_inv_op, Hg.
  - by apply limit_op; [apply Hg|].
  - by apply (sc_live _ _ Hc), Hg.
  - rewrite (sc_registry _ _ Hc). eapply hosts_ok_core; [exact Hc|apply Hg].
Qed.

Lemma may_run_passed rid c locs f x x' g g' r :
  book_wf (w_book (g_world g)) → same_core (g_world g) (g_world g') → g_requests g !! rid = Some (Waiting c locs f x) →
  g_requests g' = <[rid := Waiting c locs f x']> (g_requests g) → may_run g' r ↔ may_run g r.
Proof.
  intros Hwf Hc E Er. unfold may_run. rewrite Er. destruct (decide (r = rid)) as [->|Hne].
  - rewrite lookup_insert_eq, E.
    split; intros (c' & locs' & f' & y & id & [= <- <- <- <-] & Ha); eexists _, _, _, _, id; (split; [done|]);
      [by eapply admissible_core|by eapply admissible_core_back].
  - rewrite lookup_insert_ne by done. split; intros (c' & locs' & f' & y & id & E' & Ha); exists c', locs', f', y, id;
      (split; [done|]); [by eapply admissible_core|by eapply admissible_core_back].
Qed.

Lemma its_turn_same g g' r :
  g_queue g' = g_queue g → (∀ r, may_run g' r ↔ may_run g r) → its_turn g' r ↔ its_turn g r.
Proof. intros Eq Hm. unfold its_turn. rewrite Eq. by setoid_rewrite Hm. Qed.

(** In a round, the request whose turn it is is served, whatever the order of the polls. *)
Lemma round_serves rids g r :
  ready g → NoDup rids → (∀ r, r ∈ rids → patient g r) → r ∈ rids → its_turn g r →
  ∃ c locs f x s, g_requests g !! r = Some (Waiting c locs f x) ∧
    g_requests (run_gw g (GWake <$> rids)) !! r = Some s ∧ served g r c locs f s.
Proof.
  revert g. induction rids as [|r0 rids IH]; intros g Hg Hnd Hp Hin Ht; [by apply not_elem_of_nil in Hin|].
  apply NoDup_cons in Hnd as [Hni Hnd]. rewrite fmap_cons.
  change (run_gw g (GWake r0 :: (GWake <$> rids))) with (run_gw (run_op g (GWake r0)) (GWake <$> rids)).
  pose proof (li_calm _ (rd_limit _ Hg)) as Hcalm.
  destruct (decide (r = r0)) as [<-|Hne].
  - pose proof Ht as [(c & locs & f & x & _ & E & _) _].
    destruct (wake_exact r c locs f x g Hg E) as (s & Es & [[_ Hs]|[Hn _]]); [|done].
    exists c, locs, f, x, s. split_and!; [done| |done].
    rewrite wakes_other; [by rewrite Es, lookup_insert_eq| |done].
    by apply (calm_op factories cfg hc wait_timeout poll_interval g (GWake r)).
  - assert (Hin' : r ∈ rids) by (by apply elem_of_cons in Hin as [|]).
    destruct (g_requests g !! r0) as [[|c locs f x| |]|] eqn:E.
    1,3,4,5: unfold Gateway.run_op; rewrite E; apply IH; try done; intros r' Hr'; apply Hp; by right.
    assert (Hn : ¬ its_turn g r0) by (intros Ht0; apply Hne; by eapply turn_unique).
    destruct (passed_over_ready r0 c locs f x g Hg E) as (Hg1 & Eq & Hc & Er); [apply Hp; left|done|].
    set (g1 := run_op g (GWake r0)) in *.
    assert (Hsame : ∀ r', r' ≠ r0 → g_requests g1 !! r' = g_requests g !! r')
      by (intros r' Hne'; by rewrite Er, lookup_insert_ne).
    assert (Hm : ∀ r', may_run g1 r' ↔ may_run g r') by (intros r'; eapply may_run_passed; [apply Hg|done..]).
    destruct (IH g1) as (c1 & locs1 & f1 & x1 & s & E1 & Es & Hs); [done|done| |done|by apply (its_turn_same g)|].
    + intros r' Hr' c' locs' f' x' E'. rewrite Hsame in E' by (intros ->; done).
      destruct (sc_live _ _ Hc (rd_book _ Hg)) as [_ Ep]. rewrite (sc_lease_now _ _ Hc), Ep.
      refine (Hp r' _ c' locs' f' x' E'). by right.
    + exists c1, locs1, f1, x1, s. rewrite <-Hsame by done. split_and!; [done..|].
      destruct Hs as [(id & -> & Ha)|]; [left; exists id; split; [done|by eapply admissible_core]|by right].
Qed.
(** ** Properties *)

(** The backend of every registered host can be built, and its capacity is no astronomical number. *)
Definition supported_hosts (w : World) : Prop := ∀ l h, l ∈ hosts (w_registry w) → deref w l = Some h →
  builds factories (capabilities h) ∧ (max_concurrent_requests (capacity h) < 2 ^ 900)%Z.

Lemma ready_run g ops :
  idle_gateway g → Forall no_rebinding ops →
  book_wf (w_book (g_world (run_gw g ops))) → supported_hosts (g_world (run_gw g ops)) → ready (run_gw g ops).
Proof.
  intros Hg Hops Hwf Hs. pose proof (limit_inv_run factories cfg hc wait_timeout poll_interval g ops Hg Hops) as Hl.
  split; [by apply queue_inv_run; apply Hg|done|done|]. intros l h Hin Hd. destruct (Hs l h Hin Hd) as [Ht Hm].
  split_and!; [done| |done].
  assert (Hi : slot_inv (run_gw g ops)).
  { apply (run_gw_ind factories cfg hc wait_timeout poll_interval slot_inv no_deregister);
      [intros; by apply slot_inv_op|by apply idle_slot_inv|]. eapply Forall_impl; [exact Hops|].
    by intros [| | | | | |[]| | |]. }
  rewrite (si_slots _ Hi (host_id h) h); [lia|]. by apply (bound_lookup _ l); [apply Hi|..].
Qed.

(** C6. A poll starts a request exactly when it is its turn.  This is said of a gateway that
    started with no request and in whose history no host was registered, patched or
    deregistered (a waiting request keeps the hosts it was admitted with, and a patch replaces
    those), when the book of leases is one its own operations reach (C9), the backend of every
    host can be built and every capacity is below 2^900.  The turn is that of the first session,
    in the order of the queue, whose head has a host that is up, has room and is open to it:
    polled then, the request runs on such a host (or is told that no context window is
    large enough).  Polled out of turn it does not run; and while its time is not up and its
    lease lives, it waits on and neither the queue nor anything the others look at changes. *)
Theorem polls_take_turns g ops rid c locs f x :
  idle_gateway g → Forall no_rebinding ops →
  let before := run_gw g ops in
  let after := run_op before (GWake rid) in
  book_wf (w_book (g_world before)) → supported_hosts (g_world before) →
  g_requests before !! rid = Some (Waiting c locs f x) →
  ∃ s, g_requests after = <[rid := s]> (g_requests before) ∧
    (its_turn before rid → served before rid c locs f s) ∧
    (¬ its_turn before rid → not_running (Some s) ∧
      (patient before rid → s = Waiting c locs f (f_add x poll_interval) ∧ g_queue after = g_queue before ∧
        same_core (g_world before) (g_world after))).
Proof.
  intros Hg Hops before after Hwf Hs E. pose proof (ready_run g ops Hg Hops Hwf Hs) as Hr.
  destruct (wake_exact rid c locs f x before Hr E) as (s & Es & [[Ht Hsv]|[Hn [Hnr Hpo]]]); exists s;
    (split; [exact Es|split; [|]]); try done. intros _. split; [done|]. by apply Hpo.
Qed.

(** C7. Room is used, in a gateway as in C6: started with no request, with no host registered,
    patched or deregistered since, with a book of leases its own operations reach, with
    backends that can be built and capacities below 2^900.  Moreover no waiting request may be
    about to give up: the next poll of each is within its time, and its lease, if it has one,
    lives.  Then, when the head of some session has a host that is up, has room and is
    open to it, a round in which every waiting request polls once, in whatever order, gives
    the request whose turn it is its host (or the answer that no context window is large
    enough): the polls of the requests behind it, before or after its own, do not take the room
    from it. *)
Theorem freed_room_is_used g ops rids p s rid :
  idle_gateway g → Forall no_rebinding ops →
  let before := run_gw g ops in
  let after := run_gw before (GWake <$> rids) in
  book_wf (w_book (g_world before)) → supported_hosts (g_world before) →
  NoDup rids → (∀ r c locs f x, g_requests before !! r = Some (Waiting c locs f x) → r ∈ rids) →
  (∀ r, patient before r) →
  head_request (g_queue before) p s = Some rid → may_run before rid →
  ∃ r c locs f x st, its_turn before r ∧ g_requests before !! r = Some (Waiting c locs f x) ∧
    g_requests after !! r = Some st ∧ served before r c locs f st.
Proof.
  intros Hg Hops before after Hwf Hs Hnd Hall Hp Hh Hm. pose proof (ready_run g ops Hg Hops Hwf Hs) as Hr.
  assert (Ht : ∃ r, its_turn before r).
  { destruct (find (runnable infos (g_queue before) None (g_world before)) (schedule (g_queue before))) as [[p' s']|] eqn:Ef.
    - apply turn_found in Ef as (r & _ & Ht); [by exists r|done..].
    - assert (Hps : (p, s) ∈ schedule (g_queue before)) by (by eapply head_scheduled; [apply Hr|]).
      apply list_elem_of_In, (find_none _ _ Ef), not_true_iff_false in Hps. destruct Hps.
      apply runnable_turn; [done..|]. by exists rid. }
  destruct Ht as [r Ht]. pose proof Ht as [(c0 & locs0 & f0 & x0 & _ & E0 & _) _].
  destruct (round_serves rids before r) as (c & locs & f & x & st & E & Est & Hsv); try done; [by eapply Hall|].
  by exists r, c, locs, f, x, st.
Qed.
End turns.

(** ** A concrete round *)

(** ["r1"] has just left the only slot, ["r2"] and ["r3"] wait for it, in this order. *)
Definition freed : Gateway := run_sample (sample_gateway [("a", 1%Z)])
  (two_arrive ++ [GArrive "r3" (sample_chat false); GAnswer "r3" (Models (Some ["m"]));
                  GComplete "r1" (BackendOk "hello" "stop" 1 1 f_zero)]).

Lemma freed_book : book_wf (w_book (g_world freed)).
Proof. replace (w_book _) with NodeLeaseBook_new by (vm_compute; reflexivity). apply book_wf_new. Qed.

Lemma freed_supported : supported_hosts {["lmstudio"]} (g_world freed).
Proof.
  intros l h Hl Hd. replace (hosts _) with [0] in Hl by (vm_compute; reflexivity). apply list_elem_of_singleton in Hl as ->.
  vm_compute in Hd. injection Hd as <-. split; [by vm_compute|done].
Qed.

Lemma freed_waiting r c locs f x :
  g_requests freed !! r = Some (Waiting c locs f x) →
  (r = "r2" ∧ c = sample_chat true ∨ r = "r3" ∧ c = sample_chat false) ∧ locs = [0] ∧ x = f_zero.
Proof.
  intros E. assert (Hr : r ∈ ["r3"; "r1"; "r2"]).
  { replace ["r3"; "r1"; "r2"] with (map_to_list (g_requests freed)).*1 by (vm_compute; reflexivity).
    apply list_elem_of_fmap. eexists (r, _). split; [done|]. by apply elem_of_map_to_list. }
  rewrite !elem_of_cons, elem_of_nil in Hr. destruct Hr as [->|[->|[->|[]]]]; vm_compute in E; try done;
    injection E as <- <- <- <-; auto.
Qed.

Lemma freed_may_run : may_run freed "r2".
Proof.
  exists (sample_chat true), [0], false, f_zero, "a". split; [by vm_compute|]. split.
  - eexists 0, _. split_and!; [by left|by vm_compute|done|by vm_compute|by vm_compute].
  - intros _. by vm_compute.
Qed.

Lemma freed_patient r : patient default_wait_timeout default_poll_interval freed r.
Proof.
  intros c locs f x E. apply freed_waiting in E as (Hr & _ & ->). split; [vm_compute; reflexivity|].
  intros t Ht. exfalso. destruct Hr as [[_ ->]|[_ ->]]; discriminate Ht.
Qed.

(** Polled first, ["r3"] waits on; then ["r2"] gets the host. *)
Example freed_round :
  let g := run_sample freed (GWake <$> ["r3"; "r2"]) in
  waits g "r3" = true ∧ runs_at g "r2" = Some "a".
Proof. by vm_compute. Qed.

Lemma candidates_exact_witness :
  let '(r, w') := current_candidates {["lmstudio"]} (sample_chat false) [0] (g_world freed) in
  ∃ cs, r = Ret cs ∧ ∀ id, (id ∈ candidate_ids cs ↔ admissible (g_world freed) (sample_chat false) [0] id) ∧
    (id ∈ candidate_ids cs → is_Some (w_backends w' !! id)).
Proof.
  pose proof (candidates_exact {["lmstudio"]} (sample_chat false) [0] (g_world freed) freed_book) as H.
  destruct (current_candidates {["lmstudio"]} (sample_chat false) [0] (g_world freed)) as [[cs|e] w'].
  - exists cs. split; [done|]. apply H. intros l h ->%list_elem_of_singleton Hd. vm_compute in Hd. injection Hd as <-.
    by vm_compute.
  - destruct H as (_ & [t [=]] & _). intros l h ->%list_elem_of_singleton Hd. vm_compute in Hd. injection Hd as <-.
    by vm_compute.
Defined.

Lemma polls_take_turns_witness :
  ∃ s, g_requests (run_sample freed [GWake "r2"]) = <["r2" := s]> (g_requests freed) ∧
    (its_turn freed "r2" → served freed "r2" (sample_chat true) [0] false s).
Proof.
  destruct (polls_take_turns {["lmstudio"]} default_lease_settings default_health_config
    default_wait_timeout default_poll_interval (sample_gateway [("a", 1%Z)]) (two_arrive ++
    [GArrive "r3" (sample_chat false); GAnswer "r3" (Models (Some ["m"]));
     GComplete "r1" (BackendOk "hello" "stop" 1 1 f_zero)]) "r2" (sample_chat true) [0] false f_zero) as (s & E & Hs & _).
  - apply sample_idle.
  - repeat constructor.
  - apply freed_book.
  - apply freed_supported.
  - vm_compute. reflexivity.
  - exists s. split; [exact E|exact Hs].
Defined.

Lemma freed_room_is_used_witness :
  ∃ r c locs f x st, its_turn freed r ∧ g_requests freed !! r = Some (Waiting c locs f x) ∧
    g_requests (run_sample freed (GWake <$> ["r3"; "r2"])) !! r = Some st ∧ served freed r c locs f st.
Proof.
  apply (freed_room_is_used {["lmstudio"]} default_lease_settings default_health_config
    default_wait_timeout default_poll_interval (sample_gateway [("a", 1%Z)]) (two_arrive ++
    [GArrive "r3" (sample_chat false); GAnswer "r3" (Models (Some ["m"]));
     GComplete "r1" (BackendOk "hello" "stop" 1 1 f_zero)]) ["r3"; "r2"] 0%Z "r2" "r2").
  - apply sample_idle.
  - repeat constructor.
  - apply freed_book.
  - apply freed_supported.
  - apply NoDup_cons. split; [by rewrite list_elem_of_singleton|]. apply NoDup_singleton.
  - intros r c locs f x [[[-> _]|[-> _]] _]%freed_waiting; [by right; left|by left].
  - apply freed_patient.
  - vm_compute. reflexivity.
  - apply freed_may_run.
Defined.
