(* ===== verification/Backends.v ===== *)
(** * The HTTP backends ([backends/base.py], [backends/lmstudio.py], [backends/llamaserver.py])

    Both backends stream a completion from an OpenAI-compatible server, retry a connection
    that failed before it gave anything, and sum a stream up into one response.  They differ
    in the payload, in the aliases of LM Studio and in the endpoints they probe; the retry
    loop and the accumulation are the same code in both files, modelled once.

    What the transport ([httpx]) gives for an attempt is an argument: nothing, or a status,
    the lines of the body and how the body ended.  [json.loads] is an argument too. *)

From S2P Require Import Prelude.
From S2P Require Import PyFloat.
From S2P Require Import PyStr.
From S2P Require Import PyDict.
From S2P Require Import PyJson.
From S2P Require Import ApiModels.

#[local] Open Scope list_scope.

(** ** Data *)

(** [BackendChunk]: the fields hold whatever JSON the server sent; [JNull] is [None]. *)
Record BackendChunk := {
  ck_content : json;
  ck_finish_reason : json;
  ck_usage : json;
}.

Record BackendResponse := {
  br_model : string;
  br_content : string;
  br_finish_reason : json;
  br_prompt_tokens : json;
  br_completion_tokens : json;
}.

Record BackendHealth := { bh_healthy : bool; bh_detail : string }.

(** What a backend call raises; [OtherExn] is a Python error over a malformed answer
    ([KeyError], [TypeError], [AttributeError], [JSONDecodeError]). *)
Inductive backend_exn :=
  | BackendResponseExn (status_code : Z) (body : string)
  | BackendTimeoutExn (msg : string)
  | BackendConnectionExn (msg : string)
  | OtherExn (kind : string).

(** [str(exc)] of [BackendResponseError] *)
Definition response_error_msg (status_code : Z) (body : string) : string :=
  "backend responded with status " +:+ str_of_Z status_code +:+ ": " +:+ body.

(** [httpx.TimeoutException] is a [TransportError]. *)
Inductive transport_error :=
  | TimeoutException (msg : string)
  | TransportError (msg : string).

(** One request to the server: it never answers, or answers with a status, the lines of a
    body and what ended them ([None]: the body is complete). *)
Inductive attempt :=
  | NoResponse (e : transport_error)
  | Response (status_code : Z) (body : string) (lines : list string) (ending : option transport_error).

(** ** Aliases *)

(** [_alias_cursor] *)
Abbreviation cursor := (gmap string Z).

(** [_resolve_model] *)
Definition resolve_model (aliases : gmap string (list string)) (m : string) (c : cursor) : string * cursor :=
  match default [] (aliases !! m) with
  | [] => (m, c)
  | names =>
      let index := (default 0 (c !! m) mod Z.of_nat (length names))%Z in
      (nth (Z.to_nat index) names m, <[m := (index + 1)%Z]> c)
  end.

(** ** Payloads *)

(** [request.model_dump(exclude=excluded)] *)
Definition dump_without (excluded : list string) (r : ChatCompletionRequest) : dict string json :=
  filter (λ p, p.1 ∉ excluded) (model_dump r).

(** [d | updates] *)
Definition d_merge (d updates : dict string json) : dict string json :=
  foldl (λ d p, d_set d p.1 p.2) d updates.

Definition stream_fields : dict string json :=
  [("stream", JBool true); ("stream_options", JObj [("include_usage", JBool true)])].

Definition to_lmstudio_payload (r : ChatCompletionRequest) (m : string) : dict string json :=
  d_merge (dump_without (["stream"; "chat_template_kwargs"] ++ unset_generation_fields r) r)
    (("model", JStr m) :: stream_fields).

Definition to_llamaserver_payload (r : ChatCompletionRequest) : dict string json :=
  d_merge (dump_without ("stream" :: unset_generation_fields r) r) stream_fields.

(** ** Streaming *)

Section streaming.
Context (loads : string → option json).

(** What one line does: nothing, [return], a chunk, or an exception. *)
Inductive line_result :=
  | LSkip
  | LDone
  | LChunk (c : BackendChunk)
  | LRaise (e : backend_exn).

(** [choices[0]] when [choices] is truthy *)
Definition first_choice (choices : json) : outcome backend_exn json :=
  match choices with
  | JList (c :: _) => Ret c
  | JObj _ => Raise (OtherExn "KeyError")
  | JStr (String a _) => Ret (JStr (String a ""))
  | _ => Raise (OtherExn "TypeError")
  end.

(** [choice["delta"].get("content", "")] and [choice.get("finish_reason")] *)
Definition chunk_of_choice (choice usage : json) : outcome backend_exn BackendChunk :=
  match choice with
  | JObj o =>
      match d_get o "delta" with
      | None => Raise (OtherExn "KeyError")
      | Some (JObj delta) =>
          Ret {| ck_content := default (JStr "") (d_get delta "content");
                 ck_finish_reason := default JNull (d_get o "finish_reason"); ck_usage := usage |}
      | Some _ => Raise (OtherExn "AttributeError")
      end
  | _ => Raise (OtherExn "TypeError")
  end.

Definition read_data (data : string) : line_result :=
  match loads data with
  | None => LRaise (OtherExn "JSONDecodeError")
  | Some (JObj _ as parsed) =>
      let choices := default JNull (j_get parsed "choices") in
      let usage := default JNull (j_get parsed "usage") in
      if j_truthy choices then
        match first_choice choices with
        | Raise e => LRaise e
        | Ret choice =>
            match chunk_of_choice choice usage with Ret c => LChunk c | Raise e => LRaise e end
        end
      else match usage with
           | JNull => LSkip
           | _ => LChunk {| ck_content := JStr ""; ck_finish_reason := JNull; ck_usage := usage |}
           end
  | Some _ => LRaise (OtherExn "AttributeError")
  end.

Definition read_line (line : string) : line_result :=
  if negb (str_startswith line "data: ") then LSkip
  else let data := str_removeprefix line "data: " in
       if bool_decide (data = "[DONE]") then LDone else read_data data.

(** How an attempt ends: the generator returns or raises, or the transport failed. *)
Inductive attempt_end :=
  | AReturn
  | ARaise (e : backend_exn)
  | ATransport (e : transport_error).

Fixpoint read_lines (lines : list string) (ending : option transport_error)
    : list BackendChunk * attempt_end :=
  match lines with
  | [] => ([], match ending with None => AReturn | Some e => ATransport e end)
  | line :: lines =>
      match read_line line with
      | LSkip => read_lines lines ending
      | LDone => ([], AReturn)
      | LChunk c => let '(cs, e) := read_lines lines ending in (c :: cs, e)
      | LRaise e => ([], ARaise e)
      end
  end.

Definition run_attempt (a : attempt) : list BackendChunk * attempt_end :=
  match a with
  | NoResponse e => ([], ATransport e)
  | Response status body lines ending =>
      if negb (status / 100 =? 2)%Z
      then ([], match ending with
                | None => ARaise (BackendResponseExn status body)
                | Some e => ATransport e
                end)
      else read_lines lines ending
  end.

Definition timeout_msg (msg : string) : string :=
  if bool_decide (msg = "") then "backend request timed out" else msg.

(** [str(last_error)] *)
Definition last_error_msg (e : option string) : string := default "None" e.

(** The loop [for _ in range(attempts)]: the chunks it yields and how it ends. *)
Fixpoint try_attempts (n : nat) (attempts : nat → attempt) (i : nat) (last_error : option string)
    : list BackendChunk * outcome backend_exn unit :=
  match n with
  | O => ([], Raise (BackendConnectionExn (last_error_msg last_error)))
  | S n =>
      let '(chunks, e) := run_attempt (attempts i) in
      match e with
      | AReturn => (chunks, Ret tt)
      | ARaise e => (chunks, Raise e)
      | ATransport (TimeoutException m) => (chunks, Raise (BackendTimeoutExn (timeout_msg m)))
      | ATransport (TransportError m) =>
          match chunks with
          | _ :: _ => (chunks, Raise (BackendConnectionExn m))
          | [] => try_attempts n attempts (S i) (Some m)
          end
      end
  end.

(** [_stream_chunks] once the payload is known; [range] of a negative number is empty. *)
Definition backend_stream (max_retries : Z) (attempts : nat → attempt)
    : list BackendChunk * outcome backend_exn unit :=
  try_attempts (Z.to_nat (max_retries + 1)) attempts 0 None.

(** ** Completing *)

Record accumulated := {
  ac_parts : list json;
  ac_finish_reason : json;
  ac_usage : json;
}.

Definition is_null (j : json) : bool := match j with JNull => true | _ => false end.

Definition accumulate (a : accumulated) (c : BackendChunk) : accumulated :=
  {| ac_parts := if j_truthy (ck_content c) then ac_parts a ++ [ck_content c] else ac_parts a;
     ac_finish_reason := if is_null (ck_finish_reason c) then ac_finish_reason a else ck_finish_reason c;
     ac_usage := if is_null (ck_usage c) then ac_usage a else ck_usage c |}.

(** [''.join(parts)] raises on a part that is not a string. *)
Fixpoint join_parts (parts : list json) : outcome backend_exn string :=
  match parts with
  | [] => Ret ""
  | JStr s :: parts => match join_parts parts with Ret t => Ret (s +:+ t) | Raise e => Raise e end
  | _ :: _ => Raise (OtherExn "TypeError")
  end.

(** [usage[key]] *)
Definition usage_field (usage : json) (key : string) : outcome backend_exn json :=
  match usage with
  | JObj o => match d_get o key with Some v => Ret v | None => Raise (OtherExn "KeyError") end
  | _ => Raise (OtherExn "TypeError")
  end.

Definition zero_usage : json := JObj [("prompt_tokens", JInt 0); ("completion_tokens", JInt 0)].

Definition response_of (m : string) (a : accumulated) : outcome backend_exn BackendResponse :=
  let usage := if is_null (ac_usage a) then zero_usage else ac_usage a in
  match join_parts (ac_parts a) with
  | Raise e => Raise e
  | Ret text =>
      match usage_field usage "prompt_tokens" with
      | Raise e => Raise e
      | Ret p =>
          match usage_field usage "completion_tokens" with
          | Raise e => Raise e
          | Ret c => Ret {| br_model := m; br_content := text; br_finish_reason := ac_finish_reason a;
                            br_prompt_tokens := p; br_completion_tokens := c |}
          end
      end
  end.

(** [complete] *)
Definition backend_complete (m : string) (stream : list BackendChunk * outcome backend_exn unit)
    : outcome backend_exn BackendResponse :=
  match stream.2 with
  | Raise e => Raise e
  | Ret _ => response_of m (foldl accumulate
               {| ac_parts := []; ac_finish_reason := JStr "stop"; ac_usage := JNull |} stream.1)
  end.

(** ** Probing *)

(** A plain [GET]. *)
Inductive get_answer :=
  | GetFailed (msg : string)
  | GetResponse (status_code : Z) (text : string).

(** [check_health] *)
Definition check_health (a : get_answer) : BackendHealth :=
  match a with
  | GetFailed msg => {| bh_healthy := false; bh_detail := msg |}
  | GetResponse status text =>
      if negb (status / 100 =? 2)%Z
      then {| bh_healthy := false; bh_detail := "status " +:+ str_of_Z status +:+ ": " +:+ text |}
      else {| bh_healthy := true; bh_detail := "ok" |}
  end.

(** [for entry in value]: a list's items, an object's keys, a string's characters. *)
Fixpoint characters (s : string) : list json :=
  match s with EmptyString => [] | String a s => JStr (String a "") :: characters s end.

Definition iterate (value : json) : outcome backend_exn (list json) :=
  match value with
  | JList l => Ret l
  | JObj o => Ret (JStr <$> d_keys o)
  | JStr s => Ret (characters s)
  | _ => Raise (OtherExn "TypeError")
  end.

(** [entry["id"]] *)
Definition entry_id (entry : json) : outcome backend_exn json :=
  match entry with
  | JObj o => match d_get o "id" with Some v => Ret v | None => Raise (OtherExn "KeyError") end
  | _ => Raise (OtherExn "TypeError")
  end.

(** The comprehension over [response.json()["data"]]. *)
Fixpoint entry_ids (keep : json → outcome backend_exn bool) (entries : list json)
    : outcome backend_exn (list json) :=
  match entries with
  | [] => Ret []
  | e :: entries =>
      match keep e with
      | Raise x => Raise x
      | Ret false => entry_ids keep entries
      | Ret true =>
          match entry_id e with
          | Raise x => Raise x
          | Ret id => match entry_ids keep entries with Ret ids => Ret (id :: ids) | Raise x => Raise x end
          end
      end
  end.

(** [response.json()["data"]] *)
Definition data_field (body : json) : outcome backend_exn json :=
  match body with
  | JObj o => match d_get o "data" with Some v => Ret v | None => Raise (OtherExn "KeyError") end
  | _ => Raise (OtherExn "TypeError")
  end.

Definition list_models_with (keep : json → outcome backend_exn bool) (a : get_answer)
    : outcome backend_exn (option (list json)) :=
  match a with
  | GetFailed _ => Ret None
  | GetResponse status text =>
      if negb (status / 100 =? 2)%Z then Ret None
      else match loads text with
           | None => Raise (OtherExn "JSONDecodeError")
           | Some body =>
               match data_field body with
               | Raise x => Raise x
               | Ret data =>
                   match iterate data with
                   | Raise x => Raise x
                   | Ret entries =>
                       match entry_ids keep entries with Ret ids => Ret (Some ids) | Raise x => Raise x end
                   end
               end
           end
  end.

(** [entry.get("state") == "loaded"] *)
Definition is_loaded (e : json) : outcome backend_exn bool :=
  match e with
  | JObj o => Ret (match d_get o "state" with Some (JStr s) => bool_decide (s = "loaded") | _ => false end)
  | _ => Raise (OtherExn "AttributeError")
  end.

Definition lmstudio_list_models : get_answer → outcome backend_exn (option (list json)) :=
  list_models_with is_loaded.
Definition llamaserver_list_models : get_answer → outcome backend_exn (option (list json)) :=
  list_models_with (λ _, Ret true).
End streaming.

(** ** Aliases in turn *)

(** Resolving the models of successive requests. *)
Fixpoint resolve_all (aliases : gmap string (list string)) (ms : list string) (c : cursor)
    : list string * cursor :=
  match ms with
  | [] => ([], c)
  | m :: ms =>
      let '(r, c) := resolve_model aliases m c in
      let '(rs, c) := resolve_all aliases ms c in (r :: rs, c)
  end.

(** How often [m] was asked for. *)
Definition asked (m : string) (ms : list string) : nat := length (filter (λ x, x = m) ms).

Section aliases.
Context (aliases : gmap string (list string)).

(** The cursor of [m] counts the requests for it, modulo the number of aliases. *)
Definition cursor_at (m : string) (names : list string) (k : nat) (c : cursor) : Prop :=
  (default 0 (c !! m) mod Z.of_nat (length names) = Z.of_nat k mod Z.of_nat (length names))%Z.

Lemma resolve_other m m' c : m ≠ m' → (resolve_model aliases m' c).2 !! m = c !! m.
Proof.
  intros Hne. unfold resolve_model. destruct (default [] (aliases !! m')); [done|]. simpl.
  by rewrite lookup_insert_ne.
Qed.

Lemma resolve_here m names k c :
  aliases !! m = Some names → names ≠ [] → cursor_at m names k c →
  (resolve_model aliases m c).1 = nth (k mod length names) names m ∧
  cursor_at m names (S k) (resolve_model aliases m c).2.
Proof.
  intros E Hne Hc.
  assert (Er : resolve_model aliases m c =
    (nth (Z.to_nat (default 0%Z (c !! m) mod Z.of_nat (length names))) names m,
     <[m := (default 0%Z (c !! m) mod Z.of_nat (length names) + 1)%Z]> c)).
  { unfold resolve_model. rewrite E. by destruct names. }
  rewrite Er. unfold cursor_at in *. simpl. rewrite Hc. split.
  - by rewrite <-Nat2Z.inj_mod, Nat2Z.id.
  - rewrite lookup_insert_eq. simpl. rewrite Zplus_mod_idemp_l. f_equal. lia.
Qed.

Lemma resolve_all_turns m names ms k c :
  aliases !! m = Some names → names ≠ [] → cursor_at m names k c →
  ∀ i, ms !! i = Some m →
    (resolve_all aliases ms c).1 !! i
      = Some (nth ((k + asked m (take i ms)) mod length names) names m).
Proof.
  intros E Hne. revert k c. induction ms as [|m' ms IH]; intros k c Hc i; [done|]. simpl.
  destruct (resolve_model aliases m' c) as [r c1] eqn:Er.
  pose proof (resolve_here m names k c E Hne Hc) as Hhere. pose proof (resolve_other m m' c) as Hother.
  destruct (resolve_all aliases ms c1) as [rs c2] eqn:Es. destruct i as [|i]; simpl.
  - intros [= ->]. rewrite Er in Hhere. rewrite Nat.add_0_r. destruct Hhere as [Hr _]; simpl in Hr; by rewrite Hr.
  - intros Hi. unfold asked. rewrite filter_cons. destruct (decide (m' = m)) as [->|Hm]; simpl.
    + rewrite Er in Hhere. specialize (IH (S k) c1 (proj2 Hhere) i Hi). rewrite Es in IH. simpl in IH.
      rewrite IH, Nat.add_succ_r. done.
    + rewrite Er in Hother. specialize (IH k c1). rewrite Es in IH. apply IH; [|done].
      unfold cursor_at in *. simpl in Hother. by rewrite Hother.
Qed.
End aliases.

(** Aliases take turns: the k-th request for a model with aliases goes to the k-th alias,
    starting again after the last, whatever models are asked for in between. *)
Theorem aliases_round_robin aliases ms m names i :
  aliases !! m = Some names → names ≠ [] → ms !! i = Some m →
  (resolve_all aliases ms ∅).1 !! i = Some (nth (asked m (take i ms) mod length names) names m).
Proof.
  intros E Hne Hi. rewrite (resolve_all_turns aliases m names ms 0 ∅ E Hne); [done| |done].
  unfold cursor_at. by rewrite lookup_empty.
Qed.

Lemma aliases_round_robin_witness :
  let aliases := <["m" := ["m:1"; "m:2"]]> ∅ in
  (resolve_all aliases ["m"; "x"; "m"; "m"] ∅).1 !! 3 = Some "m:1".
Proof.
  cbv zeta. apply (aliases_round_robin (<["m" := ["m:1"; "m:2"]]> ∅) ["m"; "x"; "m"; "m"] "m" ["m:1"; "m:2"] 3);
    [reflexivity|discriminate|reflexivity].
Defined.

(** ** Retries *)

Section retries.
Context (loads : string → option json).

(** The attempt failed before it gave anything, and not by a timeout. *)
Definition retryable (a : attempt) : Prop := ∃ m, run_attempt loads a = ([], ATransport (TransportError m)).

(** What the call makes of its last attempt. *)
Definition attempt_outcome (chunks : list BackendChunk) (e : attempt_end) : outcome backend_exn unit :=
  match e with
  | AReturn => Ret tt
  | ARaise e => Raise e
  | ATransport (TimeoutException m) => Raise (BackendTimeoutExn (timeout_msg m))
  | ATransport (TransportError m) => Raise (BackendConnectionExn m)
  end.

Lemma try_attempts_spec n attempts i last :
  (∃ k, (k < n)%nat ∧ (∀ j, (j < k)%nat → retryable (attempts (i + j))) ∧ ¬ retryable (attempts (i + k)) ∧
    let '(chunks, e) := run_attempt loads (attempts (i + k)) in
    try_attempts loads n attempts i last = (chunks, attempt_outcome chunks e)) ∨
  (∀ j, (j < n)%nat → retryable (attempts (i + j))) ∧
    ∃ m, try_attempts loads n attempts i last = ([], Raise (BackendConnectionExn m)).
Proof.
  revert i last. induction n as [|n IH]; intros i last; simpl.
  { right. split; [lia|]. by eexists. }
  destruct (run_attempt loads (attempts i)) as [chunks e] eqn:E.
  assert (Hstop : ¬ retryable (attempts i) → ∃ k, (k < S n)%nat ∧
    (∀ j, (j < k)%nat → retryable (attempts (i + j))) ∧ ¬ retryable (attempts (i + k)) ∧
    let '(chunks, e) := run_attempt loads (attempts (i + k)) in
    (chunks, attempt_outcome chunks e) = (chunks, attempt_outcome chunks e) ∧ k = 0).
  { intros Hn. exists 0. split; [lia|]. split; [lia|]. rewrite Nat.add_0_r. split; [done|]. by rewrite E. }
  destruct e as [|e|[m|m]]; [left..|].
  1-3: destruct Hstop as (k & Hk & Hj & Hn & Hx); [intros [m' Hm']; congruence|];
    exists k; split_and!; [done..|]; destruct (run_attempt loads (attempts (i + k))) as [cs e'] eqn:E';
    destruct Hx as [_ ->]; rewrite Nat.add_0_r in E'; rewrite E in E'; by injection E' as <- <-.
  destruct chunks as [|c chunks].
  - assert (Hi : retryable (attempts i)) by (by exists m).
    destruct (IH (S i) (Some m)) as [(k & Hk & Hj & Hn & Hx)|[Hall Hx]].
    + left. exists (S k). rewrite <-Nat.add_succ_comm. split; [lia|]. split; [|done].
      intros [|j] Hlt; [by rewrite Nat.add_0_r|]. rewrite <-Nat.add_succ_comm. apply Hj. lia.
    + right. split; [|done]. intros [|j] Hlt; [by rewrite Nat.add_0_r|]. rewrite <-Nat.add_succ_comm. apply Hall. lia.
  - left. destruct Hstop as (k & Hk & Hj & Hn & Hx); [intros [m' Hm']; congruence|].
    exists k; split_and!; [done..|]; destruct (run_attempt loads (attempts (i + k))) as [cs e'] eqn:E'.
    destruct Hx as [_ ->]. rewrite Nat.add_0_r in E'. rewrite E in E'. by injection E' as <- <-.
Qed.
End retries.

(** Retrying never duplicates output: what a call yields and how it ends is what one single
    attempt gave, after attempts that all failed to connect and gave nothing; or every
    attempt failed so, nothing was yielded and the call ends in a connection error. *)
Theorem retry_delivers_one_attempt loads max_retries attempts :
  let n := Z.to_nat (max_retries + 1) in
  (∃ k, (k < n)%nat ∧ (∀ j, (j < k)%nat → retryable loads (attempts j)) ∧ ¬ retryable loads (attempts k) ∧
    let '(chunks, e) := run_attempt loads (attempts k) in
    backend_stream loads max_retries attempts = (chunks, attempt_outcome chunks e)) ∨
  (∀ j, (j < n)%nat → retryable loads (attempts j)) ∧
    ∃ m, backend_stream loads max_retries attempts = ([], Raise (BackendConnectionExn m)).
Proof. exact (try_attempts_spec loads _ attempts 0 None). Qed.

(** ** Summing a stream up *)

(** The last value that is not [null]. *)
Definition last_given (d : json) (l : list json) : json :=
  default d (last (filter (λ j, is_null j = false) l)).

Lemma last_given_snoc d l j : last_given d (l ++ [j]) = if is_null j then last_given d l else j.
Proof.
  unfold last_given. rewrite filter_app, filter_cons, filter_nil. destruct (is_null j); simpl.
  - by rewrite app_nil_r.
  - by rewrite last_snoc.
Qed.

Lemma accumulate_all parts fr u chunks :
  foldl accumulate {| ac_parts := parts; ac_finish_reason := fr; ac_usage := u |} chunks =
  {| ac_parts := parts ++ filter (λ j, j_truthy j = true) (ck_content <$> chunks);
     ac_finish_reason := last_given fr (ck_finish_reason <$> chunks);
     ac_usage := last_given u (ck_usage <$> chunks) |}.
Proof.
  induction chunks as [|c chunks IH] using rev_ind; [by rewrite app_nil_r|].
  rewrite foldl_app, IH, !fmap_app. simpl. unfold accumulate. simpl.
  rewrite filter_app, filter_cons, filter_nil, !last_given_snoc.
  destruct (j_truthy (ck_content c)); simpl; by rewrite ?app_assoc, ?app_nil_r.
Qed.

Lemma join_parts_texts texts :
  join_parts (filter (λ j, j_truthy j = true) (JStr <$> texts)) = Ret (foldr String.append "" texts).
Proof.
  induction texts as [|t texts IH]; [done|]. rewrite fmap_cons, filter_cons. simpl.
  destruct t as [|a t]; simpl; [done|]. by rewrite IH.
Qed.

(** [complete] is its stream summed up: the text is every delta in order, the finish reason
    and the usage are the last ones the server gave, with ["stop"] and zero tokens when it
    gave none. *)
Theorem complete_sums_stream m chunks texts p c :
  ck_content <$> chunks = JStr <$> texts →
  usage_field (last_given zero_usage (ck_usage <$> chunks)) "prompt_tokens" = Ret p →
  usage_field (last_given zero_usage (ck_usage <$> chunks)) "completion_tokens" = Ret c →
  backend_complete m (chunks, Ret tt) =
    Ret {| br_model := m; br_content := foldr String.append "" texts;
           br_finish_reason := last_given (JStr "stop") (ck_finish_reason <$> chunks);
           br_prompt_tokens := p; br_completion_tokens := c |}.
Proof.
  intros Et Ep Ec. unfold backend_complete. cbn [fst snd]. rewrite accumulate_all. unfold response_of.
  simpl. rewrite Et, join_parts_texts.
  assert (Eu : (if is_null (last_given JNull (ck_usage <$> chunks)) then zero_usage
                else last_given JNull (ck_usage <$> chunks)) = last_given zero_usage (ck_usage <$> chunks)).
  { unfold last_given. destruct (last (filter _ _)) as [u|] eqn:E; [|done]. simpl.
    apply last_Some in E as [l E]. assert (Hu : u ∈ filter (λ j, is_null j = false) (ck_usage <$> chunks)).
    { rewrite E. apply elem_of_app. right. by apply list_elem_of_singleton. }
    apply list_elem_of_filter in Hu as [-> _]. done. }
  by rewrite Eu, Ep, Ec.
Qed.

Definition text_chunk (s : string) : BackendChunk :=
  {| ck_content := JStr s; ck_finish_reason := JNull; ck_usage := JNull |}.

Lemma complete_sums_stream_witness :
  backend_complete "m" ([text_chunk "Hel"; text_chunk ""; text_chunk "lo";
    {| ck_content := JStr "!"; ck_finish_reason := JStr "length"; ck_usage := JNull |}], Ret tt) =
    Ret {| br_model := "m"; br_content := "Hello!"; br_finish_reason := JStr "length";
           br_prompt_tokens := JInt 0; br_completion_tokens := JInt 0 |}.
Proof.
  exact (complete_sums_stream "m" [text_chunk "Hel"; text_chunk ""; text_chunk "lo";
    {| ck_content := JStr "!"; ck_finish_reason := JStr "length"; ck_usage := JNull |}]
    ["Hel"; ""; "lo"; "!"] (JInt 0) (JInt 0) eq_refl eq_refl eq_refl).
Defined.

(** What LM Studio is sent: the resolved model, always streaming, never the llama.cpp
    extension, and a generation parameter exactly when the caller set it. *)
Lemma lmstudio_payload_fields r m :
  let p := to_lmstudio_payload r m in
  d_get p "model" = Some (JStr m) ∧ d_get p "stream" = Some (JBool true) ∧
  d_get p "chat_template_kwargs" = None ∧
  d_get p "temperature" = JFloat <$> temperature r ∧ d_get p "max_tokens" = JInt <$> max_tokens r ∧
  d_get p "response_format" = JObj <$> response_format r.
Proof.
  destruct r as [? ? ? ? ? t n k f]. unfold to_lmstudio_payload, unset_generation_fields, dump_without.
  destruct t, n, k, f; vm_compute; repeat split.
Qed.

Lemma llamaserver_payload_fields r :
  let p := to_llamaserver_payload r in
  d_get p "model" = Some (JStr (model r)) ∧ d_get p "stream" = Some (JBool true) ∧
  d_get p "chat_template_kwargs" = JObj <$> chat_template_kwargs r ∧
  d_get p "temperature" = JFloat <$> temperature r ∧ d_get p "max_tokens" = JInt <$> max_tokens r ∧
  d_get p "response_format" = JObj <$> response_format r.
Proof.
  destruct r as [? ? ? ? ? t n k f]. unfold to_llamaserver_payload, unset_generation_fields, dump_without.
  destruct t, n, k, f; vm_compute; repeat split.
Qed.
