(* ===== verification/Streams.v ===== *)
(** * Streaming responses ([api/app.py], [_stream_chunks]; [api/lifetime.py])

    What the gateway makes of the chunks of a backend ([relay]): which it forwards, and what
    it learns for the bookkeeping at the end; and [SlotStream], which owns the slot of a
    streaming response and gives it back when the response is over. *)

From S2P Require Import Prelude.
From S2P Require Import PyFloat.
From S2P Require Import PyStr.
From S2P Require Import PyDict.
From S2P Require Import PyJson.
From S2P Require Import ApiModels.
From S2P Require Import Registry.
From S2P Require Import Health.
From S2P Require Import Leases.
From S2P Require Import Scheduling.
From S2P Require Import Routing.
From S2P Require Import LoadProbe.
From S2P Require Import Throughput.
From S2P Require Import Metrics.
From S2P Require Import Nodes.
From S2P Require Import Gateway.
From S2P Require Import Backends.

#[local] Open Scope list_scope.

(** ** Relaying chunks *)

Record relayed := {
  rl_usage : json;
  rl_saw_content : bool;
  rl_last_finish_reason : json;
}.

Definition relayed_new : relayed :=
  {| rl_usage := JNull; rl_saw_content := false; rl_last_finish_reason := JNull |}.

(** [not chunk.content and chunk.finish_reason is None]: not forwarded. *)
Definition accounting_only (c : BackendChunk) : bool :=
  negb (j_truthy (ck_content c)) && is_null (ck_finish_reason c).

(** One turn of the loop: [chunk.content.strip()] raises on what is not a string. *)
Definition relay_step (a : relayed) (c : BackendChunk) : option relayed :=
  match ck_content c with
  | JStr s =>
      Some {| rl_usage := if is_null (ck_usage c) then rl_usage a else ck_usage c;
              rl_saw_content := rl_saw_content a || negb (bool_decide (str_strip s = ""));
              rl_last_finish_reason :=
                if is_null (ck_finish_reason c) then rl_last_finish_reason a else ck_finish_reason c |}
  | _ => None
  end.

(** The chunks forwarded, and the state at the end ([None]: the loop raised). *)
Fixpoint relay (a : relayed) (chunks : list BackendChunk) : list BackendChunk * option relayed :=
  match chunks with
  | [] => ([], Some a)
  | c :: chunks =>
      match relay_step a c with
      | None => ([], None)
      | Some a' =>
          let '(out, r) := relay a' chunks in
          (if accounting_only c then out else c :: out, r)
      end
  end.

(** [saw_content and last_finish_reason == "stop"] *)
Definition is_stop (j : json) : bool := match j with JStr s => bool_decide (s = "stop") | _ => false end.
Definition stream_healthy (a : relayed) : bool := rl_saw_content a && is_stop (rl_last_finish_reason a).

Definition finish_str (j : json) : option string := match j with JStr s => Some s | _ => None end.

(** [usage["prompt_tokens"]] and [usage["completion_tokens"]], for integers.  Counts that are
    other numbers, which the metrics would add up too, are outside the model: here they end
    the stream like a missing key. *)
Definition token_counts (usage : json) : option (Z * Z) :=
  match usage_field usage "prompt_tokens", usage_field usage "completion_tokens" with
  | Ret (JInt p), Ret (JInt c) => Some (p, c)
  | _, _ => None
  end.

(** After the loop: what the bookkeeping records. *)
Definition bookkeeping (a : relayed) (latency_ms : float) : stream_result :=
  match rl_usage a with
  | JNull => StreamEnded None (rl_saw_content a) (finish_str (rl_last_finish_reason a)) latency_ms
  | u => match token_counts u with
         | Some pc => StreamEnded (Some pc) (rl_saw_content a) (finish_str (rl_last_finish_reason a)) latency_ms
         | None => StreamAborted (EKeyError "usage")
         end
  end.

(** What the generator tells the gateway, given how the backend's stream ended. *)
Definition relay_result (stream : list BackendChunk * outcome backend_exn unit) (latency_ms : float)
    : stream_result :=
  match relay relayed_new stream.1, stream.2 with
  | (_, None), _ => StreamAborted (EKeyError "content")
  | (_, Some _), Raise (BackendTimeoutExn m) => StreamAborted (BackendTimeoutError m)
  | (_, Some _), Raise (BackendConnectionExn m) => StreamAborted (BackendError m)
  | (_, Some _), Raise (BackendResponseExn s b) => StreamAborted (BackendError (response_error_msg s b))
  | (_, Some _), Raise (OtherExn k) => StreamAborted (EKeyError k)
  | (_, Some a), Ret _ => bookkeeping a latency_ms
  end.

(** ** The owner of a slot *)

Section slot_stream.
(** What [release] changes. *)
Context {S : Type} (release : S → S).

Record SlotStream := { st_closed : bool; st_world : S }.

(** [aclose]: closed and released even when closing the inner generator raises. *)
Definition aclose (st : SlotStream) : SlotStream :=
  if st_closed st then st else {| st_closed := true; st_world := release (st_world st) |}.

(** What the inner generator does when asked for the next item: it yields, or it ends or
    raises, a cancellation included. *)
Inductive inner := IYield (s : string) | IEnds.

(** [__anext__]: an item, or [None] when it raises. *)
Definition anext (r : inner) (st : SlotStream) : option string * SlotStream :=
  if st_closed st then (None, st)
  else match r with
       | IYield s => (Some s, st)
       | IEnds => (None, aclose st)
       end.

(** The body iteration of the response; [inners] is cut short when the client goes. *)
Fixpoint iterate_body (inners : list inner) (st : SlotStream) : list string * SlotStream :=
  match inners with
  | [] => ([], st)
  | r :: inners =>
      match anext r st with
      | (None, st) => ([], st)
      | (Some s, st) => let '(out, st) := iterate_body inners st in (s :: out, st)
      end
  end.

(** [SlotStreamingResponse.__call__] *)
Definition respond (inners : list inner) (st : SlotStream) : list string * SlotStream :=
  let '(out, st) := iterate_body inners st in (out, aclose st).

(** Calls in any order. *)
Inductive slot_op := SNext (r : inner) | SClose.
Definition run_slot_op (st : SlotStream) (o : slot_op) : SlotStream :=
  match o with SNext r => (anext r st).2 | SClose => aclose st end.

Definition owned (s : S) (st : SlotStream) : Prop := st_world st = if st_closed st then release s else s.

Lemma owned_aclose s st : owned s st → owned s (aclose st) ∧ st_closed (aclose st) = true.
Proof. unfold owned, aclose. destruct (st_closed st) eqn:E; simpl; [by rewrite E|]. by intros ->. Qed.

Lemma owned_op s st o : owned s st → owned s (run_slot_op st o).
Proof.
  intros Ho. destruct o as [r|]; simpl; [|by apply owned_aclose]. unfold anext.
  destruct (st_closed st) eqn:E; [done|]. destruct r; simpl; [done|by apply owned_aclose].
Qed.

Lemma iterate_body_ops inners st :
  ∃ ops, (iterate_body inners st).2 = foldl run_slot_op st ops.
Proof.
  revert st. induction inners as [|r inners IH]; intros st; simpl; [by exists []|].
  destruct (anext r st) as [[s|] st'] eqn:E.
  - destruct (IH st') as [ops Hops]. exists (SNext r :: ops). simpl. rewrite E. simpl.
    by destruct (iterate_body inners st').
  - exists [SNext r]. simpl. by rewrite E.
Qed.

Lemma owned_run s st ops : owned s st → owned s (foldl run_slot_op st ops).
Proof. revert st. induction ops as [|o ops IH]; intros st Ho; [done|]. by apply IH, owned_op. Qed.
End slot_stream.
Arguments SlotStream : clear implicits.
Arguments st_closed {S} _.
Arguments st_world {S} _.

(** C22. A streaming response gives its slot back exactly once, whatever the generator does and
    wherever the client leaves, before the first item included, and whatever further calls
    of [__anext__] and [aclose] follow: afterwards the world is as [release] left it. *)
Theorem slot_released_exactly_once {S} (release : S → S) s inners ops :
  let st := {| st_closed := false; st_world := s |} in
  let after := foldl (run_slot_op release) (respond release inners st).2 ops in
  st_closed after = true ∧ st_world after = release s.
Proof.
  cbv zeta. unfold respond. destruct (iterate_body release inners _) as [out st] eqn:E. simpl.
  destruct (iterate_body_ops release inners {| st_closed := false; st_world := s |}) as [ops' Hops].
  rewrite E in Hops. simpl in Hops.
  assert (Ho : owned release s st) by (subst st; by apply owned_run).
  destruct (owned_aclose release s st Ho) as [Ho' Hc].
  assert (Hclosed : ∀ ops st, st_closed st = true → foldl (run_slot_op release) st ops = st).
  { intros os. induction os as [|o os IH]; intros st' Hst; [done|]. simpl.
    replace (run_slot_op release st' o) with st'; [by apply IH|].
    destruct o; simpl; unfold anext, aclose; by rewrite Hst. }
  rewrite Hclosed by done. split; [done|]. unfold owned in Ho'. by rewrite Hc in Ho'.
Qed.

(** ** Streaming and completing agree *)

Definition blank (s : string) : bool := bool_decide (str_strip s = "").

Lemma blank_all s : blank s = str_all py_isspace s.
Proof.
  unfold blank. case_bool_decide as H; rewrite str_strip_empty in H; [done|].
  by destruct (str_all py_isspace s).
Qed.

Lemma relay_texts a chunks texts :
  ck_content <$> chunks = JStr <$> texts →
  relay a chunks =
    (filter (λ c, accounting_only c = false) chunks,
     Some {| rl_usage := last_given (rl_usage a) (ck_usage <$> chunks);
             rl_saw_content := rl_saw_content a || existsb (λ s, negb (blank s)) texts;
             rl_last_finish_reason := last_given (rl_last_finish_reason a) (ck_finish_reason <$> chunks) |}).
Proof.
  revert a texts. induction chunks as [|c chunks IH]; intros a texts Et.
  { destruct texts; [|done]. cbn. by destruct a as [? [] ?]. }
  destruct texts as [|t texts]; [done|]. injection Et as Ec Et. cbn [relay]. unfold relay_step. rewrite Ec.
  rewrite (IH _ texts Et). rewrite filter_cons. cbn [rl_usage rl_saw_content rl_last_finish_reason].
  assert (Hlast : ∀ d (j : json) l, last_given (if is_null j then d else j) l = last_given d (j :: l)).
  { intros d j l. unfold last_given. rewrite filter_cons. destruct (is_null j); simpl; [done|].
    destruct (filter _ l) as [|x l'] eqn:E; [done|].
    rewrite last_cons_cons. destruct (last (x :: l')) eqn:El; [done|]. by apply last_None in El. }
  rewrite !Hlast. simpl. rewrite orb_assoc. unfold blank.
  destruct (accounting_only c); by simpl.
Qed.

Lemma blank_concat texts :
  blank (foldr String.append "" texts) = negb (existsb (λ s, negb (blank s)) texts).
Proof.
  rewrite blank_all. induction texts as [|t texts IH]; [done|]. simpl.
  rewrite str_all_app, IH, blank_all. by destruct (str_all py_isspace t), (existsb _ texts).
Qed.

(** The text of the chunks that are forwarded. *)
Definition forwarded_text (chunks : list BackendChunk) : outcome backend_exn string :=
  join_parts (ck_content <$> chunks).

Lemma forwarded_all chunks texts :
  ck_content <$> chunks = JStr <$> texts →
  forwarded_text (filter (λ c, accounting_only c = false) chunks) = Ret (foldr String.append "" texts).
Proof.
  revert texts. unfold forwarded_text. induction chunks as [|c chunks IH]; intros texts Et; [by destruct texts|].
  destruct texts as [|t texts]; [done|]. injection Et as Ec Et. specialize (IH texts Et).
  rewrite filter_cons. destruct (decide (accounting_only c = false)) as [|Hn].
  - rewrite fmap_cons. simpl. rewrite Ec, IH. done.
  - rewrite IH. unfold accounting_only in Hn. rewrite Ec in Hn. destruct t as [|b t]; [done|].
    simpl in Hn. done.
Qed.

(** Streaming loses nothing and judges alike: for the same chunks, the forwarded deltas
    spell the text a plain completion answers with; and when the server gave a finish
    reason, the stream counts as healthy exactly when the completion is not degenerate. *)
Theorem stream_agrees_with_complete m chunks texts r :
  ck_content <$> chunks = JStr <$> texts →
  backend_complete m (chunks, Ret tt) = Ret r →
  ∃ out a, relay relayed_new chunks = (out, Some a) ∧
    forwarded_text out = Ret (br_content r) ∧
    (∀ reason, last_given JNull (ck_finish_reason <$> chunks) = JStr reason →
       stream_healthy a = negb (is_degenerate_completion (br_content r) reason) ∧
       br_finish_reason r = JStr reason).
Proof.
  intros Et Er. rewrite (relay_texts _ _ _ Et). eexists _, _. split; [done|].
  rewrite (forwarded_all _ _ Et). revert Er. unfold backend_complete. cbn [fst snd].
  rewrite accumulate_all. unfold response_of. simpl. rewrite Et, join_parts_texts.
  destruct (usage_field _ "prompt_tokens") as [p|]; [|done].
  destruct (usage_field _ "completion_tokens") as [c|]; [|done]. intros [= <-]. simpl. split; [done|].
  intros reason Hr. unfold stream_healthy, is_degenerate_completion. simpl. rewrite Hr. split.
  - change (bool_decide (str_strip (foldr String.append "" texts) = "")) with (blank (foldr String.append "" texts)).
    rewrite blank_concat. simpl. by destruct (existsb _ texts), (bool_decide (reason = "stop")).
  - unfold last_given in *. destruct (last (filter _ _)); [done|]. done.
Qed.

Lemma stream_agrees_with_complete_witness :
  let chunks := [text_chunk "Hi "; text_chunk "";
    {| ck_content := JStr "there"; ck_finish_reason := JStr "stop"; ck_usage := JNull |}] in
  ∃ out a, relay relayed_new chunks = (out, Some a) ∧ forwarded_text out = Ret "Hi there" ∧ stream_healthy a = true.
Proof.
  cbv zeta.
  destruct (stream_agrees_with_complete "m" [text_chunk "Hi "; text_chunk "";
    {| ck_content := JStr "there"; ck_finish_reason := JStr "stop"; ck_usage := JNull |}] ["Hi "; ""; "there"]
    {| br_model := "m"; br_content := "Hi there"; br_finish_reason := JStr "stop";
       br_prompt_tokens := JInt 0; br_completion_tokens := JInt 0 |} eq_refl eq_refl)
    as (out & a & Hr & Hf & Hh).
  exists out, a. split; [exact Hr|]. split; [exact Hf|].
  destruct (Hh "stop" eq_refl) as [-> _]. reflexivity.
Defined.
