(* ===== verification/LeasePath.v ===== *)
(** * Lease tokens in the request path ([leases/path.py]; [_LeasePathMiddleware] in [api/app.py])

    An unmodified client pins its node by calling [/lease/{token}/v1/...].  The outermost
    middleware strips the prefix and carries the token in the lease header, so that auth,
    routing and the handlers never see it in a path. *)

From S2P Require Import Prelude.
From S2P Require Import PyStr.

#[local] Open Scope list_scope.

(** ** The ASGI scope, as far as it matters here *)

Record Scope := {
  sc_type : string;
  (** [None]: missing, or not a string *)
  sc_method : option string;
  sc_path : option string;
  sc_raw_path : option string;
  (** [None]: missing, or not a list; names and values are bytes *)
  sc_headers : option (list (string * string));
}.

Definition slash : ascii := "/"%char.
Definition lf : ascii := ascii_of_N 10.

Definition LEASE_HEADER : string := "x-llm-node-lease".

(** The longest prefix without [c], and the rest. *)
Fixpoint split_at_char (c : ascii) (s : string) : string * string :=
  match s with
  | EmptyString => ("", "")
  | String a s' => if bool_decide (a = c) then ("", s) else
      let '(l, r) := split_at_char c s' in (String a l, r)
  end.

(** [.*] up to [$], which also matches before one newline at the end. *)
Fixpoint dot_star (s : string) : option string :=
  match s with
  | EmptyString => Some ""
  | String a s' =>
      if bool_decide (a = lf) then match s' with EmptyString => Some "" | _ => None end
      else String a <$> dot_star s'
  end.

(** [_LEASE_PREFIX.match(path)]: the groups [token] and [rest or "/"].  The token takes every
    character up to the next slash or the end: giving one back never helps, because what
    follows must be a slash or the end. *)
Definition match_lease_prefix (path : string) : option (string * string) :=
  if negb (str_startswith path "/lease/") then None else
  let '(token, rest) := split_at_char slash (str_removeprefix path "/lease/") in
  match token, rest with
  | EmptyString, _ => None
  | _, EmptyString => Some (token, "/")
  | _, String c r => pair token ∘ String c <$> dot_star r
  end.

(** [c.encode("utf-8")] on code points below 256. *)
Definition utf8_char (c : ascii) : string :=
  let n := code c in
  if (n <? 128)%N then String c ""
  else String (ascii_of_N (192 + n / 64)) (String (ascii_of_N (128 + n mod 64)) "").

Fixpoint utf8 (s : string) : string :=
  match s with EmptyString => "" | String c s => utf8_char c +:+ utf8 s end.

Definition lease_routes : list (string * string) :=
  [("POST", "/v1/chat/completions"); ("GET", "/v1/capacity"); ("GET", "/capacity")].

(** [bytes.lower()] is ASCII only. *)
Definition ascii_lower_char (c : ascii) : ascii :=
  let n := code c in if ((65 <=? n) && (n <=? 90))%N then ascii_of_N (n + 32) else c.

Fixpoint ascii_lower (s : string) : string :=
  match s with EmptyString => s | String c s => String (ascii_lower_char c) (ascii_lower s) end.

Definition is_lease_header (h : string * string) : bool := bool_decide (ascii_lower h.1 = LEASE_HEADER).

Definition canonical_rest (rest : string) : string :=
  if bool_decide (rest = "/capacity") then "/v1/capacity" else rest.

Definition rewrite_lease_path (s : Scope) : Scope :=
  match sc_path s with
  | None => s
  | Some path =>
      match match_lease_prefix path with
      | None => s
      | Some (token, rest) =>
          match sc_method s with
          | None => s
          | Some m =>
              if negb (bool_decide ((m, rest) ∈ lease_routes)) then s else
              {| sc_type := sc_type s; sc_method := sc_method s;
                 sc_path := Some (canonical_rest rest);
                 sc_raw_path := Some (utf8 (canonical_rest rest));
                 sc_headers := match sc_headers s with
                               | None => None
                               | Some hs => Some (if existsb is_lease_header hs then hs
                                                  else hs ++ [(LEASE_HEADER, utf8 token)])
                               end |}
          end
      end
  end.

(** [_LeasePathMiddleware.__call__] *)
Inductive handled := NotFound | Forward (s : Scope).

Definition lease_path_middleware (s : Scope) : handled :=
  if negb (bool_decide (sc_type s = "http")) then Forward s else
  let s := rewrite_lease_path s in
  match sc_path s with
  | Some path => if str_startswith path "/lease/" then NotFound else Forward s
  | None => Forward s
  end.

(** [request.headers.get(LEASE_HEADER)]: the first header of that name. *)
Definition lease_header (s : Scope) : option string :=
  snd <$> List.find is_lease_header (default [] (sc_headers s)).

(** ** Lemmas *)

Definition has_slash (s : string) : bool := str_contains slash s.

Lemma split_no_slash t r :
  has_slash t = false → split_at_char slash (t +:+ String slash r) = (t, String slash r).
Proof.
  unfold has_slash, str_contains. induction t as [|c t IH]; simpl; [done|].
  destruct (bool_decide_reflect (c = slash)) as [->|Hc]; simpl; [done|]. intros H. by rewrite IH.
Qed.

Lemma dot_star_plain r : str_contains lf r = false → dot_star r = Some r.
Proof.
  unfold str_contains. induction r as [|c r IH]; simpl; [done|].
  destruct (bool_decide_reflect (c = lf)); simpl; [done|]. intros H. by rewrite IH.
Qed.

Lemma match_leased token r :
  token ≠ "" → has_slash token = false → str_contains lf r = false →
  match_lease_prefix ("/lease/" +:+ token +:+ String slash r) = Some (token, String slash r).
Proof.
  intros Hne Hs Hr. unfold match_lease_prefix.
  rewrite (proj2 (str_prefix_spec "/lease/" _)) by (by eexists). cbn [negb].
  rewrite str_removeprefix_app, split_no_slash by done.
  destruct token; [done|]. by rewrite dot_star_plain.
Qed.

(** The routes under the prefix are plain paths. *)
Lemma lease_route_plain m rest :
  (m, rest) ∈ lease_routes → ∃ r, rest = String slash r ∧ str_contains lf r = false ∧
    str_startswith (canonical_rest rest) "/lease/" = false.
Proof.
  intros [[= -> ->]|[[= -> ->]|[[= -> ->]|[]%not_elem_of_nil]%elem_of_cons]%elem_of_cons]%elem_of_cons;
    eexists; split_and!; reflexivity.
Qed.

Lemma find_lease_appended hs t :
  snd <$> List.find is_lease_header (if existsb is_lease_header hs then hs else hs ++ [(LEASE_HEADER, t)]) =
    Some (default t (snd <$> List.find is_lease_header hs)).
Proof.
  induction hs as [|h hs IH]; [done|]. simpl. destruct (is_lease_header h) eqn:E; simpl; [by rewrite E|].
  destruct (existsb is_lease_header hs); simpl in *; by rewrite E.
Qed.

Lemma leased_path_forwarded s token rest m :
  sc_type s = "http" → sc_method s = Some m → (m, rest) ∈ lease_routes → is_Some (sc_headers s) →
  token ≠ "" → has_slash token = false → sc_path s = Some ("/lease/" +:+ token +:+ rest) →
  ∃ s', lease_path_middleware s = Forward s' ∧ sc_path s' = Some (canonical_rest rest) ∧
    sc_raw_path s' = Some (canonical_rest rest) ∧ sc_method s' = Some m ∧
    lease_header s' = Some (default (utf8 token) (lease_header s)).
Proof.
  intros Ht Hm Hr [hs Hh] Hne Hs Hp. destruct (lease_route_plain m rest Hr) as (r & -> & Hlf & Hplain).
  unfold lease_path_middleware. rewrite bool_decide_eq_true_2 by done. cbn [negb].
  unfold rewrite_lease_path. rewrite Hp, match_leased, Hm by done. rewrite bool_decide_eq_true_2 by done.
  cbn [negb sc_path]. rewrite Hplain. eexists. split; [done|]. cbn [sc_path sc_raw_path sc_method].
  split; [done|]. split; [|split; [done|]].
  - f_equal. revert Hr. clear.
    intros [[= -> ->]|[[= -> ->]|[[= -> ->]|[]%not_elem_of_nil]%elem_of_cons]%elem_of_cons]%elem_of_cons; reflexivity.
  - unfold lease_header. cbn [sc_headers]. rewrite Hh. cbn [default]. apply find_lease_appended.
Qed.

(** A client that calls an allowed route under [/lease/{token}] reaches that route with its
    token as the lease header, unless it sent a lease header of its own, which wins; the
    path the application sees, and its raw form, no longer hold the token. *)
Theorem lease_path_pins s token rest m :
  sc_type s = "http" → sc_method s = Some m → (m, rest) ∈ lease_routes → is_Some (sc_headers s) →
  token ≠ "" → has_slash token = false → sc_path s = Some ("/lease/" +:+ token +:+ rest) →
  ∃ s', lease_path_middleware s = Forward s' ∧ sc_path s' = Some (canonical_rest rest) ∧
    sc_raw_path s' = Some (canonical_rest rest) ∧ sc_method s' = Some m ∧
    lease_header s' = Some (default (utf8 token) (lease_header s)).
Proof. apply leased_path_forwarded. Qed.

Lemma lease_path_pins_witness :
  ∃ s', lease_path_middleware {| sc_type := "http"; sc_method := Some "POST";
      sc_path := Some "/lease/tok-1/v1/chat/completions"; sc_raw_path := None; sc_headers := Some [("Host", "lab")] |}
    = Forward s' ∧ sc_path s' = Some "/v1/chat/completions" ∧ lease_header s' = Some "tok-1".
Proof.
  destruct (lease_path_pins {| sc_type := "http"; sc_method := Some "POST";
      sc_path := Some "/lease/tok-1/v1/chat/completions"; sc_raw_path := None; sc_headers := Some [("Host", "lab")] |}
    "tok-1" "/v1/chat/completions" "POST") as (s' & H & Hp & _ & _ & Hl).
  - reflexivity.
  - reflexivity.
  - vm_decide.
  - by eexists.
  - discriminate.
  - reflexivity.
  - reflexivity.
  - exists s'. split; [exact H|]. split; [exact Hp|exact Hl].
Defined.

(** No path that still carries a token reaches the application. *)
Lemma token_never_forwarded s s' path :
  sc_type s = "http" → lease_path_middleware s = Forward s' → sc_path s' = Some path →
  str_startswith path "/lease/" = false.
Proof.
  intros Ht. unfold lease_path_middleware. rewrite bool_decide_eq_true_2 by done. cbn [negb].
  destruct (sc_path (rewrite_lease_path s)) as [p|] eqn:E.
  - destruct (str_startswith p "/lease/") eqn:Ep; [done|]. intros [= <-]. rewrite E. by intros [= <-].
  - intros [= <-]. by rewrite E.
Qed.
