(* ===== verification/LeaseRunner.v ===== *)
(** * The reservation wrapper ([leases/runner.py])

    [llm-home-lab-run] reserves a node, runs a command against it, keeps the lease alive and
    releases it.  The model takes what the orchestrator and the operating system answer and
    gives the exit code and the calls made, in order. *)

From S2P Require Import Prelude.
From S2P Require Import PyStr.
From S2P Require Import PyDict.
From S2P Require Import PyJson.
From S2P Require Import LeasePath.

#[local] Open Scope list_scope.

(** ** URLs *)

(** [s.rstrip(c)] *)
Fixpoint rstrip_char (c : ascii) (s : string) : string :=
  match s with
  | EmptyString => ""
  | String a s' =>
      match rstrip_char c s' with
      | EmptyString => if bool_decide (a = c) then "" else String a ""
      | t => String a t
      end
  end.

Definition orchestrator_origin (base_url : string) : string :=
  let root := rstrip_char slash (str_strip base_url) in
  if str_endswith root "/v1" then str_take (String.length root - 3) root else root.

Definition leased_client_base (base_url token : string) : string :=
  orchestrator_origin base_url +:+ "/lease/" +:+ token +:+ "/v1".

(** ** The orchestrator's answers *)

(** What a request to the orchestrator gives: a transport error, or a status, the JSON of
    the body ([None]: not JSON) and its text. *)
Inductive http_answer :=
  | HttpFailed (msg : string)
  | HttpAnswer (status : Z) (body : option json) (text : string).

Inductive lease_api_error :=
  | ReservationRefused (msg : string)
  | OrchestratorUnreachable (msg : string)
  | LeaseLost (msg : string).

(** [_error_message] *)
Definition error_message (status : Z) (body : option json) (text : string) : string :=
  let fallback := if bool_decide (text = "") then "HTTP " +:+ str_of_Z status else text in
  match body with
  | Some (JObj o) =>
      match d_get o "error" with
      | Some (JObj e) => match d_get e "message" with Some (JStr m) => m | _ => fallback end
      | _ => fallback
      end
  | _ => fallback
  end.

(** [OrchestratorLeaseApi.reserve] *)
Definition api_reserve (a : http_answer) : outcome lease_api_error (dict string json) :=
  match a with
  | HttpFailed m => Raise (OrchestratorUnreachable m)
  | HttpAnswer status body text =>
      if bool_decide (status ∈ [400; 404; 409]%Z) then Raise (ReservationRefused (error_message status body text))
      else if (400 <=? status)%Z then Raise (OrchestratorUnreachable (error_message status body text))
      else match body with
           | Some (JObj o) => Ret o
           | _ => Raise (OrchestratorUnreachable "lease response was not an object")
           end
  end.

(** [OrchestratorLeaseApi.heartbeat] *)
Definition api_heartbeat (a : http_answer) : outcome lease_api_error unit :=
  match a with
  | HttpFailed m => Raise (OrchestratorUnreachable m)
  | HttpAnswer status body text =>
      if (status =? 409)%Z then Raise (LeaseLost (error_message status body text))
      else if (status =? 403)%Z then Raise (LeaseLost (error_message status body text))
      else if (400 <=? status)%Z then Raise (OrchestratorUnreachable (error_message status body text))
      else Ret tt
  end.

(** [OrchestratorLeaseApi.release] *)
Definition api_release (a : http_answer) : outcome lease_api_error unit :=
  match a with
  | HttpFailed m => Raise (OrchestratorUnreachable m)
  | HttpAnswer status body text =>
      if (status =? 404)%Z then Ret tt
      else if (400 <=? status)%Z then Raise (OrchestratorUnreachable (error_message status body text))
      else Ret tt
  end.

(** ** Running a command under a lease *)

Definition EXIT_REFUSED : Z := 2.
Definition EXIT_UNREACHABLE : Z := 3.
Definition EXIT_LOST : Z := 4.

(** What the wrapper does to the orchestrator and to the command. *)
Inductive call :=
  | CReserve
  | CStart (client_base : string)
  | CHeartbeat (token : string)
  | CTerminate
  | CInterrupt
  | CKill
  | CRelease (token : string).

Inductive popen_result := Started | PopenOSError.

(** [_wait_for] ends with the command's code, or raises ([KeyboardInterrupt] again). *)
Inductive wait_result := Exited (code : Z) | WaitRaised.

(** How the wrapper ends. *)
Inductive run_result :=
  | ExitCode (code : Z)
  | LeaseKeyError (key : string)
  | ReraisedInterrupt.

(** [beat]: one heartbeat per interval until the command is over or the lease is lost. *)
Fixpoint beat (token : string) (answers : list http_answer) : bool * list call :=
  match answers with
  | [] => (false, [])
  | a :: answers =>
      match api_heartbeat a with
      | Raise (LeaseLost _) => (true, [CHeartbeat token; CTerminate])
      | _ => let '(lost, calls) := beat token answers in (lost, CHeartbeat token :: calls)
      end
  end.

(** [str(lease[key])] *)
Definition lease_str (render : json → string) (lease : dict string json) (key : string) : option string :=
  match d_get lease key with
  | None => None
  | Some (JStr s) => Some s
  | Some j => Some (render j)
  end.

Definition exit_of (lost : bool) (code : Z) : Z :=
  if lost then EXIT_LOST else if (code <? 0)%Z then 128 - code else code.

Section runner.
(** [str] of a JSON value that is not a string. *)
Context (render : json → string).

(** [run_leased]; the answers to the heartbeats are those sent before the command is over. *)
Definition run_leased (command : list string) (base_url : string) (reserved : http_answer)
    (popen : popen_result) (heartbeats : list http_answer) (wait : wait_result)
    : run_result * list call :=
  match command with
  | [] => (ExitCode EXIT_REFUSED, [])
  | _ =>
      match api_reserve reserved with
      | Raise (ReservationRefused _) => (ExitCode EXIT_REFUSED, [CReserve])
      | Raise _ => (ExitCode EXIT_UNREACHABLE, [CReserve])
      | Ret lease =>
          match lease_str render lease "token" with
          | None => (LeaseKeyError "token", [CReserve])
          | Some token =>
              if bool_decide (is_Some (lease_str render lease "host_id")) &&
                 forallb (λ k, bool_decide (is_Some (d_get lease k))) ["holder"; "expires_at"; "hard_expires_at"]
              then
                match popen with
                | PopenOSError =>
                    (ExitCode 127, [CReserve; CStart (leased_client_base base_url token); CRelease token])
                | Started =>
                    let '(lost, beats) := beat token heartbeats in
                    (match wait with
                     | Exited code => ExitCode (exit_of lost code)
                     | WaitRaised => ReraisedInterrupt
                     end,
                     CReserve :: CStart (leased_client_base base_url token) :: beats ++ [CRelease token])
                end
              else (LeaseKeyError "host_id", [CReserve])
          end
      end
  end.

(** A lease as the orchestrator grants it. *)
Definition granted (a : http_answer) (token : string) : Prop :=
  ∃ lease, api_reserve a = Ret lease ∧ d_get lease "token" = Some (JStr token) ∧
    Forall (λ k, is_Some (d_get lease k)) ["host_id"; "holder"; "expires_at"; "hard_expires_at"].

Definition is_release (c : call) : bool := match c with CRelease _ => true | _ => false end.

Lemma beat_keeps token hs :
  Forall (λ c, is_release c = false) (beat token hs).2 ∧
  ((beat token hs).1 = true → (beat token hs).2 ≠ [] ∧ last (beat token hs).2 = Some CTerminate).
Proof.
  induction hs as [|a hs IH]; simpl; [done|].
  destruct (api_heartbeat a) as [[]|[m|m|m]] eqn:E.
  4: { simpl. split; [by repeat constructor|]. intros _. split; [discriminate|reflexivity]. }
  all: destruct (beat token hs) as [lost calls]; simpl in *; destruct IH as [Hf Hl];
    (split; [by constructor|]); intros Hlost; destruct (Hl Hlost) as [Hne Hlast];
    (split; [done|]); destruct calls; [done|]; by rewrite last_cons_cons.
Qed.
End runner.

(** What the wrapper does once it has a lease. *)
Lemma run_leased_granted render command base_url reserved popen hs wait token :
  command ≠ [] → granted reserved token →
  run_leased render command base_url reserved popen hs wait =
    match popen with
    | PopenOSError => (ExitCode 127, [CReserve; CStart (leased_client_base base_url token); CRelease token])
    | Started =>
        (match wait with Exited code => ExitCode (exit_of (beat token hs).1 code) | WaitRaised => ReraisedInterrupt end,
         CReserve :: CStart (leased_client_base base_url token) :: (beat token hs).2 ++ [CRelease token])
    end.
Proof.
  intros Hc (lease & Er & Et & Hk). destruct command as [|a command]; [done|]. unfold run_leased. rewrite Er.
  unfold lease_str at 1. rewrite Et.
  assert (Hfields : bool_decide (is_Some (lease_str render lease "host_id")) &&
     forallb (λ k, bool_decide (is_Some (d_get lease k))) ["holder"; "expires_at"; "hard_expires_at"] = true).
  { inversion Hk as [|? ? [v Hv] Hk']; subst. rewrite andb_true_iff. split.
    - apply bool_decide_eq_true. unfold lease_str. rewrite Hv. by destruct v; eexists.
    - apply List.forallb_forall. intros k Hin%list_elem_of_In. apply bool_decide_eq_true.
      rewrite Forall_forall in Hk'. by apply Hk'. }
  rewrite Hfields. destruct popen; [|done]. by destruct (beat token hs).
Qed.

(** A reservation that was granted is given back on every path out, once and last, whatever
    the heartbeats said and however the command ended or failed to start; and the command,
    if any, was pointed at the URL that carries its token. *)
Theorem lease_always_released render command base_url reserved popen hs wait token :
  command ≠ [] → granted reserved token →
  ∃ result mid,
    run_leased render command base_url reserved popen hs wait =
      (result, CReserve :: CStart (leased_client_base base_url token) :: mid ++ [CRelease token]) ∧
    Forall (λ c, is_release c = false) mid ∧ result ≠ LeaseKeyError "token" ∧
    (wait = Exited 0 → popen = Started → (beat token hs).1 = false → result = ExitCode 0).
Proof.
  intros Hc Hg. rewrite (run_leased_granted _ _ _ _ _ _ _ _ Hc Hg). destruct popen.
  - eexists _, _. split; [done|]. split; [apply beat_keeps|]. split; [by destruct wait|]. by intros -> _ ->.
  - exists (ExitCode 127), []. done.
Qed.

Definition sample_lease_answer : http_answer :=
  HttpAnswer 201 (Some (JObj [("token", JStr "tok-1"); ("host_id", JStr "a"); ("holder", JStr "ci");
    ("expires_at", JStr "soon"); ("hard_expires_at", JStr "later")])) "".

Lemma lease_always_released_witness :
  ∃ result mid,
    run_leased (λ _, "") ["pytest"] "http://lab:8080/v1" sample_lease_answer Started
      [HttpFailed "reset"; HttpAnswer 409 None "ended"] (Exited (-15)) =
      (result, CReserve :: CStart "http://lab:8080/lease/tok-1/v1" :: mid ++ [CRelease "tok-1"]) ∧
    Forall (λ c, is_release c = false) mid.
Proof.
  destruct (lease_always_released (λ _, "") ["pytest"] "http://lab:8080/v1" sample_lease_answer Started
    [HttpFailed "reset"; HttpAnswer 409 None "ended"] (Exited (-15)) "tok-1") as (r & mid & H & Hm & _).
  - discriminate.
  - eexists. split; [reflexivity|]. split; [reflexivity|]. repeat constructor; by eexists.
  - exists r, mid. split; [exact H|exact Hm].
Defined.
