(* ===== verification/Security.v ===== *)
(** * API keys ([security/key_store.py], [security/models.py], [security/rotate_keys.py]; [enforce_auth] in [api/app.py])

    The key file lists clients with their keys and the paths they may call; [authenticate]
    finds the client of a bearer token, [enforce_auth] guards every request, and
    [rotate_client_key] gives a client a new key while the old ones run out. *)

From S2P Require Import Prelude.
From S2P Require Import PyFloat.
From S2P Require Import PyStr.
From S2P Require Import PyDict.
From S2P Require Import PyJson.

#[local] Open Scope list_scope.

(** ** Data *)

Record ApiKey := { key : string; expires_at : option datetime }.

Record ClientConfig := {
  client_id : string;
  allowed_path_prefixes : list string;
  keys : list ApiKey;
}.

Record ClientIdentity := {
  id_client_id : string;
  id_allowed_path_prefixes : list string;
}.

(** ** The key file *)

(** [datetime.fromisoformat], for the text [isoformat] writes. *)
Class IsoFormat := {
  iso_of : datetime → string;
  iso_parse : string → option datetime;
  iso_parse_of t : iso_parse (iso_of t) = Some t;
  iso_non_empty t : iso_of t ≠ "";
}.

Section file.
Context `{IsoFormat} (render : json → string).

(** [str(value)] *)
Definition py_str (j : json) : string := match j with JStr s => s | j => render j end.

Definition api_key_to_dict (k : ApiKey) : json :=
  JObj [("key", JStr (key k));
        ("expires_at", match expires_at k with None => JNull | Some t => JStr (iso_of t) end)].

(** [None]: a field is missing or a time does not parse. *)
Definition api_key_from_dict (data : json) : option ApiKey :=
  k ← j_get data "key";
  let e := default JNull (j_get data "expires_at") in
  if j_truthy e
  then t ← iso_parse (py_str e); mret {| key := py_str k; expires_at := Some t |}
  else mret {| key := py_str k; expires_at := None |}.

Definition client_config_to_dict (c : ClientConfig) : json :=
  JObj [("client_id", JStr (client_id c));
        ("allowed_path_prefixes", JList (JStr <$> allowed_path_prefixes c));
        ("keys", JList (api_key_to_dict <$> keys c))].

(** [list(value)], for a list of strings *)
Definition str_list (j : json) : option (list string) :=
  match j with JList l => mapM (λ j, match j with JStr s => Some s | _ => None end) l | _ => None end.

Definition client_config_from_dict (data : json) : option ClientConfig :=
  id ← j_get data "client_id";
  prefixes ← j_get data "allowed_path_prefixes" ≫= str_list;
  ks ← j_get data "keys" ≫= (λ j, match j with JList l => mapM api_key_from_dict l | _ => None end);
  mret {| client_id := py_str id; allowed_path_prefixes := prefixes; keys := ks |}.

(** [load_clients], [ApiKeyStore.from_file]; [save_clients] *)
Definition load_clients (file : json) : option (list ClientConfig) :=
  match j_get file "clients" with Some (JList l) => mapM client_config_from_dict l | _ => None end.

Definition save_clients (clients : list ClientConfig) : json :=
  JObj [("clients", JList (client_config_to_dict <$> clients))].

Lemma key_roundtrip k : api_key_from_dict (api_key_to_dict k) = Some k.
Proof.
  destruct k as [k [t|]]; [|done]. unfold api_key_from_dict.
  change (j_get (api_key_to_dict _) "key") with (Some (JStr k)).
  change (default JNull (j_get (api_key_to_dict _) "expires_at")) with (JStr (iso_of t)).
  assert (Ht : j_truthy (JStr (iso_of t)) = true)
    by (unfold j_truthy; by rewrite bool_decide_eq_false_2 by apply iso_non_empty).
  cbv zeta. rewrite Ht. cbn [mbind option_bind py_str]. by rewrite iso_parse_of.
Qed.

Lemma client_roundtrip c : client_config_from_dict (client_config_to_dict c) = Some c.
Proof.
  destruct c as [id prefixes ks].
  assert (E1 : str_list (JList (JStr <$> prefixes)) = Some prefixes) by (by apply mapM_fmap_Some).
  assert (E2 : mapM api_key_from_dict (api_key_to_dict <$> ks) = Some ks) by (by apply mapM_fmap_Some, key_roundtrip).
  unfold client_config_from_dict, client_config_to_dict.
  change (j_get _ "client_id") with (Some (JStr id)).
  change (j_get _ "allowed_path_prefixes") with (Some (JList (JStr <$> prefixes))).
  change (j_get _ "keys") with (Some (JList (api_key_to_dict <$> ks))).
  cbn [mbind option_bind mret option_ret]. by rewrite E1, E2.
Qed.
End file.

(** ** The store *)

(** [ApiKeyStore.authenticate] *)
Definition live_key (token : string) (at_ : datetime) (k : ApiKey) : bool :=
  bool_decide (key k = token) &&
  match expires_at k with None => true | Some t => negb (t <=? at_)%Z end.

Fixpoint authenticate (clients : list ClientConfig) (token : string) (at_ : datetime) : option ClientIdentity :=
  match clients with
  | [] => None
  | c :: clients =>
      if existsb (live_key token at_) (keys c)
      then Some {| id_client_id := client_id c; id_allowed_path_prefixes := allowed_path_prefixes c |}
      else authenticate clients token at_
  end.

Definition is_authorized (i : ClientIdentity) (path : string) : bool :=
  existsb (str_startswith path) (id_allowed_path_prefixes i).

(** ** [enforce_auth] *)

Definition AUTH_EXEMPT_PATHS : list string := ["/health/live"; "/health/ready"; "/metrics"].

Inductive auth_result :=
  | Allowed (client : option string)
  | Refused (status : Z) (code : string).

(** [auth_header.removeprefix("Bearer ") if auth_header.startswith("Bearer ") else None]; an
    empty token authenticates nobody but counts as given. *)
Definition bearer_token (auth_header : string) : option string :=
  if str_startswith auth_header "Bearer " then Some (str_removeprefix auth_header "Bearer ") else None.

Definition enforce_auth (auth_enabled : bool) (clients : list ClientConfig) (path : string)
    (auth_header : option string) (at_ : datetime) : auth_result :=
  if negb auth_enabled then Allowed None
  else if bool_decide (path ∈ AUTH_EXEMPT_PATHS) then Allowed None
  else
    let token := bearer_token (default "" auth_header) in
    let identity := match token with
                    | None | Some "" => None
                    | Some t => authenticate clients t at_
                    end in
    match identity with
    | None => Refused 401 (match token with None => "missing_token" | Some _ => "invalid_token" end)
    | Some i => if is_authorized i path then Allowed (Some (id_client_id i))
                else Refused 403 "path_not_allowed"
    end.

(** ** Rotation *)

(** [rotate_client_key]; [None]: [ClientNotFoundError]. *)
Definition expire_at (until : datetime) (k : ApiKey) : ApiKey :=
  match expires_at k with None => {| key := key k; expires_at := Some until |} | Some _ => k end.

Definition rotate_one (cid new_key : string) (until : datetime) (c : ClientConfig) : ClientConfig :=
  if bool_decide (client_id c = cid)
  then {| client_id := client_id c; allowed_path_prefixes := allowed_path_prefixes c;
          keys := (expire_at until <$> keys c) ++ [{| key := new_key; expires_at := None |}] |}
  else c.

Definition rotate_client_key (clients : list ClientConfig) (cid new_key : string) (now : datetime)
    (grace_period : timedelta) : option (list ClientConfig) :=
  if existsb (λ c, bool_decide (client_id c = cid)) clients
  then Some (rotate_one cid new_key (now + grace_period) <$> clients)
  else None.

(** ** Lemmas *)

Lemma live_key_spec token at_ k :
  live_key token at_ k = true ↔ key k = token ∧ (∀ t, expires_at k = Some t → (at_ < t)%Z).
Proof.
  unfold live_key. rewrite andb_true_iff, bool_decide_eq_true. destruct (expires_at k) as [e|].
  - rewrite negb_true_iff, Z.leb_gt. naive_solver.
  - naive_solver.
Qed.

Definition has_live (token : string) (at_ : datetime) (c : ClientConfig) : bool :=
  existsb (live_key token at_) (keys c).

Lemma has_live_spec token at_ c :
  has_live token at_ c = true ↔
  ∃ k, k ∈ keys c ∧ key k = token ∧ ∀ t, expires_at k = Some t → (at_ < t)%Z.
Proof.
  unfold has_live. rewrite existsb_exists. split.
  - intros (k & Hin%list_elem_of_In & Hk). exists k. by rewrite <-live_key_spec.
  - intros (k & Hin & Hk). exists k. rewrite live_key_spec. split; [by apply list_elem_of_In|done].
Qed.

(** The identity of the first client with a live key. *)
Lemma authenticate_spec clients token at_ i :
  authenticate clients token at_ = Some i ↔
  ∃ pre c post, clients = pre ++ c :: post ∧ Forall (λ c, has_live token at_ c = false) pre ∧
    has_live token at_ c = true ∧
    i = {| id_client_id := client_id c; id_allowed_path_prefixes := allowed_path_prefixes c |}.
Proof.
  induction clients as [|c clients IH]; simpl.
  { split; [done|]. intros (pre & c & post & E & _). by destruct pre. }
  fold (has_live token at_ c). destruct (has_live token at_ c) eqn:Ec.
  - split.
    + intros [= <-]. exists [], c, clients. done.
    + intros (pre & c' & post & E & Hpre & _ & ->). destruct pre as [|c0 pre]; injection E as <- ?; [done|].
      apply Forall_cons in Hpre as [Hc _]. congruence.
  - rewrite IH. split.
    + intros (pre & c' & post & -> & Hpre & H). exists (c :: pre), c', post. split; [done|]. by split; [constructor|].
    + intros (pre & c' & post & E & Hpre & Hc' & ->). destruct pre as [|c0 pre]; injection E as <- ->; [congruence|].
      apply Forall_cons in Hpre as [_ Hpre]. by exists pre, c', post.
Qed.

Lemma authenticate_None clients token at_ :
  authenticate clients token at_ = None ↔ Forall (λ c, has_live token at_ c = false) clients.
Proof.
  induction clients as [|c clients IH]; simpl; [done|]. fold (has_live token at_ c). rewrite Forall_cons.
  destruct (has_live token at_ c); [|naive_solver]. split; [done|]. by intros [? _].
Qed.

(** Clients that hold the same live keys authenticate alike. *)
Lemma authenticate_map f clients token at_ :
  (∀ c, c ∈ clients → has_live token at_ (f c) = has_live token at_ c ∧ client_id (f c) = client_id c ∧
     allowed_path_prefixes (f c) = allowed_path_prefixes c) →
  authenticate (f <$> clients) token at_ = authenticate clients token at_.
Proof.
  induction clients as [|c clients IH]; intros Hf; [done|]. rewrite fmap_cons. cbn [authenticate].
  destruct (Hf c) as (Hl & -> & ->); [left|]. unfold has_live in Hl. rewrite Hl, IH; [done|].
  intros c' Hc'. apply Hf. by right.
Qed.

Lemma is_authorized_spec i path :
  is_authorized i path = true ↔ ∃ p t, p ∈ id_allowed_path_prefixes i ∧ path = p +:+ t.
Proof.
  unfold is_authorized. rewrite existsb_exists. split.
  - intros (p & Hp%list_elem_of_In & [t Ht]%str_prefix_spec). by exists p, t.
  - intros (p & t & Hp & ->). exists p. split; [by apply list_elem_of_In|]. apply str_prefix_spec. by exists t.
Qed.

(** C26. With authentication on, a request outside the exempt paths goes through exactly when it
    carries [Bearer] and a key some client holds unexpired, and the first such client may
    call that path; it goes through as that client. *)
Theorem auth_exact clients path hdr at_ who :
  path ∉ AUTH_EXEMPT_PATHS →
  enforce_auth true clients path hdr at_ = Allowed who ↔
  ∃ token pre c post, hdr = Some ("Bearer " +:+ token) ∧ token ≠ "" ∧ clients = pre ++ c :: post ∧
    Forall (λ c, has_live token at_ c = false) pre ∧
    (∃ k, k ∈ keys c ∧ key k = token ∧ ∀ t, expires_at k = Some t → (at_ < t)%Z) ∧
    (∃ p t, p ∈ allowed_path_prefixes c ∧ path = p +:+ t) ∧ who = Some (client_id c).
Proof.
  intros Hp. unfold enforce_auth. cbn [negb]. rewrite bool_decide_eq_false_2 by done. split.
  - unfold bearer_token. destruct (str_startswith (default "" hdr) "Bearer ") eqn:Eb; [|done].
    apply str_prefix_spec in Eb as [token Et]. rewrite Et, str_removeprefix_app.
    destruct hdr as [h|]; [|done]. simpl in Et. subst h.
    destruct token as [|a token]; [done|]. set (tk := String a token).
    destruct (authenticate clients tk at_) as [i|] eqn:Ea; [|done].
    destruct (is_authorized i path) eqn:Ei; [|done]. intros [= <-].
    apply authenticate_spec in Ea as (pre & c & post & -> & Hpre & Hc & ->). apply is_authorized_spec in Ei.
    apply has_live_spec in Hc. exists tk, pre, c, post. split_and!; done.
  - intros (token & pre & c & post & -> & Hne & Hcl & Hpre & Hc & Ha & ->). simpl default. unfold bearer_token.
    rewrite (proj2 (str_prefix_spec "Bearer " _)) by (by eexists). rewrite str_removeprefix_app.
    destruct token as [|a token]; [done|].
    rewrite (proj2 (authenticate_spec clients _ at_ {| id_client_id := client_id c;
      id_allowed_path_prefixes := allowed_path_prefixes c |})).
    + by rewrite (proj2 (is_authorized_spec _ _)).
    + exists pre, c, post. split_and!; try done. by apply has_live_spec.
Qed.

Lemma rotate_has_live cid new_key until c token at_ :
  token ≠ new_key → (at_ < until)%Z → has_live token at_ (rotate_one cid new_key until c) = has_live token at_ c.
Proof.
  intros Hne Hlt. unfold rotate_one. case_bool_decide; [|done]. apply eq_true_iff_eq.
  rewrite !has_live_spec. simpl. split.
  - intros (k & Hin & Hk & Ht). apply elem_of_app in Hin as [Hin| ->%list_elem_of_singleton]; [|done].
    apply list_elem_of_fmap in Hin as (k0 & -> & Hin). exists k0. unfold expire_at in *.
    destruct (expires_at k0) as [e|] eqn:Ee; [|done]. by rewrite Ee in Ht.
  - intros (k & Hin & Hk & Ht). exists (expire_at until k). split_and!.
    + apply elem_of_app. left. by apply list_elem_of_fmap_2.
    + unfold expire_at. by destruct (expires_at k).
    + unfold expire_at. destruct (expires_at k) as [e|] eqn:Ee; simpl; [rewrite Ee; by apply Ht|]. by intros ? [= <-].
Qed.

(** Rotating a client's key is a hand-over: the new key works at once and always, as that
    client; until the grace period ends every other key works as before; afterwards the
    keys it had without an expiry are dead. *)
Theorem rotation_hands_over clients cid new_key now grace updated :
  rotate_client_key clients cid new_key now grace = Some updated →
  (∀ c k, c ∈ clients → k ∈ keys c → key k ≠ new_key) →
  (∀ at_, ∃ i, authenticate updated new_key at_ = Some i ∧ id_client_id i = cid) ∧
  (∀ token at_, token ≠ new_key → (at_ < now + grace)%Z →
     authenticate updated token at_ = authenticate clients token at_) ∧
  (∀ token at_, token ≠ new_key → (now + grace ≤ at_)%Z →
     (∀ c k, c ∈ clients → k ∈ keys c → key k = token → client_id c = cid ∧ expires_at k = None) →
     authenticate updated token at_ = None).
Proof.
  unfold rotate_client_key. destruct (existsb _ clients) eqn:Ex; [|done]. intros [= <-] Hfresh. split_and!.
  - intros at_. set (upd := rotate_one cid new_key (now + grace) <$> clients).
    destruct (authenticate upd new_key at_) as [i|] eqn:Ea.
    + exists i. split; [done|]. apply authenticate_spec in Ea as (pre & c & post & E & _ & Hc & ->). simpl.
      assert (Hin : c ∈ upd) by (rewrite E; apply elem_of_app; right; left).
      apply list_elem_of_fmap in Hin as (c0 & -> & Hin). unfold rotate_one in *. case_bool_decide as Hid; [done|].
      apply has_live_spec in Hc as (k & Hk & Ek & _). by destruct (Hfresh c0 k).
    + exfalso. apply existsb_exists in Ex as (c & Hin%list_elem_of_In & Hid%bool_decide_eq_true).
      apply authenticate_None in Ea. rewrite Forall_forall in Ea.
      specialize (Ea (rotate_one cid new_key (now + grace) c) (list_elem_of_fmap_2 _ _ _ Hin)).
      assert (Ht : has_live new_key at_ (rotate_one cid new_key (now + grace) c) = true); [|congruence].
      apply has_live_spec. exists {| key := new_key; expires_at := None |}. unfold rotate_one.
      rewrite bool_decide_eq_true_2 by done. simpl. split; [|done]. apply elem_of_app. right. left.
  - intros token at_ Hne Hlt. apply authenticate_map. intros c _. split; [by apply rotate_has_live|].
    unfold rotate_one. by case_bool_decide.
  - intros token at_ Hne Hge Hown. apply authenticate_None, Forall_forall.
    intros c' Hc'. apply list_elem_of_fmap in Hc' as (c & -> & Hin).
    apply not_true_is_false. rewrite has_live_spec. intros (k & Hk & Ek & Ht). unfold rotate_one in Hk.
    case_bool_decide as Hid; simpl in Hk.
    + apply elem_of_app in Hk as [Hk| ->%list_elem_of_singleton]; [|done].
      apply list_elem_of_fmap in Hk as (k0 & -> & Hk0).
      assert (Ek0 : key k0 = token) by (unfold expire_at in Ek; by destruct (expires_at k0)).
      destruct (Hown c k0 Hin Hk0 Ek0) as [_ En]. unfold expire_at in Ht. rewrite En in Ht. simpl in Ht.
      specialize (Ht _ eq_refl). lia.
    + by destruct (Hown c k Hin Hk Ek).
Qed.

Definition sample_clients : list ClientConfig :=
  [{| client_id := "ci"; allowed_path_prefixes := ["/v1/"]; keys := [{| key := "old"; expires_at := None |}] |};
   {| client_id := "ui"; allowed_path_prefixes := ["/"]; keys := [{| key := "other"; expires_at := None |}] |}].

Lemma auth_exact_witness :
  ∃ token, enforce_auth true sample_clients "/v1/nodes" (Some "Bearer old") 5 = Allowed (Some "ci") ∧ token = "old".
Proof.
  exists "old". split; [|reflexivity]. apply (proj2 (auth_exact sample_clients "/v1/nodes" (Some "Bearer old") 5 (Some "ci")
    ltac:(vm_decide))).
  exists "old", [], (hd (Build_ClientConfig "" [] []) sample_clients), (tl sample_clients). split_and!.
  - reflexivity.
  - discriminate.
  - reflexivity.
  - constructor.
  - exists {| key := "old"; expires_at := None |}. split; [left|]. split; [reflexivity|]. intros t [=].
  - exists "/v1/", "nodes". split; [left|reflexivity].
  - reflexivity.
Defined.

Lemma rotation_hands_over_witness :
  ∃ updated, rotate_client_key sample_clients "ci" "new" 100 50 = Some updated ∧
    (∀ at_, ∃ i, authenticate updated "new" at_ = Some i ∧ id_client_id i = "ci") ∧
    authenticate updated "old" 149 ≠ None ∧ authenticate updated "old" 150 = None.
Proof.
  eexists. split; [reflexivity|].
  destruct (rotation_hands_over sample_clients "ci" "new" 100 50 _ eq_refl) as (H1 & H2 & H3).
  - intros c k [->|[->|[]%not_elem_of_nil]%elem_of_cons]%elem_of_cons;
      intros [->|[]%not_elem_of_nil]%elem_of_cons; discriminate.
  - split; [exact H1|]. split.
    + rewrite H2; [vm_compute; discriminate|discriminate|lia].
    + vm_compute. reflexivity.
Defined.

(** Saving and loading the key file gives the same clients. *)
Lemma clients_roundtrip `{IsoFormat} render clients : load_clients render (save_clients clients) = Some clients.
Proof.
  unfold load_clients, save_clients. simpl. apply mapM_fmap_Some. apply client_roundtrip.
Qed.
