(* ===== verification/Context.v ===== *)
(** * Assembling a context ([context/assembler.py], [context/cache.py], [context/models.py])

    [assemble_context] fits a session into a token budget: the summary, then the longest run
    of newest messages that fits.  [ContextCache] remembers what it assembled. *)

From S2P Require Import Prelude.
From S2P Require Import PyFloat.
From S2P Require Import PyStr.
From S2P Require Import ApiModels.

#[local] Open Scope list_scope.

(** ** Data ([state/models.py], [context/models.py]) *)

Record StoredMessage := { seq : Z; sm_role : string; sm_content : string; sm_created_at : string }.

Record Summary := { covers_up_to_seq : Z; summary_text : string; su_created_at : string }.

Record Session := {
  ss_session_id : string;
  ss_messages : list StoredMessage;
  ss_summary : option Summary;
}.

Record AssembledContext := {
  ctx_messages : list Message;
  compacted : bool;
  dropped_message_count : nat;
}.

(** ** Assembling *)

(** [-(-total_chars // 4)]: a quarter, rounded up. *)
Definition estimate_tokens (ms : list Message) : Z :=
  let total_chars := Z.of_nat (sum_list ((λ m, String.length (content m)) <$> ms)) in
  (- (- total_chars / 4))%Z.

Definition summary_message (s : Summary) : Message :=
  {| role := "system"; content := "Summary of earlier conversation: " +:+ summary_text s |}.

(** The loop over the messages, newest first; [kept] is in order. *)
Fixpoint keep_newest (newest_first : list Message) (kept : list Message) (remaining : Z) : list Message :=
  match newest_first with
  | [] => kept
  | m :: ms =>
      let cost := estimate_tokens [m] in
      if negb (bool_decide (kept = [])) && (remaining <? cost)%Z then kept
      else keep_newest ms (m :: kept) (remaining - cost)
  end.

#[export] Instance Message_eq_dec : EqDecision Message.
Proof. solve_decision. Defined.

Definition raw_messages (s : Session) : list Message :=
  (λ m, {| role := sm_role m; content := sm_content m |}) <$> ss_messages s.

Definition summary_messages (s : Session) : list Message :=
  match ss_summary s with Some su => [summary_message su] | None => [] end.

Definition assemble_context (s : Session) (token_budget : Z) : AssembledContext :=
  let full := summary_messages s ++ raw_messages s in
  if (estimate_tokens full <=? token_budget)%Z
  then {| ctx_messages := full; compacted := false; dropped_message_count := 0 |}
  else
    let kept := keep_newest (reverse (raw_messages s)) [] (token_budget - estimate_tokens (summary_messages s)) in
    let dropped := length (raw_messages s) - length kept in
    {| ctx_messages := summary_messages s ++ kept; compacted := bool_decide (0 < dropped)%nat;
       dropped_message_count := dropped |}.

(** ** The cache *)

Definition cache_key : Type := string * list (Z * string * string) * option (Z * string) * Z.

Definition key_of (s : Session) (token_budget : Z) : cache_key :=
  (ss_session_id s, (λ m, (seq m, sm_role m, sm_content m)) <$> ss_messages s,
   (λ su, (covers_up_to_seq su, summary_text su)) <$> ss_summary s, token_budget).

#[export] Instance cache_key_dec : EqDecision cache_key.
Proof. unfold cache_key. apply _. Defined.

(** The entries in the order of the [OrderedDict], the least recently used first. *)
Record ContextCache := {
  cc_max_entries : Z;
  cc_entries : list (cache_key * AssembledContext);
  cc_hits : Z;
  cc_misses : Z;
  cc_compaction_count : Z;
}.

Definition ContextCache_new (max_entries : Z) : ContextCache :=
  {| cc_max_entries := max_entries; cc_entries := []; cc_hits := 0; cc_misses := 0; cc_compaction_count := 0 |}.

Definition default_max_entries : Z := 128.

Definition without (k : cache_key) (es : list (cache_key * AssembledContext)) : list (cache_key * AssembledContext) :=
  filter (λ e, e.1 ≠ k) es.

Definition find_entry (k : cache_key) (es : list (cache_key * AssembledContext)) : option AssembledContext :=
  snd <$> List.find (λ e, bool_decide (e.1 = k)) es.

(** [if len(entries) > max_entries: entries.popitem(last=False)] *)
Definition evict_lru (max_entries : Z) (es : list (cache_key * AssembledContext))
    : list (cache_key * AssembledContext) :=
  if (max_entries <? Z.of_nat (length es))%Z then tail es else es.

(** [ContextCache.assemble] *)
Definition cached_assemble (s : Session) (token_budget : Z) (c : ContextCache) : AssembledContext * ContextCache :=
  let k := key_of s token_budget in
  match find_entry k (cc_entries c) with
  | Some r =>
      (r, {| cc_max_entries := cc_max_entries c; cc_entries := without k (cc_entries c) ++ [(k, r)];
             cc_hits := cc_hits c + 1; cc_misses := cc_misses c; cc_compaction_count := cc_compaction_count c |})
  | None =>
      let r := assemble_context s token_budget in
      (r, {| cc_max_entries := cc_max_entries c;
             cc_entries := evict_lru (cc_max_entries c) (without k (cc_entries c) ++ [(k, r)]);
             cc_hits := cc_hits c; cc_misses := cc_misses c + 1;
             cc_compaction_count := cc_compaction_count c + (if compacted r then 1 else 0) |})
  end.

(** [hit_ratio] *)
Definition hit_ratio (c : ContextCache) : outcome arith_error float :=
  let total := (cc_hits c + cc_misses c)%Z in
  if (total =? 0)%Z then Ret f_zero else int_truediv (cc_hits c) total.

(** Successive calls. *)
Fixpoint assemble_all (reqs : list (Session * Z)) (c : ContextCache) : list AssembledContext * ContextCache :=
  match reqs with
  | [] => ([], c)
  | (s, b) :: reqs =>
      let '(r, c) := cached_assemble s b c in
      let '(rs, c) := assemble_all reqs c in (r :: rs, c)
  end.

(** ** Lemmas *)

Definition chars (ms : list Message) : Z := Z.of_nat (sum_list ((λ m, String.length (content m)) <$> ms)).

Lemma estimate_bounds ms : (chars ms ≤ 4 * estimate_tokens ms < chars ms + 4)%Z.
Proof.
  unfold estimate_tokens. fold (chars ms). set (n := chars ms).
  pose proof (Z.div_mod (- n) 4 ltac:(lia)). pose proof (Z.mod_pos_bound (- n) 4 ltac:(lia)). lia.
Qed.

Lemma chars_app ms1 ms2 : chars (ms1 ++ ms2) = (chars ms1 + chars ms2)%Z.
Proof. unfold chars. rewrite fmap_app, sum_list_with_app. lia. Qed.

(** What the loop keeps, started with [kept]. *)
Lemma keep_newest_spec ms kept remaining :
  let out := keep_newest ms kept remaining in
  (∃ pre dropped, ms = pre ++ dropped ∧ out = reverse pre ++ kept ∧
     (kept = [] → ms ≠ [] → pre ≠ []) ∧
     (** the next message would not have fitted *)
     (∀ m, head dropped = Some m →
        (remaining < foldr (λ m n, estimate_tokens [m] + n) 0 pre + estimate_tokens [m])%Z) ∧
     (** what was kept fits, but for the first message *)
     (kept ≠ [] → pre ≠ [] → foldr (λ m n, estimate_tokens [m] + n)%Z 0%Z pre ≤ remaining)%Z ∧
     (kept = [] → ∀ m pre', pre = m :: pre' → pre' ≠ [] →
        foldr (λ m n, estimate_tokens [m] + n)%Z 0%Z pre ≤ remaining)%Z).
Proof.
  cbv zeta. revert kept remaining. induction ms as [|m ms IH]; intros kept remaining.
  { exists [], []. by split_and!. }
  cbn [keep_newest]. pose proof (estimate_bounds [m]) as Hm.
  assert (Hc : (0 ≤ estimate_tokens [m])%Z) by (unfold chars in Hm; lia).
  destruct (negb (bool_decide (kept = [])) && (remaining <? estimate_tokens [m])%Z) eqn:Estop.
  - apply andb_true_iff in Estop as [Hk%negb_true_iff%bool_decide_eq_false Hr%Z.ltb_lt].
    exists [], (m :: ms). split_and!; try done; simpl; try lia. intros m' [= <-]. lia.
  - destruct (IH (m :: kept) (remaining - estimate_tokens [m])%Z) as (pre & dropped & -> & -> & _ & Hnext & Hfit & _).
    exists (m :: pre), dropped. specialize (Hfit ltac:(discriminate)).
    assert (Hrem : kept ≠ [] → (estimate_tokens [m] ≤ remaining)%Z).
    { intros Hk. apply andb_false_iff in Estop as [H|H%Z.ltb_ge]; [|done].
      apply negb_false_iff, bool_decide_eq_true in H. done. }
    split_and!.
    + done.
    + rewrite reverse_cons, <-app_assoc. done.
    + done.
    + intros m' Hh. specialize (Hnext m' Hh). simpl. lia.
    + intros Hk _. specialize (Hrem Hk). simpl. destruct pre; [simpl; lia|]. specialize (Hfit ltac:(done)). lia.
    + intros _ m' pre' [= <- <-] Hne. specialize (Hfit Hne). simpl. lia.
Qed.

Definition cost_sum (ms : list Message) : Z := foldr (λ m n, estimate_tokens [m] + n)%Z 0%Z ms.

Lemma cost_sum_app ms1 ms2 : cost_sum (ms1 ++ ms2) = (cost_sum ms1 + cost_sum ms2)%Z.
Proof. unfold cost_sum. induction ms1 as [|m ms1 IH]; simpl; [done|]. rewrite IH. lia. Qed.

Lemma cost_sum_reverse ms : cost_sum (reverse ms) = cost_sum ms.
Proof.
  induction ms as [|m ms IH]; [done|]. rewrite reverse_cons, cost_sum_app, IH. unfold cost_sum. simpl. lia.
Qed.

Lemma cost_sum_nonneg ms : (0 ≤ cost_sum ms)%Z.
Proof.
  induction ms as [|m ms IH]; [done|]. unfold cost_sum in *. simpl. pose proof (estimate_bounds [m]).
  unfold chars in *. lia.
Qed.

(** Estimating messages together never gives more than estimating them one by one. *)
Lemma estimate_sub ms1 ms2 : (estimate_tokens (ms1 ++ ms2) ≤ estimate_tokens ms1 + estimate_tokens ms2)%Z.
Proof.
  pose proof (estimate_bounds ms1). pose proof (estimate_bounds ms2). pose proof (estimate_bounds (ms1 ++ ms2)).
  rewrite chars_app in *. lia.
Qed.

Lemma estimate_le_cost ms : (estimate_tokens ms ≤ cost_sum ms)%Z.
Proof.
  induction ms as [|m ms IH]; [done|]. pose proof (estimate_sub [m] ms). unfold cost_sum in *. simpl in *. lia.
Qed.

(** The entries remember what assembling gives. *)
Definition cache_ok (es : list (cache_key * AssembledContext)) : Prop :=
  Forall (λ e, ∀ s b, key_of s b = e.1 → e.2 = assemble_context s b) es.

(** The key holds all that assembling looks at. *)
Lemma key_determines s1 b1 s2 b2 : key_of s1 b1 = key_of s2 b2 → assemble_context s1 b1 = assemble_context s2 b2.
Proof.
  unfold key_of. intros [= _ Em Es ->].
  assert (Hraw : raw_messages s1 = raw_messages s2).
  { unfold raw_messages. apply (f_equal (fmap (λ t, {| role := t.1.2; content := t.2 |}))) in Em.
    by rewrite <-!list_fmap_compose in Em. }
  assert (Hsum : summary_messages s1 = summary_messages s2).
  { unfold summary_messages. destruct (ss_summary s1), (ss_summary s2); simpl in Es; try done.
    injection Es as _ Et. unfold summary_message. by rewrite Et. }
  unfold assemble_context. by rewrite Hraw, Hsum.
Qed.

Lemma find_entry_in k es r : find_entry k es = Some r → (k, r) ∈ es.
Proof.
  unfold find_entry. intros ([k' r'] & E & ->)%fmap_Some.
  apply List.find_some in E as [Hin%list_elem_of_In Hk%bool_decide_eq_true]. simpl in Hk. by subst.
Qed.

Lemma cache_ok_put k r es s b :
  cache_ok es → k = key_of s b → r = assemble_context s b → cache_ok (without k es ++ [(k, r)]).
Proof.
  intros Hes -> ->. apply Forall_app. split.
  - apply Forall_forall. intros e [_ He]%list_elem_of_filter. exact (proj1 (Forall_forall _ _) Hes e He).
  - constructor; [|constructor]. simpl. intros s' b' E. symmetry. by apply key_determines.
Qed.

Lemma cache_ok_evict n es : cache_ok es → cache_ok (evict_lru n es).
Proof.
  unfold evict_lru. destruct (_ <? _)%Z; [|done]. destruct es; [done|]. by intros [_ ?]%Forall_cons.
Qed.

Definition cache_inv (c : ContextCache) : Prop :=
  cache_ok (cc_entries c) ∧ (Z.of_nat (length (cc_entries c)) ≤ Z.max 0 (cc_max_entries c))%Z.

Lemma without_length k es : (length (without k es) ≤ length es)%nat.
Proof. apply length_filter. Qed.

Lemma cached_assemble_spec s b c :
  cache_inv c →
  let '(r, c') := cached_assemble s b c in
  r = assemble_context s b ∧ cache_inv c' ∧ cc_max_entries c' = cc_max_entries c ∧
  (cc_hits c' + cc_misses c' = cc_hits c + cc_misses c + 1)%Z.
Proof.
  intros [Hok Hlen]. unfold cached_assemble. destruct (find_entry (key_of s b) (cc_entries c)) as [r|] eqn:E.
  - apply find_entry_in in E.
    assert (Er : r = assemble_context s b) by (by apply (proj1 (Forall_forall _ _) Hok _ E)).
    split_and!; simpl; [done| |done|lia]. split; simpl; [by eapply cache_ok_put|].
    rewrite length_app. simpl.
    assert (Hlt : (length (without (key_of s b) (cc_entries c)) < length (cc_entries c))%nat).
    { eapply length_filter_lt; [exact E|]. simpl. tauto. }
    lia.
  - split_and!; simpl; [done| |done|lia]. split; simpl; [by eapply cache_ok_evict, cache_ok_put|].
    pose proof (without_length (key_of s b) (cc_entries c)). unfold evict_lru.
    set (es := without _ _ ++ _).
    assert (Hes : length es = S (length (without (key_of s b) (cc_entries c)))).
    { unfold es. rewrite length_app. simpl. lia. }
    destruct (Z.ltb_spec (cc_max_entries c) (Z.of_nat (length es))); [|lia].
    destruct es as [|e es]; simpl in *; lia.
Qed.

(** The cache is invisible: whatever was assembled before, every call answers what
    assembling from scratch would; it never holds more than its entries, and every call is
    counted once, as a hit or as a miss. *)
Theorem cache_is_transparent n reqs :
  let '(rs, c) := assemble_all reqs (ContextCache_new n) in
  rs = (λ p, assemble_context p.1 p.2) <$> reqs ∧
  (Z.of_nat (length (cc_entries c)) ≤ Z.max 0 n)%Z ∧
  (cc_hits c + cc_misses c = Z.of_nat (length reqs))%Z.
Proof.
  assert (H : ∀ c, cache_inv c → let '(rs, c') := assemble_all reqs c in
    rs = (λ p, assemble_context p.1 p.2) <$> reqs ∧ cache_inv c' ∧ cc_max_entries c' = cc_max_entries c ∧
    (cc_hits c' + cc_misses c' = cc_hits c + cc_misses c + Z.of_nat (length reqs))%Z).
  { induction reqs as [|[s b] reqs IH]; intros c Hc; [split_and!; [done|done|done|simpl; lia]|].
    cbn [assemble_all]. pose proof (cached_assemble_spec s b c Hc) as H1.
    destruct (cached_assemble s b c) as [r c1]. destruct H1 as (-> & Hc1 & Em & Eh).
    specialize (IH c1 Hc1). destruct (assemble_all reqs c1) as [rs c2]. destruct IH as (-> & Hc2 & Em2 & Eh2).
    split_and!; [done|done|congruence|]. rewrite Eh2, Eh, length_cons. lia. }
  specialize (H (ContextCache_new n)). destruct (assemble_all reqs (ContextCache_new n)) as [rs c].
  destruct H as (-> & [_ Hlen] & Em & Eh); [split; [constructor|simpl; lia]|].
  split_and!; [done| |]; simpl in *; [by rewrite Em in Hlen|done].
Qed.

(** Rounding each message up costs less than one token per message. *)
Lemma cost_sum_slack ms : (4 * cost_sum ms ≤ chars ms + 3 * Z.of_nat (length ms))%Z.
Proof.
  induction ms as [|m ms IH]; [done|]. pose proof (estimate_bounds [m]).
  change (m :: ms) with ([m] ++ ms) at 2. rewrite chars_app. unfold cost_sum in *. cbn [foldr length]. lia.
Qed.

(** A longer run of messages costs more. *)
Lemma cost_sum_drop j k ms : (j ≤ k)%nat → (cost_sum (drop k ms) ≤ cost_sum (drop j ms))%Z.
Proof.
  intros Hjk. replace k with (j + (k - j))%nat by lia. rewrite <-drop_drop.
  pose proof (take_drop (k - j) (drop j ms)) as E. rewrite <-E at 2. rewrite cost_sum_app.
  pose proof (cost_sum_nonneg (take (k - j) (drop j ms))). lia.
Qed.

(** C33. What is assembled is the summary and the newest messages in order.  When the whole
    session is estimated within the budget, all of it.  Otherwise, with the estimate of each
    message rounded up on its own, the longest run of newest messages that fits in what the
    summary leaves of the budget, or the newest message alone when not even that fits; so the
    estimate of the result is within the budget, but in that last case and where there is no
    message and the summary alone is over the budget; and any longer run would be over the
    budget by the estimate of its messages together, but for what the rounding adds: less than
    one token per message. *)
Theorem assembled_context_fits s budget :
  let r := assemble_context s budget in
  let raw := raw_messages s in
  let d := dropped_message_count r in
  let room := (budget - estimate_tokens (summary_messages s))%Z in
  ctx_messages r = summary_messages s ++ drop d raw ∧ (compacted r = true ↔ (0 < d)%nat) ∧
  if decide (estimate_tokens (summary_messages s ++ raw) ≤ budget)%Z then d = 0%nat
  else
    (∀ k, (k < d)%nat →
       (room < cost_sum (drop k raw))%Z ∧
       (4 * budget < 4 * estimate_tokens (summary_messages s ++ drop k raw) +
          3 * Z.of_nat (length (summary_messages s ++ drop k raw)))%Z) ∧
    ((cost_sum (drop d raw) ≤ room ∧ estimate_tokens (ctx_messages r) ≤ budget ∧ (raw = [] ∨ d < length raw)%nat)%Z ∨
     (∃ newest, drop d raw = [newest] ∧ room < estimate_tokens [newest])%Z ∨
     (raw = [] ∧ (room < 0)%Z)).
Proof.
  cbv zeta. unfold assemble_context. set (raw := raw_messages s). set (sum := summary_messages s).
  destruct (Z.leb_spec (estimate_tokens (sum ++ raw)) budget) as [Hle|Hgt]; cbn [ctx_messages compacted dropped_message_count].
  { rewrite drop_0, decide_True by done. split_and!; [done|split; [done|lia]|done]. }
  rewrite decide_False by lia.
  destruct (keep_newest_spec (reverse raw) [] (budget - estimate_tokens sum)%Z) as (pre & dropped & E & -> & Hne & Hnext & _ & Hfit).
  fold (cost_sum pre) in *. rewrite app_nil_r. apply (f_equal reverse) in E. rewrite reverse_involutive, reverse_app in E.
  assert (Hd : length raw - length (reverse pre) = length dropped).
  { rewrite E, length_app, !length_reverse. lia. }
  rewrite Hd. assert (Hdrop : drop (length dropped) raw = reverse pre).
  { rewrite E. by rewrite drop_app_length' by (by rewrite length_reverse). }
  rewrite Hdrop. split_and!; [done|by rewrite bool_decide_eq_true| |].
  - assert (Hover : ∀ k, (k < length dropped)%nat → (budget - estimate_tokens sum < cost_sum (drop k raw))%Z).
    { intros k Hk. destruct dropped as [|m dropped]; [simpl in Hk; lia|]. specialize (Hnext m eq_refl).
      fold (cost_sum pre) in Hnext. simpl in Hk. pose proof (cost_sum_drop k (length dropped) raw ltac:(lia)) as Hmono.
      rewrite E in Hmono at 1. rewrite reverse_cons, <-app_assoc, drop_app_length' in Hmono by (by rewrite length_reverse).
      rewrite cost_sum_app, cost_sum_reverse in Hmono. unfold cost_sum in Hmono at 1. simpl in Hmono. lia. }
    intros k Hk. split; [by apply Hover|]. specialize (Hover k Hk). pose proof (cost_sum_slack (drop k raw)).
    pose proof (estimate_bounds (sum ++ drop k raw)). rewrite chars_app in *. rewrite length_app.
    pose proof (estimate_bounds sum) as Hs. assert (4 * estimate_tokens sum ≤ chars sum + 3 * Z.of_nat (length sum))%Z; [|lia].
    unfold sum, summary_messages in *. destruct (ss_summary s); simpl length; [lia|]. by vm_compute.
  - assert (Hfits : (cost_sum pre ≤ budget - estimate_tokens sum)%Z → (raw = [] ∨ length dropped < length raw)%nat →
      (cost_sum (reverse pre) ≤ budget - estimate_tokens sum ∧ estimate_tokens (sum ++ reverse pre) ≤ budget ∧
       (raw = [] ∨ length dropped < length raw)%nat)%Z).
    { intros Hc Hr. rewrite cost_sum_reverse. pose proof (estimate_sub sum (reverse pre)).
      pose proof (estimate_le_cost (reverse pre)). rewrite cost_sum_reverse in *. split_and!; [done|lia|done]. }
    assert (Hlen : length raw = (length pre + length dropped)%nat) by (rewrite E, length_app, !length_reverse; lia).
    destruct pre as [|m pre].
    + assert (Hraw : raw = []).
      { destruct (decide (raw = [])) as [|Hraw]; [done|]. exfalso. apply Hne; [done| |done].
        intros Hr. apply (f_equal reverse) in Hr. by rewrite reverse_involutive in Hr. }
      destruct (Z.le_gt_cases 0 (budget - estimate_tokens sum)); [left; apply Hfits; [done|by left]|right; right; split; [done|lia]].
    + simpl in Hlen. destruct pre as [|m2 pre].
      * destruct (Z.le_gt_cases (estimate_tokens [m]) (budget - estimate_tokens sum)) as [H|H];
          [left; apply Hfits; [unfold cost_sum; simpl; lia|right; lia]|right; left; exists m; split; [done|lia]].
      * left. apply Hfits; [|right; lia]. by apply (Hfit eq_refl m (m2 :: pre)).
Qed.

(** The rounding decides: four one-character messages after a long one are estimated at one token
    together, and only two of them are kept with a budget of two. *)
Example rounding_drops_more :
  let text n := {| seq := 0; sm_role := "user"; sm_content := n; sm_created_at := "" |} in
  let s := {| ss_session_id := "s"; ss_summary := None;
              ss_messages := text "0123456789012345678901234567890123456789" :: (text <$> ["a"; "b"; "c"; "d"]) |} in
  dropped_message_count (assemble_context s 2) = 3%nat ∧ estimate_tokens (drop 1 (raw_messages s)) = 1%Z.
Proof. by vm_compute. Qed.
