(* ===== verification/State.v ===== *)
(** * Session storage ([state/store.py], [state/tool_state_store.py], [state/workspace_store.py], [state/workspace_manager.py], [state/sqlite_base.py])

    Three stores over one SQLite file.  A table is the list of its rows in insertion order;
    [SELECT MAX], [ORDER BY] and [DELETE] are written out on it.  A statement that raises
    ends the transaction without a commit, so the tables are as before. *)

From S2P Require Import Prelude.
From S2P Require Import PyFloat.
From S2P Require Import PyStr.
From S2P Require Import PyDict.
From S2P Require Import PyJson.
From S2P Require Import ApiModels.
From S2P Require Import Context.

#[local] Open Scope list_scope.

(** ** Tables *)

Record SummaryRow := { sr_covers : Z; sr_text : string; sr_created_at : string }.

Record ToolRow := {
  tr_session : string;
  tr_tool : string;
  tr_seq : Z;
  tr_payload : json;
  tr_created_at : string;
}.

Record RunStatus := { passed : Z; failed : Z; total : Z; rs_summary : option string }.

Record WorkspaceRow := {
  wr_branch : string;
  wr_git_diff : string;
  wr_diff_truncated : Z;
  wr_open_files : json;
  wr_open_files_truncated : Z;
  wr_test_status : option json;
  wr_created_at : string;
}.

Record Db := {
  db_sessions : gmap string string;
  db_messages : list (string * StoredMessage);
  db_summaries : gmap string SummaryRow;
  db_tools : list ToolRow;
  db_workspaces : gmap string WorkspaceRow;
}.

Definition Db_new : Db :=
  {| db_sessions := ∅; db_messages := []; db_summaries := ∅; db_tools := []; db_workspaces := ∅ |}.

Inductive session_error :=
  | SessionNotFoundError (session_id : string)
  | InvalidSummaryError (session_id : string) (covers_up_to_seq max_seq : Z)
  | IntegrityError
  | PayloadError.

Definition db_prog (A : Type) : Type := prog Db session_error A.
#[export] Instance db_prog_ret : MRet db_prog := λ A, @mret (prog Db session_error) _ A.
#[export] Instance db_prog_bind : MBind db_prog := λ A B, @mbind (prog Db session_error) _ A B.

(** [with self._connection()]: commit, or nothing. *)
Definition connection {A} (m : db_prog A) : db_prog A := λ db,
  match m db with
  | (Ret a, db') => (Ret a, db')
  | (Raise e, _) => (Raise e, db)
  end.

Definition require_session (sid : string) : db_prog unit := λ db,
  match db_sessions db !! sid with
  | None => (Raise (SessionNotFoundError sid), db)
  | Some _ => (Ret tt, db)
  end.

(** The body of every method but [create_session]: [_require_session] first. *)
Definition in_session {A} (sid : string) (m : db_prog A) : db_prog A := connection (require_session sid ;; m).

(** [row[0] or 0] of [SELECT MAX(seq)]: [NULL], no rows, counts as 0. *)
Definition max_seq (seqs : list Z) : Z :=
  match seqs with [] => 0 | n :: ns => foldl Z.max n ns end.

(** ** Sessions *)

Definition rows_of (sid : string) (rows : list (string * StoredMessage)) : list StoredMessage :=
  omap (λ r, if bool_decide (r.1 = sid) then Some r.2 else None) rows.

Definition messages_of (sid : string) (db : Db) : list StoredMessage := rows_of sid (db_messages db).

Definition seqs_of (sid : string) (db : Db) : list Z := seq <$> messages_of sid db.

Definition with_messages (ms : list (string * StoredMessage)) (db : Db) : Db :=
  {| db_sessions := db_sessions db; db_messages := ms; db_summaries := db_summaries db;
     db_tools := db_tools db; db_workspaces := db_workspaces db |}.

(** [create_session]: the id is the primary key. *)
Definition create_session (sid created_at : string) : db_prog unit := connection (λ db,
  match db_sessions db !! sid with
  | Some _ => (Raise IntegrityError, db)
  | None => (Ret tt, {| db_sessions := <[sid := created_at]> (db_sessions db); db_messages := db_messages db;
                        db_summaries := db_summaries db; db_tools := db_tools db;
                        db_workspaces := db_workspaces db |})
  end).

Definition append_message (sid role_ content_ created_at : string) : db_prog unit := in_session sid (
  (λ db,
    let next_seq := (max_seq (seqs_of sid db) + 1)%Z in
    if bool_decide (next_seq ∈ seqs_of sid db) then (Raise IntegrityError, db)
    else (Ret tt, with_messages (db_messages db ++
           [(sid, {| seq := next_seq; sm_role := role_; sm_content := content_; sm_created_at := created_at |})]) db))).

Definition by_seq (m1 m2 : StoredMessage) : Prop := (seq m1 ≤ seq m2)%Z.
#[export] Instance by_seq_dec : RelDecision by_seq.
Proof. intros m1 m2. unfold by_seq. apply _. Defined.

Definition covers (sid : string) (db : Db) : Z := from_option sr_covers 0%Z (db_summaries db !! sid).

Definition read_session (sid : string) : db_prog Session := in_session sid (
  (λ db, (Ret {| ss_session_id := sid;
                 ss_messages := sort_by by_seq (filter (λ m, (covers sid db < seq m)%Z) (messages_of sid db));
                 ss_summary := (λ r, {| covers_up_to_seq := sr_covers r; summary_text := sr_text r;
                                        su_created_at := sr_created_at r |}) <$> db_summaries db !! sid |}, db))).

Definition summarize (sid text : string) (covers_up_to : Z) (created_at : string) : db_prog unit := in_session sid (
  (λ db,
    let m := max_seq (seqs_of sid db) in
    if (m <? covers_up_to)%Z then (Raise (InvalidSummaryError sid covers_up_to m), db)
    else (Ret tt, {| db_sessions := db_sessions db; db_messages := db_messages db;
                     db_summaries := <[sid := {| sr_covers := covers_up_to; sr_text := text;
                                                 sr_created_at := created_at |}]> (db_summaries db);
                     db_tools := db_tools db; db_workspaces := db_workspaces db |}))).

(** [DELETE FROM messages WHERE session_id = ? AND seq <= ?]: the rows that stay. *)
Definition untrimmed (sid : string) (n : Z) (r : string * StoredMessage) : Prop := ¬ (r.1 = sid ∧ (seq r.2 ≤ n)%Z).
#[export] Instance untrimmed_dec sid n r : Decision (untrimmed sid n r).
Proof. unfold untrimmed. apply _. Defined.

(** [trim]: how many rows were deleted. *)
Definition trim (sid : string) : db_prog Z := in_session sid (
  (λ db,
    match db_summaries db !! sid with
    | None => (Ret 0%Z, db)
    | Some r =>
        let rest := filter (untrimmed sid (sr_covers r)) (db_messages db) in
        (Ret (Z.of_nat (length (db_messages db) - length rest)), with_messages rest db)
    end)).

(** ** Tool invocations *)

Record TerminalInvocation := {
  ti_seq : Z;
  ti_command : string;
  ti_cwd : string;
  ti_exit_code : Z;
  ti_output : string;
  ti_env : gmap string string;
  ti_running_processes : list string;
  ti_created_at : string;
}.

Record FilesystemInvocation := {
  fi_seq : Z;
  fi_operation : string;
  fi_path : string;
  fi_result : string;
  fi_created_at : string;
}.

Record TerminalState := {
  ts_cwd : string;
  ts_env : gmap string string;
  ts_running_processes : list string;
  as_of_seq : Z;
}.

Definition tool_seqs (sid : string) (db : Db) : list Z :=
  tr_seq <$> filter (λ r, tr_session r = sid) (db_tools db).

Definition insert_invocation (sid tool_id : string) (payload : json) (created_at : string) : db_prog unit := λ db,
  let next_seq := (max_seq (tool_seqs sid db) + 1)%Z in
  if bool_decide (next_seq ∈ tool_seqs sid db) then (Raise IntegrityError, db)
  else (Ret tt, {| db_sessions := db_sessions db; db_messages := db_messages db; db_summaries := db_summaries db;
                   db_tools := db_tools db ++ [{| tr_session := sid; tr_tool := tool_id; tr_seq := next_seq;
                                                  tr_payload := payload; tr_created_at := created_at |}];
                   db_workspaces := db_workspaces db |}).

Definition tool_by_seq (r1 r2 : ToolRow) : Prop := (tr_seq r1 ≤ tr_seq r2)%Z.
#[export] Instance tool_by_seq_dec : RelDecision tool_by_seq.
Proof. intros r1 r2. unfold tool_by_seq. apply _. Defined.

(** [_read_history_rows] *)
Definition history_rows (sid tool_id : string) (db : Db) : list ToolRow :=
  sort_by tool_by_seq (filter (λ r, tr_session r = sid ∧ tr_tool r = tool_id) (db_tools db)).

Definition terminal_payload (command cwd : string) (exit_code : Z) (output : string) (env : gmap string string)
    (running_processes : list string) : json :=
  JObj [("command", to_json command); ("cwd", to_json cwd); ("exit_code", to_json exit_code);
        ("output", to_json output); ("env", to_json env); ("running_processes", to_json running_processes)].

Definition record_terminal (sid command cwd : string) (exit_code : Z) (output : string) (env : gmap string string)
    (running_processes : list string) (created_at : string) : db_prog unit := in_session sid (
  insert_invocation sid "terminal" (terminal_payload command cwd exit_code output env running_processes) created_at).

Definition terminal_of_row (r : ToolRow) : option TerminalInvocation :=
  command ← j_field string (tr_payload r) "command";
  cwd ← j_field string (tr_payload r) "cwd";
  exit_code ← j_field Z (tr_payload r) "exit_code";
  output ← j_field string (tr_payload r) "output";
  env ← j_field (gmap string string) (tr_payload r) "env";
  ps ← j_field (list string) (tr_payload r) "running_processes";
  mret {| ti_seq := tr_seq r; ti_command := command; ti_cwd := cwd; ti_exit_code := exit_code; ti_output := output;
          ti_env := env; ti_running_processes := ps; ti_created_at := tr_created_at r |}.

Definition of_payload {A} (o : option A) : db_prog A := λ db,
  match o with Some a => (Ret a, db) | None => (Raise PayloadError, db) end.

Definition read_terminal_history (sid : string) : db_prog (list TerminalInvocation) := in_session sid (
  (λ db, of_payload (mapM terminal_of_row (history_rows sid "terminal" db)) db)).

Definition read_terminal_state (sid : string) : db_prog (option TerminalState) := in_session sid (
  (λ db, match last (history_rows sid "terminal" db) with
         | None => (Ret None, db)
         | Some r => of_payload (t ← terminal_of_row r;
                       mret (Some {| ts_cwd := ti_cwd t; ts_env := ti_env t;
                                     ts_running_processes := ti_running_processes t; as_of_seq := ti_seq t |})) db
         end)).

Definition filesystem_payload (operation path result : string) : json :=
  JObj [("operation", to_json operation); ("path", to_json path); ("result", to_json result)].

Definition record_filesystem (sid operation path result created_at : string) : db_prog unit := in_session sid (
  insert_invocation sid "filesystem" (filesystem_payload operation path result) created_at).

Definition filesystem_of_row (r : ToolRow) : option FilesystemInvocation :=
  operation ← j_field string (tr_payload r) "operation";
  path ← j_field string (tr_payload r) "path";
  result ← j_field string (tr_payload r) "result";
  mret {| fi_seq := tr_seq r; fi_operation := operation; fi_path := path; fi_result := result;
          fi_created_at := tr_created_at r |}.

Definition read_filesystem_history (sid : string) : db_prog (list FilesystemInvocation) := in_session sid (
  (λ db, of_payload (mapM filesystem_of_row (history_rows sid "filesystem" db)) db)).

(** ** Workspaces *)

Record WorkspaceSnapshot := {
  ws_session_id : string;
  ws_branch : string;
  ws_git_diff : string;
  ws_diff_truncated : bool;
  ws_open_files : list string;
  ws_open_files_truncated : bool;
  ws_test_status : option RunStatus;
  ws_created_at : string;
}.

Definition run_status_to_json (s : RunStatus) : json :=
  JObj [("passed", to_json (passed s)); ("failed", to_json (failed s)); ("total", to_json (total s));
        ("summary", to_json (rs_summary s))].

(** [RunStatus( **json.loads(...))] *)
Definition run_status_of_json (j : json) : option RunStatus :=
  if j_only_keys j ["passed"; "failed"; "total"; "summary"] then
    p ← j_field Z j "passed"; f ← j_field Z j "failed"; t ← j_field Z j "total";
    s ← j_field_or None j "summary";
    mret {| passed := p; failed := f; total := t; rs_summary := s |}
  else None.

Definition b2z (b : bool) : Z := if b then 1 else 0.

(** [WorkspaceStore.capture]: one row per session, replaced by the next capture. *)
Definition store_capture (sid branch git_diff : string) (diff_truncated : bool) (open_files : list string)
    (open_files_truncated : bool) (test_status : option RunStatus) (created_at : string) : db_prog unit := in_session sid (
  (λ db, (Ret tt, {| db_sessions := db_sessions db; db_messages := db_messages db; db_summaries := db_summaries db;
                     db_tools := db_tools db;
                     db_workspaces := <[sid := {| wr_branch := branch; wr_git_diff := git_diff;
                       wr_diff_truncated := b2z diff_truncated; wr_open_files := to_json open_files;
                       wr_open_files_truncated := b2z open_files_truncated;
                       wr_test_status := run_status_to_json <$> test_status;
                       wr_created_at := created_at |}]> (db_workspaces db) |}))).

Definition store_read (sid : string) : db_prog (option WorkspaceSnapshot) := in_session sid (
  (λ db,
    match db_workspaces db !! sid with
    | None => (Ret None, db)
    | Some r =>
        of_payload (
          files ← of_json (wr_open_files r);
          status ← match wr_test_status r with None => Some None | Some j => Some <$> run_status_of_json j end;
          mret (Some {| ws_session_id := sid; ws_branch := wr_branch r; ws_git_diff := wr_git_diff r;
                        ws_diff_truncated := negb (wr_diff_truncated r =? 0)%Z; ws_open_files := files;
                        ws_open_files_truncated := negb (wr_open_files_truncated r =? 0)%Z;
                        ws_test_status := status; ws_created_at := wr_created_at r |})) db
    end)).

(** Where [items[:n]] cuts: a negative [n] counts from the end. *)
Definition slice_end (n : Z) (length : nat) : nat :=
  Z.to_nat (if (n <? 0)%Z then Z.of_nat length + n else n).

Definition truncate_text (text : string) (max_chars : Z) : string * bool :=
  let n := String.length text in
  if (Z.of_nat n <=? max_chars)%Z then (text, false)
  else (str_take (slice_end max_chars n) text +:+ "... [truncated " +:+ str_of_Z (Z.of_nat n - max_chars) +:+ " chars]", true).

Definition truncate_list (items : list string) (max_count : Z) : list string * bool :=
  if (Z.of_nat (length items) <=? max_count)%Z then (items, false)
  else (take (slice_end max_count (length items)) items, true).

(** [WorkspaceManager.capture] *)
Definition capture (diff_max_chars open_files_max : Z) (sid branch git_diff : string) (open_files : list string)
    (test_status : option RunStatus) (created_at : string) : db_prog unit :=
  let '(diff, dt) := truncate_text git_diff diff_max_chars in
  let '(files, ft) := truncate_list open_files open_files_max in
  store_capture sid branch diff dt files ft test_status created_at.

(** ** Operations in sequence *)

Inductive db_op :=
  | OCreate (sid created_at : string)
  | OAppend (sid role content created_at : string)
  | OSummarize (sid text : string) (covers_up_to : Z) (created_at : string)
  | OTrim (sid : string)
  | OTerminal (sid command cwd : string) (exit_code : Z) (output : string) (env : gmap string string)
      (running_processes : list string) (created_at : string)
  | OFilesystem (sid operation path result created_at : string)
  | OCapture (diff_max_chars open_files_max : Z) (sid branch git_diff : string) (open_files : list string)
      (test_status : option RunStatus) (created_at : string).

Definition run_db_op (db : Db) (o : db_op) : Db :=
  match o with
  | OCreate sid at_ => (create_session sid at_ db).2
  | OAppend sid r c at_ => (append_message sid r c at_ db).2
  | OSummarize sid t n at_ => (summarize sid t n at_ db).2
  | OTrim sid => (trim sid db).2
  | OTerminal sid c w x o e ps at_ => (record_terminal sid c w x o e ps at_ db).2
  | OFilesystem sid o p r at_ => (record_filesystem sid o p r at_ db).2
  | OCapture dm fm sid b d fs ts at_ => (capture dm fm sid b d fs ts at_ db).2
  end.

Definition run_db (ops : list db_op) : Db := foldl run_db_op Db_new ops.

(** ** Sequence numbers *)

Lemma foldl_max_ge n ns : (n ≤ foldl Z.max n ns)%Z ∧ ∀ m, m ∈ ns → (m ≤ foldl Z.max n ns)%Z.
Proof.
  revert n. induction ns as [|k ns IH]; intros n; simpl; [split; [lia|]; by intros m ?%not_elem_of_nil|].
  destruct (IH (Z.max n k)) as [H1 H2]. split; [lia|]. intros m [->|Hm]%elem_of_cons; [lia|by apply H2].
Qed.

Lemma max_seq_ge ns n : n ∈ ns → (n ≤ max_seq ns)%Z.
Proof.
  destruct ns as [|k ns]; simpl; [by intros ?%not_elem_of_nil|].
  destruct (foldl_max_ge k ns) as [H1 H2]. intros [->|Hn]%elem_of_cons; [done|by apply H2].
Qed.

Lemma max_seq_nonneg ns : Forall (λ n, 0 < n)%Z ns → (0 ≤ max_seq ns)%Z.
Proof.
  destruct ns as [|k ns]; simpl; [done|]. intros [Hk _]%Forall_cons. destruct (foldl_max_ge k ns). lia.
Qed.

(** Row numbers: positive, and growing in the order of the rows. *)
Definition numbered (ns : list Z) : Prop := StronglySorted Z.lt ns ∧ Forall (λ n, 0 < n)%Z ns.

Lemma numbered_next ns : numbered ns → numbered (ns ++ [(max_seq ns + 1)%Z]).
Proof.
  intros [Hs Hp]. split.
  - assert (H : ∀ n, n ∈ ns → (n < max_seq ns + 1)%Z) by (intros n Hn%max_seq_ge; lia).
    revert H. generalize (max_seq ns + 1)%Z. clear Hp. induction Hs as [|n ns Hs IH Hn]; intros k Hk; simpl.
    + repeat constructor.
    + constructor; [apply IH; intros; apply Hk; by right|]. apply Forall_app. split; [done|].
      constructor; [apply Hk; left|constructor].
  - apply Forall_app. split; [done|]. constructor; [|constructor]. pose proof (max_seq_nonneg ns Hp). lia.
Qed.

Lemma numbered_filter {A} (f : A → Z) (P : A → Prop) `{!∀ x, Decision (P x)} l :
  numbered (f <$> l) → numbered (f <$> filter P l).
Proof.
  intros [Hs Hp]. induction l as [|x l IH]; [done|].
  inversion Hs as [|? ? Hs' Hx]; subst. apply Forall_cons in Hp as [Hp0 Hp]. destruct (IH Hs' Hp) as [H1 H2].
  rewrite filter_cons. case_decide; [|done]. split; simpl; constructor; try done.
  apply Forall_forall. intros y Hy. apply (proj1 (Forall_forall _ _) Hx).
  apply list_elem_of_fmap in Hy as (z & -> & Hz).
  apply list_elem_of_filter in Hz as [_ Hz]. by apply list_elem_of_fmap_2.
Qed.

(** A numbered list is its own [ORDER BY]. *)
Lemma numbered_sorted {A} (f : A → Z) (l : list A) :
  numbered (f <$> l) → StronglySorted (λ x y, (f x ≤ f y)%Z) l.
Proof.
  intros [Hs _]. induction l as [|x l IH]; [constructor|]. inversion Hs as [|? ? Hs' Hx]; subst.
  constructor; [by apply IH|]. apply Forall_forall. intros y Hy.
  pose proof (proj1 (Forall_forall _ _) Hx (f y) (list_elem_of_fmap_2 _ _ _ Hy)) as H. simpl in H. lia.
Qed.

Lemma fresh_seq ns : numbered ns → bool_decide ((max_seq ns + 1)%Z ∈ ns) = false.
Proof. intros _. apply bool_decide_eq_false. intros H%max_seq_ge. lia. Qed.

(** ** The invariant *)

Record db_wf (db : Db) : Prop := {
  dw_messages sid : numbered (seqs_of sid db);
  dw_tools sid : numbered (tool_seqs sid db);
}.

Lemma in_session_ok {A} sid (m : db_prog A) db :
  in_session sid m db =
    match db_sessions db !! sid with
    | None => (Raise (SessionNotFoundError sid), db)
    | Some _ => match m db with (Ret a, db') => (Ret a, db') | (Raise e, _) => (Raise e, db) end
    end.
Proof.
  unfold in_session, connection, mbind, db_prog_bind, mbind, prog_bind, require_session.
  by destruct (db_sessions db !! sid).
Qed.

Lemma in_session_wf {A} sid (m : db_prog A) db :
  db_wf db → (∀ a db', m db = (Ret a, db') → db_wf db') → db_wf (in_session sid m db).2.
Proof.
  intros Hwf Hm. rewrite in_session_ok. destruct (db_sessions db !! sid); [|done].
  destruct (m db) as [[a|e] db'] eqn:E; [by eapply Hm|done].
Qed.

(** Changing neither messages nor tool rows. *)
Lemma db_wf_same db db' : db_messages db' = db_messages db → db_tools db' = db_tools db → db_wf db → db_wf db'.
Proof.
  intros Em Et [Hm Ht]. split; intros sid; unfold seqs_of, messages_of, tool_seqs; rewrite ?Em, ?Et; [apply Hm|apply Ht].
Qed.

Lemma messages_append sid sid' m db :
  messages_of sid' (with_messages (db_messages db ++ [(sid, m)]) db) =
    messages_of sid' db ++ (if decide (sid = sid') then [m] else []).
Proof.
  unfold messages_of, rows_of. simpl. rewrite omap_app. f_equal. simpl. by destruct (decide (sid = sid')); case_bool_decide.
Qed.

Lemma rows_of_cons sid s m rows :
  rows_of sid ((s, m) :: rows) = if decide (s = sid) then m :: rows_of sid rows else rows_of sid rows.
Proof. unfold rows_of. simpl. by case_bool_decide; case_decide. Qed.

(** What a trim of [sid] up to [n] leaves of a session. *)
Definition kept_by_trim (sid sid' : string) (n : Z) (ms : list StoredMessage) : list StoredMessage :=
  filter (λ m, ¬ (sid' = sid ∧ (seq m ≤ n)%Z)) ms.

Lemma rows_of_untrimmed sid sid' n rows :
  rows_of sid' (filter (untrimmed sid n) rows) = kept_by_trim sid sid' n (rows_of sid' rows).
Proof.
  induction rows as [|[s m] rows IH]; [done|]. unfold kept_by_trim in *. rewrite rows_of_cons, filter_cons.
  destruct (decide (untrimmed sid n (s, m))) as [Hk|Hk]; unfold untrimmed in Hk; simpl in Hk;
    rewrite ?rows_of_cons, IH; destruct (decide (s = sid')) as [->|Hs]; try done; rewrite filter_cons.
  - by rewrite decide_True.
  - by rewrite decide_False.
Qed.

Lemma messages_trim sid sid' n db :
  messages_of sid' (with_messages (filter (untrimmed sid n) (db_messages db)) db) =
    kept_by_trim sid sid' n (messages_of sid' db).
Proof. apply rows_of_untrimmed. Qed.

(** As many rows go from the table as messages from the session. *)
Lemma untrimmed_count sid n rows :
  length rows + length (kept_by_trim sid sid n (rows_of sid rows)) =
    length (rows_of sid rows) + length (filter (untrimmed sid n) rows).
Proof.
  induction rows as [|[s m] rows IH]; [done|]. unfold kept_by_trim in *. rewrite rows_of_cons, filter_cons.
  destruct (decide (untrimmed sid n (s, m))) as [Hk|Hk]; unfold untrimmed in Hk; simpl in Hk;
    destruct (decide (s = sid)) as [->|Hs]; rewrite ?filter_cons.
  - rewrite decide_True by done. rewrite !length_cons. lia.
  - rewrite !length_cons. lia.
  - rewrite decide_False by done. rewrite !length_cons. lia.
  - exfalso. tauto.
Qed.

Lemma insert_invocation_wf sid tool p at_ db u db' :
  db_wf db → insert_invocation sid tool p at_ db = (Ret u, db') → db_wf db'.
Proof.
  intros [Hm Ht]. unfold insert_invocation. rewrite (fresh_seq _ (Ht sid)). intros [= <- <-]. split; [done|].
  intros sid'. unfold tool_seqs. simpl. rewrite filter_app, filter_cons, filter_nil, fmap_app. simpl.
  case_decide as Hs; [subst; apply numbered_next, Ht|]. rewrite app_nil_r. apply Ht.
Qed.

Lemma run_db_op_wf db o : db_wf db → db_wf (run_db_op db o).
Proof.
  intros Hwf. destruct o; simpl.
  - unfold create_session, connection. destruct (db_sessions db !! sid); [done|]. by apply (db_wf_same db).
  - apply in_session_wf; [done|]. intros a db'. cbv beta zeta. rewrite (fresh_seq _ (dw_messages _ Hwf sid)).
    intros [= <- <-]. split; [|apply Hwf]. intros sid'. unfold seqs_of. rewrite messages_append, fmap_app.
    case_decide; [subst; apply numbered_next, Hwf|]. simpl. rewrite app_nil_r. apply Hwf.
  - apply in_session_wf; [done|]. intros a db'. cbv beta zeta. destruct (_ <? _)%Z; [done|]. intros [= <- <-]. by apply (db_wf_same db).
  - apply in_session_wf; [done|]. intros a db'. cbv beta zeta. destruct (db_summaries db !! sid); intros [= <- <-]; [|done].
    split; [|apply Hwf]. intros sid'. unfold seqs_of. rewrite messages_trim. apply numbered_filter, Hwf.
  - apply in_session_wf; [done|]. intros a db' E. by eapply insert_invocation_wf.
  - apply in_session_wf; [done|]. intros a db' E. by eapply insert_invocation_wf.
  - unfold capture. destruct (truncate_text _ _), (truncate_list _ _). apply in_session_wf; [done|].
    intros a db' [= <- <-]. by apply (db_wf_same db).
Qed.

Lemma run_db_wf ops : db_wf (run_db ops).
Proof.
  unfold run_db. assert (Hwf : db_wf Db_new) by (split; intros sid; split; constructor).
  revert Hwf. generalize Db_new. induction ops as [|o ops IH]; intros db Hwf; [done|]. by apply IH, run_db_op_wf.
Qed.

(** ** What reading gives *)

Definition visible (sid : string) (db : Db) : list StoredMessage :=
  filter (λ m, (covers sid db < seq m)%Z) (messages_of sid db).

Definition read_summary (sid : string) (db : Db) : option Summary :=
  (λ r, {| covers_up_to_seq := sr_covers r; summary_text := sr_text r; su_created_at := sr_created_at r |})
    <$> db_summaries db !! sid.

Lemma read_session_wf sid db :
  db_wf db →
  read_session sid db =
    match db_sessions db !! sid with
    | None => (Raise (SessionNotFoundError sid), db)
    | Some _ => (Ret {| ss_session_id := sid; ss_messages := visible sid db; ss_summary := read_summary sid db |}, db)
    end.
Proof.
  intros Hwf. unfold read_session. rewrite in_session_ok. destruct (db_sessions db !! sid); [|done].
  cbv beta iota. fold (visible sid db) (read_summary sid db). rewrite sort_by_id; [done|].
  apply (numbered_sorted seq), numbered_filter, Hwf.
Qed.

Lemma append_message_wf sid r c at_ db :
  db_wf db →
  append_message sid r c at_ db =
    match db_sessions db !! sid with
    | None => (Raise (SessionNotFoundError sid), db)
    | Some _ => (Ret tt, with_messages (db_messages db ++
        [(sid, {| seq := max_seq (seqs_of sid db) + 1; sm_role := r; sm_content := c; sm_created_at := at_ |})]) db)
    end.
Proof.
  intros Hwf. unfold append_message. rewrite in_session_ok. destruct (db_sessions db !! sid); [|done].
  cbv beta zeta iota. by rewrite (fresh_seq _ (dw_messages _ Hwf sid)).
Qed.

(** Appending a message makes it the last one read, and changes nothing else that is read,
    in this session or another, as long as the summary does not reach past what is stored. *)
Theorem appended_message_is_read ops sid r c at_ s :
  let db := run_db ops in
  (read_session sid db).1 = Ret s →
  (covers sid db ≤ max_seq (seqs_of sid db))%Z →
  let '(result, db') := append_message sid r c at_ db in
  result = Ret tt ∧
  (read_session sid db').1 = Ret {| ss_session_id := sid;
    ss_messages := ss_messages s ++
      [{| seq := max_seq (seqs_of sid db) + 1; sm_role := r; sm_content := c; sm_created_at := at_ |}];
    ss_summary := ss_summary s |} ∧
  (∀ sid', sid' ≠ sid → (read_session sid' db').1 = (read_session sid' db).1).
Proof.
  intros db Hread Hc. pose proof (run_db_wf ops) as Hwf. fold db in Hwf.
  pose proof (run_db_op_wf db (OAppend sid r c at_) Hwf) as Hwf'. simpl in Hwf'.
  rewrite (read_session_wf sid db Hwf) in Hread. rewrite append_message_wf in * by done.
  destruct (db_sessions db !! sid) as [t|] eqn:Es; [|done]. injection Hread as <-. simpl in Hwf'.
  split; [done|]. split.
  - rewrite read_session_wf by done. simpl. rewrite Es. simpl. do 2 f_equal. unfold visible.
    rewrite messages_append, decide_True, filter_app by done. f_equal.
    rewrite filter_cons, decide_True; [done|]. simpl. unfold covers in *. simpl in *. lia.
  - intros sid' Hne. rewrite !read_session_wf by done. simpl. destruct (db_sessions db !! sid'); [|done]. simpl.
    unfold visible. rewrite messages_append, decide_False by done. by rewrite app_nil_r.
Qed.

(** C31. Trimming is invisible.  Whatever was stored and summarized before, every session reads the
    same after a trim, although exactly the messages the session's summary covers are gone:
    the others stay in their order, those of other sessions all stay, and the number
    returned is the number of messages deleted.  A session that does not exist is
    reported and nothing changes. *)
Theorem trim_is_invisible ops sid :
  let db := run_db ops in
  let '(result, db') := trim sid db in
  (∀ sid', (read_session sid' db').1 = (read_session sid' db).1) ∧
  match result with
  | Ret n => is_Some (db_sessions db !! sid) ∧
      (∀ sid', messages_of sid' db' = match db_summaries db !! sid with
                                      | Some r => filter (λ m, ¬ (sid' = sid ∧ (seq m ≤ sr_covers r)%Z)) (messages_of sid' db)
                                      | None => messages_of sid' db
                                      end) ∧
      n = Z.of_nat (length (messages_of sid db) - length (messages_of sid db'))
  | Raise e => db_sessions db !! sid = None ∧ e = SessionNotFoundError sid ∧ db' = db
  end.
Proof.
  intros db. pose proof (run_db_wf ops) as Hwf. fold db in Hwf.
  pose proof (run_db_op_wf db (OTrim sid) Hwf) as Hwf'. simpl in Hwf'.
  unfold trim in *. rewrite in_session_ok in *. destruct (db_sessions db !! sid) as [t|] eqn:Es; [|done].
  cbv beta iota zeta in *. destruct (db_summaries db !! sid) as [sr|] eqn:Esum; simpl in Hwf'.
  2: { split; [done|]. split_and!; [done|done|lia]. }
  set (db' := with_messages _ db) in *.
  assert (Hm : ∀ sid', messages_of sid' db' = kept_by_trim sid sid' (sr_covers sr) (messages_of sid' db)).
  { intros sid'. apply messages_trim. }
  assert (Hcov : covers sid db = sr_covers sr) by (unfold covers; by rewrite Esum). split; [|split_and!].
  - intros sid'. rewrite !read_session_wf by done. simpl. destruct (db_sessions db !! sid'); [|done]. simpl.
    do 2 f_equal. unfold visible, kept_by_trim in *. rewrite Hm. change (covers sid' db') with (covers sid' db).
    rewrite list_filter_filter. apply list_filter_iff. intros m. split; [by intros [? _]|].
    intros Hv. split; [done|]. intros [-> Hle]. lia.
  - done.
  - exact Hm.
  - rewrite Hm. pose proof (untrimmed_count sid (sr_covers sr) (db_messages db)) as Hn.
    unfold messages_of. unfold kept_by_trim in *. pose proof (length_filter (untrimmed sid (sr_covers sr)) (db_messages db)).
    lia.
Qed.

(** After a trim that emptied a session, the numbering starts over at or below what the
    summary covers: the next message is accepted and stored, but the session reads as before,
    without it. *)
Theorem append_after_full_trim_is_lost ops sid r c at_ s :
  let db := run_db ops in
  (read_session sid db).1 = Ret s → messages_of sid db = [] → (0 < covers sid db)%Z →
  let '(result, db') := append_message sid r c at_ db in
  result = Ret tt ∧ (read_session sid db').1 = Ret s.
Proof.
  intros db Hread Hm Hc. pose proof (run_db_wf ops) as Hwf. fold db in Hwf.
  pose proof (run_db_op_wf db (OAppend sid r c at_) Hwf) as Hwf'. simpl in Hwf'.
  rewrite (read_session_wf sid db Hwf) in Hread. rewrite append_message_wf in * by done.
  destruct (db_sessions db !! sid) as [t|] eqn:Es; [|done]. injection Hread as <-. simpl in Hwf'.
  split; [done|]. rewrite read_session_wf by done. simpl. rewrite Es. simpl. do 2 f_equal. unfold visible.
  rewrite messages_append, decide_True, Hm by done. unfold seqs_of. rewrite Hm. simpl.
  rewrite filter_cons, decide_False; [done|]. unfold covers in *. simpl in *. lia.
Qed.

(** Two messages, both summarized and trimmed; the third is gone. *)
Definition trimmed_ops : list db_op :=
  [OCreate "s" "t0"; OAppend "s" "user" "one" "t1"; OAppend "s" "user" "two" "t2";
   OSummarize "s" "so far" 2 "t3"; OTrim "s"].

Lemma append_after_full_trim_is_lost_witness :
  let db := run_db trimmed_ops in
  let db' := (append_message "s" "user" "three" "t4" db).2 in
  length (messages_of "s" db') = 1 ∧ (read_session "s" db').1 = (read_session "s" db).1.
Proof.
  cbv zeta. split; [vm_compute; reflexivity|].
  pose proof (append_after_full_trim_is_lost trimmed_ops "s" "user" "three" "t4"
    {| ss_session_id := "s"; ss_messages := [];
       ss_summary := Some {| covers_up_to_seq := 2; summary_text := "so far"; su_created_at := "t3" |} |}
    ltac:(vm_compute; reflexivity) ltac:(vm_compute; reflexivity) ltac:(vm_compute; reflexivity)) as H.
  destruct (append_message "s" "user" "three" "t4" (run_db trimmed_ops)) as [r db'].
  destruct H as (_ & H). cbn [snd]; rewrite H; vm_compute; reflexivity.
Defined.

(** The same run, read at the end. *)
Example third_message_lost :
  let db := run_db [OCreate "s" "t0"; OAppend "s" "user" "one" "t1"; OAppend "s" "user" "two" "t2";
    OSummarize "s" "so far" 2 "t3"; OTrim "s"; OAppend "s" "user" "three" "t4"] in
  (read_session "s" db).1 = Ret {| ss_session_id := "s"; ss_messages := [];
    ss_summary := Some {| covers_up_to_seq := 2; summary_text := "so far"; su_created_at := "t3" |} |}.
Proof. vm_compute. reflexivity. Qed.

(** ** Tool state and workspaces *)

Lemma terminal_roundtrip sid n command cwd x output env ps at_ :
  terminal_of_row {| tr_session := sid; tr_tool := "terminal"; tr_seq := n;
    tr_payload := terminal_payload command cwd x output env ps; tr_created_at := at_ |} =
  Some {| ti_seq := n; ti_command := command; ti_cwd := cwd; ti_exit_code := x; ti_output := output; ti_env := env;
          ti_running_processes := ps; ti_created_at := at_ |}.
Proof. unfold terminal_of_row, terminal_payload, j_field, j_get. json_simpl. done. Qed.

Lemma mapM_snoc {A B} (f : A → option B) l r x y :
  mapM f l = Some r → f x = Some y → mapM f (l ++ [x]) = Some (r ++ [y]).
Proof.
  intros Hl Hx. apply mapM_Some. apply mapM_Some in Hl. apply Forall2_app; [done|]. by constructor.
Qed.

(** The history of one tool: its rows in order. *)
Definition tool_rows (sid tool : string) (db : Db) : list ToolRow :=
  filter (λ r, tr_session r = sid ∧ tr_tool r = tool) (db_tools db).

Lemma history_rows_wf sid tool db : db_wf db → history_rows sid tool db = tool_rows sid tool db.
Proof.
  intros Hwf. unfold history_rows, tool_rows. apply sort_by_id. apply (numbered_sorted tr_seq).
  pose proof (dw_tools _ Hwf sid) as Hn. unfold tool_seqs in Hn.
  apply (numbered_filter tr_seq (λ r, tr_tool r = tool)) in Hn. rewrite list_filter_filter in Hn.
  by erewrite list_filter_iff; [exact Hn|]; simpl; tauto.
Qed.

(** A recorded terminal invocation is the last of the history and the state that is read,
    field by field; the earlier history is untouched, and so is the filesystem's. *)
Theorem terminal_invocation_is_read ops sid command cwd x output env ps at_ before :
  let db := run_db ops in
  (read_terminal_history sid db).1 = Ret before →
  let '(result, db') := record_terminal sid command cwd x output env ps at_ db in
  let n := (max_seq (tool_seqs sid db) + 1)%Z in
  result = Ret tt ∧
  (read_terminal_history sid db').1 = Ret (before ++ [{| ti_seq := n; ti_command := command; ti_cwd := cwd;
     ti_exit_code := x; ti_output := output; ti_env := env; ti_running_processes := ps; ti_created_at := at_ |}]) ∧
  (read_terminal_state sid db').1 =
    Ret (Some {| ts_cwd := cwd; ts_env := env; ts_running_processes := ps; as_of_seq := n |}) ∧
  (read_filesystem_history sid db').1 = (read_filesystem_history sid db).1.
Proof.
  intros db Hread. pose proof (run_db_wf ops) as Hwf. fold db in Hwf.
  pose proof (run_db_op_wf db (OTerminal sid command cwd x output env ps at_) Hwf) as Hwf'. simpl in Hwf'.
  unfold record_terminal, read_terminal_history, read_terminal_state, read_filesystem_history in *.
  rewrite in_session_ok in Hread. rewrite in_session_ok in Hwf'. rewrite in_session_ok. destruct (db_sessions db !! sid) as [t|] eqn:Es; [|done].
  unfold insert_invocation in *. rewrite (fresh_seq _ (dw_tools _ Hwf sid)) in *. cbv beta iota zeta in *.
  simpl in Hwf'. set (db' := Build_Db _ _ _ _ _) in *.
  set (row := Build_ToolRow sid "terminal" _ _ _) in *.
  assert (Es' : db_sessions db' !! sid = Some t) by done.
  assert (Ht : history_rows sid "terminal" db' = history_rows sid "terminal" db ++ [row]).
  { rewrite !history_rows_wf by done. unfold tool_rows. simpl. rewrite filter_app, filter_cons, decide_True; done. }
  assert (Hf : history_rows sid "filesystem" db' = history_rows sid "filesystem" db).
  { rewrite !history_rows_wf by done. unfold tool_rows. simpl.
    rewrite filter_app, filter_cons, decide_False, filter_nil, app_nil_r; [done|]. by intros [_ [=]]. }
  pose proof (terminal_roundtrip sid (max_seq (tool_seqs sid db) + 1) command cwd x output env ps at_) as Hrow.
  fold row in Hrow. rewrite !in_session_ok, !Es'. cbv beta iota. rewrite Ht, Hf, Es, last_snoc. split; [done|].
  split; [|split].
  - destruct (mapM terminal_of_row (history_rows sid "terminal" db)) as [h|] eqn:Eh; simpl in Hread; [|done].
    injection Hread as <-. by rewrite (mapM_snoc _ _ _ _ _ Eh Hrow).
  - by rewrite Hrow.
  - by destruct (mapM filesystem_of_row _).
Qed.

Lemma str_take_length n s : String.length (str_take n s) = Nat.min n (String.length s).
Proof. revert s. induction n as [|n IH]; intros [|c s]; simpl; try done. by rewrite IH. Qed.

(** A captured workspace is read back as it was given, cut to the limits and marked as cut
    exactly when it exceeded them; a later capture replaces it. *)
Theorem capture_is_read ops dm fm sid branch diff files status at_ :
  let db := run_db ops in
  is_Some (db_sessions db !! sid) →
  let '(result, db') := capture dm fm sid branch diff files status at_ db in
  result = Ret tt ∧
  ∃ w, (store_read sid db').1 = Ret (Some w) ∧
    ws_branch w = branch ∧ ws_test_status w = status ∧ ws_created_at w = at_ ∧
    (ws_diff_truncated w = true ↔ (dm < Z.of_nat (String.length diff))%Z) ∧
    (ws_diff_truncated w = false → ws_git_diff w = diff) ∧
    (ws_diff_truncated w = true → str_startswith (ws_git_diff w) (str_take (slice_end dm (String.length diff)) diff) = true) ∧
    ws_open_files w = take (slice_end fm (length files)) files ∧
    (ws_open_files_truncated w = true ↔ (fm < Z.of_nat (length files))%Z).
Proof.
  intros db [t Es]. unfold capture.
  destruct (truncate_text diff dm) as [d dt] eqn:Ed. destruct (truncate_list files fm) as [fs ft] eqn:Ef.
  unfold store_capture. rewrite in_session_ok, Es. split; [done|].
  unfold store_read. rewrite in_session_ok. cbn [db_sessions db_workspaces]. rewrite Es, lookup_insert_eq.
  cbn -[of_json to_json run_status_of_json run_status_to_json truncate_text truncate_list].
  rewrite of_to_json. cbn -[of_json to_json run_status_of_json run_status_to_json].
  assert (Est : match run_status_to_json <$> status with
                | None => Some None | Some j => Some <$> run_status_of_json j end = Some status).
  { destruct status as [[p f n sm]|]; [|done]. cbn -[run_status_of_json run_status_to_json].
    unfold run_status_of_json, run_status_to_json, j_field, j_field_or, j_get. json_simpl. done. }
  rewrite Est. eexists. split; [reflexivity|]. cbn -[truncate_text truncate_list].
  unfold truncate_text in Ed. unfold truncate_list in Ef.
  destruct (Z.leb_spec (Z.of_nat (String.length diff)) dm); injection Ed as <- <-;
    destruct (Z.leb_spec (Z.of_nat (length files)) fm); injection Ef as <- <-; cbn -[slice_end]; split_and!; try done; try lia.
  all: try (split; [done|lia]).
  all: try (symmetry; apply take_ge; unfold slice_end; destruct (Z.ltb_spec fm 0); lia).
  all: intros _; apply str_prefix_spec; by eexists.
Qed.

(** ** Concrete stores *)

Definition sample_ops : list db_op :=
  [OCreate "s" "t0"; OAppend "s" "user" "one" "t1"; OAppend "s" "assistant" "two" "t2";
   OSummarize "s" "so far" 1 "t3"; OTrim "s"].

Lemma appended_message_is_read_witness :
  let db := run_db sample_ops in
  (read_session "s" (append_message "s" "user" "three" "t4" db).2).1 =
    Ret {| ss_session_id := "s";
           ss_messages := [{| seq := 2; sm_role := "assistant"; sm_content := "two"; sm_created_at := "t2" |};
                           {| seq := 3; sm_role := "user"; sm_content := "three"; sm_created_at := "t4" |}];
           ss_summary := Some {| covers_up_to_seq := 1; summary_text := "so far"; su_created_at := "t3" |} |}.
Proof.
  cbv zeta. pose proof (appended_message_is_read sample_ops "s" "user" "three" "t4"
    {| ss_session_id := "s";
       ss_messages := [{| seq := 2; sm_role := "assistant"; sm_content := "two"; sm_created_at := "t2" |}];
       ss_summary := Some {| covers_up_to_seq := 1; summary_text := "so far"; su_created_at := "t3" |} |}
    ltac:(vm_compute; reflexivity) ltac:(vm_compute; discriminate)) as H.
  destruct (append_message "s" "user" "three" "t4" (run_db sample_ops)) as [r db'].
  destruct H as (_ & H & _). exact H.
Defined.

Lemma terminal_invocation_is_read_witness :
  (read_terminal_state "s" (record_terminal "s" "ls" "/src" 0 "a.py" ∅ [] "t5" (run_db sample_ops)).2).1 =
    Ret (Some {| ts_cwd := "/src"; ts_env := ∅; ts_running_processes := []; as_of_seq := 1 |}).
Proof.
  pose proof (terminal_invocation_is_read sample_ops "s" "ls" "/src" 0 "a.py" ∅ [] "t5" []
    ltac:(vm_compute; reflexivity)) as H.
  destruct (record_terminal "s" "ls" "/src" 0 "a.py" ∅ [] "t5" (run_db sample_ops)) as [r db'].
  destruct H as (_ & _ & H & _). exact H.
Defined.

Lemma capture_is_read_witness :
  ∃ w, (store_read "s" (capture 3 1 "s" "main" "abcdef" ["a.py"; "b.py"] None "t6" (run_db sample_ops)).2).1 = Ret (Some w) ∧
    ws_open_files w = ["a.py"].
Proof.
  pose proof (capture_is_read sample_ops 3 1 "s" "main" "abcdef" ["a.py"; "b.py"] None "t6"
    ltac:(vm_compute; by eexists)) as H.
  destruct (capture 3 1 "s" "main" "abcdef" ["a.py"; "b.py"] None "t6" (run_db sample_ops)) as [r db'].
  destruct H as (_ & w & Hr & _ & _ & _ & _ & _ & _ & Hf & _). exists w. split; [exact Hr|exact Hf].
Defined.
