(* ===== verification/Managers.v ===== *)
(** * Managers: the stores from many threads ([state/session_manager.py],
    [state/tool_state_manager.py], [state/workspace_manager.py])

    The managers run every store call in a thread of its own ([asyncio.to_thread]), on a
    connection of its own.  [sqlite3] opens a transaction before a statement that writes and
    not before one that reads, and no method writes twice; so each statement of a call
    acts alone on the tables, and the statements of several calls interleave.  A call is the
    [sql] program of its statements, [interleave] runs several of them by a schedule, and
    [statements_refine_store] shows that a call nobody disturbs is the operation of [State].

    A writer that finds the file locked waits, up to five seconds; the time-out is left out. *)

From S2P Require Import Prelude.
From S2P Require Import PyFloat.
From S2P Require Import PyStr.
From S2P Require Import PyNum.
From S2P Require Import PyDict.
From S2P Require Import PyJson.
From S2P Require Import ApiModels.
From S2P Require Import Context.
From S2P Require Import State.

#[local] Open Scope list_scope.
#[local] Set Warnings "-register-all".

(** ** Statements *)

(** Either the outcome of a call, or its next statement. *)
Inductive sql (A : Type) : Type :=
  | Done (r : outcome session_error A)
  | Statement (f : Db → sql A * Db).
Arguments Done {A} _.
Arguments Statement {A} _.

(** A statement that only reads, one that writes and is committed, and [_require_session]. *)
Definition select {A} (k : Db → sql A) : sql A := Statement (λ db, (k db, db)).
Definition write {A} (m : db_prog A) : sql A := Statement (λ db, let '(r, db') := connection m db in (Done r, db')).
Definition requiring {A} (sid : string) (k : sql A) : sql A :=
  select (λ db, match db_sessions db !! sid with None => Done (Raise (SessionNotFoundError sid)) | Some _ => k end).

(** [INSERT INTO messages], [INSERT INTO tool_invocations] under a number read before. *)
Definition insert_message (sid role_ content_ created_at : string) (next_seq : Z) : db_prog unit := λ db,
  if bool_decide (next_seq ∈ seqs_of sid db) then (Raise IntegrityError, db)
  else (Ret tt, with_messages (db_messages db ++
         [(sid, {| seq := next_seq; sm_role := role_; sm_content := content_; sm_created_at := created_at |})]) db).

Definition with_tools (rows : list ToolRow) (db : Db) : Db :=
  {| db_sessions := db_sessions db; db_messages := db_messages db; db_summaries := db_summaries db;
     db_tools := rows; db_workspaces := db_workspaces db |}.

Definition insert_tool (sid tool_id : string) (payload : json) (created_at : string) (next_seq : Z) : db_prog unit := λ db,
  if bool_decide (next_seq ∈ tool_seqs sid db) then (Raise IntegrityError, db)
  else (Ret tt, with_tools (db_tools db ++ [{| tr_session := sid; tr_tool := tool_id; tr_seq := next_seq;
                                               tr_payload := payload; tr_created_at := created_at |}]) db).

(** [INSERT INTO summaries ... ON CONFLICT(session_id) DO UPDATE], [DELETE FROM messages] *)
Definition upsert_summary (sid text : string) (covers_up_to : Z) (created_at : string) : db_prog unit := λ db,
  (Ret tt, {| db_sessions := db_sessions db; db_messages := db_messages db;
              db_summaries := <[sid := {| sr_covers := covers_up_to; sr_text := text; sr_created_at := created_at |}]> (db_summaries db);
              db_tools := db_tools db; db_workspaces := db_workspaces db |}).

Definition delete_messages (sid : string) (n : Z) : db_prog Z := λ db,
  let rest := filter (untrimmed sid n) (db_messages db) in
  (Ret (Z.of_nat (length (db_messages db) - length rest)), with_messages rest db).

(** ** Calls *)

Inductive store_call :=
  | CreateSession (sid created_at : string)
  | AppendMessage (sid role content created_at : string)
  | ReadSession (sid : string)
  | Summarize (sid text : string) (covers_up_to : Z) (created_at : string)
  | Trim (sid : string)
  | RecordTerminal (sid command cwd : string) (exit_code : Z) (output : string) (env : gmap string string)
      (running_processes : list string) (created_at : string)
  | RecordFilesystem (sid operation path result created_at : string)
  | ReadTerminalHistory (sid : string)
  | ReadTerminalState (sid : string)
  | ReadFilesystemHistory (sid : string)
  | CaptureWorkspace (diff_max_chars open_files_max : Z) (sid branch git_diff : string) (open_files : list string)
      (test_status : option RunStatus) (created_at : string)
  | ReadWorkspace (sid : string).

Inductive value :=
  | VUnit (u : unit)
  | VSession (s : Session)
  | VCount (n : Z)
  | VTerminal (l : list TerminalInvocation)
  | VState (s : option TerminalState)
  | VFilesystem (l : list FilesystemInvocation)
  | VWorkspace (w : option WorkspaceSnapshot).

Definition map_outcome {E A B} (f : A → B) (r : outcome E A) : outcome E B :=
  match r with Ret a => Ret (f a) | Raise e => Raise e end.

Definition as_value {A} (f : A → value) (p : outcome session_error A * Db) : outcome session_error value * Db :=
  (map_outcome f p.1, p.2).

(** The operation of [State]. *)
Definition run_call (c : store_call) (db : Db) : outcome session_error value * Db :=
  match c with
  | CreateSession sid at_ => as_value VUnit (create_session sid at_ db)
  | AppendMessage sid r t at_ => as_value VUnit (append_message sid r t at_ db)
  | ReadSession sid => as_value VSession (read_session sid db)
  | Summarize sid t n at_ => as_value VUnit (summarize sid t n at_ db)
  | Trim sid => as_value VCount (trim sid db)
  | RecordTerminal sid c w x o e ps at_ => as_value VUnit (record_terminal sid c w x o e ps at_ db)
  | RecordFilesystem sid o p r at_ => as_value VUnit (record_filesystem sid o p r at_ db)
  | ReadTerminalHistory sid => as_value VTerminal (read_terminal_history sid db)
  | ReadTerminalState sid => as_value VState (read_terminal_state sid db)
  | ReadFilesystemHistory sid => as_value VFilesystem (read_filesystem_history sid db)
  | CaptureWorkspace dm fm sid b d fs ts at_ => as_value VUnit (capture dm fm sid b d fs ts at_ db)
  | ReadWorkspace sid => as_value VWorkspace (store_read sid db)
  end.

Definition done_with {A} (f : A → value) (r : outcome session_error A) : sql value := Done (map_outcome f r).

Definition writing {A} (f : A → value) (m : db_prog A) : sql value := write (λ db, as_value f (m db)).

Definition insert_next_tool (sid tool_id : string) (payload : json) (created_at : string) : sql value :=
  requiring sid (select (λ db, writing VUnit (insert_tool sid tool_id payload created_at (max_seq (tool_seqs sid db) + 1)))).

(** The statements of [read_session], [summarize] and [trim] after [_require_session]. *)
Definition select_messages (sid : string) (summary : option SummaryRow) : sql value :=
  select (λ db, done_with VSession (Ret
    {| ss_session_id := sid;
       ss_messages := sort_by by_seq (filter (λ m, (from_option sr_covers 0 summary < seq m)%Z) (messages_of sid db));
       ss_summary := (λ r, {| covers_up_to_seq := sr_covers r; summary_text := sr_text r;
                              su_created_at := sr_created_at r |}) <$> summary |})).

Definition select_summary (sid : string) : sql value := select (λ db, select_messages sid (db_summaries db !! sid)).

Definition summarize_checked (sid text : string) (n : Z) (created_at : string) : sql value :=
  select (λ db,
    let m := max_seq (seqs_of sid db) in
    if (m <? n)%Z then done_with VUnit (Raise (InvalidSummaryError sid n m))
    else writing VUnit (upsert_summary sid text n created_at)).

Definition trim_covered (sid : string) : sql value :=
  select (λ db,
    match db_summaries db !! sid with
    | None => done_with VCount (Ret 0%Z)
    | Some r => writing VCount (delete_messages sid (sr_covers r))
    end).

(** The row [WorkspaceStore.capture] writes, and what [WorkspaceStore.read] makes of one. *)
Definition upsert_workspace (sid : string) (row : WorkspaceRow) : db_prog unit := λ db,
  (Ret tt, {| db_sessions := db_sessions db; db_messages := db_messages db; db_summaries := db_summaries db;
              db_tools := db_tools db; db_workspaces := <[sid := row]> (db_workspaces db) |}).

Definition workspace_row (diff_max_chars open_files_max : Z) (branch git_diff : string) (open_files : list string)
    (test_status : option RunStatus) (created_at : string) : WorkspaceRow :=
  let '(diff, diff_truncated) := truncate_text git_diff diff_max_chars in
  let '(files, files_truncated) := truncate_list open_files open_files_max in
  {| wr_branch := branch; wr_git_diff := diff; wr_diff_truncated := b2z diff_truncated; wr_open_files := to_json files;
     wr_open_files_truncated := b2z files_truncated; wr_test_status := run_status_to_json <$> test_status;
     wr_created_at := created_at |}.

Definition workspace_of_row (sid : string) (r : WorkspaceRow) : option WorkspaceSnapshot :=
  files ← of_json (wr_open_files r);
  status ← match wr_test_status r with None => Some None | Some j => Some <$> run_status_of_json j end;
  mret {| ws_session_id := sid; ws_branch := wr_branch r; ws_git_diff := wr_git_diff r;
          ws_diff_truncated := negb (wr_diff_truncated r =? 0)%Z; ws_open_files := files;
          ws_open_files_truncated := negb (wr_open_files_truncated r =? 0)%Z; ws_test_status := status;
          ws_created_at := wr_created_at r |}.

(** The statements of each method. *)
Definition statements (c : store_call) : sql value :=
  match c with
  | CreateSession sid at_ => writing VUnit (create_session sid at_)
  | AppendMessage sid r t at_ =>
      requiring sid (select (λ db, writing VUnit (insert_message sid r t at_ (max_seq (seqs_of sid db) + 1))))
  | ReadSession sid => requiring sid (select_summary sid)
  | Summarize sid t n at_ => requiring sid (summarize_checked sid t n at_)
  | Trim sid => requiring sid (trim_covered sid)
  | RecordTerminal sid c w x o e ps at_ => insert_next_tool sid "terminal" (terminal_payload c w x o e ps) at_
  | RecordFilesystem sid o p r at_ => insert_next_tool sid "filesystem" (filesystem_payload o p r) at_
  | ReadTerminalHistory sid =>
      requiring sid (select (λ db, done_with VTerminal (of_payload (mapM terminal_of_row (history_rows sid "terminal" db)) db).1))
  | ReadTerminalState sid =>
      requiring sid (select (λ db,
        match last (history_rows sid "terminal" db) with
        | None => done_with VState (Ret None)
        | Some r => done_with VState (of_payload (t ← terminal_of_row r;
                      mret (Some {| ts_cwd := ti_cwd t; ts_env := ti_env t;
                                    ts_running_processes := ti_running_processes t; as_of_seq := ti_seq t |})) db).1
        end))
  | ReadFilesystemHistory sid =>
      requiring sid (select (λ db, done_with VFilesystem (of_payload (mapM filesystem_of_row (history_rows sid "filesystem" db)) db).1))
  | CaptureWorkspace dm fm sid b d fs ts at_ =>
      requiring sid (writing VUnit (upsert_workspace sid (workspace_row dm fm b d fs ts at_)))
  | ReadWorkspace sid =>
      requiring sid (select (λ db,
        match db_workspaces db !! sid with
        | None => done_with VWorkspace (Ret None)
        | Some r => done_with VWorkspace (of_payload (Some <$> workspace_of_row sid r) db).1
        end))
  end.

(** ** Threads *)

(** A call nobody disturbs. *)
Fixpoint run_sql {A} (p : sql A) (db : Db) : outcome session_error A * Db :=
  match p with
  | Done r => (r, db)
  | Statement f => match f db with (p', db') => run_sql p' db' end
  end.

Record Threads := { th_db : Db; th_calls : list (sql value) }.

Definition start_calls (db : Db) (cs : list store_call) : Threads := {| th_db := db; th_calls := statements <$> cs |}.

(** The next statement of thread [i]. *)
Definition thread_step (s : Threads) (i : nat) : Threads :=
  match th_calls s !! i with
  | Some (Statement f) => let '(p, db) := f (th_db s) in {| th_db := db; th_calls := <[i := p]> (th_calls s) |}
  | _ => s
  end.

Definition interleave (s : Threads) (schedule : list nat) : Threads := foldl thread_step s schedule.

Definition result_of (s : Threads) (i : nat) : option (outcome session_error value) :=
  match th_calls s !! i with Some (Done r) => Some r | _ => None end.

(** ** The managers *)

(** [from_env] *)
Definition DEFAULT_SESSION_STORE_PATH : string := "./data/sessions.db".
Definition store_path (env : gmap string string) : string :=
  default DEFAULT_SESSION_STORE_PATH (env !! "SESSION_STORE_PATH").

(** [WorkspaceManager.from_env]: the path and the two limits; [None] when a limit is not a
    number ([ValueError]). *)
Definition DEFAULT_DIFF_MAX_CHARS : Z := 20000.
Definition DEFAULT_OPEN_FILES_MAX : Z := 200.

Definition env_limit (env : gmap string string) (name : string) (dflt : Z) : option Z :=
  match env !! name with None => Some dflt | Some text => int_of_str text end.

Definition workspace_manager (env : gmap string string) : option (string * Z * Z) :=
  diff_max_chars ← env_limit env "WORKSPACE_DIFF_MAX_CHARS" DEFAULT_DIFF_MAX_CHARS;
  open_files_max ← env_limit env "WORKSPACE_OPEN_FILES_MAX" DEFAULT_OPEN_FILES_MAX;
  mret (store_path env, diff_max_chars, open_files_max).

(** [audit_logger.info], after the call and only when it did not raise *)
Definition audit_line (client_id sid tool_id : string) : string :=
  "client_id=" +:+ client_id +:+ " session_id=" +:+ sid +:+ " tool_id=" +:+ tool_id +:+ " action=recorded".

Definition audited {A} (client_id sid tool_id : string) (p : outcome session_error A * Db)
    : outcome session_error A * Db * list string :=
  (p, match p.1 with Ret _ => [audit_line client_id sid tool_id] | Raise _ => [] end).

Definition record_terminal_invocation (client_id sid command cwd : string) (exit_code : Z) (output : string)
    (env : option (gmap string string)) (running_processes : option (list string)) (now : datetime) (db : Db)
    : outcome session_error value * Db * list string :=
  audited client_id sid "terminal"
    (run_sql (statements (RecordTerminal sid command cwd exit_code output (default ∅ env) (default [] running_processes)
                                         (isoformat now))) db).

Definition record_filesystem_invocation (client_id sid operation path result : string) (now : datetime) (db : Db)
    : outcome session_error value * Db * list string :=
  audited client_id sid "filesystem" (run_sql (statements (RecordFilesystem sid operation path result (isoformat now))) db).

(** ** A call alone *)

Lemma row_read sid r :
  (files ← of_json (wr_open_files r);
   status ← match wr_test_status r with None => Some None | Some j => Some <$> run_status_of_json j end;
   mret (Some {| ws_session_id := sid; ws_branch := wr_branch r; ws_git_diff := wr_git_diff r;
                 ws_diff_truncated := negb (wr_diff_truncated r =? 0)%Z; ws_open_files := files;
                 ws_open_files_truncated := negb (wr_open_files_truncated r =? 0)%Z; ws_test_status := status;
                 ws_created_at := wr_created_at r |})) = Some <$> workspace_of_row sid r.
Proof.
  unfold workspace_of_row. destruct (of_json (wr_open_files r)) as [files|]; [|done].
  by destruct (match wr_test_status r with None => Some None | Some j => Some <$> run_status_of_json j end).
Qed.

(** The methods of the stores are their statements: a call that runs without another one
    between its statements does to the tables, and returns or raises, exactly what the
    operation of the sequential model does, for every method of the three
    stores. *)
Lemma statements_refine_store c db : run_sql (statements c) db = run_call c db.
Proof.
  destruct c as [sid at_|sid r t at_|sid|sid t n at_|sid|sid c w x o e ps at_|sid o p r at_|sid|sid|sid|dm fm sid b d fs ts at_|sid];
    cbn [statements run_call]; unfold as_value.
  - unfold create_session. cbn. unfold connection. by destruct (db_sessions db !! sid) eqn:E; cbn; rewrite ?E.
  - unfold append_message. rewrite in_session_ok. cbn. destruct (db_sessions db !! sid); [|done]. cbn.
    unfold connection, as_value, insert_message. by case_bool_decide.
  - unfold read_session. rewrite in_session_ok. cbn. by destruct (db_sessions db !! sid).
  - unfold summarize. rewrite in_session_ok. cbn. destruct (db_sessions db !! sid); [|done]. cbn. by destruct (_ <? _)%Z.
  - unfold trim. rewrite in_session_ok. cbn. destruct (db_sessions db !! sid); [|done]. cbn. by destruct (db_summaries db !! sid).
  - unfold record_terminal. rewrite in_session_ok. cbn. destruct (db_sessions db !! sid); [|done]. cbn.
    unfold connection, as_value, insert_tool, insert_invocation. by case_bool_decide.
  - unfold record_filesystem. rewrite in_session_ok. cbn. destruct (db_sessions db !! sid); [|done]. cbn.
    unfold connection, as_value, insert_tool, insert_invocation. by case_bool_decide.
  - unfold read_terminal_history. rewrite in_session_ok. cbn. destruct (db_sessions db !! sid); [|done]. cbn.
    by destruct (mapM _ _).
  - unfold read_terminal_state. rewrite in_session_ok. cbn. destruct (db_sessions db !! sid); [|done]. cbn.
    destruct (last _) as [r|]; [|done]. cbn. by destruct (terminal_of_row r).
  - unfold read_filesystem_history. rewrite in_session_ok. cbn. destruct (db_sessions db !! sid); [|done]. cbn.
    by destruct (mapM _ _).
  - unfold capture, workspace_row. destruct (truncate_text d dm), (truncate_list fs fm).
    unfold store_capture. rewrite in_session_ok. cbn. by destruct (db_sessions db !! sid).
  - unfold store_read. rewrite in_session_ok. cbn [statements requiring select run_sql].
    destruct (db_sessions db !! sid); [|done]. cbv beta. cbn [run_sql select].
    destruct (db_workspaces db !! sid) as [r|]; [|done]. rewrite row_read. by destruct (workspace_of_row sid r).
Qed.

(** ** What every statement of a call keeps *)

(** Every statement from here on takes a state with [I] to one with [I]. *)
Inductive keeps {A} (I : Db → Prop) : sql A → Prop :=
  | keeps_done r : keeps I (Done r)
  | keeps_statement f : (∀ db, I db → I (f db).2 ∧ keeps I (f db).1) → keeps I (Statement f).

(** Every statement from here on relates the state before it to the one after it by [R]. *)
Inductive moves {A} (R : Db → Db → Prop) : sql A → Prop :=
  | moves_done r : moves R (Done r)
  | moves_statement f : (∀ db, R db (f db).2 ∧ moves R (f db).1) → moves R (Statement f).

Section keeps.
Context (I : Db → Prop).

Lemma keeps_select {A} (k : Db → sql A) : (∀ db, keeps I (k db)) → keeps I (select k).
Proof. intros Hk. constructor. intros db Hdb. split; [done|apply Hk]. Qed.

Lemma keeps_requiring {A} sid (k : sql A) : keeps I k → keeps I (requiring sid k).
Proof. intros Hk. apply keeps_select. intros db. destruct (db_sessions db !! sid); [done|constructor]. Qed.

Lemma keeps_writing {A} f (m : db_prog A) : preserves I m → keeps I (writing f m).
Proof.
  intros Hm. constructor. intros db Hdb. unfold connection, as_value. specialize (Hm db Hdb).
  destruct (m db) as [[a|e] db']; cbn; (split; [done|constructor]).
Qed.
End keeps.

Lemma thread_keeps I s i :
  I (th_db s) → Forall (keeps I) (th_calls s) →
  I (th_db (thread_step s i)) ∧ Forall (keeps I) (th_calls (thread_step s i)).
Proof.
  intros Hdb Hall. unfold thread_step. destruct (th_calls s !! i) as [[r|f]|] eqn:E; [done| |done].
  pose proof (proj1 (Forall_lookup _ _) Hall i _ E) as Hf. inversion Hf as [|f' Hk]; subst f'.
  destruct (Hk _ Hdb) as [Hdb' Hp]. destruct (f (th_db s)) as [p db']. split; [done|]. by apply Forall_insert.
Qed.

Lemma interleave_keeps I schedule s :
  I (th_db s) → Forall (keeps I) (th_calls s) → I (th_db (interleave s schedule)).
Proof.
  revert s. induction schedule as [|i schedule IH]; intros s Hdb Hall; [done|]. cbn [interleave foldl].
  destruct (thread_keeps I s i Hdb Hall). by apply IH.
Qed.

(** ** Numbers *)

Record unique_numbers (db : Db) : Prop := {
  un_messages sid : NoDup (seqs_of sid db);
  un_tools sid : NoDup (tool_seqs sid db);
}.

Lemma un_same db db' : db_messages db' = db_messages db → db_tools db' = db_tools db → unique_numbers db → unique_numbers db'.
Proof.
  intros Em Et [Hm Ht]. split; intros sid; [specialize (Hm sid)|specialize (Ht sid)].
  - unfold seqs_of, messages_of in *. by rewrite Em.
  - unfold tool_seqs in *. by rewrite Et.
Qed.

Lemma seqs_append sid sid' m db :
  seqs_of sid' (with_messages (db_messages db ++ [(sid, m)]) db) =
    seqs_of sid' db ++ (if decide (sid = sid') then [seq m] else []).
Proof. unfold seqs_of. rewrite messages_append, fmap_app. by case_decide. Qed.

Lemma insert_message_unique sid r t at_ n : preserves unique_numbers (insert_message sid r t at_ n).
Proof.
  intros db [Hm Ht]. unfold insert_message. case_bool_decide as Hn; [done|]. split; [|done]. intros sid'.
  cbn [snd]. rewrite seqs_append. case_decide as E; [subst sid'|by rewrite app_nil_r].
  rewrite NoDup_app. split_and!; [done| |apply NoDup_singleton]. by intros x Hx ->%list_elem_of_singleton.
Qed.

Lemma insert_tool_unique sid tool p at_ n : preserves unique_numbers (insert_tool sid tool p at_ n).
Proof.
  intros db [Hm Ht]. unfold insert_tool. case_bool_decide as Hn; [done|]. split; [done|]. intros sid'.
  unfold tool_seqs. cbn [snd with_tools db_tools]. rewrite filter_app, fmap_app, filter_cons, filter_nil.
  case_decide as E; simpl; [cbn in E; subst sid'|rewrite app_nil_r; apply Ht].
  rewrite NoDup_app. split_and!; [apply Ht| |apply NoDup_singleton]. by intros x Hx ->%list_elem_of_singleton.
Qed.

Lemma delete_messages_unique sid n : preserves unique_numbers (delete_messages sid n).
Proof.
  intros db [Hm Ht]. split; [|done]. intros sid'. unfold seqs_of. cbn [delete_messages snd].
  rewrite messages_trim. unfold kept_by_trim. specialize (Hm sid'). unfold seqs_of in Hm.
  eapply sublist_NoDup; [exact Hm|]. apply fmap_sublist, sublist_filter.
Qed.

Lemma statements_unique c : keeps unique_numbers (statements c).
Proof.
  destruct c; cbn [statements];
    try (apply keeps_requiring; try (apply keeps_select; intros db; cbv beta zeta)).
  - apply keeps_writing. intros db Hdb. unfold create_session, connection.
    destruct (db_sessions db !! sid); [exact Hdb|]. by eapply (un_same db).
  - apply keeps_writing, insert_message_unique.
  - apply keeps_select. constructor.
  - destruct (_ <? _)%Z; [constructor|]. apply keeps_writing. intros db' Hdb'. by eapply (un_same db').
  - destruct (db_summaries db !! sid); [|constructor]. apply keeps_writing, delete_messages_unique.
  - apply keeps_writing, insert_tool_unique.
  - apply keeps_writing, insert_tool_unique.
  - constructor.
  - destruct (last _); constructor.
  - constructor.
  - apply keeps_writing. intros db' Hdb'. by eapply (un_same db').
  - destruct (db_workspaces db !! sid); constructor.
Qed.

(** No two messages of a session, and no two tool invocations, ever get the same number,
    however the statements of any number of calls interleave, calls that fail included. *)
Theorem numbers_stay_unique db calls schedule sid :
  unique_numbers db →
  let db' := th_db (interleave (start_calls db calls) schedule) in
  NoDup (seqs_of sid db') ∧ NoDup (tool_seqs sid db').
Proof.
  intros Hdb. assert (H : unique_numbers (th_db (interleave (start_calls db calls) schedule))).
  { apply interleave_keeps; [done|]. cbn [start_calls th_calls]. apply Forall_fmap, Forall_true.
    intros c. apply statements_unique. }
  by split; apply H.
Qed.

(** ** Accounting for messages *)

(** A call of [append_message] between its statements. *)
Inductive append_at (sid r t at_ : string) : sql value → Prop :=
  | at_require : append_at sid r t at_ (statements (AppendMessage sid r t at_))
  | at_number : append_at sid r t at_ (select (λ db, writing VUnit (insert_message sid r t at_ (max_seq (seqs_of sid db) + 1))))
  | at_insert n : append_at sid r t at_ (writing VUnit (insert_message sid r t at_ n))
  | at_end res : append_at sid r t at_ (Done res).

Definition same_messages (db db' : Db) : Prop := db_messages db' = db_messages db.

(** A call that is not a [trim], between its statements. *)
Definition call_at (c : store_call) (p : sql value) : Prop :=
  match c with
  | AppendMessage sid r t at_ => append_at sid r t at_ p
  | Trim _ => False
  | _ => moves same_messages p
  end.

Definition is_trim (c : store_call) : bool := match c with Trim _ => true | _ => false end.

Section moves.
Context (R : Db → Db → Prop) `{!Reflexive R}.

Lemma moves_select {A} (k : Db → sql A) : (∀ db, moves R (k db)) → moves R (select k).
Proof. intros Hk. constructor. intros db. split; [done|apply Hk]. Qed.

Lemma moves_requiring {A} sid (k : sql A) : moves R k → moves R (requiring sid k).
Proof. intros Hk. apply moves_select. intros db. destruct (db_sessions db !! sid); [done|constructor]. Qed.

Lemma moves_writing {A} f (m : db_prog A) : (∀ db, R db (m db).2) → moves R (writing f m).
Proof.
  intros Hm. constructor. intros db. unfold connection, as_value. specialize (Hm db).
  destruct (m db) as [[a|e] db']; cbn; (split; [done|constructor]).
Qed.
End moves.

#[local] Instance same_messages_refl : Reflexive same_messages.
Proof. done. Qed.

Lemma call_at_start c : is_trim c = false → call_at c (statements c).
Proof.
  destruct c; intros Hc; try done; cbn [call_at statements];
    try (apply moves_requiring; [apply _|]; try (apply moves_select; [apply _|]; intros db; cbv beta zeta)).
  - apply moves_writing; [apply _|]. intros db. unfold create_session, connection. by destruct (db_sessions db !! sid).
  - constructor.
  - apply moves_select; [apply _|]. constructor.
  - destruct (_ <? _)%Z; [constructor|]. apply moves_writing; [apply _|]. done.
  - apply moves_writing; [apply _|]. intros db'. unfold insert_tool. by case_bool_decide.
  - apply moves_writing; [apply _|]. intros db'. unfold insert_tool. by case_bool_decide.
  - constructor.
  - destruct (last _); constructor.
  - constructor.
  - apply moves_writing; [apply _|]. done.
  - destruct (db_workspaces db !! sid); constructor.
Qed.

Section accounting.
(** Which messages are counted: session, role, text and time. *)
Context (P : string → string → string → string → bool).

Definition counted (r : string * StoredMessage) : bool := P r.1 (sm_role r.2) (sm_content r.2) (sm_created_at r.2).

(** The rows of the table, and the calls that returned. *)
Definition rows_counted (db : Db) : nat := length (filter (λ r, counted r = true) (db_messages db)).

Definition stored (c : store_call) (p : sql value) : nat :=
  match c, p with
  | AppendMessage sid r t at_, Done (Ret _) => if P sid r t at_ then 1 else 0
  | _, _ => 0
  end.

Definition calls_counted (cs : list store_call) (ps : list (sql value)) : nat := sum_list (zip_with stored cs ps).

Lemma insert_message_counted sid r t at_ n db :
  (insert_message sid r t at_ n db = (Raise IntegrityError, db)) ∨
  (∃ db', insert_message sid r t at_ n db = (Ret tt, db') ∧
     rows_counted db' = (rows_counted db + if P sid r t at_ then 1 else 0)%nat).
Proof.
  unfold insert_message. case_bool_decide; [by left|]. right. eexists. split; [done|].
  unfold rows_counted. cbn [with_messages db_messages]. rewrite filter_app, length_app, filter_cons, filter_nil.
  change (counted (sid, _)) with (P sid r t at_).
  destruct (P sid r t at_); [rewrite decide_True by done|rewrite decide_False by done]; simpl; lia.
Qed.

Lemma call_step c f db :
  call_at c (Statement f) →
  call_at c (f db).1 ∧ rows_counted (f db).2 = (rows_counted db + stored c (f db).1)%nat.
Proof.
  assert (Hsame : ∀ db', db_messages db' = db_messages db → rows_counted db' = rows_counted db).
  { intros db' E. unfold rows_counted. by rewrite E. }
  intros Hp. destruct c; try done; cbn [call_at stored] in *;
    try (inversion Hp as [|f' Hf]; subst f'; destruct (Hf db) as [E Hm]; rewrite (Hsame _ E); split; [done|];
         destruct (f db).1; simpl; lia).
  inversion Hp; subst; cbn.
  - destruct (db_sessions db !! sid); (split; [constructor|]); simpl; lia.
  - split; [constructor|]. simpl. lia.
  - unfold connection, as_value. destruct (insert_message_counted sid role content created_at n db) as [->|(db' & -> & E)]; cbn.
    + split; [constructor|]. lia.
    + split; [constructor|]. lia.
Qed.

Lemma sum_insert cs ps i c p p' :
  cs !! i = Some c → ps !! i = Some p →
  (calls_counted cs (<[i:=p']> ps) + stored c p = calls_counted cs ps + stored c p')%nat.
Proof.
  unfold calls_counted. revert ps i. induction cs as [|c' cs IH]; [done|]. intros [|q ps] [|i]; try done; simpl.
  - intros [= ->] [= ->]. lia.
  - intros Hc Hp. specialize (IH ps i Hc Hp). simpl in IH. lia.
Qed.

Lemma thread_accounted cs s i db :
  Forall2 call_at cs (th_calls s) → rows_counted (th_db s) = (rows_counted db + calls_counted cs (th_calls s))%nat →
  Forall2 call_at cs (th_calls (thread_step s i)) ∧
  rows_counted (th_db (thread_step s i)) = (rows_counted db + calls_counted cs (th_calls (thread_step s i)))%nat.
Proof.
  intros Hall E. unfold thread_step. destruct (th_calls s !! i) as [[r|f]|] eqn:Ei; [done| |done].
  destruct (Forall2_lookup_r _ _ _ _ _ Hall Ei) as (c & Hc & Hat).
  destruct (call_step c f (th_db s) Hat) as [Hat' E']. destruct (f (th_db s)) as [p db'] eqn:Ef. cbn [fst snd th_db th_calls] in *.
  split.
  - rewrite <- (list_insert_id cs i c Hc). by apply Forall2_insert.
  - pose proof (sum_insert cs (th_calls s) i c (Statement f) p Hc Ei) as Hs.
    assert (E0 : stored c (Statement f) = 0%nat) by by destruct c. lia.
Qed.
End accounting.

(** C32. No message is lost in silence, doubled or mixed up, however calls interleave, as long as
    none of them trims: at every moment, of the messages with any session, role, text and time
    one may ask for, the table has those it had and one for every [append_message] that has
    returned; a call that raised has stored nothing. *)
Theorem messages_accounted P db calls schedule :
  Forall (λ c, is_trim c = false) calls →
  let s := interleave (start_calls db calls) schedule in
  rows_counted P (th_db s) = (rows_counted P db + calls_counted P calls (th_calls s))%nat.
Proof.
  intros Hcalls.
  assert (H : ∀ s, Forall2 call_at calls (th_calls s) →
    rows_counted P (th_db s) = (rows_counted P db + calls_counted P calls (th_calls s))%nat →
    rows_counted P (th_db (interleave s schedule)) = (rows_counted P db + calls_counted P calls (th_calls (interleave s schedule)))%nat).
  { induction schedule as [|i schedule IH]; intros s Hall E; [done|]. cbn [interleave foldl].
    destruct (thread_accounted P calls s i db Hall E). by apply IH. }
  apply H; cbn [start_calls th_calls th_db].
  - apply Forall2_fmap_r. clear H. induction Hcalls; constructor; [by apply call_at_start|done].
  - enough (E : calls_counted P calls (statements <$> calls) = 0%nat) by lia. unfold calls_counted. clear.
    induction calls as [|c calls IH]; [done|]. rewrite fmap_cons. simpl. simpl in IH. unfold id in *. rewrite IH. by destruct c.
Qed.

(** ** Appending at the same time *)

Definition append_calls (sid : string) (ms : list (string * string * string)) : list store_call :=
  (λ m, AppendMessage sid m.1.1 m.1.2 m.2) <$> ms.

Section progress.
Context (sid : string) (db0 : Db) (Hsession : is_Some (db_sessions db0 !! sid)) (Hwf : db_wf db0).

(** A thread that has not written yet, and holds the number it read from [db0]. *)
Inductive waits : sql value → Prop :=
  | waits_require r t at_ : waits (statements (AppendMessage sid r t at_))
  | waits_number r t at_ : waits (select (λ db, writing VUnit (insert_message sid r t at_ (max_seq (seqs_of sid db) + 1))))
  | waits_insert r t at_ : waits (writing VUnit (insert_message sid r t at_ (max_seq (seqs_of sid db0) + 1))).

(** A thread at any point. *)
Inductive appends : sql value → Prop :=
  | appends_at r t at_ p : append_at sid r t at_ p → (∀ res, p ≠ Done res) → appends p
  | appends_stored : appends (Done (Ret (VUnit tt)))
  | appends_refused : appends (Done (Raise IntegrityError)).

Definition one_stored (s : Threads) : Prop := ∃ j, result_of s j = Some (Ret (VUnit tt)).

Record progress_ok (s : Threads) : Prop := {
  po_session : db_sessions (th_db s) = db_sessions db0;
  po_appends : Forall appends (th_calls s);
  po_first : (th_db s = db0 ∧ Forall waits (th_calls s)) ∨ one_stored s;
}.

Lemma appends_step f db :
  appends (Statement f) → db_sessions db = db_sessions db0 →
  appends (f db).1 ∧ db_sessions (f db).2 = db_sessions db0.
Proof.
  intros Hp Es. inversion Hp as [r t at_ p Hat _| |]; subst. inversion Hat; subst; cbn.
  - rewrite Es. destruct Hsession as [x ->]. split; [|done]. by apply (appends_at r t at_); [constructor|].
  - split; [|done]. by apply (appends_at r t at_); [constructor|].
  - unfold connection, as_value, insert_message. case_bool_decide; cbn; (split; [constructor|done]).
Qed.

Lemma waits_step f :
  waits (Statement f) → ((f db0).2 = db0 ∧ waits (f db0).1) ∨ (f db0).1 = Done (Ret (VUnit tt)).
Proof.
  intros Hp. inversion Hp; subst; cbn.
  - destruct Hsession as [x ->]. left. split; [done|constructor].
  - left. split; [done|constructor].
  - right. unfold connection, as_value, insert_message. by rewrite (fresh_seq _ (dw_messages _ Hwf sid)).
Qed.

Lemma progress_step s i : progress_ok s → progress_ok (thread_step s i).
Proof.
  intros [Es Ha Hf]. unfold thread_step. destruct (th_calls s !! i) as [[r|f]|] eqn:Ei; [by split| |by split].
  pose proof (proj1 (Forall_lookup _ _) Ha i _ Ei) as Hai. destruct (appends_step f _ Hai Es) as [Hp Es'].
  assert (Hlen : (i < length (th_calls s))%nat) by by eapply lookup_lt_Some.
  destruct Hf as [[Edb Hw]|[j Hj]].
  - pose proof (proj1 (Forall_lookup _ _) Hw i _ Ei) as Hwi. rewrite Edb in Hp, Es' |- *.
    pose proof (waits_step f Hwi) as Hnext. destruct (f db0) as [p db'] eqn:Ef. cbn [fst snd] in *.
    split; cbn; [done|by apply Forall_insert|]. destruct Hnext as [[-> Hwp]| ->].
    + left. split; [done|]. by apply Forall_insert.
    + right. exists i. unfold result_of. cbn. by rewrite list_lookup_insert_eq.
  - destruct (f (th_db s)) as [p db']. cbn [fst snd] in *. split; cbn; [done|by apply Forall_insert|].
    right. exists j. unfold result_of in *. cbn. rewrite list_lookup_insert_ne; [done|]. intros ->. by rewrite Ei in Hj.
Qed.

Lemma progress_start ms : progress_ok (start_calls db0 (append_calls sid ms)).
Proof.
  split; cbn; [done| |left; split; [done|]]; unfold append_calls; rewrite <- list_fmap_compose; apply Forall_fmap, Forall_true;
    intros [[r t] at_].
  - by apply (appends_at r t at_); [constructor|].
  - constructor.
Qed.
End progress.

(** Messages appended to one session at the same time do not block each other: a call that
    has ended either returned, and its message is in the table, or raised [IntegrityError];
    and as soon as one has ended, at least one of them has returned. *)
Theorem appends_progress sid db ms schedule i res :
  is_Some (db_sessions db !! sid) → db_wf db →
  let s := interleave (start_calls db (append_calls sid ms)) schedule in
  result_of s i = Some res →
  (res = Ret (VUnit tt) ∨ res = Raise IntegrityError) ∧ ∃ j, result_of s j = Some (Ret (VUnit tt)).
Proof.
  intros Hs Hwf. cbv zeta.
  assert (H : ∀ s, progress_ok sid db s → progress_ok sid db (interleave s schedule)).
  { induction schedule as [|k schedule IH]; intros s Hok; [done|]. cbn [interleave foldl]. by apply IH, progress_step. }
  destruct (H _ (progress_start sid db ms)) as [_ Ha Hf]. intros Hres.
  unfold result_of in Hres. destruct (th_calls _ !! i) as [[r|f]|] eqn:Ei; try done. injection Hres as ->. split.
  - pose proof (proj1 (Forall_lookup _ _) Ha i _ Ei) as Hai. inversion Hai as [? ? ? ? ? Hn| |]; [|by left|by right].
    by destruct (Hn res).
  - destruct Hf as [[_ Hw]|Hone]; [|exact Hone]. pose proof (proj1 (Forall_lookup _ _) Hw i _ Ei) as Hwi. inversion Hwi.
Qed.

(** Two messages appended to a session at the same time: when both calls have read the
    highest number before either has written, the second one raises [IntegrityError] and its
    message is not stored, although each of the two calls alone succeeds. *)
Theorem concurrent_append_refused sid db m1 m2 :
  is_Some (db_sessions db !! sid) → db_wf db →
  let s := interleave (start_calls db (append_calls sid [m1; m2])) [0; 1; 0; 1; 0; 1]%nat in
  result_of s 0 = Some (Ret (VUnit tt)) ∧ result_of s 1 = Some (Raise IntegrityError) ∧
  th_db s = (run_call (AppendMessage sid m1.1.1 m1.1.2 m1.2) db).2 ∧
  (run_call (AppendMessage sid m2.1.1 m2.1.2 m2.2) db).1 = Ret (VUnit tt).
Proof.
  intros [x Es] Hwf. destruct m1 as [[r1 t1] a1], m2 as [[r2 t2] a2]. cbn [fst snd].
  pose proof (fresh_seq _ (dw_messages _ Hwf sid)) as Hfresh.
  unfold interleave, start_calls, append_calls, thread_step, result_of. cbn -[with_messages]. rewrite !Es. cbn -[with_messages].
  unfold append_message. rewrite !in_session_ok, Es. unfold connection, as_value, insert_message. cbn -[with_messages]. rewrite Hfresh. cbn -[with_messages].
  rewrite bool_decide_eq_true_2; [done|]. rewrite seqs_append, decide_True by done. apply elem_of_app. right. left.
Qed.

(** ** Reading while a session is trimmed *)

Lemma numbered_ordered ms : numbered (seq <$> ms) → sort_by by_seq ms = ms.
Proof. intros Hn. apply sort_by_id, (numbered_sorted seq), Hn. Qed.

Definition session_view (sid : string) (messages : list StoredMessage) (summary : option Summary) : Session :=
  {| ss_session_id := sid; ss_messages := messages; ss_summary := summary |}.

(** Steps of a thread by the kind of its next statement. *)
Lemma step_select s i (k : Db → sql value) :
  th_calls s !! i = Some (select k) →
  thread_step s i = {| th_db := th_db s; th_calls := <[i := k (th_db s)]> (th_calls s) |}.
Proof. intros E. unfold thread_step. by rewrite E. Qed.

Lemma step_requiring s i sid (k : sql value) :
  th_calls s !! i = Some (requiring sid k) → is_Some (db_sessions (th_db s) !! sid) →
  thread_step s i = {| th_db := th_db s; th_calls := <[i := k]> (th_calls s) |}.
Proof. intros E [x Es]. rewrite (step_select _ _ _ E). by rewrite Es. Qed.

(** A session read while it is summarised and trimmed can lose messages: [read_session] reads
    the summary and the messages in two statements, and when a summary up to [n] and the
    trim after it fall between them, the session comes back with the summary there was before
    and without the messages up to [n]: those not covered by the old summary are nowhere in it,
    although a read just before shows them and a read just after has them summarised. *)
Theorem torn_read sid db text n at_ :
  is_Some (db_sessions db !! sid) → db_wf db → (n ≤ max_seq (seqs_of sid db))%Z →
  let s := interleave (start_calls db [ReadSession sid; Summarize sid text n at_; Trim sid]) [0; 0; 1; 1; 1; 2; 2; 2; 0]%nat in
  (run_call (ReadSession sid) db).1 = Ret (VSession (session_view sid (visible sid db) (read_summary sid db))) ∧
  result_of s 0 =
    Some (Ret (VSession (session_view sid (filter (λ m, (n < seq m)%Z) (visible sid db)) (read_summary sid db)))) ∧
  read_summary sid (th_db s) = Some {| covers_up_to_seq := n; summary_text := text; su_created_at := at_ |}.
Proof.
  intros [x Es] Hwf Hn. assert (Hlt : (max_seq (seqs_of sid db) <? n)%Z = false) by (by apply Z.ltb_ge).
  split. { cbn [run_call]. unfold as_value. by rewrite read_session_wf, Es. }
  unfold interleave, start_calls. cbn [foldl fmap list_fmap statements].
  pose (st d a b c := {| th_db := d; th_calls := [a; b; c] |}).
  pose (db1 := (upsert_summary sid text n at_ db).2). pose (db2 := (delete_messages sid n db1).2).
  assert (Es1 : is_Some (db_sessions db1 !! sid)) by (by exists x).
  assert (Hr : ∀ B C, thread_step (thread_step (st db (requiring sid (select_summary sid)) B C) 0) 0 =
                      st db (select_messages sid (db_summaries db !! sid)) B C).
  { intros B C. rewrite (step_requiring (st _ _ _ _) 0 sid (select_summary sid)) by (done || by exists x). done. }
  assert (Hs : ∀ A C, thread_step (thread_step (thread_step (st db A (requiring sid (summarize_checked sid text n at_)) C) 1) 1) 1 =
                      st db1 A (Done (Ret (VUnit tt))) C).
  { intros A C.
    assert (R1 : thread_step (st db A (requiring sid (summarize_checked sid text n at_)) C) 1 =
                 st db A (summarize_checked sid text n at_) C)
      by (rewrite (step_requiring (st _ _ _ _) 1 sid (summarize_checked sid text n at_)); [done|done|by exists x]).
    assert (R2 : thread_step (st db A (summarize_checked sid text n at_) C) 1 = st db A (writing VUnit (upsert_summary sid text n at_)) C)
      by (unfold thread_step; cbn -[max_seq]; by rewrite Hlt).
    by rewrite R1, R2. }
  assert (Ht : ∀ A B, thread_step (thread_step (thread_step (st db1 A B (requiring sid (trim_covered sid))) 2) 2) 2 =
                      st db2 A B (Done (map_outcome VCount (delete_messages sid n db1).1))).
  { intros A B.
    assert (R1 : thread_step (st db1 A B (requiring sid (trim_covered sid))) 2 = st db1 A B (trim_covered sid))
      by by rewrite (step_requiring (st _ _ _ _) 2 sid (trim_covered sid)).
    assert (El : db_summaries db1 !! sid = Some {| sr_covers := n; sr_text := text; sr_created_at := at_ |})
      by apply lookup_insert_eq.
    assert (R2 : thread_step (st db1 A B (trim_covered sid)) 2 = st db1 A B (writing VCount (delete_messages sid n)))
      by (unfold thread_step; cbn -[db1 delete_messages]; by rewrite El).
    by rewrite R1, R2. }
  change ({| th_db := db; th_calls := ?l |}) with (st db (requiring sid (select_summary sid))
    (requiring sid (summarize_checked sid text n at_)) (requiring sid (trim_covered sid))).
  rewrite Hr, Hs, Ht. split; [|unfold read_summary; cbn; by rewrite lookup_insert_eq].
  transitivity (Some (Ret (E:=session_error) (VSession (session_view sid
    (sort_by by_seq (filter (λ m, (covers sid db < seq m)%Z) (messages_of sid db2))) (read_summary sid db))))); [done|].
  do 4 f_equal.
  assert (E : messages_of sid db2 = kept_by_trim sid sid n (messages_of sid db)) by apply rows_of_untrimmed.
  rewrite E. unfold visible, kept_by_trim. pose proof (dw_messages _ Hwf sid) as Hnum.
  rewrite numbered_ordered by (by repeat apply (numbered_filter seq)).
  rewrite !list_filter_filter. apply list_filter_iff. intros m.
  split; [intros [? Hk]; split; [|done]; apply Z.nle_gt; intros ?; by apply Hk|intros [??]; split; [done|]; intros [_ ?]; lia].
Qed.

(** The audit log names exactly the invocations that were recorded. *)
Lemma audit_follows_record client_id sid command cwd exit_code output env ps now db :
  let '(r, db', audit) := record_terminal_invocation client_id sid command cwd exit_code output env ps now db in
  (audit = [audit_line client_id sid "terminal"] ∧ r = Ret (VUnit tt) ∧ is_Some (db_sessions db !! sid) ∧
     length (db_tools db') = S (length (db_tools db))) ∨
  (audit = [] ∧ r ≠ Ret (VUnit tt) ∧ db' = db).
Proof.
  unfold record_terminal_invocation, audited. cbn. destruct (db_sessions db !! sid) as [x|]; [|by right]. cbn.
  unfold connection, as_value, insert_tool. case_bool_decide; [by right|]. left. cbn. split_and!; [done|done|by exists x|].
  rewrite length_app. simpl. lia.
Qed.

(** ** Witnesses *)

Lemma increasing_NoDup l : StronglySorted Z.lt l → NoDup l.
Proof.
  induction 1 as [|n l _ IH Hn]; constructor; [|done]. intros Hin.
  pose proof (proj1 (Forall_forall _ _) Hn n Hin). lia.
Qed.

Lemma wf_unique db : db_wf db → unique_numbers db.
Proof.
  intros [Hm Ht]. split; intros sid; [destruct (Hm sid) as [Hs _]|destruct (Ht sid) as [Hs _]];
    by apply increasing_NoDup.
Qed.

Definition two_appends : list store_call := append_calls "s" [("user", "a", "t4"); ("user", "b", "t5")].

Lemma numbers_stay_unique_witness :
  seqs_of "s" (th_db (interleave (start_calls (run_db sample_ops) two_appends) [0; 0; 0; 1; 1; 1]%nat)) = [2; 3; 4]%Z ∧
  NoDup (seqs_of "s" (th_db (interleave (start_calls (run_db sample_ops) two_appends) [0; 0; 0; 1; 1; 1]%nat))).
Proof.
  split; [by vm_compute|].
  exact (proj1 (numbers_stay_unique (run_db sample_ops) two_appends [0; 0; 0; 1; 1; 1]%nat "s" (wf_unique _ (run_db_wf sample_ops)))).
Defined.

Lemma messages_accounted_witness :
  let P := λ sid r t at_, bool_decide (t = "b") in
  rows_counted P (th_db (interleave (start_calls (run_db sample_ops) two_appends) [0; 1; 0; 1; 1; 0]%nat)) = 1%nat.
Proof.
  cbv zeta. rewrite (messages_accounted (λ sid r t at_, bool_decide (t = "b")) (run_db sample_ops) two_appends [0; 1; 0; 1; 1; 0]%nat).
  - by vm_compute.
  - by repeat constructor.
Defined.

Lemma appends_progress_witness :
  let s := interleave (start_calls (run_db sample_ops) two_appends) [0; 1; 1; 0; 1]%nat in
  result_of s 1 = Some (Ret (VUnit tt)) ∧ ∃ j, result_of s j = Some (Ret (VUnit tt)).
Proof.
  cbv zeta. split; [by vm_compute|].
  exact (proj2 (appends_progress "s" (run_db sample_ops) [("user", "a", "t4"); ("user", "b", "t5")] [0; 1; 1; 0; 1]%nat 1
    (Ret (VUnit tt)) ltac:(vm_compute; by eexists) (run_db_wf sample_ops) ltac:(vm_compute; reflexivity))).
Defined.

Lemma concurrent_append_refused_witness :
  let s := interleave (start_calls (run_db sample_ops) two_appends) [0; 1; 0; 1; 0; 1]%nat in
  result_of s 0 = Some (Ret (VUnit tt)) ∧ result_of s 1 = Some (Raise IntegrityError).
Proof.
  pose proof (concurrent_append_refused "s" (run_db sample_ops) ("user", "a", "t4") ("user", "b", "t5")
    ltac:(vm_compute; by eexists) (run_db_wf sample_ops)) as H.
  cbv zeta in H |- *. exact (conj (proj1 H) (proj1 (proj2 H))).
Defined.

(** Two messages, read while they are summarised: the reader gets neither. *)
Definition two_messages : Db := run_db [OCreate "s" "t0"; OAppend "s" "user" "one" "t1"; OAppend "s" "assistant" "two" "t2"].

Lemma torn_read_witness :
  let s := interleave (start_calls two_messages [ReadSession "s"; Summarize "s" "so far" 2 "t3"; Trim "s"]) [0; 0; 1; 1; 1; 2; 2; 2; 0]%nat in
  result_of s 0 = Some (Ret (VSession (session_view "s" [] None))).
Proof.
  pose proof (torn_read "s" two_messages "so far" 2 "t3" ltac:(vm_compute; by eexists) (run_db_wf _) ltac:(vm_compute; discriminate)) as H.
  cbv zeta in H |- *. rewrite (proj1 (proj2 H)). reflexivity.
Defined.
