(* ===== verification/Startup.v ===== *)
(** * Starting the orchestrator ([main.py], [leases/settings.py])

    [create_default_app] reads the environment, the key and alert files and the persisted
    registry, and builds the state the gateway starts from.  The environment and the
    files are arguments; what a malformed value raises is an outcome, and the rows of the
    registry survive a start that fails.  The order in which SQLite selects those rows is an
    argument. *)

From S2P Require Import Prelude.
From S2P Require Import PyFloat.
From S2P Require Import PyStr.
From S2P Require Import PyNum.
From S2P Require Import PyRound.
From S2P Require Import PyDict.
From S2P Require Import PyJson.
From S2P Require Import ApiModels.
From S2P Require Import Leases.
From S2P Require Import Registry.
From S2P Require Import Health.
From S2P Require Import Scheduling.
From S2P Require Import Routing.
From S2P Require Import LoadProbe.
From S2P Require Import Throughput.
From S2P Require Import Metrics.
From S2P Require Import Alerts.
From S2P Require Import Nodes.
From S2P Require Import Gateway.
From S2P Require Import GatewayFrames.
From S2P Require Import GatewaySafety.
From S2P Require Import Security.

#[local] Open Scope list_scope.

(** ** Errors and the environment *)

Inductive startup_error :=
  | BadInt (text : string)
  | BadFloat (text : string)
  | NotANumber
  | OutOfRange
  | BadSettings (msg : string)
  | BadWindow
  | BadKeysFile
  | NotJsonFile
  | BadRulesFile (e : alert_error)
  | BadRows.

Abbreviation startup A := (outcome startup_error A).

#[local] Instance start_ret : MRet (outcome startup_error) := λ A a, Ret a.
#[local] Instance start_bind : MBind (outcome startup_error) := λ A B k o, outcome_bind o k.

(** [os.environ] *)
Abbreviation environ := (gmap string string).

(** [env.get(name, default)] *)
Definition getenv (env : environ) (name dflt : string) : string := default dflt (env !! name).

Definition read_int (s : string) : startup Z :=
  match int_of_str s with Some n => Ret n | None => Raise (BadInt s) end.

Definition read_float (s : string) : startup float :=
  match float_of_str s with Some x => Ret x | None => Raise (BadFloat s) end.

(** A [timedelta] holds at most 999999999 days either way. *)
Definition td_check (us : timedelta) : startup timedelta :=
  if (Z.abs (us / 86400000000) <=? 999999999)%Z then Ret us else Raise OutOfRange.

(** [timedelta(seconds=n)] of an integer *)
Definition td_of_int (n : Z) : startup timedelta := td_check (td_seconds n).

(** [timedelta(seconds=x)] of a float: the whole seconds are exact, and the microseconds
    of the rest are rounded to even. *)
Definition td_of_float (x : float) : startup timedelta :=
  match int_of_float x with
  | None => Raise (if is_nan x then NotANumber else OutOfRange)
  | Some n => td_check (td_seconds n + f_round (f_mul (f_of_Z 1000000) (f_sub x (f_of_Z n))))
  end.

(** ** Lease settings *)

(** [_seconds] *)
Definition env_seconds (env : environ) (name dflt : string) : startup timedelta :=
  x ← read_float (getenv env name dflt); td_of_float x.

Definition lease_settings_from_env (env : environ) : startup LeaseSettings :=
  ttl ← env_seconds env "ORCHESTRATOR_LEASE_TTL_S" "180";
  default_ceiling ← env_seconds env "ORCHESTRATOR_LEASE_CEILING_S" "10800";
  max_ceiling ← env_seconds env "ORCHESTRATOR_LEASE_MAX_CEILING_S" "10800";
  min_active ← read_int (getenv env "ORCHESTRATOR_LEASE_MIN_ACTIVE_NODES" "1");
  let s := {| ls_ttl := ttl; ls_default_ceiling := default_ceiling; ls_max_ceiling := max_ceiling;
              ls_min_active_nodes := min_active; ls_expiring_soon := ls_expiring_soon default_lease_settings |} in
  match lease_settings_error s with Some msg => Raise (BadSettings msg) | None => Ret s end.

(** ** Authentication and alert rules *)

(** [_auth_enabled] *)
Definition auth_enabled (env : environ) : bool :=
  negb (bool_decide (str_lower (str_strip (getenv env "ORCHESTRATOR_AUTH_ENABLED" "true")) ∈ ["false"; "0"; "no"])).

(** The files that exist; [None] is one whose text is not JSON. *)
Abbreviation file_system := (gmap string (option json)).

Definition DEFAULT_API_KEYS_FILE : string := "./config/api_keys.json".
Definition DEFAULT_ALERT_RULES_FILE : string := "./config/alert_rules.json".

Section files.
Context `{IsoFormat} (show_json : json → string).

(** [_load_key_store] *)
Definition load_key_store (env : environ) (files : file_system) : startup (list ClientConfig) :=
  match files !! getenv env "ORCHESTRATOR_API_KEYS_FILE" DEFAULT_API_KEYS_FILE with
  | None => Ret []
  | Some None => Raise NotJsonFile
  | Some (Some data) =>
      match load_clients show_json data with Some clients => Ret clients | None => Raise BadKeysFile end
  end.
End files.

(** [[_rule_from_dict(rule) for rule in data["rules"]]] *)
Fixpoint rules_from (rules : list json) : outcome alert_error (list AlertRule) :=
  match rules with
  | [] => Ret []
  | rule :: rules => outcome_bind (rule_from_dict rule) (λ r, outcome_bind (rules_from rules) (λ rs, Ret (r :: rs)))
  end.

(** [AlertEvaluator.from_file] *)
Definition evaluator_of_json (data : json) : outcome alert_error AlertEvaluator :=
  outcome_bind (rule_field (λ j, match j with JList l => Some l | _ => None end) data "rules") (λ rules,
  outcome_bind (rules_from rules) (λ rs, Ret (AlertEvaluator_new rs))).

(** [_load_alert_evaluator] *)
Definition load_alert_evaluator (env : environ) (files : file_system) : startup AlertEvaluator :=
  match files !! getenv env "ORCHESTRATOR_ALERT_RULES_FILE" DEFAULT_ALERT_RULES_FILE with
  | None => Ret (AlertEvaluator_new [])
  | Some None => Raise NotJsonFile
  | Some (Some data) => match evaluator_of_json data with Ret e => Ret e | Raise e => Raise (BadRulesFile e) end
  end.

(** ** Backends *)

(** [_parse_gap_timeout]: [None] waits without a bound. *)
Definition parse_gap_timeout (raw : option string) : startup (option float) :=
  match raw with
  | None => Ret (Some (f_of_Z 1800))
  | Some raw =>
      if bool_decide (str_lower (str_strip raw) ∈ [""; "0"; "none"]) then Ret None
      else x ← read_float raw; Ret (Some x)
  end.

(** The arguments of a backend's constructor. *)
Record BackendConfig := {
  bc_base_url : string;
  bc_timeout : option float;
  bc_max_retries : Z;
  bc_connect_timeout : float;
  bc_pool_timeout : float;
  bc_write_timeout : float;
  bc_health_timeout : float;
  bc_model_aliases : option (gmap string (list string));
}.

(** The two factories differ in the prefix of their variables and in the aliases. *)
Definition backend_config (env : environ) (prefix url : string) (aliases : option (gmap string (list string)))
    : startup BackendConfig :=
  timeout ← parse_gap_timeout (env !! (prefix +:+ "_TIMEOUT"));
  max_retries ← read_int (getenv env (prefix +:+ "_MAX_RETRIES") "2");
  connect ← read_float (getenv env (prefix +:+ "_CONNECT_TIMEOUT") "10");
  pool ← read_float (getenv env (prefix +:+ "_POOL_TIMEOUT") "10");
  write ← read_float (getenv env (prefix +:+ "_WRITE_TIMEOUT") "60");
  health ← read_float (getenv env (prefix +:+ "_HEALTH_TIMEOUT") "10");
  Ret {| bc_base_url := url; bc_timeout := timeout; bc_max_retries := max_retries; bc_connect_timeout := connect;
         bc_pool_timeout := pool; bc_write_timeout := write; bc_health_timeout := health;
         bc_model_aliases := aliases |}.

Definition BACKEND_FACTORIES (env : environ) : dict string (HostCapabilities → startup BackendConfig) :=
  [("lmstudio", λ caps, backend_config env "LMSTUDIO" (base_url caps) (model_aliases caps));
   ("llamaserver", λ caps, backend_config env "LLAMASERVER" (base_url caps) None)].

(** The class of the exception. *)
Definition startup_kind (e : startup_error) : string :=
  match e with
  | NotJsonFile => "JSONDecodeError"
  | OutOfRange => "OverflowError"
  | BadKeysFile | BadRulesFile _ | BadRows => "KeyError"
  | _ => "ValueError"
  end.

(** The table as [create_app] uses it: a factory raises over a variable that is no number, or
    where the HTTP client refuses the URL; [url_error] is what [httpx.AsyncClient] says of it. *)
Definition app_factories (url_error : string → option string) (env : environ) : Factories :=
  {| fa_types := list_to_set (d_keys (BACKEND_FACTORIES env));
     fa_error := λ caps,
       match d_get (BACKEND_FACTORIES env) (backend_type caps) with
       | None => None
       | Some factory =>
           match factory caps with Raise e => Some (startup_kind e) | Ret config => url_error (bc_base_url config) end
       end |}.

(** ** The app *)

Record App := {
  app_registry : HostRegistry;
  app_alerts : AlertEvaluator;
  app_clients : list ClientConfig;
  app_auth_enabled : bool;
  app_wait_timeout : float;
  app_lms_binary : string;
  app_probes : gmap string (ExternalLoadProbe + LlamaCPPServerLoadProbe);
  app_health_poll_interval : float;
  app_completions : CompletionLog;
  app_lease_settings : LeaseSettings;
}.

(** The host of [LMSTUDIO_BASE_URL] is registered at every start, at its old position. *)
Definition register_default (env : environ) (now : datetime) (r : HostRegistry) : startup HostRegistry :=
  match env !! "LMSTUDIO_BASE_URL" with
  | None => Ret r
  | Some url =>
      let old_position := h ← find (λ h, bool_decide (host_id h = url)) (host_infos r); position (capabilities h) in
      window ← read_int (getenv env "LMSTUDIO_CONTEXT_WINDOW" "131072");
      max_concurrent ← read_int (getenv env "LMSTUDIO_MAX_CONCURRENT_REQUESTS" "1");
      Ret (register url
        {| backend_type := "lmstudio"; context_window := window; base_url := url; allowed_models := None;
           memory_budget_gb := None; model_sizes_gb := None; model_aliases := None; position := old_position |}
        {| max_concurrent_requests := max_concurrent |} now r)
  end.

Definition probe_ttl (env : environ) : startup timedelta :=
  n ← read_int (getenv env "ORCHESTRATOR_EXTERNAL_LOAD_PROBE_INTERVAL_S" "2"); td_of_int n.

Section app.
Context `{IsoFormat} (show_json : json → string).

(** The arguments of [create_app], in the order they are evaluated. *)
Definition build_app (env : environ) (files : file_system) (now : datetime) (r : HostRegistry) : startup App :=
  alerts ← load_alert_evaluator env files;
  clients ← (if auth_enabled env then load_key_store show_json env files else Ret []);
  wait ← read_float (getenv env "ORCHESTRATOR_DISPATCH_WAIT_TIMEOUT_S" "120");
  lms_ttl ← probe_ttl env;
  slots_ttl ← probe_ttl env;
  poll ← read_float (getenv env "ORCHESTRATOR_HEALTH_POLL_INTERVAL_S" "5");
  window ← env_seconds env "ORCHESTRATOR_THROUGHPUT_WINDOW_S" "3600";
  completions ← (match CompletionLog_new window now with Some c => Ret c | None => Raise BadWindow end);
  settings ← lease_settings_from_env env;
  Ret {| app_registry := r; app_alerts := alerts; app_clients := clients; app_auth_enabled := auth_enabled env;
         app_wait_timeout := wait; app_lms_binary := getenv env "ORCHESTRATOR_LMS_BINARY_PATH" "lms";
         app_probes := {[ "lmstudio" := inl {| elp_cache := ProbeCache_new lms_ttl |};
                          "llamaserver" := inr {| llp_cache := ProbeCache_new slots_ttl |} ]};
         app_health_poll_interval := poll; app_completions := completions; app_lease_settings := settings |}.

(** [select] gives the rows of the table in the order in which they are read. *)
Definition create_default_app (select : dict string host_row → dict string host_row) (env : environ)
    (files : file_system) (now : datetime) : prog (dict string host_row) startup_error App := λ rows,
  match HostRegistry_new select rows with
  | None => (Raise BadRows, rows)
  | Some r =>
      match register_default env now r with
      | Raise e => (Raise e, rows)
      | Ret r => (build_app env files now r, hr_rows r)
      end
  end.
End app.

(** What the handlers share when the first request comes. *)
Definition app_gateway (a : App) (now : datetime) : Gateway :=
  {| g_world :=
       {| w_registry := app_registry a; w_health := HealthMonitor_new; w_book := NodeLeaseBook_new;
          w_backends := ∅; w_external_loads := ∅; w_metrics := MetricsRegistry_new (td_minutes 5);
          w_completions := app_completions a; w_now := now; w_lease_now := now |};
     g_queue := SchedulingQueue_new; g_router := RoutingEngine_new latency_policy true; g_requests := ∅ |}.

(** [enforce_auth] of the app *)
Definition app_auth (a : App) : string → option string → datetime → auth_result :=
  enforce_auth (app_auth_enabled a) (app_clients a).

(** [run]: where the server listens *)
Definition server_address (env : environ) : startup (string * Z) :=
  port ← read_int (getenv env "ORCHESTRATOR_PORT" "8080");
  Ret (getenv env "ORCHESTRATOR_HOST" "0.0.0.0", port).

Example tenth_of_a_second : (x ← read_float "0.1"; td_of_float x) = Ret 100000%Z.
Proof. by vm_compute. Qed.
Example half_microsecond : (x ← read_float "-2.0000025"; td_of_float x) = Ret (-2000002)%Z.
Proof. by vm_compute. Qed.
Example infinite_ttl : (x ← read_float "inf"; td_of_float x) = Raise OutOfRange.
Proof. by vm_compute. Qed.
Example unset_settings : lease_settings_from_env ∅ = Ret default_lease_settings.
Proof. by vm_compute. Qed.

(** ** Lemmas *)

(** Seconds a [timedelta] can hold. *)
Definition seconds_fit (n : Z) : Prop := (Z.abs n ≤ 999999999 * 86400)%Z.

Lemma td_of_whole n : seconds_fit n → td_of_float (f_of_Z n) = Ret (td_seconds n).
Proof.
  unfold seconds_fit. intros Hn. unfold td_of_float. rewrite int_of_float_of_Z by lia.
  assert (E : f_sub (f_of_Z n) (f_of_Z n) = f_zero).
  { unfold f_sub, SFsub. destruct (Z.lt_trichotomy n 0) as [H0|[->|H0]]; [|done|].
    - destruct (f_of_Z_value (- n)) as (m & e & _ & E & _); [lia|]. rewrite Z.opp_involutive in E. rewrite E.
      by rewrite Z.sub_diag.
    - destruct (f_of_Z_value n) as (m & e & E & _); [lia|]. rewrite E. by rewrite Z.sub_diag. }
  rewrite E. change (f_round _) with 0%Z. rewrite Z.add_0_r. unfold td_check, td_seconds.
  rewrite (proj2 (Z.leb_le _ _)); [done|].
  replace (n * 1000000 / 86400000000)%Z with (n / 86400)%Z
    by (change 86400000000%Z with (86400 * 1000000)%Z; by rewrite Z.div_mul_cancel_r).
  pose proof (Z.div_le_upper_bound n 86400 999999999). pose proof (Z.div_le_lower_bound n 86400 (-999999999)). lia.
Qed.

(** What [float] and [int] read back from a printed integer. *)
Lemma env_seconds_whole env name dflt n :
  getenv env name dflt = str_of_Z n → seconds_fit n → env_seconds env name dflt = Ret (td_seconds n).
Proof.
  intros E Hn. unfold env_seconds, read_float. rewrite E, float_of_str_of_Z by (unfold seconds_fit in Hn; lia).
  by apply td_of_whole.
Qed.

Lemma read_int_whole n : (Z.abs n ≤ 2 ^ 53)%Z → read_int (str_of_Z n) = Ret n.
Proof.
  intros Hn. unfold read_int. rewrite int_of_str_of_Z; [done|].
  change (Z.of_nat (String.length (str_of_Z (Z.abs n)))) with (ndigits (Z.abs n)). unfold max_str_digits.
  destruct (decide (Z.abs n = 0)%Z) as [->|]; [done|].
  destruct (ndigits_bounds (Z.abs n)) as (Hp & Hlo & _); [lia|].
  destruct (Z.le_gt_cases (ndigits (Z.abs n)) 4300) as [|Hgt]; [done|exfalso].
  assert (10 ^ 16 ≤ 10 ^ (ndigits (Z.abs n) - 1))%Z by (apply Z.pow_le_mono_r; lia). lia.
Qed.

(** A start that succeeds: the registry it loaded, the host it registered, and the rest. *)
Section inversion.
Context `{IsoFormat} (show_json : json → string).

Lemma create_default_app_inv select env files now rows a rows' :
  create_default_app show_json select env files now rows = (Ret a, rows') →
  ∃ r, HostRegistry_new select rows = Some r ∧ register_default env now r = Ret (app_registry a) ∧
    rows' = hr_rows (app_registry a) ∧ build_app show_json env files now (app_registry a) = Ret a.
Proof.
  unfold create_default_app. destruct (HostRegistry_new select rows) as [r|]; [|done].
  destruct (register_default env now r) as [r'|e] eqn:E; [|done]. intros [= Hb <-].
  assert (app_registry a = r') as ->; [|by eexists].
  revert Hb. unfold build_app, mbind, start_bind, outcome_bind.
  repeat (match goal with |- context [match ?x with Ret _ => _ | Raise _ => _ end] => destruct x end; [|done]).
  by intros [= <-].
Qed.

Lemma build_app_inv env files now r a :
  build_app show_json env files now r = Ret a →
  app_auth_enabled a = auth_enabled env ∧
  (auth_enabled env = true → load_key_store show_json env files = Ret (app_clients a)) ∧
  read_float (getenv env "ORCHESTRATOR_DISPATCH_WAIT_TIMEOUT_S" "120") = Ret (app_wait_timeout a) ∧
  lease_settings_from_env env = Ret (app_lease_settings a).
Proof.
  unfold build_app, mbind, start_bind, outcome_bind.
  destruct (load_alert_evaluator env files); [|done].
  destruct (if auth_enabled env then load_key_store show_json env files else Ret []) as [clients|] eqn:Ec; [|done].
  destruct (read_float _) as [wait|] eqn:Ew; [|done].
  destruct (probe_ttl env); [|done]. destruct (read_float (getenv env "ORCHESTRATOR_HEALTH_POLL_INTERVAL_S" "5")); [|done].
  destruct (env_seconds _ _ _); [|done]. destruct (match CompletionLog_new _ _ with Some _ => _ | None => _ end); [|done].
  destruct (lease_settings_from_env env) eqn:El; [|done]. intros [= <-]. cbn. split_and!; [done| |done|done].
  by destruct (auth_enabled env).
Qed.
End inversion.

(** The registry after a start: what the table held, and the host of the environment. *)
Lemma registered_default env now r r' :
  reg_wf r → register_default env now r = Ret r' →
  reg_wf r' ∧
  match env !! "LMSTUDIO_BASE_URL" with
  | None => r' = r
  | Some url => ∃ c n, r' = register url c n now r ∧
      position c = lookup_host r url ≫= λ h, position (capabilities h)
  end.
Proof.
  intros Hwf. unfold register_default. destruct (env !! "LMSTUDIO_BASE_URL") as [url|]; [|by intros [= <-]].
  unfold mbind at 1 2, start_bind, outcome_bind.
  destruct (read_int _) as [window|]; [|done]. destruct (read_int _) as [mx|]; [|done]. intros [= <-].
  split; [by apply register_wf|]. eexists _, _. split; [done|]. simpl. by rewrite lookup_host_find.
Qed.

(** ** Properties *)

(** The lease settings are read exactly: with whole seconds in the environment (or its
    defaults), the start goes on with these settings when the lease length and the
    ceilings are positive, the default ceiling is within the maximum and the number of nodes
    to keep is not negative, and it stops with a [ValueError] otherwise. *)
Theorem lease_settings_exact env ttl ceiling max_ceiling min_active :
  getenv env "ORCHESTRATOR_LEASE_TTL_S" "180" = str_of_Z ttl →
  getenv env "ORCHESTRATOR_LEASE_CEILING_S" "10800" = str_of_Z ceiling →
  getenv env "ORCHESTRATOR_LEASE_MAX_CEILING_S" "10800" = str_of_Z max_ceiling →
  getenv env "ORCHESTRATOR_LEASE_MIN_ACTIVE_NODES" "1" = str_of_Z min_active →
  seconds_fit ttl → seconds_fit ceiling → seconds_fit max_ceiling → (Z.abs min_active ≤ 2 ^ 53)%Z →
  if decide (0 < ttl ∧ 0 < ceiling ≤ max_ceiling ∧ 0 ≤ min_active)%Z
  then lease_settings_from_env env =
    Ret {| ls_ttl := td_seconds ttl; ls_default_ceiling := td_seconds ceiling; ls_max_ceiling := td_seconds max_ceiling;
           ls_min_active_nodes := min_active; ls_expiring_soon := td_seconds 60 |}
  else ∃ msg, lease_settings_from_env env = Raise (BadSettings msg).
Proof.
  intros E1 E2 E3 E4 H1 H2 H3 H4. unfold lease_settings_from_env.
  rewrite (env_seconds_whole _ _ _ _ E1), (env_seconds_whole _ _ _ _ E2), (env_seconds_whole _ _ _ _ E3), E4,
    read_int_whole by done.
  cbn [mbind start_bind outcome_bind]. unfold lease_settings_error, td_seconds. cbn.
  destruct (Z.leb_spec (ttl * 1000000) 0); [rewrite decide_False by lia; by eexists|].
  destruct (Z.leb_spec (ceiling * 1000000) 0); cbn; [rewrite decide_False by lia; by eexists|].
  destruct (Z.ltb_spec (max_ceiling * 1000000) (ceiling * 1000000)); cbn; [rewrite decide_False by lia; by eexists|].
  destruct (Z.ltb_spec min_active 0); [rewrite decide_False by lia; by eexists|].
  by rewrite decide_True by lia.
Qed.

(** C18. Authentication fails closed.  The started app checks nothing exactly when
    [ORCHESTRATOR_AUTH_ENABLED] says so; otherwise it checks every request against the
    clients of the key file, and without that file it refuses every request outside
    the exempt paths. *)
Theorem auth_fails_closed `{IsoFormat} show_json select env files now rows a rows' :
  create_default_app show_json select env files now rows = (Ret a, rows') →
  let word := str_lower (str_strip (getenv env "ORCHESTRATOR_AUTH_ENABLED" "true")) in
  let file := files !! getenv env "ORCHESTRATOR_API_KEYS_FILE" DEFAULT_API_KEYS_FILE in
  ((word = "false" ∨ word = "0" ∨ word = "no") ∧ ∀ path hdr at_, app_auth a path hdr at_ = Allowed None) ∨
  ((word ∉ ["false"; "0"; "no"]) ∧
  ((file = None ∧ ∀ path hdr at_, path ∉ AUTH_EXEMPT_PATHS → ∃ code, app_auth a path hdr at_ = Refused 401 code) ∨
   ∃ data clients, file = Some (Some data) ∧ load_clients show_json data = Some clients ∧
     app_auth a = enforce_auth true clients)).
Proof.
  intros (r & _ & _ & _ & Hb)%create_default_app_inv. apply build_app_inv in Hb as (Ha & Hk & _). cbv zeta.
  unfold app_auth. rewrite Ha. unfold auth_enabled in *. case_bool_decide as Hw; cbn [negb] in *.
  - left. split; [|done]. set_solver.
  - right. split; [done|]. specialize (Hk eq_refl). unfold load_key_store in Hk.
    destruct (files !! _) as [[data|]|]; [|done|].
    + right. destruct (load_clients show_json data) as [cs|] eqn:E; [|done]. injection Hk as <-. eauto.
    + left. injection Hk as <-. split; [done|]. intros path hdr at_ Hp. unfold enforce_auth. cbn [negb].
      rewrite bool_decide_eq_false_2 by done. destruct (bearer_token _) as [[|c t]|]; by eexists.
Qed.

(** C16. A restart keeps the operator's nodes.  Over the table of any earlier run, and in whatever
    order its rows are read, the started app lists the same hosts, and the host of
    [LMSTUDIO_BASE_URL] if it is new.  It lists them in the same order, the new one last, when
    their positions differ or the rows are read in the order they were inserted in (which the
    query leaves to SQLite).  Every other host is as it was with no request running, and the table
    it leaves rebuilds the registry at the next start, again in whatever order it is read. *)
Theorem restart_keeps_hosts `{IsoFormat} show_json select env files now history a rows' w :
  selects_all select → w_registry w = run_reg empty_registry history →
  let table := hr_rows (w_registry w) in
  create_default_app show_json select env files now table = (Ret a, rows') →
  let before := host_id <$> listed_hosts w in
  let after := host_id <$> listed_hosts (g_world (app_gateway a now)) in
  let added := match env !! "LMSTUDIO_BASE_URL" with
               | Some url => match lookup_host (w_registry w) url with Some _ => [] | None => [url] end
               | None => []
               end in
  after ≡ₚ before ++ added ∧
  (NoDup ((λ h, position (capabilities h)) <$> host_infos (w_registry w)) ∨ select table = table →
   after = before ++ added) ∧
  (∀ id, env !! "LMSTUDIO_BASE_URL" ≠ Some id →
     lookup_host (app_registry a) id = reset_info <$> lookup_host (w_registry w) id) ∧
  ∀ select', selects_all select' →
    ∃ r, HostRegistry_new select' rows' = Some r ∧ host_infos r ≡ₚ reset_info <$> host_infos (app_registry a).
Proof.
  intros Hs Hw table (r0 & Hr0 & Hreg & -> & _)%create_default_app_inv before after added.
  assert (Hwf : reg_wf (w_registry w)) by (rewrite Hw; apply run_reg_wf, empty_registry_wf).
  destruct (registry_reload select _ Hwf Hs) as (r1 & E & Hwf0 & Hi & Hlook & Hsame).
  assert (r1 = r0) as -> by (unfold table in Hr0; congruence).
  destruct (registered_default _ _ _ _ Hwf0 Hreg) as [Hwf1 Hcase].
  assert (Hafter : after = (host_id <$> sort_by position_le (host_infos r0)) ++ added).
  { unfold after, added, listed_hosts, app_gateway. cbn [g_world w_registry].
    destruct (env !! _) as [url|]; [|by rewrite Hcase, app_nil_r].
    destruct Hcase as (c & n & -> & Hpos). rewrite listed_after_register by done. rewrite Hlook.
    by destruct (lookup_host (w_registry w) url). }
  assert (Hreset : before = host_id <$> sort_by position_le (reset_info <$> host_infos (w_registry w))).
  { unfold before, listed_hosts. rewrite sort_by_fmap by (intros; by apply position_le_same). by rewrite <-list_fmap_compose. }
  split_and!.
  - by rewrite Hafter, Hreset, !sort_by_perm, Hi.
  - intros Hord. rewrite Hafter, Hreset. f_equal. f_equal. destruct Hord as [Hnd|Hnd]; [|by rewrite Hsame].
    apply listed_unique; [done|]. rewrite Hi, <-list_fmap_compose. exact Hnd.
  - intros id Hid. rewrite <-Hlook. destruct (env !! _) as [url|]; [|by rewrite Hcase].
    destruct Hcase as (c & n & -> & _). rewrite lookup_register by done. by rewrite decide_False by congruence.
  - intros select' Hs'. destruct (registry_reload select' _ Hwf1 Hs') as (r & E' & _ & Hi' & _). by exists r.
Qed.

(** C17. What is started is safe to serve from.  The gateway starts with no request and no slot
    taken, over whatever an earlier run stored; as long as no host is deregistered, every slot
    taken later belongs to a request that runs; and with the deployed 120 second wait no request
    waits for more than 1201 polls, whatever happens. *)
Theorem deployment_is_sound `{IsoFormat} show_json select url_error env files now history a rows' :
  selects_all select →
  create_default_app show_json select env files now (hr_rows (run_reg empty_registry history)) = (Ret a, rows') →
  let run := run_gw (app_factories url_error env) (app_lease_settings a) default_health_config (app_wait_timeout a)
               default_poll_interval in
  let g := app_gateway a now in
  g_requests g = ∅ ∧ (∀ id h, lookup_host (w_registry (g_world g)) id = Some h → in_flight h = 0%Z) ∧
  (∀ ops id h, Forall no_deregister ops → lookup_host (w_registry (g_world (run g ops))) id = Some h →
     in_flight h = Z.of_nat (running_on id (g_requests (run g ops)))) ∧
  (env !! "ORCHESTRATOR_DISPATCH_WAIT_TIMEOUT_S" = None →
   ∀ ops ops' rid c locs f,
     g_requests (run g ops) !! rid = Some (Waiting c locs f f_zero) → (1201 ≤ wakes rid ops')%nat →
     settled (g_requests (run (run g ops) ops') !! rid)).
Proof.
  intros Hs (r & Hr & Hreg & _ & Hb)%create_default_app_inv run g.
  destruct (registry_reload select _ (run_reg_wf _ history empty_registry_wf) Hs) as (r' & E & Hwf & _ & Hl & _).
  assert (r' = r) as -> by congruence. destruct (registered_default _ _ _ _ Hwf Hreg) as [Hwf' Hcase].
  assert (H0 : ∀ id h, lookup_host r id = Some h → in_flight h = 0%Z).
  { intros id h. rewrite Hl. by intros (x & _ & ->)%fmap_Some. }
  assert (Hidle : idle_gateway g).
  { split; [done|done|done|]. simpl. intros id h. destruct (env !! _) as [url|]; [|rewrite Hcase; apply H0].
    destruct Hcase as (c & n & -> & _). rewrite lookup_register by done. case_decide; [|apply H0].
    intros [= <-]. simpl. destruct (lookup_host r url) eqn:E1; [by eapply H0|done]. }
  split; [done|split; [by destruct Hidle|]].
  split.
  - intros ops id h Hops. apply (run_gw_ind _ _ _ _ _ slot_inv no_deregister);
      [intros; by apply slot_inv_op|by apply idle_slot_inv|done].
  - intros Hw ops ops' rid c locs f Hrid Hn. apply build_app_inv in Hb as (_ & _ & Hwait & _).
    unfold getenv in Hwait. rewrite Hw in Hwait. cbn [default from_option id] in Hwait.
    assert (app_wait_timeout a = f_of_Z 120) as Ht by (vm_compute in Hwait |- *; congruence).
    destruct (waiting_run (app_factories url_error env) (app_lease_settings a) default_health_config (app_wait_timeout a)
      default_poll_interval _ ops' rid c locs f f_zero
      (calm_run _ _ _ _ _ g ops eq_refl) Hrid) as [|[_ Hk]]; [done|].
    specialize (Hk 1201%nat ltac:(lia)). rewrite Ht in Hk. by vm_compute in Hk.
Qed.

(** ** Concrete starts *)

Definition parse_number (s : string) : option datetime :=
  let '(neg, u) := split_sign s in Some (if neg then - read_digits 0 u else read_digits 0 u)%Z.

(** Times written as their number of microseconds. *)
#[local] Instance number_format : IsoFormat.
Proof.
  refine {| iso_of := str_of_Z; iso_parse := parse_number |}.
  - intros t. unfold parse_number. destruct (Z.le_gt_cases 0 t) as [Ht|Ht].
    + rewrite split_sign_digits by (by apply all_digits_inv, all_digits_str_of_Z). by rewrite read_str_of_Z.
    + rewrite str_of_Z_neg by lia. cbn [split_sign]. rewrite bool_decide_true by done.
      destruct (str_of_N_spec (Z.to_N (- t))) as (_ & _ & ->). f_equal. lia.
  - intros t. destruct (Z.le_gt_cases 0 t) as [Ht|Ht].
    + by apply all_digits_inv, all_digits_str_of_Z.
    + by rewrite str_of_Z_neg by lia.
Defined.

Definition sample_start (env : environ) (rows : dict string host_row) : outcome startup_error App * dict string host_row :=
  create_default_app (λ _, "?") reverse env ∅ 0 rows.

Lemma reverse_selects_all : selects_all reverse.
Proof. intros rows. apply reverse_Permutation. Qed.

(** Two hosts, listed against the order of their registration; the starts below read the table
    backwards. *)
Definition sample_history : list reg_op :=
  let caps p := {| backend_type := "lmstudio"; context_window := 4096; base_url := "http://h"; allowed_models := None;
                   memory_budget_gb := None; model_sizes_gb := None; model_aliases := None; position := Some p |} in
  [OpRegister "a" (caps 1%Z) {| max_concurrent_requests := 1 |} 0;
   OpRegister "b" (caps 0%Z) {| max_concurrent_requests := 1 |} 0; OpAcquire "a"].

Lemma lease_settings_exact_witness :
  lease_settings_from_env {["ORCHESTRATOR_LEASE_TTL_S" := "60"]} =
    Ret {| ls_ttl := td_seconds 60; ls_default_ceiling := td_seconds 10800; ls_max_ceiling := td_seconds 10800;
           ls_min_active_nodes := 1; ls_expiring_soon := td_seconds 60 |} ∧
  ∃ msg, lease_settings_from_env {["ORCHESTRATOR_LEASE_TTL_S" := "0"]} = Raise (BadSettings msg).
Proof.
  split.
  - refine (lease_settings_exact {["ORCHESTRATOR_LEASE_TTL_S" := "60"]} 60 10800 10800 1 _ _ _ _ _ _ _ _);
      [by vm_compute..|unfold seconds_fit; lia|unfold seconds_fit; lia|unfold seconds_fit; lia|lia].
  - refine (lease_settings_exact {["ORCHESTRATOR_LEASE_TTL_S" := "0"]} 0 10800 10800 1 _ _ _ _ _ _ _ _);
      [by vm_compute..|unfold seconds_fit; lia|unfold seconds_fit; lia|unfold seconds_fit; lia|lia].
Defined.

Lemma auth_fails_closed_witness :
  match sample_start ∅ [] with
  | (Ret a, _) => ∃ code, app_auth a "/v1/nodes" (Some "Bearer secret") 0 = Refused 401 code
  | _ => False
  end.
Proof.
  destruct (sample_start ∅ []) as [[a|e] rows'] eqn:E; [|by vm_compute in E].
  destruct (auth_fails_closed (λ _, "?") reverse ∅ ∅ 0 [] a rows' E) as [[Hw _]|[_ [[_ Hall]|(data & cs & Hf & _)]]].
  - clear -Hw. vm_compute in Hw. by destruct Hw as [Hw|[Hw|Hw]]; discriminate Hw.
  - apply Hall. vm_decide.
  - by vm_compute in Hf.
Defined.

Lemma restart_keeps_hosts_witness :
  match sample_start {["LMSTUDIO_BASE_URL" := "c"]} (hr_rows (run_reg empty_registry sample_history)) with
  | (Ret a, _) => host_id <$> listed_hosts (g_world (app_gateway a 0)) = ["b"; "a"; "c"]
  | _ => False
  end.
Proof.
  destruct (sample_start _ _) as [[a|e] rows'] eqn:E; [|by vm_compute in E].
  set (w := set_registry (run_reg empty_registry sample_history) (sample_world [])).
  destruct (restart_keeps_hosts (λ _, "?") reverse {["LMSTUDIO_BASE_URL" := "c"]} ∅ 0 sample_history a rows' w
    reverse_selects_all eq_refl E) as (_ & H & _).
  rewrite H; [by vm_compute|]. left. vm_decide.
Defined.

(** ["r2"] has just started to wait behind ["r1"] on the only host. *)
Definition two_requests (a : App) : Gateway :=
  run_gw (app_factories (λ _, None) ∅) (app_lease_settings a) default_health_config (app_wait_timeout a) default_poll_interval
    (app_gateway a 0) two_arrive.

Definition just_waits (g : Gateway) (rid : string) : bool :=
  match g_requests g !! rid with Some (Waiting _ _ _ x) => bool_decide (x = f_zero) | _ => false end.

Lemma deployment_is_sound_witness :
  match sample_start ∅ (hr_rows (run_reg empty_registry (take 1 sample_history))) with
  | (Ret a, _) =>
      just_waits (two_requests a) "r2" = true ∧
      (∀ id h, lookup_host (w_registry (g_world (two_requests a))) id = Some h →
         in_flight h = Z.of_nat (running_on id (g_requests (two_requests a)))) ∧
      settled (g_requests (run_gw (app_factories (λ _, None) ∅) (app_lease_settings a) default_health_config (app_wait_timeout a)
                 default_poll_interval (two_requests a) (replicate 1201 (GWake "r2"))) !! "r2")
  | _ => False
  end.
Proof.
  assert (Hw : match sample_start ∅ (hr_rows (run_reg empty_registry (take 1 sample_history))) with
               | (Ret a, _) => just_waits (two_requests a) "r2" | _ => false end = true) by by vm_compute.
  destruct (sample_start _ _) as [[a|e] rows'] eqn:E; [|done].
  destruct (deployment_is_sound (λ _, "?") reverse (λ _, None) ∅ ∅ 0 (take 1 sample_history) a rows' reverse_selects_all E)
    as (_ & _ & H1 & H2).
  split; [exact Hw|split].
  - intros id h. apply H1. repeat constructor.
  - unfold just_waits in Hw. destruct (g_requests (two_requests a) !! "r2") as [[|c locs f x| |]|] eqn:Er; try discriminate Hw.
    apply bool_decide_eq_true in Hw as ->.
    assert (Hn : (1201 ≤ wakes "r2" (replicate 1201 (GWake "r2")))%nat) by vm_decide.
    exact (H2 eq_refl two_arrive (replicate 1201 (GWake "r2")) "r2" c locs f Er Hn).
Defined.
