(* ===== verification/Adapters.v ===== *)
(** * The adapters and the connections they hold ([backends/], [api/lifetime.py], [api/app.py])

    [Backends] says what an adapter makes of a server's answers, all at once.  Here an adapter
    is the object of its class, [_stream_chunks] is the generator it is, resumed chunk by chunk,
    closed or cancelled in between, and around it are the generator of the gateway, the owner
    of the slot, and [complete].  What each step does to the connection is logged: a response is
    closed before the request that opened it gives its slot back. *)

From S2P Require Import Prelude.
From S2P Require Import PyFloat.
From S2P Require Import PyStr.
From S2P Require Import PyDict.
From S2P Require Import PyJson.
From S2P Require Import ApiModels.
From S2P Require Import Registry.
From S2P Require Import Nodes.
From S2P Require Import Gateway.
From S2P Require Import Backends.
From S2P Require Import Streams.
From S2P Require Import Startup.

#[local] Open Scope list_scope.

(** ** The objects *)

(** What [httpx.AsyncClient] is given; the first time-out is the one between two reads. *)
Record AsyncClient := {
  ht_base_url : string;
  ht_read : option float;
  ht_connect : float;
  ht_pool : float;
  ht_write : float;
}.

Definition client_of (c : BackendConfig) : AsyncClient :=
  {| ht_base_url := bc_base_url c; ht_read := bc_timeout c; ht_connect := bc_connect_timeout c;
     ht_pool := bc_pool_timeout c; ht_write := bc_write_timeout c |}.

Record LMStudioBackend := {
  lm_backend_id : string;
  lm_timeout : option float;
  lm_max_retries : Z;
  lm_connect_timeout : float;
  lm_health_timeout : float;
  lm_client : AsyncClient;
  lm_model_aliases : gmap string (list string);
  lm_alias_cursor : cursor;
}.

(** [__init__] *)
Definition LMStudioBackend_new (c : BackendConfig) : LMStudioBackend :=
  {| lm_backend_id := bc_base_url c; lm_timeout := bc_timeout c; lm_max_retries := bc_max_retries c;
     lm_connect_timeout := bc_connect_timeout c; lm_health_timeout := bc_health_timeout c; lm_client := client_of c;
     lm_model_aliases := default ∅ (bc_model_aliases c); lm_alias_cursor := ∅ |}.

Record LlamaCPPServerBackend := {
  ls_backend_id : string;
  ls_timeout : option float;
  ls_max_retries : Z;
  ls_connect_timeout : float;
  ls_health_timeout : float;
  ls_client : AsyncClient;
}.

(** [__init__] *)
Definition LlamaCPPServerBackend_new (c : BackendConfig) : LlamaCPPServerBackend :=
  {| ls_backend_id := bc_base_url c; ls_timeout := bc_timeout c; ls_max_retries := bc_max_retries c;
     ls_connect_timeout := bc_connect_timeout c; ls_health_timeout := bc_health_timeout c; ls_client := client_of c |}.

(** A plain [GET]; without a time-out of its own it has the client's. *)
Record get_request := { gr_path : string; gr_timeout : option float }.

(** What the code around an adapter takes from one: how often it asks again, the payload of a
    request (the aliases take turns, so the adapter changes), its health and its models, given
    how a [GET] is answered. *)
Class ChatBackend (B : Type) := {
  max_retries : B → Z;
  payload_of : ChatCompletionRequest → B → dict string json * B;
  health_of : B → (get_request → get_answer) → BackendHealth;
  models_of : (string → option json) → B → (get_request → get_answer) → outcome backend_exn (option (list json));
}.

(** The payload of [_stream_chunks], resolved once per call. *)
Definition lmstudio_payload_of (r : ChatCompletionRequest) (b : LMStudioBackend) : dict string json * LMStudioBackend :=
  let '(m, c) := resolve_model (lm_model_aliases b) (model r) (lm_alias_cursor b) in
  (to_lmstudio_payload r m,
   {| lm_backend_id := lm_backend_id b; lm_timeout := lm_timeout b; lm_max_retries := lm_max_retries b;
      lm_connect_timeout := lm_connect_timeout b; lm_health_timeout := lm_health_timeout b; lm_client := lm_client b;
      lm_model_aliases := lm_model_aliases b; lm_alias_cursor := c |}).

Definition lmstudio_health (b : LMStudioBackend) (get : get_request → get_answer) : BackendHealth :=
  check_health (get {| gr_path := "/v1/models"; gr_timeout := Some (lm_health_timeout b) |}).

Definition lmstudio_models (loads : string → option json) (b : LMStudioBackend) (get : get_request → get_answer) :=
  lmstudio_list_models loads (get {| gr_path := "/api/v0/models"; gr_timeout := None |}).

#[export] Instance lmstudio_backend : ChatBackend LMStudioBackend := {
  max_retries := lm_max_retries;
  payload_of := lmstudio_payload_of;
  health_of := lmstudio_health;
  models_of := lmstudio_models;
}.

Definition llamaserver_health (b : LlamaCPPServerBackend) (get : get_request → get_answer) : BackendHealth :=
  check_health (get {| gr_path := "/health"; gr_timeout := Some (ls_health_timeout b) |}).

Definition llamaserver_models (loads : string → option json) (b : LlamaCPPServerBackend) (get : get_request → get_answer) :=
  llamaserver_list_models loads (get {| gr_path := "/v1/models"; gr_timeout := None |}).

#[export] Instance llamaserver_backend : ChatBackend LlamaCPPServerBackend := {
  max_retries := ls_max_retries;
  payload_of r b := (to_llamaserver_payload r, b);
  health_of := llamaserver_health;
  models_of := llamaserver_models;
}.

(** ** The generator of an adapter *)

(** How the lines of a body end; a cancellation may arrive at any [await]. *)
Inductive body_end :=
  | BodyComplete
  | BodyFailed (e : transport_error)
  | BodyCancelled.

Inductive answer :=
  | NoAnswer (e : transport_error)
  | AnswerCancelled
  | Answer (status_code : Z) (body : string) (lines : list string) (ending : body_end).

Inductive gen_exn := GenError (e : backend_exn) | GenCancelled.

(** What [anext] of a generator gives. *)
Inductive yielded (A : Type) :=
  | Yield (a : A)
  | Stop
  | Raised (e : gen_exn).
Arguments Yield {A} a.
Arguments Stop {A}.
Arguments Raised {A} e.

(** What the gateway's generator yields: the text of a chunk, or of the last event. *)
Inductive sse := SseChunk (c : BackendChunk) | SseDone.

(** What happens to the connection, to the client and to the slot. *)
Inductive event :=
  | Posted (payload : dict string json)
  | Opened
  | Closed
  | Item (s : sse)
  | Released.

(** Where [_stream_chunks] stands: not begun, at its [yield] with the rest of an open response, or over. *)
Inductive bgen :=
  | BFresh
  | BReading (lines : list string) (ending : body_end)
  | BDone.

Section generator.
Context {B : Type} `{ChatBackend B} (loads : string → option json).
Context (request : ChatCompletionRequest) (answers : nat → answer).

(** Reading up to the next chunk. *)
Inductive read_result :=
  | RYield (c : BackendChunk) (rest : list string)
  | RReturn
  | RRaise (e : backend_exn)
  | REnd.

Fixpoint read_on (lines : list string) : read_result :=
  match lines with
  | [] => REnd
  | line :: rest =>
      match read_line loads line with
      | LSkip => read_on rest
      | LDone => RReturn
      | LChunk c => RYield c rest
      | LRaise e => RRaise e
      end
  end.

(** An attempt, up to the first chunk or its end. *)
Inductive attempt_result :=
  | AtYield (c : BackendChunk) (rest : list string) (ending : body_end)
  | AtStop
  | AtRaise (e : gen_exn)
  | AtTransport (e : transport_error).

Definition at_end (ending : body_end) : attempt_result :=
  match ending with
  | BodyComplete => AtStop
  | BodyFailed e => AtTransport e
  | BodyCancelled => AtRaise GenCancelled
  end.

Definition at_read (lines : list string) (ending : body_end) : attempt_result :=
  match read_on lines with
  | RYield c rest => AtYield c rest ending
  | RReturn => AtStop
  | RRaise e => AtRaise (GenError e)
  | REnd => at_end ending
  end.

Definition at_first (a : answer) : attempt_result :=
  match a with
  | NoAnswer e => AtTransport e
  | AnswerCancelled => AtRaise GenCancelled
  | Answer status body lines ending =>
      if negb (status / 100 =? 2)%Z
      then match ending with
           | BodyComplete => AtRaise (GenError (BackendResponseExn status body))
           | _ => at_end ending
           end
      else at_read lines ending
  end.

(** [inference_response]: a response that was opened is closed however its block is left. *)
Definition opening (a : answer) : list event := match a with Answer _ _ _ _ => [Opened] | _ => [] end.
Definition closing (a : answer) : list event := match a with Answer _ _ _ _ => [Closed] | _ => [] end.

(** The loop over the attempts, up to the first chunk or the end of the generator. *)
Fixpoint bg_attempts (payload : dict string json) (n i : nat) (last_error : option string)
    : yielded BackendChunk * bgen * list event :=
  match n with
  | O => (Raised (GenError (BackendConnectionExn (last_error_msg last_error))), BDone, [])
  | S n =>
      let a := answers i in
      match at_first a with
      | AtYield c rest ending => (Yield c, BReading rest ending, Posted payload :: opening a)
      | AtStop => (Stop, BDone, Posted payload :: opening a ++ closing a)
      | AtRaise e => (Raised e, BDone, Posted payload :: opening a ++ closing a)
      | AtTransport (TimeoutException m) =>
          (Raised (GenError (BackendTimeoutExn (timeout_msg m))), BDone, Posted payload :: opening a ++ closing a)
      | AtTransport (TransportError m) =>
          let '(r, g, log) := bg_attempts payload n (S i) (Some m) in
          (r, g, Posted payload :: opening a ++ closing a ++ log)
      end
  end.

(** From the [yield] on: a failure is final now. *)
Definition bg_resume (lines : list string) (ending : body_end) : yielded BackendChunk * bgen * list event :=
  match at_read lines ending with
  | AtYield c rest ending => (Yield c, BReading rest ending, [])
  | AtStop => (Stop, BDone, [Closed])
  | AtRaise e => (Raised e, BDone, [Closed])
  | AtTransport (TimeoutException m) => (Raised (GenError (BackendTimeoutExn (timeout_msg m))), BDone, [Closed])
  | AtTransport (TransportError m) => (Raised (GenError (BackendConnectionExn m)), BDone, [Closed])
  end.

(** [anext]: a generator begins, and resolves its model, when its first chunk is asked for. *)
Definition bg_next (b : B) (g : bgen) : yielded BackendChunk * bgen * B * list event :=
  match g with
  | BFresh =>
      let '(payload, b') := payload_of request b in
      let '(r, g', log) := bg_attempts payload (Z.to_nat (max_retries b + 1)) 0 None in (r, g', b', log)
  | BReading lines ending => let '(r, g', log) := bg_resume lines ending in (r, g', b, log)
  | BDone => (Stop, BDone, b, [])
  end.

(** [aclose], what [closing_chunks] does at the end: a response that is open is closed. *)
Definition bg_close (g : bgen) : list event := match g with BReading _ _ => [Closed] | _ => [] end.

(** ** A streamed response *)

(** Where the gateway's [_stream_chunks] stands: not begun, in its loop between a chunk and the
    next, at a [yield] of the loop, at its last [yield], or over. *)
Inductive agen :=
  | AFresh
  | ARunning (a : relayed) (g : bgen)
  | APaused (a : relayed) (g : bgen)
  | AFinal
  | ADone.

(** An adapter, the generator that runs on it, and what it has done so far. *)
Record Conn := { cn_backend : B; cn_gen : agen; cn_log : list event }.

(** A turn of the loop; whether it raises. *)
Definition ag_turn (a : relayed) (g : bgen) (w : Conn) : bool * Conn :=
  let '(r, g', b, log) := bg_next (cn_backend w) g in
  let goto gen more := {| cn_backend := b; cn_gen := gen; cn_log := cn_log w ++ log ++ more |} in
  match r with
  | Yield c =>
      match relay_step a c with
      | None => (true, goto ADone (bg_close g'))
      | Some a' =>
          if accounting_only c then (false, goto (ARunning a' g') [])
          else (false, goto (APaused a' g') [Item (SseChunk c)])
      end
  | Stop =>
      match bookkeeping a f_zero with
      | StreamEnded _ _ _ _ => (false, goto AFinal (bg_close g' ++ [Item SseDone]))
      | StreamAborted _ => (true, goto ADone (bg_close g'))
      end
  | Raised _ => (true, goto ADone (bg_close g'))
  end.

(** [SlotStream.aclose]: the generator is closed, and then the slot is released. *)
Definition ag_close (g : agen) : list event := match g with APaused _ g => bg_close g | _ => [] end.

Definition close_and_release (w : Conn) : Conn :=
  {| cn_backend := cn_backend w; cn_gen := ADone; cn_log := cn_log w ++ ag_close (cn_gen w) ++ [Released] |}.

Definition with_gen (g : agen) (w : Conn) : Conn := {| cn_backend := cn_backend w; cn_gen := g; cn_log := cn_log w |}.

(** What the response does: it asks for an item, the loop turns, or the stream is closed. *)
Inductive stream_op := PNext | PTurn | PClose.

Definition stream_step (st : SlotStream Conn) (o : stream_op) : SlotStream Conn :=
  let goto w := {| st_closed := st_closed st; st_world := w |} in
  match o, cn_gen (st_world st) with
  | PNext, ARunning _ _ => st
  | PNext, g =>
      if st_closed st then st
      else match g with
           | AFresh => goto (with_gen (ARunning relayed_new BFresh) (st_world st))
           | APaused a g => goto (with_gen (ARunning a g) (st_world st))
           | _ => aclose close_and_release st
           end
  | PTurn, ARunning a g =>
      match ag_turn a g (st_world st) with
      | (true, w) => aclose close_and_release (goto w)
      | (false, w) => goto w
      end
  | PTurn, _ => st
  | PClose, ARunning _ _ => st
  | PClose, _ => aclose close_and_release st
  end.

Definition stream_start (b : B) : SlotStream Conn :=
  {| st_closed := false; st_world := {| cn_backend := b; cn_gen := AFresh; cn_log := [] |} |}.

(** ** A completion *)

(** [complete], in its loop or over, and the [finally] of the handler. *)
Inductive cgen := CLoop (acc : accumulated) (g : bgen) | CEnded (r : outcome gen_exn BackendResponse).

Record Call := { cl_backend : B; cl_gen : cgen; cl_log : list event }.

Definition of_backend {A} (o : outcome backend_exn A) : outcome gen_exn A :=
  match o with Ret a => Ret a | Raise e => Raise (GenError e) end.

Definition complete_turn (w : Call) : Call :=
  match cl_gen w with
  | CEnded _ => w
  | CLoop acc g =>
      let '(r, g', b, log) := bg_next (cl_backend w) g in
      let goto gen more := {| cl_backend := b; cl_gen := gen; cl_log := cl_log w ++ log ++ more |} in
      match r with
      | Yield c => goto (CLoop (accumulate acc c) g') []
      | Stop => goto (CEnded (of_backend (response_of (model request) acc))) (bg_close g' ++ [Released])
      | Raised e => goto (CEnded (Raise e)) (bg_close g' ++ [Released])
      end
  end.

Definition complete_start (b : B) : Call :=
  {| cl_backend := b;
     cl_gen := CLoop {| ac_parts := []; ac_finish_reason := JStr "stop"; ac_usage := JNull |} BFresh; cl_log := [] |}.

(** ** What a log must be *)

Definition is_reading (g : bgen) : bool := match g with BReading _ _ => true | _ => false end.

(** From whether a response is open and whether the slot is released. *)
Definition event_ok (s : bool * bool) (e : event) : option (bool * bool) :=
  let '(open, released) := s in
  if released then None
  else match e with
       | Posted _ => if open then None else Some s
       | Opened => if open then None else Some (true, false)
       | Closed => if open then Some (false, false) else None
       | Item _ => Some s
       | Released => if open then None else Some (false, true)
       end.

Fixpoint scan (s : bool * bool) (log : list event) : option (bool * bool) :=
  match log with [] => Some s | e :: log => s' ← event_ok s e; scan s' log end.

Lemma scan_app s l k : scan s (l ++ k) = s' ← scan s l; scan s' k.
Proof. revert s. induction l as [|e l IH]; intros s; simpl; [done|]. destruct (event_ok s e); simpl; auto. Qed.

Lemma bg_attempts_log payload n i last :
  let '(r, g, log) := bg_attempts payload n i last in
  scan (false, false) log = Some (is_reading g, false) ∧ (is_reading g = true → ∃ c, r = Yield c).
Proof.
  revert i last. induction n as [|n IH]; intros i last; cbn [bg_attempts]; [done|].
  destruct (at_first (answers i)) as [c rest ending| |e|[m|m]] eqn:E.
  - destruct (answers i); [done..|]. simpl. split; [done|]. by exists c.
  - by destruct (answers i).
  - by destruct (answers i).
  - by destruct (answers i).
  - specialize (IH (S i) (Some m)). destruct (bg_attempts payload n (S i) (Some m)) as [[r g] log].
    by destruct (answers i).
Qed.

Lemma bg_next_log b g :
  let '(r, g', b', log) := bg_next b g in
  scan (is_reading g, false) log = Some (is_reading g', false) ∧ (is_reading g' = true → ∃ c, r = Yield c).
Proof.
  destruct g as [|lines ending|]; simpl; [| |done].
  - destruct (payload_of request b) as [payload b'].
    pose proof (bg_attempts_log payload (Z.to_nat (max_retries b + 1)) 0 None) as Hl.
    by destruct (bg_attempts _ _ _ _) as [[r g'] log].
  - unfold bg_resume. destruct (at_read lines ending) as [c rest end'| |e|[m|m]]; simpl; try done.
    split; [done|]. by exists c.
Qed.

Lemma bg_close_log g : scan (is_reading g, false) (bg_close g) = Some (false, false).
Proof. by destruct g. Qed.

Definition agen_open (g : agen) : bool :=
  match g with ARunning _ g | APaused _ g => is_reading g | _ => false end.

Definition orderly (st : SlotStream Conn) : Prop :=
  scan (false, false) (cn_log (st_world st)) = Some (agen_open (cn_gen (st_world st)), st_closed st) ∧
  (st_closed st = true → cn_gen (st_world st) = ADone).

Lemma orderly_close st :
  (∀ a g, cn_gen (st_world st) ≠ ARunning a g) → orderly st → orderly (aclose close_and_release st).
Proof.
  intros Hn [Hs Hd]. unfold aclose. destruct (st_closed st) eqn:E; [split; [by rewrite E|by intros _; apply Hd]|].
  split; [|done]. simpl. rewrite !scan_app, Hs. simpl.
  destruct (cn_gen (st_world st)) as [|a g|a g| |] eqn:Eg; simpl; try done; [by destruct (Hn a g)|].
  rewrite scan_app, bg_close_log. done.
Qed.

Lemma ag_turn_log a g w :
  scan (false, false) (cn_log w) = Some (is_reading g, false) →
  let '(raised, w') := ag_turn a g w in
  scan (false, false) (cn_log w') = Some (agen_open (cn_gen w'), false) ∧ (raised = true → cn_gen w' = ADone).
Proof.
  intros Hs. unfold ag_turn. pose proof (bg_next_log (cn_backend w) g) as Hl.
  destruct (bg_next (cn_backend w) g) as [[[r g'] b] log]. destruct Hl as [Hl Hr].
  assert (Hall : ∀ more, scan (false, false) (cn_log w ++ log ++ more) = scan (is_reading g', false) more).
  { intros more. by rewrite !scan_app, Hs; simpl; rewrite scan_app, Hl. }
  destruct r as [c| |e].
  - destruct (relay_step a c) as [a'|]; [destruct (accounting_only c)|]; simpl; rewrite Hall; try done.
    by rewrite bg_close_log.
  - destruct (bookkeeping a f_zero); simpl; rewrite Hall; [rewrite scan_app|]; by rewrite bg_close_log.
  - simpl. by rewrite Hall, bg_close_log.
Qed.

Lemma orderly_step st o : orderly st → orderly (stream_step st o).
Proof.
  intros Ho. pose proof Ho as [Hs Hd]. pose proof (orderly_close st) as Hclose.
  unfold stream_step. destruct o.
  - destruct (cn_gen (st_world st)) as [|a g|a g| |] eqn:Eg; try done; destruct (st_closed st) eqn:Ec; try done;
      try (by apply Hclose); split; simpl; rewrite ?Ec; done.
  - destruct (cn_gen (st_world st)) as [|a g|a g| |] eqn:Eg; try done.
    destruct (st_closed st) eqn:Ec; [by specialize (Hd eq_refl)|].
    pose proof (ag_turn_log a g (st_world st) Hs) as Ht. destruct (ag_turn a g (st_world st)) as [[|] w]; destruct Ht as [Ht Hg].
    + apply orderly_close; simpl; [by rewrite Hg by done|]. by split.
    + by split.
  - destruct (cn_gen (st_world st)) as [|a g|a g| |] eqn:Eg; try done; by apply Hclose.
Qed.

Lemma orderly_run ops b : orderly (foldl stream_step (stream_start b) ops).
Proof.
  assert (Hall : ∀ st, orderly st → orderly (foldl stream_step st ops)).
  { induction ops as [|o ops IH]; intros st Hst; simpl; [done|]. by apply IH, orderly_step. }
  apply Hall. by split.
Qed.

(** *** The log of a completion *)

Definition call_orderly (w : Call) : Prop :=
  scan (false, false) (cl_log w) =
    Some (match cl_gen w with CLoop _ g => (is_reading g, false) | CEnded _ => (false, true) end).

Lemma call_orderly_turn w : call_orderly w → call_orderly (complete_turn w).
Proof.
  unfold call_orderly, complete_turn. intros Hs. destruct (cl_gen w) as [acc g|r]eqn:Eg; [|by rewrite Eg].
  pose proof (bg_next_log (cl_backend w) g) as Hl.
  destruct (bg_next (cl_backend w) g) as [[[r g'] b] log]. destruct Hl as [Hl _].
  destruct r; simpl; rewrite !scan_app, Hs; simpl; rewrite scan_app, Hl; simpl; [done|..];
    by rewrite scan_app, bg_close_log.
Qed.

Lemma call_orderly_run n b : call_orderly (Nat.iter n complete_turn (complete_start b)).
Proof. induction n; [done|]. by apply call_orderly_turn. Qed.

(** ** What is left of a stream *)

(** The server's answers as [Backends] has them: nothing is cancelled. *)
Definition ending_of (e : option transport_error) : body_end :=
  match e with None => BodyComplete | Some e => BodyFailed e end.

Definition answer_of (a : attempt) : answer :=
  match a with
  | NoResponse e => NoAnswer e
  | Response status body lines ending => Answer status body lines (ending_of ending)
  end.

Lemma read_lines_on lines e :
  read_lines loads lines e =
    match read_on lines with
    | RYield c rest => (c :: (read_lines loads rest e).1, (read_lines loads rest e).2)
    | RReturn => ([], AReturn)
    | RRaise x => ([], ARaise x)
    | REnd => ([], match e with None => AReturn | Some e => ATransport e end)
    end.
Proof.
  induction lines as [|l lines IH]; [done|]. cbn [read_lines read_on].
  destruct (read_line loads l); try done. by destruct (read_lines loads lines e).
Qed.

Definition outcome_of (r : list BackendChunk * attempt_end) : list BackendChunk * outcome backend_exn unit :=
  (r.1, attempt_outcome r.1 r.2).

(** What the rest of a generator gives: its chunks, and how it ends. *)
Inductive left_of (attempts : nat → attempt) (b : B) : bgen → list BackendChunk * outcome backend_exn unit → Prop :=
  | left_fresh : left_of attempts b BFresh (backend_stream loads (max_retries b) attempts)
  | left_reading lines e :
      left_of attempts b (BReading lines (ending_of e)) (outcome_of (read_lines loads lines e))
  | left_done : left_of attempts b BDone ([], Ret tt).

(** What a call of [anext] takes from it. *)
Definition taken (attempts : nat → attempt) (b : B) (r : yielded BackendChunk) (g : bgen)
    (s : list BackendChunk * outcome backend_exn unit) : Prop :=
  match r with
  | Yield c => ∃ s', left_of attempts b g s' ∧ s = (c :: s'.1, s'.2)
  | Stop => s = ([], Ret tt)
  | Raised e => ∃ x, e = GenError x ∧ s = ([], Raise x)
  end.

Lemma bg_resume_left attempts b lines e :
  let '(r, g, _) := bg_resume lines (ending_of e) in
  taken attempts b r g (outcome_of (read_lines loads lines e)).
Proof.
  rewrite read_lines_on. unfold bg_resume, at_read.
  destruct (read_on lines) as [c rest| |x|]; simpl; [|done|by exists x|].
  - eexists. split; [constructor|done].
  - destruct e as [[m|m]|]; simpl; [by eexists..|done].
Qed.

Lemma bg_attempts_left attempts b payload n i last :
  (∀ i, answers i = answer_of (attempts i)) →
  let '(r, g, _) := bg_attempts payload n i last in taken attempts b r g (try_attempts loads n attempts i last).
Proof.
  intros Ha. revert i last. induction n as [|n IH]; intros i last; cbn [bg_attempts try_attempts]; [by eexists|].
  rewrite Ha. specialize (IH (S i)).
  destruct (attempts i) as [[m|m]|status body lines e]; cbn [answer_of at_first run_attempt].
  - by eexists.
  - specialize (IH (Some m)). by destruct (bg_attempts payload n (S i) (Some m)) as [[r g] log].
  - destruct (negb (status / 100 =? 2)%Z).
    + destruct e as [[m|m]|]; simpl; [by eexists| |by eexists].
      specialize (IH (Some m)). by destruct (bg_attempts payload n (S i) (Some m)) as [[r g] log].
    + unfold at_read. rewrite read_lines_on. destruct (read_on lines) as [c rest| |x|]; simpl; [|done|by exists x|].
      * eexists. split; [constructor|]. by destruct (read_lines loads rest e) as [cs [|x|[m|m]]].
      * destruct e as [[m|m]|]; simpl; [by eexists| |done].
        specialize (IH (Some m)). by destruct (bg_attempts payload n (S i) (Some m)) as [[r g] log].
Qed.

Lemma bg_next_left attempts b g s :
  (∀ i, answers i = answer_of (attempts i)) → left_of attempts b g s →
  let '(r, g', b', _) := bg_next b g in taken attempts b' r g' s.
Proof.
  intros Ha Hs. destruct Hs as [|lines e|]; simpl; [| |done].
  - destruct (payload_of request b) as [payload b'].
    pose proof (bg_attempts_left attempts b' payload (Z.to_nat (max_retries b + 1)) 0 None Ha) as Hl.
    by destruct (bg_attempts _ _ _ _) as [[r g] log].
  - pose proof (bg_resume_left attempts b lines e) as Hl. by destruct (bg_resume lines (ending_of e)) as [[r g] log].
Qed.

(** *** No turn is the last but finitely many *)

(** How many lines are left to read. *)
Definition lines_left (g : bgen) : nat := match g with BReading lines _ => S (length lines) | _ => 0 end.

Lemma read_on_shorter lines c rest : read_on lines = RYield c rest → (length rest < length lines)%nat.
Proof.
  induction lines as [|l lines IH]; simpl; [done|]. destruct (read_line loads l); try done.
  - intros Hr%IH. lia.
  - intros [= _ <-]. lia.
Qed.

Lemma bg_next_shorter b g :
  g ≠ BFresh → let '(r, g', _, _) := bg_next b g in
  g' ≠ BFresh ∧ match r with Yield _ => (lines_left g' < lines_left g)%nat | _ => True end.
Proof.
  intros Hg. destruct g as [|lines ending|]; simpl; [done| |by split]. unfold bg_resume, at_read.
  destruct (read_on lines) as [c rest| |x|] eqn:E; simpl; [|by split..|].
  - apply read_on_shorter in E. split; [done|]. lia.
  - by destruct ending as [|[|]|].
Qed.

Lemma bg_attempts_begun payload n i last : (bg_attempts payload n i last).1.2 ≠ BFresh.
Proof.
  revert i last. induction n as [|n IH]; intros i last; cbn [bg_attempts]; [done|].
  destruct (at_first (answers i)) as [| | |[|m]]; try done.
  specialize (IH (S i) (Some m)). by destruct (bg_attempts payload n (S i) (Some m)) as [[r g] log].
Qed.

Lemma bg_next_begun b g : let '(_, g', _, _) := bg_next b g in g' ≠ BFresh.
Proof.
  destruct g as [|lines ending|]; [|by pose proof (bg_next_shorter b (BReading lines ending)) as Hl;
    destruct (bg_next b (BReading lines ending)) as [[[r g'] b'] log]; apply Hl|done].
  simpl. destruct (payload_of request b) as [payload b'].
  pose proof (bg_attempts_begun payload (Z.to_nat (max_retries b + 1)) 0 None) as Hl.
  by destruct (bg_attempts _ _ _ _) as [[r g'] log].
Qed.

(** *** A completion is the one of [Backends] *)

Definition finish (acc : accumulated) (s : list BackendChunk * outcome backend_exn unit) : outcome backend_exn BackendResponse :=
  match s.2 with
  | Ret _ => response_of (model request) (foldl accumulate acc s.1)
  | Raise e => Raise e
  end.

Lemma complete_turn_left attempts w acc g s :
  (∀ i, answers i = answer_of (attempts i)) → cl_gen w = CLoop acc g → left_of attempts (cl_backend w) g s →
  match cl_gen (complete_turn w) with
  | CLoop acc' g' => ∃ s', left_of attempts (cl_backend (complete_turn w)) g' s' ∧ finish acc' s' = finish acc s
  | CEnded r => r = of_backend (finish acc s)
  end.
Proof.
  intros Ha Eg Hs. unfold complete_turn. rewrite Eg. pose proof (bg_next_left attempts (cl_backend w) g s Ha Hs) as Hn.
  destruct (bg_next (cl_backend w) g) as [[[[c| |e] g'] b] log]; simpl in *.
  - destruct Hn as (s' & Hl & ->). by exists s'.
  - by subst s.
  - by destruct Hn as (x & -> & ->).
Qed.

Lemma iter_ended n w r : cl_gen w = CEnded r → Nat.iter n complete_turn w = w.
Proof.
  intros E. induction n as [|n IH]; simpl; [done|]. rewrite IH. unfold complete_turn. by rewrite E.
Qed.

Lemma complete_ends w : ∃ n r, cl_gen (Nat.iter n complete_turn w) = CEnded r.
Proof.
  assert (Hread : ∀ k w acc g, cl_gen w = CLoop acc g → g ≠ BFresh → (lines_left g < k)%nat →
    ∃ n r, cl_gen (Nat.iter n complete_turn w) = CEnded r).
  { intros k. induction k as [|k IH]; intros w0 acc g Eg Hg Hk; [lia|].
    pose proof (bg_next_shorter (cl_backend w0) g Hg) as Hs.
    assert (Ht : ∀ n, Nat.iter (S n) complete_turn w0 = Nat.iter n complete_turn (complete_turn w0)) by (intros n; apply Nat.iter_succ_r).
    unfold complete_turn in Ht at 3. rewrite Eg in Ht.
    destruct (bg_next (cl_backend w0) g) as [[[[c| |e] g'] b] log]; destruct Hs as [Hg' Hs].
    - destruct (IH {| cl_backend := b; cl_gen := CLoop (accumulate acc c) g'; cl_log := cl_log w0 ++ log ++ [] |}
        (accumulate acc c) g') as (n & r & E); [done|done|lia|]. exists (S n), r. by rewrite Ht.
    - exists 1. eexists. by rewrite Ht.
    - exists 1. eexists. by rewrite Ht. }
  destruct (cl_gen w) as [acc g|r] eqn:Eg; [|by exists 0, r].
  pose proof (bg_next_begun (cl_backend w) g) as Hb.
  assert (Hn : ∃ n r, cl_gen (Nat.iter n complete_turn (complete_turn w)) = CEnded r).
  { unfold complete_turn at 2. rewrite Eg. destruct (bg_next (cl_backend w) g) as [[[[c| |e] g'] b] log].
    - eapply Hread; [done|exact Hb|apply Nat.lt_succ_diag_r].
    - by exists 0, (of_backend (response_of (model request) acc)).
    - by exists 0, (Raise e). }
  destruct Hn as (n & r & E). exists (S n), r. by rewrite Nat.iter_succ_r.
Qed.

Lemma complete_run attempts n w acc g s :
  (∀ i, answers i = answer_of (attempts i)) → cl_gen w = CLoop acc g → left_of attempts (cl_backend w) g s →
  match cl_gen (Nat.iter n complete_turn w) with
  | CLoop acc' g' =>
      ∃ s', left_of attempts (cl_backend (Nat.iter n complete_turn w)) g' s' ∧ finish acc' s' = finish acc s
  | CEnded r => r = of_backend (finish acc s)
  end.
Proof.
  intros Ha Eg Hs. induction n as [|n IH]; simpl; [rewrite Eg; by exists s|].
  set (w' := Nat.iter n complete_turn w) in *. destruct (cl_gen w') as [acc' g'|r] eqn:Eg'.
  - destruct IH as (s' & Hs' & <-). by apply (complete_turn_left attempts w' acc' g').
  - unfold complete_turn. by rewrite Eg', Eg'.
Qed.

(** *** The items of a stream are those of [Streams] *)

Definition items (log : list event) : list sse := omap (λ e, match e with Item s => Some s | _ => None end) log.

Definition sse_of (a : relayed) (s : list BackendChunk * outcome backend_exn unit) : list sse :=
  match relay a s.1 with
  | (out, None) => SseChunk <$> out
  | (out, Some a') =>
      (SseChunk <$> out) ++
      match s.2, bookkeeping a' f_zero with Ret _, StreamEnded _ _ _ _ => [SseDone] | _, _ => [] end
  end.

Lemma items_app l k : items (l ++ k) = items l ++ items k.
Proof. apply omap_app. Qed.

Lemma items_close g : items (bg_close g) = [].
Proof. by destruct g. Qed.

Lemma bg_attempts_items payload n i last : items (bg_attempts payload n i last).2 = [].
Proof.
  revert i last. induction n as [|n IH]; intros i last; cbn [bg_attempts]; [done|].
  destruct (at_first (answers i)) as [| | |[|m]]; try (by destruct (answers i)).
  specialize (IH (S i) (Some m)). destruct (bg_attempts payload n (S i) (Some m)) as [[r g] log]; simpl in *.
  by destruct (answers i).
Qed.

Lemma bg_next_items b g : items (bg_next b g).2 = [].
Proof.
  destruct g as [|lines ending|]; simpl; [| |done].
  - destruct (payload_of request b) as [payload b'].
    pose proof (bg_attempts_items payload (Z.to_nat (max_retries b + 1)) 0 None) as Hl.
    by destruct (bg_attempts _ _ _ _) as [[r g] log].
  - unfold bg_resume. by destruct (at_read lines ending) as [| | |[|]].
Qed.

(** What has been sent, and what the state will still send if the client lets it. *)
Definition sends (attempts : nat → attempt) (natural : bool) (full : list sse) (closed : bool) (w : Conn) : Prop :=
  ∃ rest, full = items (cn_log w) ++ rest ∧
    match cn_gen w with
    | AFresh => closed = false → rest = sse_of relayed_new (backend_stream loads (max_retries (cn_backend w)) attempts)
    | ARunning a g | APaused a g => ∃ s, left_of attempts (cn_backend w) g s ∧ rest = sse_of a s
    | AFinal => rest = []
    | ADone => natural = true → rest = []
    end.

Lemma ag_turn_sends attempts natural full closed a g s w :
  (∀ i, answers i = answer_of (attempts i)) → left_of attempts (cn_backend w) g s →
  full = items (cn_log w) ++ sse_of a s → sends attempts natural full closed (ag_turn a g w).2.
Proof.
  intros Ha Hs Hf. unfold ag_turn. pose proof (bg_next_left attempts (cn_backend w) g s Ha Hs) as Hn.
  pose proof (bg_next_items (cn_backend w) g) as Hi.
  destruct (bg_next (cn_backend w) g) as [[[[c| |e] g'] b] log]; simpl in Hn, Hi.
  - destruct Hn as (s' & Hl & ->). unfold sse_of in Hf. cbn [fst snd relay] in Hf.
    destruct (relay_step a c) as [a'|]; [|exists []; simpl; by rewrite !items_app, Hi, items_close, app_nil_r].
    destruct (relay a' s'.1) as [out ra] eqn:Er. destruct (accounting_only c).
    + exists (sse_of a' s'). simpl. rewrite !items_app, Hi, app_nil_r. split; [|by exists s'].
      rewrite Hf. unfold sse_of. rewrite Er. by destruct ra.
    + exists (sse_of a' s'). simpl. rewrite !items_app, Hi, <-app_assoc. split; [|by exists s'].
      rewrite Hf. unfold sse_of. rewrite Er. by destruct ra.
  - subst s. unfold sse_of in Hf. simpl in Hf. destruct (bookkeeping a f_zero); exists []; simpl;
      rewrite !items_app, Hi, ?items_app, items_close, ?app_nil_r; by (split; [rewrite Hf, ?app_nil_r|]).
  - destruct Hn as (x & -> & ->). exists []. simpl. by rewrite !items_app, Hi, items_close, app_nil_r.
Qed.

Lemma sends_close attempts natural full closed closed' w :
  (∀ a g, cn_gen w ≠ ARunning a g) → (natural = true → cn_gen w = AFinal ∨ cn_gen w = ADone) →
  sends attempts natural full closed w → sends attempts natural full closed' (close_and_release w).
Proof.
  intros Hr Hn (rest & Hf & Hg). exists rest. simpl. rewrite !items_app. split.
  - assert (items (ag_close (cn_gen w)) = []) as ->; [|by rewrite app_nil_r].
    destruct (cn_gen w) as [|a g|a g| |]; try done. apply items_close.
  - intros Hnat. destruct (Hn Hnat) as [E|E]; rewrite E in Hg; [done|by apply Hg].
Qed.

Lemma stream_step_sends attempts natural full st o :
  (∀ i, answers i = answer_of (attempts i)) → (natural = true → o ≠ PClose) → orderly st →
  sends attempts natural full (st_closed st) (st_world st) →
  sends attempts natural full (st_closed (stream_step st o)) (st_world (stream_step st o)).
Proof.
  intros Ha Ho [_ Hd] Hs.
  assert (Hclose : (∀ a g, cn_gen (st_world st) ≠ ARunning a g) →
    (natural = true → cn_gen (st_world st) = AFinal ∨ cn_gen (st_world st) = ADone) →
    sends attempts natural full (st_closed (aclose close_and_release st)) (st_world (aclose close_and_release st))).
  { intros Hr Hn. unfold aclose. destruct (st_closed st) eqn:Ec; [|by eapply sends_close].
    change (sends attempts natural full (st_closed st) (st_world st)). by rewrite Ec. }
  unfold stream_step. destruct o.
  - destruct (cn_gen (st_world st)) as [|a g|a g| |] eqn:Eg; try done; destruct (st_closed st) eqn:Ec; rewrite ?Ec; try done;
      try (apply Hclose; auto; done); destruct Hs as (rest & Hf & Hg); rewrite Eg in Hg; exists rest; (split; [done|]); simpl.
    + eexists. split; [constructor|]. by apply Hg.
    + done.
  - destruct (cn_gen (st_world st)) as [|a g|a g| |] eqn:Eg; try done.
    destruct (st_closed st) eqn:Ec; [by specialize (Hd eq_refl)|].
    destruct Hs as (rest & Hf & Hg). rewrite Eg in Hg. destruct Hg as (s & Hl & ->).
    pose proof (ag_turn_sends attempts natural full false a g s (st_world st) Ha Hl Hf) as Ht.
    destruct (ag_turn a g (st_world st)) as [raised w] eqn:Er. simpl in Ht. destruct raised; [|done].
    unfold aclose. simpl.
    assert (Hw : cn_gen w = ADone).
    { unfold ag_turn in Er. destruct (bg_next (cn_backend (st_world st)) g) as [[[[c| |e] g'] b] log].
      - destruct (relay_step a c); [destruct (accounting_only c)|]; try discriminate Er; by injection Er as <-.
      - destruct (bookkeeping a f_zero); try discriminate Er; by injection Er as <-.
      - by injection Er as <-. }
    eapply sends_close; [by rewrite Hw|by right|exact Ht].
  - destruct (cn_gen (st_world st)) as [|a g|a g| |] eqn:Eg; try done; apply Hclose; try done; intros Hnat;
      by destruct (Ho Hnat).
Qed.

Lemma stream_run_sends attempts natural b ops :
  (∀ i, answers i = answer_of (attempts i)) → (natural = true → PClose ∉ ops) →
  let st := foldl stream_step (stream_start b) ops in
  sends attempts natural (sse_of relayed_new (backend_stream loads (max_retries b) attempts)) (st_closed st) (st_world st).
Proof.
  intros Ha Hn. cbv zeta. induction ops as [|o ops IH] using rev_ind.
  - simpl. eexists. split; [done|]. done.
  - rewrite foldl_snoc. apply stream_step_sends; [done| |apply orderly_run|].
    + intros Hnat ->. apply (Hn Hnat), elem_of_app. right. by left.
    + apply IH. intros Hnat Hin. apply (Hn Hnat), elem_of_app. by left.
Qed.

(** *** How often the server is asked *)

Definition posts (log : list event) : list (dict string json) :=
  omap (λ e, match e with Posted p => Some p | _ => None end) log.

Lemma posts_app l k : posts (l ++ k) = posts l ++ posts k.
Proof. apply omap_app. Qed.

Lemma bg_attempts_posts payload n i last :
  ∃ k, (k ≤ n)%nat ∧ posts (bg_attempts payload n i last).2 = replicate k payload.
Proof.
  revert i last. induction n as [|n IH]; intros i last; cbn [bg_attempts]; [by exists 0|].
  destruct (at_first (answers i)) as [| | |[|m]]; try (exists 1; split; [lia|by destruct (answers i)]).
  destruct (IH (S i) (Some m)) as (k & Hk & E). destruct (bg_attempts payload n (S i) (Some m)) as [[r g] log]; simpl in *.
  exists (S k). split; [lia|]. destruct (answers i); simpl; by rewrite E.
Qed.

Lemma bg_next_posts b g :
  match g with
  | BFresh => ∃ k, (k ≤ Z.to_nat (max_retries b + 1))%nat ∧ posts (bg_next b g).2 = replicate k (payload_of request b).1
  | _ => posts (bg_next b g).2 = []
  end.
Proof.
  destruct g as [|lines ending|]; simpl; [| |done].
  - destruct (payload_of request b) as [payload b'].
    pose proof (bg_attempts_posts payload (Z.to_nat (max_retries b + 1)) 0 None) as Hl.
    by destruct (bg_attempts _ _ _ _) as [[r g] log].
  - unfold bg_resume. by destruct (at_read lines ending) as [| | |[|]].
Qed.

(** Whether the adapter's generator has begun. *)
Definition begun (g : agen) : bool := match g with AFresh | ARunning _ BFresh | APaused _ BFresh => false | _ => true end.

Definition posted_for (b : B) (w : Conn) : Prop :=
  if begun (cn_gen w)
  then ∃ k, (k ≤ Z.to_nat (max_retries b + 1))%nat ∧ posts (cn_log w) = replicate k (payload_of request b).1
  else cn_backend w = b ∧ posts (cn_log w) = [].

Lemma asked_end b w : posted_for b w → ∃ k, (k ≤ Z.to_nat (max_retries b + 1))%nat ∧ posts (cn_log w) = replicate k (payload_of request b).1.
Proof. unfold posted_for. destruct (begun (cn_gen w)); [done|]. intros [_ ->]. exists 0. split; [lia|done]. Qed.

Lemma posts_close g : posts (ag_close g) = [].
Proof. destruct g as [|a g|a g| |]; try done. by destruct g. Qed.

Lemma asked_close b st : posted_for b (st_world st) → posted_for b (st_world (aclose close_and_release st)).
Proof.
  intros Hw. unfold aclose. destruct (st_closed st); [done|]. apply asked_end in Hw as (k & Hk & E). exists k. split; [done|].
  simpl. by rewrite !posts_app, E, posts_close, app_nil_r.
Qed.

Lemma asked_turn b a g w : cn_gen w = ARunning a g → posted_for b w → posted_for b (ag_turn a g w).2.
Proof.
  unfold posted_for. intros -> Hw. unfold ag_turn. pose proof (bg_next_posts (cn_backend w) g) as Hp.
  pose proof (bg_next_begun (cn_backend w) g) as Hb.
  destruct (bg_next (cn_backend w) g) as [[[r g'] b'] log]. simpl in Hp.
  assert (Hall : ∀ more, posts more = [] →
    ∃ k, (k ≤ Z.to_nat (max_retries b + 1))%nat ∧ posts (cn_log w ++ log ++ more) = replicate k (payload_of request b).1).
  { intros more Hm. rewrite !posts_app, Hm, app_nil_r. destruct g; simpl in Hw.
    - destruct Hw as [<- ->]. exact Hp.
    - rewrite Hp, app_nil_r. exact Hw.
    - rewrite Hp, app_nil_r. exact Hw. }
  assert (Hc : posts (bg_close g') = []) by (by destruct g').
  destruct r as [c| |e]; [destruct (relay_step a c); [destruct (accounting_only c)|]|destruct (bookkeeping a f_zero)|]; simpl;
    try (by apply Hall); try (by apply Hall; rewrite posts_app, Hc).
  - by destruct g'; [|apply Hall..].
  - by destruct g'; [|apply Hall..].
Qed.

Lemma asked_step b st o : posted_for b (st_world st) → posted_for b (st_world (stream_step st o)).
Proof.
  intros Hw. pose proof (asked_close b st Hw) as Hclose. unfold stream_step. destruct o.
  - destruct (cn_gen (st_world st)) as [|a g|a g| |] eqn:Eg; try done; destruct (st_closed st); try done;
      unfold posted_for in *; rewrite Eg in Hw; simpl in *; [done|]. by destruct g.
  - destruct (cn_gen (st_world st)) as [|a g|a g| |] eqn:Eg; try done.
    pose proof (asked_turn b a g (st_world st) Eg Hw) as Ht. destruct (ag_turn a g (st_world st)) as [[|] w]; simpl in *; [|done].
    by apply asked_close.
  - by destruct (cn_gen (st_world st)).
Qed.

Lemma asked_run b ops : posted_for b (st_world (foldl stream_step (stream_start b) ops)).
Proof.
  induction ops as [|o ops IH] using rev_ind; [done|]. rewrite foldl_snoc. by apply asked_step.
Qed.

(** ** The order of the log *)

Definition opens (log : list event) : nat := length (omap (λ e, match e with Opened => Some tt | _ => None end) log).
Definition closes (log : list event) : nat := length (omap (λ e, match e with Closed => Some tt | _ => None end) log).

(** What may happen after [pre]: nothing after the release; the server is asked, a response opened and the slot
    released only while no response is open. *)
Definition in_order (pre : list event) (e : event) : Prop :=
  (Released ∉ pre) ∧
  (match e with
   | Posted _ | Opened | Released => opens pre = closes pre
   | Closed => opens pre = S (closes pre)
   | Item _ => True
   end).

Lemma scan_counts log o r :
  scan (false, false) log = Some (o, r) →
  opens log = (closes log + (if o then 1 else 0))%nat ∧ (r = true ↔ Released ∈ log) ∧ (r = true → o = false).
Proof.
  revert o r. induction log as [|e log IH] using rev_ind; intros o r.
  { intros [= <- <-]. split; [done|]. split; [|done]. split; [done|by intros ?%not_elem_of_nil]. }
  rewrite scan_app. destruct (scan (false, false) log) as [[o' r']|]; [|done]. simpl. intros Hs.
  specialize (IH o' r' eq_refl) as (Hc & Hr & Ho). unfold opens, closes in *.
  rewrite !omap_app, !length_app, elem_of_app, list_elem_of_singleton.
  destruct r'; [done|]. assert (Hn : Released ∉ log) by (intros Hin; by apply Hr in Hin).
  destruct e, o'; simplify_eq/=; (split; [lia|]); split; naive_solver.
Qed.

Lemma scan_in_order s log : scan (false, false) log = Some s → ∀ pre e post, log = pre ++ e :: post → in_order pre e.
Proof.
  intros Hs pre e post ->. rewrite scan_app in Hs. destruct (scan (false, false) pre) as [[o r]|] eqn:Ep; [|done].
  apply scan_counts in Ep as (Hc & Hr & _). simpl in Hs. destruct r; [done|].
  split; [intros Hin; by apply Hr in Hin|]. destruct e, o; try done; lia.
Qed.

(** *** The generator always comes to a [yield] *)

Lemma turns_end st : ∃ n, ∀ a g, cn_gen (st_world (Nat.iter n (λ st, stream_step st PTurn) st)) ≠ ARunning a g.
Proof.
  assert (Hread : ∀ k st a g, cn_gen (st_world st) = ARunning a g → g ≠ BFresh → (lines_left g < k)%nat →
    ∃ n, ∀ a g, cn_gen (st_world (Nat.iter n (λ st, stream_step st PTurn) st)) ≠ ARunning a g).
  { intros k. induction k as [|k IH]; intros st0 a g Eg Hg Hk; [lia|].
    assert (Hn : ∃ n, ∀ a g, cn_gen (st_world (Nat.iter n (λ st, stream_step st PTurn) (stream_step st0 PTurn))) ≠ ARunning a g).
    { unfold stream_step at 2. rewrite Eg. unfold ag_turn.
      pose proof (bg_next_shorter (cn_backend (st_world st0)) g Hg) as Hs.
      destruct (bg_next (cn_backend (st_world st0)) g) as [[[[c| |e] g'] b] log]; destruct Hs as [Hg' Hs].
      - destruct (relay_step a c); [destruct (accounting_only c)|].
        + eapply IH; [done|exact Hg'|lia].
        + by exists 0.
        + exists 0. unfold aclose. simpl. by destruct (st_closed st0).
      - exists 0. destruct (bookkeeping a f_zero); unfold aclose; simpl; by destruct (st_closed st0).
      - exists 0. unfold aclose. simpl. by destruct (st_closed st0). }
    destruct Hn as [n Hn]. exists (S n). by rewrite Nat.iter_succ_r. }
  destruct (cn_gen (st_world st)) as [|a g|a g| |] eqn:Eg; try (exists 0; simpl; by rewrite Eg).
  assert (Hn : ∃ n, ∀ a g, cn_gen (st_world (Nat.iter n (λ st, stream_step st PTurn) (stream_step st PTurn))) ≠ ARunning a g).
  { unfold stream_step at 2. rewrite Eg. unfold ag_turn.
    pose proof (bg_next_begun (cn_backend (st_world st)) g) as Hb.
    destruct (bg_next (cn_backend (st_world st)) g) as [[[[c| |e] g'] b] log].
    - destruct (relay_step a c); [destruct (accounting_only c)|].
      + eapply Hread; [done|exact Hb|apply Nat.lt_succ_diag_r].
      + by exists 0.
      + exists 0. unfold aclose. simpl. by destruct (st_closed st).
    - exists 0. destruct (bookkeeping a f_zero); unfold aclose; simpl; by destruct (st_closed st).
    - exists 0. unfold aclose. simpl. by destruct (st_closed st). }
  destruct Hn as [n Hn]. exists (S n). by rewrite Nat.iter_succ_r.
Qed.

(** ** Properties *)

(** C19. A streamed response gives its slot back only when its connection is closed.  Whatever the
    server answers, wherever a cancellation arrives, and whatever the client asks for or when
    it leaves: at most one response of the server is open at a time, every one is closed
    before the slot is released, nothing is asked or sent after that, and the slot is released
    when the stream is closed and only then.  The server is asked at most [max_retries + 1]
    times, always with the same payload. *)
Theorem response_closed_before_slot b ops :
  let st := foldl stream_step (stream_start b) ops in
  let log := cn_log (st_world st) in
  (∀ pre e post, log = pre ++ e :: post → in_order pre e) ∧
  (st_closed st = true ↔ Released ∈ log) ∧ (Released ∈ log → opens log = closes log) ∧
  ∃ k, (k ≤ Z.to_nat (max_retries b + 1))%nat ∧ posts log = replicate k (payload_of request b).1.
Proof.
  cbv zeta. destruct (orderly_run ops b) as [Hs _]. pose proof (scan_counts _ _ _ Hs) as (Hc & Hr & Ho).
  split_and!; [by eapply scan_in_order|done| |apply asked_end, asked_run].
  intros Hin%Hr. rewrite (Ho Hin) in Hc. lia.
Qed.

(** C21. Streaming chunk by chunk gives what [Streams] says of the whole.  When nothing is
    cancelled, what the client has been sent is at every moment a beginning of the items that
    [relay] makes of the backend's chunks; a client that asks until the end gets all of them,
    the last event exactly when the stream ended well; and every request for an item is
    answered after finitely many turns. *)
Theorem stream_is_relay attempts b ops :
  (∀ i, answers i = answer_of (attempts i)) →
  let st := foldl stream_step (stream_start b) ops in
  let sent := items (cn_log (st_world st)) in
  let full := sse_of relayed_new (backend_stream loads (max_retries b) attempts) in
  sent `prefix_of` full ∧ (PClose ∉ ops → st_closed st = true → sent = full) ∧
  ∃ n, ∀ a g, cn_gen (st_world (Nat.iter n (λ st, stream_step st PTurn) st)) ≠ ARunning a g.
Proof.
  intros Ha. cbv zeta. split_and!; [| |apply turns_end].
  - destruct (stream_run_sends attempts false b ops Ha) as (rest & -> & _); [done|]. by exists rest.
  - intros Hn Hc. destruct (stream_run_sends attempts true b ops Ha (λ _, Hn)) as (rest & -> & Hg).
    destruct (orderly_run ops b) as [_ Hd]. rewrite (Hd Hc) in Hg. by rewrite (Hg eq_refl), app_nil_r.
Qed.

(** C20. A completion closes its connection, always ends, and is the one of [Backends].  At every
    turn of its loop the connection is in order as for a stream; the slot is released when it is
    over and only then; it is over after finitely many turns; and when nothing is cancelled its
    result, or its error, is [backend_complete] of the whole stream. *)
Theorem completion_closes_and_sums b :
  (∀ n, let w := Nat.iter n complete_turn (complete_start b) in
     (∀ pre e post, cl_log w = pre ++ e :: post → in_order pre e) ∧
     (Released ∈ cl_log w ↔ ∃ r, cl_gen w = CEnded r)) ∧
  (∃ n r, cl_gen (Nat.iter n complete_turn (complete_start b)) = CEnded r) ∧
  ∀ attempts n r, (∀ i, answers i = answer_of (attempts i)) →
    cl_gen (Nat.iter n complete_turn (complete_start b)) = CEnded r →
    r = of_backend (backend_complete (model request) (backend_stream loads (max_retries b) attempts)).
Proof.
  split_and!; [|apply complete_ends|].
  - intros n w. pose proof (call_orderly_run n b) as Hs. unfold call_orderly in Hs. fold w in Hs.
    split; [by eapply scan_in_order|]. destruct (cl_gen w) as [acc g|r].
    + apply scan_counts in Hs as (_ & Hr & _). rewrite <-Hr. split; [done|]. by intros (? & [=]).
    + apply scan_counts in Hs as (_ & Hr & _). split; [by exists r|intros _; by apply Hr].
  - intros attempts n r Ha E.
    pose proof (complete_run attempts n (complete_start b)
      {| ac_parts := []; ac_finish_reason := JStr "stop"; ac_usage := JNull |} BFresh
      (backend_stream loads (max_retries b) attempts) Ha eq_refl ltac:(constructor)) as Hn.
    rewrite E in Hn. exact Hn.
Qed.
End generator.

Arguments Conn : clear implicits.
Arguments Call : clear implicits.

(** ** A concrete stream *)

Definition sample_loads (s : string) : option json :=
  if bool_decide (s = "hello")
  then Some (JObj [("choices", JList [JObj [("delta", JObj [("content", JStr "hi")]); ("finish_reason", JStr "stop")]])])
  else None.

(** The first connection is refused, the second answers. *)
Definition sample_attempts (i : nat) : attempt :=
  match i with
  | O => NoResponse (TransportError "refused")
  | _ => Response 200 "" ["data: hello"; ": ping"; "data: [DONE]"] None
  end.

Definition sample_backend : LMStudioBackend := LMStudioBackend_new
  {| bc_base_url := "http://a"; bc_timeout := None; bc_max_retries := 2; bc_connect_timeout := f_of_Z 10;
     bc_pool_timeout := f_of_Z 10; bc_write_timeout := f_of_Z 60; bc_health_timeout := f_of_Z 10;
     bc_model_aliases := Some {["m" := ["m:1"; "m:2"]]} |}.

Definition sample_request : ChatCompletionRequest :=
  {| model := "m"; messages := [{| role := "user"; content := "hi" |}]; stream := true;
     req_session_id := None; task_type := None; temperature := None; max_tokens := None;
     chat_template_kwargs := None; response_format := None |}.

Definition sample_payload : dict string json := to_lmstudio_payload sample_request "m:1".

Definition sample_chunk : BackendChunk :=
  {| ck_content := JStr "hi"; ck_finish_reason := JStr "stop"; ck_usage := JNull |}.

Abbreviation run_stream := (λ ops, st_world (foldl
  (stream_step sample_loads sample_request (answer_of ∘ sample_attempts)) (stream_start sample_backend) ops)).

(** The client reads to the end, or leaves at the first item; both ways the connection is closed first. *)
Example stream_to_the_end :
  cn_log (run_stream [PNext; PTurn; PNext; PTurn; PNext]) =
    [Posted sample_payload; Posted sample_payload; Opened; Item (SseChunk sample_chunk); Closed; Item SseDone; Released].
Proof. by vm_compute. Qed.

Example stream_left_early :
  cn_log (run_stream [PNext; PTurn; PClose]) =
    [Posted sample_payload; Posted sample_payload; Opened; Item (SseChunk sample_chunk); Closed; Released].
Proof. by vm_compute. Qed.

(** A stream closed before it began asks nothing, and the aliases do not move on. *)
Example stream_never_begun :
  run_stream [PClose; PNext] = {| cn_backend := sample_backend; cn_gen := ADone; cn_log := [Released] |}.
Proof. by vm_compute. Qed.

Lemma stream_is_relay_witness :
  items (cn_log (run_stream [PNext; PTurn; PNext; PTurn; PNext])) = [SseChunk sample_chunk; SseDone] ∧
  items (cn_log (run_stream [PNext; PTurn; PNext; PTurn; PNext])) =
    sse_of relayed_new (backend_stream sample_loads 2 sample_attempts).
Proof.
  split; [by vm_compute|].
  destruct (stream_is_relay sample_loads sample_request (answer_of ∘ sample_attempts) sample_attempts sample_backend
    [PNext; PTurn; PNext; PTurn; PNext]) as (_ & E & _); [done|]. apply E; [|by vm_compute].
  intros Hin. do 5 (apply elem_of_cons in Hin as [Hin|Hin]; [discriminate Hin|]). by apply not_elem_of_nil in Hin.
Defined.

Lemma completion_closes_and_sums_witness :
  ∃ n r, cl_gen (Nat.iter n (complete_turn sample_loads sample_request (answer_of ∘ sample_attempts))
    (complete_start sample_backend)) = CEnded (Ret r) ∧ br_content r = "hi".
Proof.
  destruct (completion_closes_and_sums sample_loads sample_request (answer_of ∘ sample_attempts) sample_backend)
    as (_ & (n & r & E) & Hr).
  specialize (Hr sample_attempts n r (λ _, eq_refl) E). exists n. rewrite E, Hr. eexists. split; vm_compute; reflexivity.
Defined.
