(* ===== verification/Lifetime.v ===== *)
(** * The lifetime of a request ([RequestLifetimeMiddleware] in [api/lifetime.py])

    Two tasks serve a chat request: the pump reads the client's messages into a mailbox of
    one, and the request takes them from there.  The middleware waits for the first to
    end, cancels the other and joins both.  Everything between two awaits is one step; a
    cancelled task may still do things until its own cleanup is over. *)

From S2P Require Import Prelude.
From S2P Require Import PyStr.

#[local] Open Scope list_scope.

(** [scope["type"] != "http" or scope["path"] != "/v1/chat/completions"] goes straight to the app. *)
Definition owns_request (scope_type path : string) : bool :=
  bool_decide (scope_type = "http") && bool_decide (path = "/v1/chat/completions").

(** ** Tasks *)

(** What [receive] gives. *)
Inductive message := RequestBody (body : string) (more_body : bool) | Disconnect.

#[export] Instance message_eq_dec : EqDecision message.
Proof. solve_decision. Defined.

Inductive task_end := Returned | Failed (exc : string) | Cancelled.

#[export] Instance task_end_eq_dec : EqDecision task_end.
Proof. solve_decision. Defined.

Inductive pump_state := Receiving | Putting (m : message) | PumpEnded (r : task_end).
Inductive request_state := Running | Getting | RequestEnded (r : task_end).

(** [JoiningTasks r]: the [finally], with the result to give afterwards. *)
Inductive main_state := FirstCompleted | JoiningTasks (r : task_end) | CallEnded (r : task_end).

Record Lifetime := {
  lt_pump : pump_state;
  lt_request : request_state;
  lt_main : main_state;
  lt_mailbox : option message;
  lt_pump_cancelled : bool;
  lt_request_cancelled : bool;
  lt_received : list message;
  lt_delivered : list message;
  lt_stopped : bool;               (** the server has cancelled the call *)
}.

(** [messages = asyncio.Queue(maxsize=1)] and the two tasks. *)
Definition Lifetime_new : Lifetime :=
  {| lt_pump := Receiving; lt_request := Running; lt_main := FirstCompleted; lt_mailbox := None;
     lt_pump_cancelled := false; lt_request_cancelled := false; lt_received := []; lt_delivered := []; lt_stopped := false |}.

(** ** Steps *)

Definition set_pump (p : pump_state) (s : Lifetime) : Lifetime :=
  {| lt_pump := p; lt_request := lt_request s; lt_main := lt_main s; lt_mailbox := lt_mailbox s;
     lt_pump_cancelled := lt_pump_cancelled s; lt_request_cancelled := lt_request_cancelled s;
     lt_received := lt_received s; lt_delivered := lt_delivered s; lt_stopped := lt_stopped s |}.
Definition set_request_task (r : request_state) (s : Lifetime) : Lifetime :=
  {| lt_pump := lt_pump s; lt_request := r; lt_main := lt_main s; lt_mailbox := lt_mailbox s;
     lt_pump_cancelled := lt_pump_cancelled s; lt_request_cancelled := lt_request_cancelled s;
     lt_received := lt_received s; lt_delivered := lt_delivered s; lt_stopped := lt_stopped s |}.
Definition set_mail (box : option message) (received delivered : list message) (s : Lifetime) : Lifetime :=
  {| lt_pump := lt_pump s; lt_request := lt_request s; lt_main := lt_main s; lt_mailbox := box;
     lt_pump_cancelled := lt_pump_cancelled s; lt_request_cancelled := lt_request_cancelled s;
     lt_received := received; lt_delivered := delivered; lt_stopped := lt_stopped s |}.
Definition set_main (m : main_state) (s : Lifetime) : Lifetime :=
  {| lt_pump := lt_pump s; lt_request := lt_request s; lt_main := m; lt_mailbox := lt_mailbox s;
     lt_pump_cancelled := lt_pump_cancelled s; lt_request_cancelled := lt_request_cancelled s;
     lt_received := lt_received s; lt_delivered := lt_delivered s; lt_stopped := lt_stopped s |}.

Definition pump_ended (s : Lifetime) : option task_end :=
  match lt_pump s with PumpEnded r => Some r | _ => None end.
Definition request_ended (s : Lifetime) : option task_end :=
  match lt_request s with RequestEnded r => Some r | _ => None end.

Definition set_stopped (s : Lifetime) : Lifetime :=
  {| lt_pump := lt_pump s; lt_request := lt_request s; lt_main := lt_main s; lt_mailbox := lt_mailbox s;
     lt_pump_cancelled := lt_pump_cancelled s; lt_request_cancelled := lt_request_cancelled s;
     lt_received := lt_received s; lt_delivered := lt_delivered s; lt_stopped := true |}.

(** [for task in (request_task, receive_task): if not task.done(): task.cancel()] *)
Definition cancel_tasks (s : Lifetime) : Lifetime :=
  {| lt_pump := lt_pump s; lt_request := lt_request s; lt_main := lt_main s; lt_mailbox := lt_mailbox s;
     lt_pump_cancelled := bool_decide (pump_ended s = None);
     lt_request_cancelled := bool_decide (request_ended s = None);
     lt_received := lt_received s; lt_delivered := lt_delivered s; lt_stopped := lt_stopped s |}.

Inductive event :=
  | Receive (m : message)          (** the socket gives a message *)
  | ReceiveError (exc : string)
  | Put                            (** the mailbox takes what the pump holds *)
  | PumpStops                      (** the pump is thrown its [CancelledError] *)
  | Ask                            (** the request calls [messages.get] *)
  | Take                           (** and gets the message *)
  | RequestEnds (r : task_end)
  | FirstEnds                      (** [asyncio.wait] returns *)
  | ServerStops                    (** the call itself is cancelled *)
  | Joined.

(** [None]: the event cannot happen. *)
Definition step (e : event) (s : Lifetime) : option Lifetime :=
  match e with
  | Receive m =>
      if lt_pump_cancelled s then None else
      match lt_pump s with
      | Receiving => Some (set_mail (lt_mailbox s) (lt_received s ++ [m]) (lt_delivered s) (set_pump (Putting m) s))
      | _ => None
      end
  | ReceiveError exc =>
      if lt_pump_cancelled s then None else
      match lt_pump s with Receiving => Some (set_pump (PumpEnded (Failed exc)) s) | _ => None end
  | Put =>
      if lt_pump_cancelled s then None else
      match lt_pump s, lt_mailbox s with
      | Putting m, None =>
          Some (set_mail (Some m) (lt_received s) (lt_delivered s)
                  (set_pump (if decide (m = Disconnect) then PumpEnded Returned else Receiving) s))
      | _, _ => None
      end
  | PumpStops =>
      if lt_pump_cancelled s then
        match lt_pump s with PumpEnded _ => None | _ => Some (set_pump (PumpEnded Cancelled) s) end
      else None
  | Ask => match lt_request s with Running => Some (set_request_task Getting s) | _ => None end
  | Take =>
      match lt_request s, lt_mailbox s with
      | Getting, Some m =>
          Some (set_mail None (lt_received s) (lt_delivered s ++ [m]) (set_request_task Running s))
      | _, _ => None
      end
  | RequestEnds r =>
      match lt_request s with
      | Running => Some (set_request_task (RequestEnded r) s)
      | Getting => if decide (r = Cancelled) then Some (set_request_task (RequestEnded r) s) else None
      | RequestEnded _ => None
      end
  | FirstEnds =>
      match lt_main s with
      | FirstCompleted =>
          match request_ended s, pump_ended s with
          | Some r, _ => Some (set_main (JoiningTasks r) (cancel_tasks s))
          | None, Some r => Some (set_main (JoiningTasks r) (cancel_tasks s))
          | None, None => None
          end
      | _ => None
      end
  | ServerStops =>
      match lt_main s with
      | FirstCompleted => Some (set_main (JoiningTasks Cancelled) (cancel_tasks (set_stopped s)))
      | _ => None
      end
  | Joined =>
      match lt_main s, request_ended s, pump_ended s with
      | JoiningTasks r, Some _, Some _ => Some (set_main (CallEnded r) s)
      | _, _, _ => None
      end
  end.

Inductive reachable : Lifetime → Prop :=
  | reachable_new : reachable Lifetime_new
  | reachable_step e s s' : reachable s → step e s = Some s' → reachable s'.

Fixpoint run (es : list event) (s : Lifetime) : option Lifetime :=
  match es with [] => Some s | e :: es => step e s ≫= run es end.

(** ** The invariant *)

Definition held (p : pump_state) : list message := match p with Putting m => [m] | _ => [] end.

Record mail_wf (s : Lifetime) : Prop := {
  (** nothing is lost, reordered or duplicated; a cancelled pump may drop what it holds *)
  mw_mail : ∃ dropped, lt_received s = lt_delivered s ++ option_list (lt_mailbox s) ++ held (lt_pump s) ++ dropped ∧
    (length (held (lt_pump s) ++ dropped) ≤ 1)%nat ∧ (lt_pump s ≠ PumpEnded Cancelled → dropped = []);
  (** the pump returns only after the disconnect, its last message *)
  mw_returned : lt_pump s = PumpEnded Returned → last (lt_received s) = Some Disconnect;
  mw_more : match lt_pump s with
            | Receiving => Disconnect ∉ lt_received s
            | Putting m => ∃ l, lt_received s = l ++ [m] ∧ Disconnect ∉ l
            | PumpEnded _ => True
            end;
}.

(** How the call came to its result [r]. *)
Definition result_ok (s : Lifetime) (r : task_end) : Prop :=
  if lt_stopped s then r = Cancelled
  else if lt_request_cancelled s then
    (r = Returned ∧ last (lt_received s) = Some Disconnect) ∨
    ∃ exc, r = Failed exc ∧ lt_pump s = PumpEnded (Failed exc)
  else lt_request s = RequestEnded r.

Definition main_wf (s : Lifetime) : Prop :=
  match lt_main s with
  | FirstCompleted => lt_request_cancelled s = false ∧ lt_pump_cancelled s = false ∧ lt_pump s ≠ PumpEnded Cancelled ∧
      lt_stopped s = false
  | JoiningTasks r =>
      (pump_ended s = None → lt_pump_cancelled s = true) ∧ (request_ended s = None → lt_request_cancelled s = true) ∧
      result_ok s r
  | CallEnded r => is_Some (pump_ended s) ∧ is_Some (request_ended s) ∧ result_ok s r
  end.

Lemma lifetime_new_wf : mail_wf Lifetime_new ∧ main_wf Lifetime_new.
Proof.
  split; [|done]. split; simpl; [|done|by intros ?%not_elem_of_nil].
  exists []. split_and!; [done|simpl; lia|done].
Qed.

Ltac step_cases Hs :=
  repeat match type of Hs with
  | Some _ = Some _ => injection Hs as <-
  | None = Some _ => discriminate Hs
  | context [match ?x with _ => _ end] => destruct x eqn:?; simplify_eq/=
  end.

(** A pump that can still receive is not cancelled, so the call has not come to its end. *)
Lemma uncancelled_waits s :
  main_wf s → lt_pump_cancelled s = false → pump_ended s = None → lt_main s = FirstCompleted.
Proof.
  unfold main_wf. destruct (lt_main s); [done|intros (H & _ & _) E1 E2; by rewrite (H E2) in E1|].
  intros ([? E1] & _ & _) _ E2. congruence.
Qed.

(** Each event keeps the two parts of the invariant. *)
Lemma mail_wf_step e s s' : mail_wf s → main_wf s → step e s = Some s' → mail_wf s'.
Proof.
  intros [(dropped & Hmail & Hlen & Hd) Hret Hmore] Hmain Hs.
  assert (Hsame : lt_pump s' = lt_pump s → lt_mailbox s' = lt_mailbox s → lt_received s' = lt_received s →
    lt_delivered s' = lt_delivered s → mail_wf s').
  { intros E1 E2 E3 E4. split; rewrite ?E1, ?E2, ?E3, ?E4; [by exists dropped|done|done]. }
  destruct e; simpl in Hs; try (step_cases Hs; by apply Hsame).
  - destruct (lt_pump_cancelled s) eqn:Epc; [done|]. destruct (lt_pump s) as [|?|r] eqn:Ep; [|done|done].
    injection Hs as <-. split; simpl; [|done|by exists (lt_received s)]. exists []. rewrite Hd in Hmail by done.
    rewrite Hmail. simpl. split_and!; [|lia|done]. by rewrite <-!app_assoc.
  - destruct (lt_pump_cancelled s) eqn:Epc; [done|]. destruct (lt_pump s) as [|?|r] eqn:Ep; [|done|done].
    injection Hs as <-. split; simpl; [|done|done]. exists []. rewrite Hd in Hmail by done. by split_and!; [|simpl; lia|].
  - destruct (lt_pump_cancelled s) eqn:Epc; [done|]. destruct (lt_pump s) as [|m|r] eqn:Ep; [done| |done].
    destruct (lt_mailbox s) eqn:Eb; [done|]. injection Hs as <-. rewrite Hd in Hmail by done. simpl in Hmail.
    assert (E : held (if decide (m = Disconnect) then PumpEnded Returned else Receiving) = []) by by case_decide.
    split; simpl.
    + exists []. rewrite E. simpl. split_and!; [done|lia|done].
    + case_decide; [|done]. subst. intros _. by rewrite Hmail, last_snoc.
    + case_decide as Hm; [done|]. destruct Hmore as (l & -> & Hl). set_solver.
  - destruct (lt_pump_cancelled s) eqn:Epc; [|done].
    assert (E : s' = set_pump (PumpEnded Cancelled) s) by (destruct (lt_pump s); by simplify_eq). subst s'. clear Hs.
    split; simpl; [|done|done]. exists (held (lt_pump s) ++ dropped). by split_and!.
  - destruct (lt_request s); [done| |done]. destruct (lt_mailbox s) as [m|] eqn:Eb; [|done]. injection Hs as <-.
    split; simpl; [|done|done]. exists dropped. split_and!; [|done|done]. rewrite Hmail. simpl. by rewrite <-app_assoc.
Qed.

(** What the request does before it ends does not matter to the call. *)
Lemma main_wf_request q box dlv s :
  request_ended s = None → (∀ r, q ≠ RequestEnded r) → main_wf s →
  main_wf (set_mail box (lt_received s) dlv (set_request_task q s)).
Proof.
  unfold main_wf, result_ok. simpl. intros Hs Hq. destruct (lt_main s) as [|r|r]; [done| |by intros (_ & [? ?] & _); congruence].
  intros (Hp & Hc & Hr). rewrite (Hc Hs) in *. split_and!; [done|done|done].
Qed.

Lemma main_wf_step e s s' : mail_wf s → main_wf s → step e s = Some s' → main_wf s'.
Proof.
  intros Hmail Hwf Hs. pose proof (uncancelled_waits s Hwf) as Hunc. pose proof Hwf as Hmain.
  unfold main_wf, result_ok in Hmain |- *.
  destruct e; simpl in Hs.
  - destruct (lt_pump_cancelled s) eqn:Epc; [done|]. unfold pump_ended in *.
    destruct (lt_pump s) as [|?|r] eqn:Ep; [|done|done].
    injection Hs as <-. simpl. rewrite (Hunc eq_refl eq_refl) in *. naive_solver.
  - destruct (lt_pump_cancelled s) eqn:Epc; [done|]. unfold pump_ended in *.
    destruct (lt_pump s) as [|?|r] eqn:Ep; [|done|done].
    injection Hs as <-. simpl. rewrite (Hunc eq_refl eq_refl) in *. naive_solver.
  - destruct (lt_pump_cancelled s) eqn:Epc; [done|]. unfold pump_ended in *.
    destruct (lt_pump s) as [|m|r] eqn:Ep; [done| |done]. destruct (lt_mailbox s); [done|].
    injection Hs as <-. simpl. rewrite (Hunc eq_refl eq_refl) in *. case_decide; naive_solver.
  - destruct (lt_pump_cancelled s) eqn:Epc; [|done]. unfold pump_ended, request_ended in *.
    destruct (lt_pump s) as [|m|r] eqn:Ep; [| |done]; injection Hs as <-; simpl;
      (destruct (lt_main s); [naive_solver| |by destruct Hmain as [[? ?] _]]);
      destruct (lt_stopped s), (lt_request_cancelled s); naive_solver.
  - destruct (lt_request s) eqn:Er; [|done|done]. injection Hs as <-.
    apply (main_wf_request Getting (lt_mailbox s) (lt_delivered s)); [by unfold request_ended; rewrite Er|done|exact Hwf].
  - destruct (lt_request s) eqn:Er; [done| |done]. destruct (lt_mailbox s); [|done]. injection Hs as <-.
    apply main_wf_request; [by unfold request_ended; rewrite Er|done|exact Hwf].
  - assert (E : request_ended s = None ∧ s' = set_request_task (RequestEnded r) s).
    { unfold request_ended. destruct (lt_request s); [by simplify_eq| |done]. case_decide; by simplify_eq. }
    destruct E as [E ->]. clear Hs. simpl. unfold request_ended, pump_ended in *. simpl.
    destruct (lt_main s) as [|r'|r']; [done| |by destruct Hmain as (_ & [? ?] & _); congruence].
    destruct Hmain as (Hp & Hc & Hr). rewrite (Hc E) in *. done.
  - destruct (lt_main s) eqn:Em; [|done|done]. destruct Hmain as (Hq & Hp & Hne & Hst).
    unfold cancel_tasks, request_ended, pump_ended in *. destruct (lt_request s) as [| |r] eqn:Er.
    1,2: destruct (lt_pump s) as [|m|r] eqn:Ep; [done|done|]; injection Hs as <-; simpl; rewrite ?Er, ?Ep, ?Hst.
    1,2: split_and!; [done|done|]; destruct r; [|eauto|done].
    1,2: left; split; [done|]; by apply (mw_returned _ Hmail).
    injection Hs as <-. simpl. unfold request_ended, pump_ended. simpl. rewrite ?Er.
    rewrite Hst. split_and!; [by intros ->|done|done].
  - destruct (lt_main s) eqn:Em; [|done|done]. injection Hs as <-. simpl. unfold request_ended, pump_ended. simpl.
    split_and!; [by destruct (lt_pump s)|by destruct (lt_request s)|done].
  - destruct (lt_main s) as [|r|r] eqn:Em; [done| |done].
    destruct (request_ended s) as [rq|] eqn:Er; [|done]. destruct (pump_ended s) as [rp|] eqn:Ep; [|done].
    injection Hs as <-. simpl. destruct Hmain as (_ & _ & Hres).
    split_and!; [by rewrite <-Ep in *; exists rp|by exists rq|done].
Qed.

Lemma reachable_wf s : reachable s → mail_wf s ∧ main_wf s.
Proof.
  induction 1 as [|e s s' _ [IH1 IH2] Hs]; [apply lifetime_new_wf|].
  split; [by eapply mail_wf_step|by eapply main_wf_step].
Qed.

(** ** The middleware's own steps *)

Definition owned (e : event) : bool :=
  match e with Put | PumpStops | FirstEnds | Joined => true | _ => false end.

(** How many of them are left. *)
Definition steps_left (s : Lifetime) : nat :=
  (match lt_pump s with Putting _ => 2 | Receiving => 1 | PumpEnded _ => 0 end) +
  (match lt_main s with FirstCompleted => 2 | JoiningTasks _ => 1 | CallEnded _ => 0 end).

Lemma owned_progress e s s' : owned e = true → step e s = Some s' → (steps_left s' < steps_left s)%nat.
Proof.
  unfold steps_left. intros He Hs. destruct e; try done; simpl in Hs.
  - destruct (lt_pump_cancelled s), (lt_pump s), (lt_mailbox s); try done. injection Hs as <-. simpl. case_decide; lia.
  - destruct (lt_pump_cancelled s), (lt_pump s); try done; injection Hs as <-; simpl; lia.
  - destruct (lt_main s); [|done|done]. destruct (request_ended s), (pump_ended s); try done; injection Hs as <-; simpl; lia.
  - destruct (lt_main s); [done| |done]. destruct (request_ended s), (pump_ended s); try done. injection Hs as <-. simpl; lia.
Qed.

(** The disconnect is on its way and nothing is before it. *)
Definition hung_up (s : Lifetime) : Prop :=
  Disconnect ∈ lt_received s ∧ (lt_mailbox s = None ∨ is_Some (pump_ended s)).

(** The call is over, or the request has been told. *)
Definition reached (s : Lifetime) : Prop :=
  (∃ r, lt_main s = CallEnded r) ∨ (lt_request_cancelled s = true ∧ request_ended s = None).

Lemma call_step_keeps e s s' :
  e = FirstEnds ∨ e = Joined → step e s = Some s' →
  lt_received s' = lt_received s ∧ lt_mailbox s' = lt_mailbox s ∧ lt_pump s' = lt_pump s.
Proof.
  intros [-> | ->] Hs; simpl in Hs; destruct (lt_main s), (request_ended s), (pump_ended s); try done;
    by injection Hs as <-.
Qed.

Lemma owned_hung_up e s s' : mail_wf s → owned e = true → step e s = Some s' → hung_up s → hung_up s'.
Proof.
  intros [_ _ Hmore] He Hs [Hin Hbox]. unfold hung_up, pump_ended in *.
  destruct e; try done; simpl in Hs.
  - destruct (lt_pump_cancelled s); [done|]. destruct (lt_pump s) as [|m|r]; [done| |done].
    destruct (lt_mailbox s); [done|]. injection Hs as <-. simpl. split; [done|]. right.
    destruct Hmore as (l & E & Hl). rewrite E in Hin. apply elem_of_app in Hin as [?|<-%list_elem_of_singleton]; [done|].
    rewrite decide_True by done. by eexists.
  - destruct (lt_pump_cancelled s); [|done].
    destruct (lt_pump s); [| |done]; injection Hs as <-; simpl; (split; [done|right; by eexists]).
  - destruct (call_step_keeps FirstEnds s s' (or_introl eq_refl) Hs) as (-> & -> & ->). by split.
  - destruct (call_step_keeps Joined s s' (or_intror eq_refl) Hs) as (-> & -> & ->). by split.
Qed.

Lemma stuck_reached s :
  mail_wf s → main_wf s → hung_up s → (∀ e, owned e = true → step e s = None) → reached s.
Proof.
  intros [_ _ Hmore] Hmain [Hin Hbox] Hstuck. unfold reached, main_wf in *.
  pose proof (Hstuck Put eq_refl) as S1. pose proof (Hstuck PumpStops eq_refl) as S2.
  pose proof (Hstuck FirstEnds eq_refl) as S3. pose proof (Hstuck Joined eq_refl) as S4. simpl in *.
  unfold pump_ended in *. destruct (lt_main s) as [|r|r]; [exfalso| |by left; eexists].
  - destruct Hmain as (_ & Hp & _). rewrite Hp in *. destruct (lt_pump s) as [|m|r]; [done| |].
    + destruct Hbox as [E|[? ?]]; [by rewrite E in S1|done].
    + by destruct (request_ended s).
  - destruct Hmain as (Hp & Hc & _). right. destruct (lt_pump s); [by rewrite Hp in S2|by rewrite Hp in S2|].
    destruct (request_ended s); [done|]. by rewrite Hc.
Qed.

(** ** Properties *)

(** C29. One owner for the request.  However the client, the request and the middleware
    interleave: the call ends only after both tasks have ended; the request sees the
    client's messages in order, none lost and at most two ahead of it.  When the
    server has stopped the call, it is cancelled; else, a request the middleware has cancelled was
    cancelled because the client is gone, and then the call returns, or because reading
    from it failed, and then the call fails with that; and a request it has not cancelled gives
    the call its own result. *)
Theorem request_is_owned s :
  reachable s →
  (∀ r, lt_main s = CallEnded r → is_Some (request_ended s) ∧ is_Some (pump_ended s)) ∧
  (∃ ahead, lt_received s = lt_delivered s ++ ahead ∧ (length ahead ≤ 2)%nat) ∧
  ∀ r, lt_main s = JoiningTasks r ∨ lt_main s = CallEnded r →
    if lt_stopped s then r = Cancelled
    else if lt_request_cancelled s then
      (r = Returned ∧ last (lt_received s) = Some Disconnect) ∨
      ∃ exc, r = Failed exc ∧ pump_ended s = Some (Failed exc)
    else request_ended s = Some r.
Proof.
  intros [[(dropped & Hmail & Hlen & _) _ _] Hmain]%reachable_wf. unfold main_wf in Hmain. split_and!.
  - intros r Hr. rewrite Hr in Hmain. tauto.
  - eexists. split; [exact Hmail|]. rewrite length_app. destruct (lt_mailbox s); simpl; lia.
  - intros r Hr. assert (Hok : result_ok s r) by (destruct Hr as [Hr|Hr]; rewrite Hr in Hmain; tauto).
    unfold result_ok, pump_ended, request_ended in *. destruct (lt_stopped s); [done|].
    destruct (lt_request_cancelled s); [|by rewrite Hok].
    destruct Hok as [|(exc & -> & ->)]; eauto.
Qed.

(** C30. A disconnect always reaches the request.  Once the request has read what came before,
    the middleware has at most four steps of its own to take, and when it has taken them
    the request has been cancelled and is cleaning up, or the call is over: the request
    cannot run on for a client that is gone. *)
Theorem disconnect_reaches_request s es s' :
  reachable s → Disconnect ∈ lt_received s → lt_mailbox s = None →
  Forall (λ e, owned e = true) es → run es s = Some s' →
  (length es ≤ 4)%nat ∧ ((∀ e, owned e = true → step e s' = None) → reached s').
Proof.
  intros Hs Hin Hbox Hes Hrun. assert (Hu : hung_up s) by (split; auto).
  assert (H : (length es + steps_left s' ≤ steps_left s)%nat ∧ reachable s' ∧ hung_up s').
  { clear Hin Hbox. revert s Hs Hu Hrun. induction Hes as [|e es He _ IH]; intros s Hs Hu Hrun.
    { simpl in Hrun. injection Hrun as <-. simpl. auto with lia. }
    simpl in Hrun. destruct (step e s) as [s1|] eqn:E; [|done]. simpl in Hrun.
    pose proof (owned_progress _ _ _ He E). destruct (reachable_wf _ Hs) as [Hm _].
    destruct (IH s1) as (H1 & H2 & H3); [by eapply reachable_step|by eapply owned_hung_up|done|].
    simpl. split_and!; [lia|done|done]. }
  destruct H as (H1 & H2 & H3). split.
  - assert (steps_left s ≤ 4)%nat; [|lia]. unfold steps_left. destruct (lt_pump s), (lt_main s); lia.
  - destruct (reachable_wf _ H2). by apply stuck_reached.
Qed.

(** ** A client that goes away *)

Lemma run_reachable es s s' : reachable s → run es s = Some s' → reachable s'.
Proof.
  revert s. induction es as [|e es IH]; intros s Hs; simpl; [by intros [= <-]|].
  destruct (step e s) as [s1|] eqn:E; [|done]. apply IH. by eapply reachable_step.
Qed.

Definition gone : list event := [Ask; Receive (RequestBody "{}" false); Put; Take; Receive Disconnect].

Definition gone_state : Lifetime := default Lifetime_new (run gone Lifetime_new).

Lemma gone_reachable : reachable gone_state.
Proof. apply (run_reachable gone Lifetime_new); [constructor|reflexivity]. Qed.

Lemma request_is_owned_witness :
  ∃ s, run [Put; FirstEnds; RequestEnds Cancelled; Joined] gone_state = Some s ∧
    lt_main s = CallEnded Returned ∧ is_Some (request_ended s) ∧ is_Some (pump_ended s).
Proof.
  eexists. split; [reflexivity|]. split; [reflexivity|].
  apply (proj1 (request_is_owned _ (run_reachable [Put; FirstEnds; RequestEnds Cancelled; Joined] gone_state _
    gone_reachable eq_refl)) Returned). reflexivity.
Defined.

Lemma disconnect_reaches_request_witness :
  ∃ s, run [Put; FirstEnds] gone_state = Some s ∧ reached s ∧ lt_request_cancelled s = true.
Proof.
  eexists. split; [reflexivity|]. split; [|reflexivity].
  apply (disconnect_reaches_request gone_state [Put; FirstEnds]); [apply gone_reachable| |reflexivity| |reflexivity|].
  - right. left.
  - repeat constructor.
  - intros e He. destruct e; try discriminate He; reflexivity.
Defined.
