(* ===== verification/Serving.v ===== *)
(** * Serving requests ([api/app.py]: the middlewares, the probe rounds, the health, metrics and alert endpoints)

    A request passes the lease-path rewriting, the authentication and the request log before
    a handler sees it.  In the background, and for [GET /health/ready], every host is
    probed and the alert rules are evaluated on a snapshot of the metrics.  What
    Starlette makes of a request (its path, its headers) is an argument. *)

From S2P Require Import Prelude.
From S2P Require Import PyFloat.
From S2P Require Import PyStr.
From S2P Require Import PyNum.
From S2P Require Import PyDict.
From S2P Require Import PyJson.
From S2P Require Import Leases.
From S2P Require Import Registry.
From S2P Require Import Health.
From S2P Require Import Scheduling.
From S2P Require Import LoadProbe.
From S2P Require Import Throughput.
From S2P Require Import Metrics.
From S2P Require Import MetricsText.
From S2P Require Import Alerts.
From S2P Require Import Nodes.
From S2P Require Import Gateway.
From S2P Require Import GatewayFrames.
From S2P Require Import GatewaySafety.
From S2P Require Import LeasePath.
From S2P Require Import Security.

#[local] Open Scope list_scope.

(** ** The state around the handlers *)

Record access_line := {
  acl_request_id : string;
  acl_method : string;
  acl_path : string;
  acl_status : Z;
  acl_latency_ms : float;
}.

Record audit_line := {
  aul_client_id : string;
  aul_method : string;
  aul_path : string;
  aul_outcome : string;
  aul_reason : string;
}.

Record Service := {
  sv_world : World;
  sv_alerts : AlertEvaluator;
  sv_access_log : list access_line;
  sv_audit_log : list audit_line;
}.

Definition with_world (w : World) (s : Service) : Service :=
  {| sv_world := w; sv_alerts := sv_alerts s; sv_access_log := sv_access_log s; sv_audit_log := sv_audit_log s |}.
Definition with_alerts (a : AlertEvaluator) (s : Service) : Service :=
  {| sv_world := sv_world s; sv_alerts := a; sv_access_log := sv_access_log s; sv_audit_log := sv_audit_log s |}.
Definition log_access (l : access_line) (s : Service) : Service :=
  {| sv_world := sv_world s; sv_alerts := sv_alerts s; sv_access_log := sv_access_log s ++ [l];
     sv_audit_log := sv_audit_log s |}.
Definition log_audit (l : audit_line) (s : Service) : Service :=
  {| sv_world := sv_world s; sv_alerts := sv_alerts s; sv_access_log := sv_access_log s;
     sv_audit_log := sv_audit_log s ++ [l] |}.

(** What a call through the stack can raise: an exception no handler is registered for, which
    the server answers with a plain 500. *)
Inductive serving_error :=
  | AppExn (e : app_error)
  | SnapshotExn (e : snapshot_error)
  | AlertExn (e : alert_error)
  | ProbeExn.

Record http_response := { rs_status : Z; rs_headers : dict string string; rs_code : string }.

Abbreviation call := (prog Service serving_error http_response).

(** [_error_response] *)
Definition error_answer (status : Z) (code : string) : http_response :=
  {| rs_status := status; rs_headers := []; rs_code := code |}.

(** The exception handlers of the app, around the route. *)
Definition exception_handlers (m : call) : call := λ sv,
  match m sv with
  | (Raise (AppExn e), sv') =>
      match error_response e with
      | Some (status, _, code) => (Ret (error_answer status code), sv')
      | None => (Raise (AppExn e), sv')
      end
  | r => r
  end.

(** ** The middlewares *)

Section stack.
(** [request.url.path], [request.headers.get(name)] and [request.method] *)
Context (url_path : Scope → string) (header : Scope → string → option string) (method : Scope → string).

(** [log_requests]; [generated] is the [uuid4] it would use. *)
Definition log_requests (generated : string) (latency_ms : float) (at_ : datetime) (s : Scope) (call_next : call) : call :=
  λ sv,
  let request_id := match header s "x-request-id" with None | Some "" => generated | Some id => id end in
  match call_next sv with
  | (Raise e, sv') => (Raise e, sv')
  | (Ret r, sv') =>
      (Ret {| rs_status := rs_status r; rs_headers := d_set (rs_headers r) "X-Request-ID" request_id; rs_code := rs_code r |},
       let sv' := log_access {| acl_request_id := request_id; acl_method := method s; acl_path := url_path s;
                                acl_status := rs_status r; acl_latency_ms := latency_ms |} sv' in
       with_world (set_metrics (record_request (url_path s) (rs_status r) latency_ms at_ (w_metrics (sv_world sv')))
                     (sv_world sv')) sv')
  end.

(** The line [enforce_auth] writes to the audit log, for a path it checks. *)
Definition audit_of (clients : list ClientConfig) (s : Scope) (at_ : datetime) (r : auth_result) : audit_line :=
  let line client outcome reason :=
    {| aul_client_id := client; aul_method := method s; aul_path := url_path s; aul_outcome := outcome; aul_reason := reason |} in
  match r with
  | Allowed client => line (default "unknown" client) "allowed" "ok"
  | Refused 403 reason =>
      line (match bearer_token (default "" (header s "authorization")) with
            | Some t => default "unknown" (id_client_id <$> authenticate clients t at_)
            | None => "unknown"
            end) "blocked" reason
  | Refused _ reason => line "unknown" "blocked" reason
  end.

(** The middleware around [Security.enforce_auth]: a refusal does not call on. *)
Definition auth_middleware (auth_enabled : bool) (clients : list ClientConfig) (at_ : datetime) (s : Scope)
    (call_next : call) : call := λ sv,
  let r := enforce_auth auth_enabled clients (url_path s) (header s "authorization") at_ in
  let sv := if auth_enabled && negb (bool_decide (url_path s ∈ AUTH_EXEMPT_PATHS))
            then log_audit (audit_of clients s at_ r) sv else sv in
  match r with
  | Allowed _ => call_next sv
  | Refused status code => (Ret (error_answer status code), sv)
  end.

(** An HTTP request through the whole stack, the last middleware added being the outermost. *)
Definition serve (auth_enabled : bool) (clients : list ClientConfig) (generated : string) (latency_ms : float)
    (at_ : datetime) (route : Scope → call) (s : Scope) : call :=
  match lease_path_middleware s with
  | NotFound => mret (error_answer 404 "")
  | Forward s =>
      auth_middleware auth_enabled clients at_ s
        (log_requests generated latency_ms at_ s (exception_handlers (route s)))
  end.
End stack.

(** ** A round of probes *)

Inductive probe_progress :=
  | CheckingHealth
  | ProbingLoad (healthy : bool) (detail : string)
  | Reported (healthy : bool) (detail : string)
  | ProbeRaised.

Record Round := { rd_hosts : list string; rd_progress : gmap string probe_progress }.

Record report := { rp_id : string; rp_healthy : bool; rp_detail : string }.

Section rounds.
Context (factories : Factories) (hc : HealthConfig).

(** Each probe runs up to its first [await]; without a factory it ends there. *)
Fixpoint begin_probes (hs : list HostInfo) (w : World) : gmap string probe_progress * World :=
  match hs with
  | [] => (∅, w)
  | h :: hs =>
      let '(r, w) := backend_for factories (host_id h) (capabilities h) w in
      let '(progress, w) := begin_probes hs w in
      (<[host_id h := match r with Ret _ => CheckingHealth | Raise _ => ProbeRaised end]> progress, w)
  end.

Definition start_round (w : World) : Round * World :=
  let hs := host_infos (w_registry w) in
  let '(progress, w) := begin_probes hs (prune_backend_cache w) in
  ({| rd_hosts := host_id <$> hs; rd_progress := progress |}, w).

(** What comes back to a probe. *)
Inductive round_event :=
  | HealthChecked (id : string) (healthy : bool) (detail : string)
  | HealthRaised (id : string)
  | LoadProbed (id : string) (load : ExternalLoadStatus).

Definition set_progress (id : string) (p : probe_progress) (r : Round) : Round :=
  {| rd_hosts := rd_hosts r; rd_progress := <[id := p]> (rd_progress r) |}.

(** [None]: the probe is not waiting for this. *)
Definition round_step (e : round_event) (s : Round * World) : option (Round * World) :=
  let '(r, w) := s in
  match e with
  | HealthChecked id healthy detail =>
      match rd_progress r !! id with
      | Some CheckingHealth => Some (set_progress id (ProbingLoad healthy detail) r, probe_health hc id healthy w)
      | _ => None
      end
  | HealthRaised id =>
      match rd_progress r !! id with Some CheckingHealth => Some (set_progress id ProbeRaised r, w) | _ => None end
  | LoadProbed id load =>
      match rd_progress r !! id with
      | Some (ProbingLoad healthy detail) => Some (set_progress id (Reported healthy detail) r, probe_load id load w)
      | _ => None
      end
  end.

Fixpoint run_round (es : list round_event) (s : Round * World) : option (Round * World) :=
  match es with [] => Some s | e :: es => round_step e s ≫= run_round es end.
End rounds.

(** [list(await asyncio.gather(...))], when every probe has ended; [None]: one raised. *)
Definition round_reports (r : Round) : option (list report) :=
  mapM (λ id, match rd_progress r !! id with
              | Some (Reported healthy detail) => Some {| rp_id := id; rp_healthy := healthy; rp_detail := detail |}
              | _ => None
              end) (rd_hosts r).

(** [metrics_registry.snapshot(at, registry, scheduling_queue)] *)
Definition take_snapshot (at_ : datetime) (depth : nat) : prog Service serving_error SliSnapshot := λ sv,
  let w := sv_world sv in
  let '(r, m) := snapshot at_ (host_infos (w_registry w)) depth (w_metrics w) in
  (match r with Ret s => Ret s | Raise e => Raise (SnapshotExn e) end, with_world (set_metrics m w) sv).

(** [alert_evaluator.evaluate(...)] inside the service *)
Definition in_alerts {A} (m : alert_prog A) : prog Service serving_error A := λ sv,
  let '(r, a) := m (sv_alerts sv) in
  (match r with Ret x => Ret x | Raise e => Raise (AlertExn e) end, with_alerts a sv).

Definition evaluate_alerts (at_ : datetime) (depth : nat) : prog Service serving_error (list AlertEvent) :=
  s ← take_snapshot at_ depth; in_alerts (evaluate s at_).

(** The end of [_probe_all_hosts]. *)
Definition finish_round (at_ : datetime) (depth : nat) (r : Round) : prog Service serving_error (list report) :=
  match round_reports r with
  | None => raise ProbeExn
  | Some reports => evaluate_alerts at_ depth ;; mret reports
  end.

(** What [except Exception] catches: not the [CancelledError]. *)
Definition is_exception (e : serving_error) : bool := match e with AppExn ECancelled => false | _ => true end.

(** A tick of [_health_poll_loop]; the result is the exception it logs, if any. *)
Definition poll_tick (at_ : datetime) (depth : nat) (r : Round) : prog Service serving_error (option serving_error) := λ sv,
  match finish_round at_ depth r sv with
  | (Ret _, sv') => (Ret None, sv')
  | (Raise e, sv') => if is_exception e then (Ret (Some e), sv') else (Raise e, sv')
  end.

(** ** The endpoints *)

Definition report_json (r : report) : json :=
  JObj [("id", JStr (rp_id r)); ("healthy", JBool (rp_healthy r)); ("detail", JStr (rp_detail r))].

(** [health_ready]: status and body *)
Definition health_ready (at_ : datetime) (depth : nat) (r : Round) : prog Service serving_error (Z * json) :=
  reports ← finish_round at_ depth r;
  let all_healthy := forallb rp_healthy reports in
  mret (if all_healthy then 200 else 503,
        JObj [("status", JStr (if all_healthy then "ok" else "unavailable"));
              ("backends", JList (report_json <$> reports))])%Z.

Definition health_live : json := JObj [("status", JStr "ok")].

(** [metrics] *)
Definition metrics_endpoint (at_ : datetime) (depth : nat) : prog Service serving_error string := λ sv,
  let w := sv_world sv in
  let '(r, m) := render_prometheus at_ (host_infos (w_registry w)) depth (w_metrics w) in
  (match r with Ret body => Ret body | Raise e => Raise (SnapshotExn e) end, with_world (set_metrics m w) sv).

Definition num_json (n : num) : json := match n with NInt z => JInt z | NFloat x => JFloat x end.

Definition alert_json (e : AlertEvent) : json :=
  JObj [("rule_name", JStr (ae_rule_name e));
        ("severity", JStr (match ae_severity e with CRITICAL => "critical" | WARNING => "warning" end));
        ("state", JStr (if ae_firing e then "firing" else "resolved"));
        ("value", num_json (ae_value e)); ("threshold_value", num_json (ae_threshold_value e));
        ("runbook_url", JStr (ae_runbook_url e)); ("at", JStr (isoformat (ae_at e)))].

(** [list_alerts] *)
Definition list_alerts (e : AlertEvaluator) : json := JObj [("alerts", JList (alert_json <$> current_state e))].

(** ** Lemmas *)

(** The answers [check_health] gave for a host. *)
Definition checks (id : string) (es : list round_event) : list (bool * string) :=
  omap (λ e, match e with
             | HealthChecked id' healthy detail => if decide (id' = id) then Some (healthy, detail) else None
             | _ => None
             end) es.

(** How far a probe gets, and the checks it takes. *)
Definition advanced (p p' : option probe_progress) (cs : list (bool * string)) : Prop :=
  match p with
  | Some CheckingHealth =>
      ((p' = Some CheckingHealth ∨ p' = Some ProbeRaised) ∧ cs = []) ∨
      ∃ h d, (p' = Some (ProbingLoad h d) ∨ p' = Some (Reported h d)) ∧ cs = [(h, d)]
  | Some (ProbingLoad h d) => (p' = p ∨ p' = Some (Reported h d)) ∧ cs = []
  | _ => p' = p ∧ cs = []
  end.

Section round_lemmas.
Context (hc : HealthConfig).

Lemma run_round_spec es r w r' w' :
  run_round hc es (r, w) = Some (r', w') →
  rd_hosts r' = rd_hosts r ∧ (∀ id, advanced (rd_progress r !! id) (rd_progress r' !! id) (checks id es)) ∧
  w_now w' = w_now w ∧
  w_health w' = foldl (λ m e, match e with
                              | HealthChecked id healthy _ => record_probe hc m id healthy (w_now w)
                              | _ => m
                              end) (w_health w) es.
Proof.
  revert r w. induction es as [|e es IH]; intros r w; cbn [run_round].
  { intros [= <- <-]. split_and!; [done| |done|done]. intros id. unfold advanced. simpl.
    destruct (rd_progress r !! id) as [[]|]; auto. }
  destruct (round_step hc e (r, w)) as [[r1 w1]|] eqn:E; [|done]. cbn [mbind option_bind]. intros Hrun.
  destruct (IH _ _ Hrun) as (Hh & Hp & Hn & Hm). clear IH Hrun.
  destruct e as [id healthy detail|id|id load]; simpl in E; destruct (rd_progress r !! id) as [[]|] eqn:Er; try done;
    injection E as <- <-; simpl in *; (split_and!; [done| |done|done]); intros id'; specialize (Hp id');
    destruct (decide (id = id')) as [<-|Hne]; rewrite ?lookup_insert_eq, ?lookup_insert_ne in Hp by done;
    rewrite ?Er; unfold checks in *; cbn [omap list_omap]; rewrite ?decide_True, ?decide_False by done;
    unfold advanced in *; try (right; exists healthy, detail; destruct Hp as [Hp ->]; done); naive_solver.
Qed.
End round_lemmas.

Lemma begin_probes_keep factories hs w :
  w_registry (begin_probes factories hs w).2 = w_registry w ∧ w_now (begin_probes factories hs w).2 = w_now w ∧
  w_health (begin_probes factories hs w).2 = w_health w ∧
  ∀ id p, (begin_probes factories hs w).1 !! id = Some p → p = CheckingHealth ∨ p = ProbeRaised.
Proof.
  revert w. induction hs as [|h hs IH]; intros w; cbn [begin_probes]; [done|].
  assert (Hb : w_registry (backend_for factories (host_id h) (capabilities h) w).2 = w_registry w ∧
    w_now (backend_for factories (host_id h) (capabilities h) w).2 = w_now w ∧
    w_health (backend_for factories (host_id h) (capabilities h) w).2 = w_health w)
    by (unfold backend_for; case_decide; [done|]; by destruct (build_error _ _)).
  destruct (backend_for _ _ _ w) as [o w1]. simpl in Hb. specialize (IH w1).
  destruct (begin_probes factories hs w1) as [progress w2]. simpl in *. destruct IH as (-> & -> & -> & Hp).
  split_and!; [tauto..|]. intros id p. rewrite lookup_insert. case_decide; [|apply Hp].
  intros [= <-]. destruct o; auto.
Qed.

(** A host without capacity, or a rule on a rate that has no data, fails the snapshot or the rules. *)
Lemma saturation_raises hs acc m :
  (∃ h, h ∈ hs ∧ max_concurrent_requests (capacity h) = 0%Z) → ∃ e, (saturation hs acc m).1 = Raise e.
Proof.
  revert acc m. induction hs as [|h hs IH]; intros acc m (x & Hx & Hz); [by apply not_elem_of_nil in Hx|].
  cbn [saturation]. unfold mbind, prog_bind, arith.
  destruct (int_truediv (in_flight h) (max_concurrent_requests (capacity h))) as [q|e] eqn:E; [|by eexists].
  apply elem_of_cons in Hx as [->|Hx]; [rewrite Hz in E; done|]. apply IH. by exists x.
Qed.

Lemma snapshot_raises at_ hs depth m :
  (∃ h, h ∈ hs ∧ max_concurrent_requests (capacity h) = 0%Z) → ∃ e, (snapshot at_ hs depth m).1 = Raise e.
Proof.
  intros H. unfold snapshot, mbind, prog_bind, modify, get.
  destruct (request_slis _ _) as [[slis|e] m1]; [|by eexists].
  destruct (failover_rate _ _) as [[fr|e] m2]; [|by eexists].
  destruct (saturation_raises hs [] m2 H) as [e He]. destruct (saturation hs [] m2) as [[|] m3]; [done|by eexists].
Qed.

Lemma snapshot_no_failovers at_ hs depth m s m' :
  snapshot at_ hs depth m = (Ret s, m') → mr_failover_outcomes m = [] → failover_success_rate s = None.
Proof.
  intros E Hm. revert E. unfold snapshot, mbind, prog_bind, modify, get.
  assert (Hpure : ∀ samples m1, (request_slis samples m1).2 = m1).
  { intros samples m1. unfold request_slis. destruct samples as [|x l]; [done|]. unfold mbind, prog_bind, ratio, arith.
    destruct (int_truediv _ _); [|done]. by destruct (percentile_of _ _). }
  specialize (Hpure (all_samples (evict_requests at_ m)) (evict_requests at_ m)).
  destruct (request_slis _ _) as [[slis|e] m1]; [|done]. simpl in Hpure. subst m1. simpl. rewrite Hm. simpl.
  unfold mret, prog_ret. destruct (saturation hs [] _) as [[hsat|] m3]; [|done].
  destruct (d_comprehend _ _ _) as [[stats|] m4]; [|done]. by intros [= <- _].
Qed.

Lemma mapM_reports ids (progress : gmap string probe_progress) reports :
  mapM (λ id, match progress !! id with
              | Some (Reported healthy detail) => Some {| rp_id := id; rp_healthy := healthy; rp_detail := detail |}
              | _ => None
              end) ids = Some reports →
  rp_id <$> reports = ids ∧
  Forall (λ r, progress !! rp_id r = Some (Reported (rp_healthy r) (rp_detail r))) reports.
Proof.
  revert reports. induction ids as [|id ids IH]; intros reports; simpl; [by intros [= <-]|].
  destruct (progress !! id) as [[]|] eqn:E; try done. simpl.
  destruct (mapM _ ids) as [rest|] eqn:Er; [|done]. intros [= <-]. destruct (IH _ eq_refl) as [H1 H2].
  split; [by rewrite <-H1|by constructor].
Qed.

(** ** Properties *)

(** What a call ends with once the exception handlers have seen it; [None] is an exception no
    handler is registered for. *)
Definition handled_answer (o : outcome serving_error http_response) : option http_response :=
  match o with
  | Ret resp => Some resp
  | Raise (AppExn e) => (λ '(status, _, code), error_answer status code) <$> error_response e
  | Raise _ => None
  end.

Lemma exception_handlers_spec m sv :
  let '(o, after) := m sv in
  exception_handlers m sv = (match handled_answer o with Some resp => Ret resp | None => o end, after).
Proof.
  unfold exception_handlers. destruct (m sv) as [[resp|[e|e|e|]] after]; try done.
  simpl. by destruct (error_response e) as [[[st ty] c]|].
Qed.

(** The path a forwarded request has: a leased one is that of one of two routes. *)
Definition shown_as (path shown : string) : Prop :=
  if str_startswith path "/lease/" then shown ∈ ["/v1/chat/completions"; "/v1/capacity"] else shown = path.

Lemma forwarded_path s s1 path :
  sc_type s = "http" → sc_path s = Some path → lease_path_middleware s = Forward s1 →
  ∃ p, sc_path s1 = Some p ∧ shown_as path p.
Proof.
  intros Ht Hp. unfold lease_path_middleware. rewrite bool_decide_true by done. cbn [negb]. unfold shown_as.
  assert (Hsame : match sc_path s with
                  | Some path => if str_startswith path "/lease/" then NotFound else Forward s
                  | None => Forward s end = Forward s1 →
    ∃ p, sc_path s1 = Some p ∧
      (if str_startswith path "/lease/" then p ∈ ["/v1/chat/completions"; "/v1/capacity"] else p = path)).
  { rewrite Hp. destruct (str_startswith path "/lease/") eqn:E; [done|]. intros [= <-]. by exists path. }
  unfold rewrite_lease_path. rewrite Hp. destruct (match_lease_prefix path) as [[t rest]|] eqn:Em; [|by rewrite Hp in Hsame |- *].
  destruct (sc_method s) as [m|]; [|by rewrite Hp in Hsame |- *].
  case_bool_decide as Hr; cbn [negb]; [|by rewrite Hp in Hsame |- *]. cbn [sc_path].
  assert (str_startswith path "/lease/" = true) as ->.
  { revert Em. unfold match_lease_prefix. by destruct (str_startswith path "/lease/"). }
  assert (Hc : canonical_rest rest ∈ ["/v1/chat/completions"; "/v1/capacity"]).
  { unfold lease_routes in Hr. rewrite !elem_of_cons, elem_of_nil in Hr.
    destruct Hr as [[= _ ->]|[[= _ ->]|[[= _ ->]|[]]]]; vm_decide. }
  destruct (str_startswith (canonical_rest rest) "/lease/"); intros E; [discriminate E|]. injection E as <-. by eexists.
Qed.


(** Readiness is exact.  However the probes of a round interleave: each registered host is
    reported once, in the order of the registration, with the one answer its health check
    gave, which is also what the health monitor records; and the endpoint says 200 exactly
    when every one of them was healthy, 503 otherwise. *)
Theorem readiness_exact factories hc w r w1 es r' w' at_ depth sv status body sv' :
  start_round factories w = (r, w1) →
  run_round hc es (r, w1) = Some (r', w') →
  health_ready at_ depth r' (with_world w' sv) = (Ret (status, body), sv') →
  ∃ reports, body = JObj [("status", JStr (if bool_decide (status = 200%Z) then "ok" else "unavailable"));
                          ("backends", JList (report_json <$> reports))] ∧
    rp_id <$> reports = host_id <$> host_infos (w_registry w) ∧
    Forall (λ r, checks (rp_id r) es = [(rp_healthy r, rp_detail r)]) reports ∧
    status = (if forallb rp_healthy reports then 200 else 503)%Z ∧
    w_health w' = foldl (λ m e, match e with
                                | HealthChecked id healthy _ => record_probe hc m id healthy (w_now w)
                                | _ => m
                                end) (w_health w) es.
Proof.
  unfold start_round. pose proof (begin_probes_keep factories (host_infos (w_registry w)) (prune_backend_cache w)) as Hb.
  destruct (begin_probes _ _ _) as [progress w0]. simpl in Hb. destruct Hb as (_ & Hnow & Hhealth & Hstart).
  intros [= <- <-] Hrun. apply run_round_spec in Hrun as (Hhosts & Hadv & _ & Hmon). simpl in Hhosts, Hadv.
  unfold health_ready, finish_round. destruct (round_reports r') as [reports|] eqn:Er; [|done].
  apply mapM_reports in Er as [Hids Hall]. rewrite Hhosts in Hids.
  unfold mbind, prog_bind. destruct (evaluate_alerts at_ depth (with_world w' sv)) as [[evs|e] sv1]; [|done].
  unfold mret, prog_ret. intros [= <- <- <-]. exists reports. split_and!.
  - by destruct (forallb rp_healthy reports).
  - done.
  - eapply Forall_impl; [exact Hall|]. intros x Hx. specialize (Hadv (rp_id x)). rewrite Hx in Hadv.
    destruct (progress !! rp_id x) as [p|] eqn:Ep; [|by destruct Hadv].
    destruct (Hstart _ _ Ep) as [-> | ->]; unfold advanced in Hadv; [|by destruct Hadv].
    destruct Hadv as [[[?|?] _]|(h & d & [?|E] & ->)]; try done. by injection E as -> ->.
  - done.
  - by rewrite Hmon, Hnow, Hhealth.
Qed.

(** One bad configuration blinds the operator.  While a host with
    [max_concurrent_requests = 0] is registered, [GET /metrics] and [GET /health/ready] raise
    whatever the hosts do, and so does readiness while an alert rule looks at the failover
    rate and no request has failed over: no readiness is reported and no alert of the rules
    after it is evaluated. *)
Theorem snapshot_failure_blinds at_ depth r sv :
  ((∃ h, h ∈ host_infos (w_registry (sv_world sv)) ∧ max_concurrent_requests (capacity h) = 0%Z) →
   (∃ e, (health_ready at_ depth r sv).1 = Raise e) ∧ ∃ e, (metrics_endpoint at_ depth sv).1 = Raise e) ∧
  (∀ rule before after, alerts_reachable (before ++ rule :: after) (sv_alerts sv) →
   ar_metric rule = "failover_success_rate" → mr_failover_outcomes (w_metrics (sv_world sv)) = [] →
   ∃ e, (health_ready at_ depth r sv).1 = Raise e).
Proof.
  assert (Hready : (∃ e, (evaluate_alerts at_ depth sv).1 = Raise e) → ∃ e, (health_ready at_ depth r sv).1 = Raise e).
  { intros [e He]. unfold health_ready, finish_round. destruct (round_reports r); [|by eexists].
    unfold mbind, prog_bind. destruct (evaluate_alerts at_ depth sv) as [[|] ?]; [done|by eexists]. }
  split.
  - intros H. apply (snapshot_raises at_ _ depth (w_metrics (sv_world sv))) in H as [e He]. split.
    + apply Hready. unfold evaluate_alerts, mbind, prog_bind, take_snapshot.
      destruct (snapshot at_ _ depth _) as [[|] m]; [done|by eexists].
    + unfold metrics_endpoint, render_prometheus, mbind, prog_bind.
      destruct (snapshot at_ _ depth _) as [[|] m]; [done|by eexists].
  - intros rule before after Halerts Hrule Hnone. apply Hready.
    unfold evaluate_alerts, mbind, prog_bind, take_snapshot, in_alerts.
    destruct (snapshot at_ _ depth _) as [[sn|] m] eqn:Es; [|by eexists].
    pose proof (snapshot_no_failovers _ _ _ _ _ _ Es Hnone) as Hf. simpl.
    destruct (no_data_raises sn at_ rule after before (sv_alerts sv) Halerts Hrule Hf) as [e He].
    destruct (evaluate sn at_ (sv_alerts sv)) as [[|] a]; [done|by eexists].
Qed.

(** ** Concrete runs *)

Definition sample_service (maxes : list (string * Z)) (rules : list AlertRule) : Service :=
  {| sv_world := sample_world maxes; sv_alerts := AlertEvaluator_new rules; sv_access_log := []; sv_audit_log := [] |}.

Definition sample_url_path (s : Scope) : string := default "" (sc_path s).

(** A request for the capacity through a lease. *)
Definition leased_request : Scope :=
  {| sc_type := "http"; sc_method := Some "GET"; sc_path := Some "/lease/abc/capacity"; sc_raw_path := None;
     sc_headers := Some [] |}.

Definition sample_route (_ : Scope) : call := mret {| rs_status := 200; rs_headers := []; rs_code := "" |}.


(** Two hosts, probed at the same time; the second answers first. *)
Definition sample_round : Round * World := (start_round {["lmstudio"]} (sample_world [("h1", 1); ("h2", 1)]%Z)).

Definition round_answers : list round_event :=
  [HealthChecked "h2" false "refused"; HealthChecked "h1" true "ok";
   LoadProbed "h2" (unavailable 0); LoadProbed "h1" (unavailable 0)].

Lemma readiness_exact_witness :
  ∃ r w sv', run_round default_health_config round_answers sample_round = Some (r, w) ∧
    health_ready 0 0 r (with_world w (sample_service [] [])) =
      (Ret (503%Z, JObj [("status", JStr "unavailable");
                         ("backends", JList [JObj [("id", JStr "h1"); ("healthy", JBool true); ("detail", JStr "ok")];
                                             JObj [("id", JStr "h2"); ("healthy", JBool false);
                                                   ("detail", JStr "refused")]])]), sv') ∧
    ∃ reports, rp_id <$> reports = ["h1"; "h2"].
Proof.
  destruct sample_round as [r0 w0] eqn:E0.
  destruct (run_round default_health_config round_answers (r0, w0)) as [[r w]|] eqn:E;
    [|exfalso; rewrite <-E0 in E; by vm_compute in E].
  destruct (health_ready 0 0 r (with_world w (sample_service [] []))) as [[[status body]|e] sv'] eqn:Er.
  - destruct (readiness_exact {["lmstudio"]} default_health_config _ _ _ _ _ _ 0 0 _ _ _ _ E0 E Er) as (reports & _ & Hids & _).
    exists r, w, sv'. split; [done|]. split; [|by exists reports].
    rewrite <-E0 in E. vm_compute in E. injection E as <- <-. vm_compute in Er. by injection Er as <- <- <-.
  - exfalso. rewrite <-E0 in E. vm_compute in E. injection E as <- <-. by vm_compute in Er.
Defined.

Lemma snapshot_failure_blinds_witness :
  (∃ e, (metrics_endpoint 0 0 (sample_service [("h1", 0)]%Z [])).1 = Raise e) ∧
  ∃ e, (health_ready 0 0 {| rd_hosts := []; rd_progress := ∅ |}
          (sample_service [] [sample_rule "failover_success_rate"])).1 = Raise e.
Proof.
  split.
  - apply snapshot_failure_blinds; [exact {| rd_hosts := []; rd_progress := ∅ |}|].
    eexists. split; [left|reflexivity].
  - eapply (snapshot_failure_blinds 0 0 _ (sample_service [] [sample_rule "failover_success_rate"]))
      with (before := []) (after := []); [apply alerts_reachable_new|reflexivity|reflexivity].
Defined.
