(* ===== verification/Outage.v ===== *)
(** * One host that stops the gateway ([api/app.py], [_backend_for])

    [POST /v1/nodes/register] takes any string as [backend_type], and [_backend_for] looks it
    up in the table of factories without a default; a factory may raise as well.  This file says
    what one host whose backend cannot be built does to the others: when it has no list of
    allowed models, every chat request fails, whatever the other hosts answer; and no round of
    probes ever ends well. *)

From S2P Require Import Prelude.
From S2P Require Import PyFloat.
From S2P Require Import PyStr.
From S2P Require Import PyDict.
From S2P Require Import ApiModels.
From S2P Require Import Leases.
From S2P Require Import Registry.
From S2P Require Import Health.
From S2P Require Import Scheduling.
From S2P Require Import Routing.
From S2P Require Import LoadProbe.
From S2P Require Import Throughput.
From S2P Require Import Metrics.
From S2P Require Import Alerts.
From S2P Require Import Nodes.
From S2P Require Import Gateway.
From S2P Require Import GatewayFrames.
From S2P Require Import GatewaySafety.
From S2P Require Import Serving.

#[local] Open Scope list_scope.

(** ** What no operation does *)

Section keeps.
Context (factories : Factories).

Record sound (w : World) : Prop := {
  sd_registry : reg_wf (w_registry w);
  sd_cache : cache_ok factories w;
}.

(** A [HostInfo] object keeps its id and its capabilities, even when it is replaced. *)
Definition objects_kept (r r' : HostRegistry) : Prop := ∀ l h, hr_objs r !! l = Some h →
  ∃ h', hr_objs r' !! l = Some h' ∧ host_id h' = host_id h ∧ capabilities h' = capabilities h.

Definition keeps (w w' : World) : Prop := sound w → sound w' ∧ objects_kept (w_registry w) (w_registry w').

#[export] Instance objects_kept_preorder : PreOrder objects_kept.
Proof.
  split; [by intros r l h; exists h|]. intros r1 r2 r3 H1 H2 l h Hl. destruct (H1 l h Hl) as (h2 & Hl2 & <- & <-).
  by apply H2.
Qed.

#[export] Instance keeps_preorder : PreOrder keeps.
Proof.
  split; [done|]. intros w1 w2 w3 H1 H2 Hs. destruct (H1 Hs) as [Hs2 Ho]. destruct (H2 Hs2) as [Hs3 Ho'].
  split; [done|by etrans].
Qed.

(** A change of neither, of the cache only, of the registry only. *)
Lemma keeps_same w w' : w_registry w' = w_registry w → w_backends w' = w_backends w → keeps w w'.
Proof. intros Er Eb [Hr Hc]. rewrite Er. split; [split|done]; [by rewrite Er|by unfold cache_ok; rewrite Eb]. Qed.

Lemma keeps_cache w w' : w_registry w' = w_registry w → (cache_ok factories w → cache_ok factories w') → keeps w w'.
Proof. intros Er Hc [Hr Hw]. rewrite Er. split; [split|done]; [by rewrite Er|by apply Hc]. Qed.

Lemma objects_alter f l r :
  (∀ h, host_id (f h) = host_id h ∧ capabilities (f h) = capabilities h) →
  objects_kept r (with_objs r (alter f l (hr_objs r))).
Proof.
  intros Hf l' h Hl. simpl. rewrite lookup_alter. case_decide as E; [subst l'|by exists h].
  rewrite Hl. by exists (f h).
Qed.

Lemma objects_reg_op o r : reg_wf r → objects_kept r (run_reg_op r o).
Proof.
  intros Hwf. destruct o as [id c n at_|id|id|id at_|id]; simpl.
  - intros l h Hl. simpl. rewrite lookup_insert_ne; [by exists h|]. intros <-. by rewrite (wf_fresh r Hwf) in Hl.
  - unfold acquire_slot, adjust_slots. destruct (d_get _ id); [by apply objects_alter|done].
  - unfold release_slot, adjust_slots. destruct (d_get _ id); [by apply objects_alter|done].
  - unfold heartbeat. destruct (d_get _ id) as [l|]; [|done].
    intros l' h Hl. simpl. rewrite lookup_alter. case_decide as E; [subst l'; rewrite Hl; by eexists|by exists h].
  - by intros l h; exists h.
Qed.

Lemma keeps_reg_op o w : keeps w (set_registry (run_reg_op (w_registry w) o) w).
Proof. intros [Hr Hc]. split; [split; [by apply run_reg_op_wf|done]|by apply objects_reg_op]. Qed.

Lemma keeps_prune w : keeps w (prune_backend_cache w).
Proof. apply keeps_cache; [done|]. intros Hc id c [E _]%map_lookup_filter_Some. by apply (Hc id). Qed.

(** ** Programs in the world *)

Definition wkeeps {A} (m : app_prog A) : Prop := ∀ w, keeps w (m w).2.

Lemma wkeeps_ret {A} (a : A) : wkeeps (mret a).
Proof. done. Qed.

Lemma wkeeps_bind {A B} (m : app_prog A) (k : A → app_prog B) : wkeeps m → (∀ a, wkeeps (k a)) → wkeeps (m ≫= k).
Proof.
  intros Hm Hk w. specialize (Hm w). unfold mbind, app_prog_bind, mbind, prog_bind.
  destruct (m w) as [[a|e] w']; simpl in *; [|done]. etrans; [done|apply Hk].
Qed.

Lemma wkeeps_book {A} (m : book_prog A) : wkeeps (in_book m).
Proof. intros w. unfold in_book. destruct (m (w_book w)). by apply keeps_same. Qed.

Lemma wkeeps_arith {A} (o : outcome arith_error A) : wkeeps (of_arith o).
Proof. intros w. by destruct o. Qed.

Lemma wkeeps_backend_for id c : wkeeps (backend_for factories id c).
Proof.
  intros w. unfold backend_for. case_decide; [done|]. destruct (build_error factories c) eqn:Eb; [done|].
  apply keeps_cache; [done|]. intros Hc. by apply map_Forall_insert_2.
Qed.

Lemma wkeeps_scan m capable blocked locs : wkeeps (scan_hosts factories m capable blocked locs).
Proof.
  revert capable. induction locs as [|l locs IH]; intros capable; [done|]. intros w. cbn [scan_hosts].
  destruct (deref w l) as [h|]; [|apply IH]. destruct (allowed_models (capabilities h)); [apply IH|].
  revert w. apply wkeeps_bind; [apply wkeeps_backend_for|done].
Qed.

Lemma wkeeps_eligible locs : wkeeps (eligible_candidates factories locs).
Proof.
  induction locs as [|l locs IH]; [done|]. intros w. cbn [eligible_candidates].
  destruct (deref w l) as [h|]; [|apply IH].
  destruct (negb _); [apply IH|]. destruct (_ <=? _)%Z; [apply IH|]. revert w.
  apply wkeeps_bind; [apply wkeeps_arith|intros r].
  apply wkeeps_bind; [apply wkeeps_backend_for|intros _]. by apply wkeeps_bind.
Qed.

Lemma wkeeps_pinned c : wkeeps (pinned_lease c).
Proof.
  intros w. unfold pinned_lease. destruct (token_of c) as [t|]; [|done]. revert w.
  enough (∀ now, wkeeps (l ← in_book (require t now); mret (Some l))) as H by (intros w; apply H).
  intros now. by apply wkeeps_bind; [apply wkeeps_book|].
Qed.

Lemma wkeeps_held id : wkeeps (held id).
Proof. intros w. unfold held. destruct (is_held id (w_lease_now w) (w_book w)). by apply keeps_same. Qed.

Lemma wkeeps_filter keep locs : (∀ h, wkeeps (keep h)) → wkeeps (filter_hosts keep locs).
Proof.
  intros Hk. induction locs as [|l locs IH]; [done|]. intros w. cbn [filter_hosts].
  destruct (deref w l) as [h|]; [|apply IH]. revert w. apply wkeeps_bind; [done|intros b].
  by apply wkeeps_bind.
Qed.

Lemma wkeeps_open h : wkeeps (open_host h).
Proof. by apply wkeeps_bind; [apply wkeeps_held|]. Qed.

Lemma wkeeps_candidates c locs : wkeeps (current_candidates factories c locs).
Proof.
  apply wkeeps_bind; [apply wkeeps_pinned|intros live].
  apply wkeeps_bind; [|intros; apply wkeeps_eligible].
  apply wkeeps_filter. intros h. destruct live; [done|apply wkeeps_open].
Qed.

Lemma wkeeps_usable c pinned capable blocked : wkeeps (usable_hosts c pinned capable blocked).
Proof.
  intros w. unfold usable_hosts. destruct pinned as [l|]; [by destruct (filter _ _)|].
  pose proof (wkeeps_filter open_host capable wkeeps_open w) as H.
  by destruct (filter_hosts open_host capable w) as [[[|]|] w'].
Qed.

Lemma keeps_callback c locs w : keeps w (queued_host_ids factories c locs w).2.
Proof.
  unfold queued_host_ids. pose proof (wkeeps_candidates c locs w) as H.
  destruct (current_candidates factories c locs w) as [[cs|e] w']; [done|].
  by destruct e as [| | | | | | |[]| | | | |].
Qed.

Lemma wkeeps_registry {A} (m : prog HostRegistry registry_error A) o :
  (∀ r, (m r).2 = run_reg_op r o) → wkeeps (in_registry m).
Proof.
  intros Hm w. specialize (Hm (w_registry w)). unfold in_registry. destruct (m (w_registry w)) as [r reg].
  simpl in *. subst reg. apply keeps_reg_op.
Qed.

Lemma wkeeps_node o : wkeeps (run_node_op o).
Proof.
  destruct o as [id c n|id u|id|id]; simpl.
  - intros w. apply (keeps_reg_op (OpRegister id c n (w_now w))).
  - apply wkeeps_bind.
    + intros w. unfold in_registry, get_host. by destruct (d_get _ id); apply keeps_same.
    + intros l w. destruct (deref w l) as [h|]; [|done]. apply (keeps_reg_op (OpRegister id _ _ (w_now w))).
  - intros w. apply (wkeeps_registry _ (OpHeartbeat id (w_now w))). done.
  - intros w. unfold deregister_node. simpl. etrans; [|apply keeps_prune]. apply (keeps_reg_op (OpDeregister id)).
Qed.

Lemma keeps_probe hc o w : keeps w (run_probe_op factories hc o w).
Proof.
  destruct o as [|id healthy|id load]; [|by apply keeps_same..]. simpl. unfold start_probes.
  generalize (host_infos (w_registry w)). intros hs. etrans; [apply keeps_prune|]. generalize (prune_backend_cache w).
  induction hs as [|h hs IH]; intros w'; [done|]. simpl. etrans; [apply wkeeps_backend_for|apply IH].
Qed.

(** ** Steps of the gateway *)

(** What a step keeps when the callbacks in the queue do. *)
Definition gkeeps (g g' : Gateway) : Prop := callbacks_along keeps (g_queue g) →
  keeps (g_world g) (g_world g') ∧ callbacks_along keeps (g_queue g').

#[export] Instance gkeeps_preorder : PreOrder gkeeps.
Proof.
  split; [done|]. intros g1 g2 g3 H1 H2 Hq. destruct (H1 Hq) as [Hw Hq2]. destruct (H2 Hq2) as [Hw' Hq3].
  split; [by etrans|done].
Qed.

Definition steps {A} (m : gw_prog A) : Prop := ∀ g, gkeeps g (m g).2.

Lemma steps_ret {A} (a : A) : steps (mret a).
Proof. done. Qed.

Lemma steps_bind {A B} (m : gw_prog A) (k : A → gw_prog B) : steps m → (∀ a, steps (k a)) → steps (m ≫= k).
Proof.
  intros Hm Hk g. specialize (Hm g). unfold mbind, gw_prog_bind, mbind, prog_bind.
  destruct (m g) as [[a|e] g']; simpl in *; [|done]. etrans; [done|apply Hk].
Qed.

Lemma steps_world {A} (m : app_prog A) : wkeeps m → steps (in_world m).
Proof. intros Hm g Hq. unfold in_world. specialize (Hm (g_world g)). by destruct (m (g_world g)). Qed.

Lemma steps_on_world f : (∀ w, keeps w (f w)) → steps (on_world f).
Proof. intros Hf g Hq. by split; [apply Hf|]. Qed.

Lemma steps_router {A} (m : route_prog A) : steps (in_router m).
Proof. intros g Hq. unfold in_router. by destruct (m (g_router g)). Qed.

Lemma steps_request rid s : steps (modify (set_request rid s)).
Proof. done. Qed.

Lemma gkeeps_leave rid c g : gkeeps g (leave_queue rid c g).
Proof.
  intros Hq. split; [done|]. unfold callbacks_along. simpl. rewrite cancel_eligibility. by apply map_Forall_delete.
Qed.

Lemma steps_dispatch now avail rid : steps (in_queue (λ s, dispatch infos (now s) (avail s) (rid s) s)).
Proof.
  intros g Hq. unfold in_queue.
  destruct (dispatch_along infos keeps (now (g_queue g, g_world g)) (avail (g_queue g, g_world g))
    (rid (g_queue g, g_world g)) (g_queue g) (g_world g) Hq) as [Hw Hcb].
  by destruct (dispatch infos _ _ _ _) as [r [q w']].
Qed.

Lemma steps_enqueue rid s p at_ c locs :
  steps (modify (λ g, set_queue (enqueue rid s p at_ (Some (queued_host_ids factories c locs)) (g_queue g)) g)).
Proof.
  intros g Hq. split; [done|]. unfold callbacks_along. simpl. apply map_Forall_insert_2; [|done].
  intros w. apply keeps_callback.
Qed.

Lemma keeps_failover f b w : keeps w (failover_outcome f b w).
Proof. apply keeps_same; by destruct f. Qed.

Lemma steps_finally {A} rid c (m : gw_prog A) : steps m → steps (finally_cancel rid c m).
Proof.
  intros Hm g. specialize (Hm g). unfold finally_cancel. destruct (m g) as [r g']. etrans; [done|apply gkeeps_leave].
Qed.

Lemma steps_timeout f : steps (dispatch_timeout f).
Proof. apply steps_bind; [apply steps_on_world, keeps_failover|done]. Qed.

Lemma steps_start rid c cs f : steps (start rid c cs f).
Proof.
  apply steps_bind; [apply steps_router|intros d]. apply steps_bind.
  { intros g. by destruct (w_backends (g_world g) !! rd_backend_id d). }
  intros _. apply steps_bind; [|intros _; apply steps_bind; [|done]].
  - by apply steps_world, (wkeeps_registry _ (OpAcquire (rd_backend_id d))).
  - destruct (stream _); [apply steps_on_world, keeps_failover|done].
Qed.

Lemma steps_admission wt rid c capable blocked : steps (admission factories wt rid c capable blocked).
Proof.
  apply steps_bind; [apply steps_world, wkeeps_pinned|intros pinned].
  apply steps_bind; [apply steps_world, wkeeps_usable|intros usable].
  apply steps_bind; [done|intros g0]. apply steps_bind; [apply steps_world, wkeeps_candidates|intros [|cand cs]].
  - apply steps_bind; [apply steps_enqueue|intros _]. destruct (f_lt _ _); [done|].
    apply steps_finally, steps_timeout.
  - apply steps_start.
Qed.

Lemma steps_go_on wt rid c capable blocked locs : steps (go_on factories wt rid c capable blocked locs).
Proof.
  apply steps_bind; [apply steps_world, wkeeps_scan|intros [capable' blocked' l rest|capable' blocked']]; [done|].
  apply steps_admission.
Qed.

Lemma steps_arrive wt rid c : steps (arrive factories wt rid c).
Proof.
  apply steps_bind; [apply steps_world, wkeeps_pinned|intros _]. apply steps_bind; [done|intros locs]. apply steps_go_on.
Qed.

Lemma steps_answered wt rid c capable blocked l rest a : steps (answered factories wt rid c capable blocked l rest a).
Proof.
  apply steps_bind; [apply steps_world; intros w; by destruct a|intros a']. apply steps_bind; [done|intros found]. apply steps_go_on.
Qed.

Lemma steps_wake wt pi rid c locs f x : steps (wake factories wt pi rid c locs f x).
Proof.
  intros g. unfold wake. set (poll := mbind _ _).
  assert (Hpoll : steps poll).
  { apply steps_bind; [apply steps_world, wkeeps_candidates|intros [|cand cs]]; [done|].
    apply steps_bind; [apply (steps_dispatch (λ s, w_now s.2) (λ _, Some _) (λ _, Some rid))|done]. }
  specialize (Hpoll g). destruct (poll g) as [[[cs|]|e] g']; simpl in Hpoll.
  - etrans; [exact Hpoll|]. etrans; [apply gkeeps_leave|apply steps_start].
  - etrans; [exact Hpoll|]. destruct (f_lt _ wt); [done|]. apply steps_finally, steps_timeout.
  - etrans; [exact Hpoll|apply gkeeps_leave].
Qed.

Lemma steps_observe f :
  (∀ w, w_registry (f w) = w_registry w) → (∀ w, w_backends (f w) = w_backends w) → steps (on_world f).
Proof. intros Hr Hb. apply steps_on_world. intros w. by apply keeps_same. Qed.

Lemma steps_release id : steps (in_world (in_registry (release_slot id))).
Proof. by apply steps_world, (wkeeps_registry _ (OpRelease id)). Qed.

(** Steps that release a slot and observe the outcome. *)
Ltac observing :=
  repeat first [ apply steps_bind; [|intros _] | apply steps_release | by apply steps_observe
               | apply steps_on_world, keeps_failover | done ].

Lemma steps_complete hc id f r : steps (complete hc id f r).
Proof. destruct r as [content fr p c lat|timeout msg|]; unfold complete; observing. destruct (negb _); observing. Qed.

Lemma steps_stream hc id r : steps (stream_complete hc id r).
Proof.
  destruct r as [usage saw last lat|e]; unfold stream_complete; [|observing].
  apply steps_bind; [|intros _; observing].
  - destruct usage as [[p c]|]; [|done]. apply steps_bind; [observing|intros _]. destruct (saw && _); observing.
  - destruct (saw && _); observing.
Qed.

Lemma gkeeps_step rid m g : steps m → gkeeps g (step_request rid m g).
Proof. intros Hm. specialize (Hm g). unfold step_request. by destruct (m g) as [[[]|e] g']. Qed.

Lemma gkeeps_finish rid m g : steps m → gkeeps g (finish_request rid m g).
Proof. intros Hm. specialize (Hm g). unfold finish_request. by destruct (m g) as [[[]|e] g']. Qed.

Lemma gkeeps_op cfg hc wt pi g o : gkeeps g (run_op factories cfg hc wt pi g o).
Proof.
  destruct o as [rid c|rid a|rid|rid|rid r|rid r|o|o|o|now lnow]; simpl.
  - destruct (g_requests g !! rid); [done|]. apply gkeeps_step, steps_arrive.
  - destruct (g_requests g !! rid) as [[c capable blocked l rest| | |]|]; try done. apply gkeeps_step, steps_answered.
  - destruct (g_requests g !! rid) as [[|c locs f x| |]|]; try done. apply gkeeps_step, steps_wake.
  - destruct (g_requests g !! rid) as [[|c locs f x| |]|]; try done. apply gkeeps_leave.
  - destruct (g_requests g !! rid) as [[| |c id f|]|]; try done. destruct (stream _); [done|].
    apply gkeeps_finish, steps_complete.
  - destruct (g_requests g !! rid) as [[| |c id f|]|]; try done. destruct (stream _); [|done].
    apply gkeeps_finish, steps_stream.
  - apply steps_world, wkeeps_node.
  - intros Hq. by split; [apply keeps_same|].
  - intros Hq. by split; [apply keeps_probe|].
  - intros Hq. by split; [apply keeps_same|].
Qed.
End keeps.

(** ** A request that meets the host *)

(** The operations on a request. *)
Definition op_request (o : gw_op) : option string :=
  match o with
  | GArrive rid _ | GAnswer rid _ | GWake rid | GDisconnect rid | GComplete rid _ | GStream rid _ => Some rid
  | GNode _ | GLease _ | GProbe _ | GClock _ _ => None
  end.

(** The answers of hosts that a request gets among some operations. *)
Definition is_answer (rid : string) (o : gw_op) : bool :=
  match o with GAnswer r _ => bool_decide (r = rid) | _ => false end.
Definition answers (rid : string) (ops : list gw_op) : nat := length (filter (λ o, is_answer rid o = true) ops).

(** A host that has to be asked for its models, whose backend cannot be built. *)
Definition unsupported (factories : Factories) (r : HostRegistry) (l : nat) : Prop :=
  ∃ h, hr_objs r !! l = Some h ∧ allowed_models (capabilities h) = None ∧ ¬ builds factories (capabilities h).

Section unsupported.
Context (factories : Factories) (cfg : LeaseSettings) (hc : HealthConfig) (wait_timeout poll_interval : float).

Abbreviation run_op := (run_op factories cfg hc wait_timeout poll_interval).
Abbreviation run_gw := (run_gw factories cfg hc wait_timeout poll_interval).

Lemma other_requests g o rid :
  calm g → op_request o ≠ Some rid → g_requests (run_op g o) !! rid = g_requests g !! rid.
Proof.
  intros Hcalm Hne.
  assert (Hfin : ∀ rid' m, rid' ≠ rid → g_requests (m g).2 = g_requests g →
    g_requests (finish_request rid' m g) !! rid = g_requests g !! rid).
  { intros rid' m Hr Hm. destruct (requests_finish rid' m g Hm) as [e ->]. by rewrite lookup_insert_ne. }
  destruct o as [rid' c'|rid' a|rid'|rid'|rid' r|rid' r|o|o|po|now lnow]; simpl; try done;
    try (assert (rid' ≠ rid) by (intros ->; by apply Hne)).
  - destruct (g_requests g !! rid'); [done|]. eapply step_request_other; [done|apply arrive_effect].
  - destruct (g_requests g !! rid') as [[c0 capable blocked l rest| | |]|]; try done.
    eapply step_request_other; [done|apply answered_effect].
  - destruct (g_requests g !! rid') as [[|c0 locs f0 x| |]|]; try done.
    eapply step_request_other; [done|by apply wake_effect].
  - destruct (g_requests g !! rid') as [[| | |]|]; try done; simpl; by rewrite lookup_insert_ne.
  - destruct (g_requests g !! rid') as [[| |c0 b f0|]|]; try done. destruct (stream (ch_request c0)); [done|].
    apply Hfin; [done|apply requests_complete].
  - destruct (g_requests g !! rid') as [[| |c0 b f0|]|]; try done. destruct (stream (ch_request c0)); [|done].
    apply Hfin; [done|apply requests_stream].
  - by rewrite requests_node.
Qed.

(** How a request may end without a slot. *)
Definition cut_short (e : app_error) : Prop :=
  (∃ t, e = EKeyError t ∧ t ∉ fa_types factories) ∨ e = ECancelled ∨ (∃ le, e = ELease le) ∨
  ∃ kind, e = EUnexpected kind.

(** A loop over [pre] and then [l :: post] that asks a host of [pre], with fewer than [n] others
    of [pre] still to be looked at before [l]. *)
Definition asks_before (pre : list nat) (l : nat) (post : list nat) (n : nat) (asked : nat) (rest : list nat) : Prop :=
  ∃ left, rest = left ++ l :: post ∧ (asked :: left) `suffix_of` pre ∧ (length left < n)%nat.

Lemma asks_before_cons l' pre l post asked rest :
  asks_before pre l post (length pre) asked rest →
  asks_before (l' :: pre) l post (length (l' :: pre)) asked rest.
Proof. intros (left & -> & Hs & Hn). exists left. split_and!; [done|by apply suffix_cons_r|simpl; lia]. Qed.

(** Where such a loop stands, which cannot get past [l]. *)
Definition stuck_at (pre : list nat) (l : nat) (post : list nat) (r : outcome app_error scan) : Prop :=
  match r with
  | Raise e => cut_short e
  | Ret (ScanAwaits _ _ asked rest) => asks_before pre l post (length pre) asked rest
  | Ret (ScanDone _ _) => False
  end.

Lemma build_error_cut c e : build_error factories c = Some e → cut_short e.
Proof.
  unfold build_error. case_decide as Ht.
  - destruct (fa_error factories c) as [k|]; [|done]. intros [= <-]. right. right. right. by exists k.
  - intros [= <-]. left. by exists (backend_type c).
Qed.

Lemma scan_stuck m capable blocked pre l post w :
  cache_ok factories w → unsupported factories (w_registry w) l →
  stuck_at pre l post (scan_hosts factories m capable blocked (pre ++ l :: post) w).1.
Proof.
  intros Hc (h & Hl & Ha & Ht). revert capable.
  induction pre as [|l' pre IH]; intros capable; cbn [scan_hosts app]; unfold deref at 1.
  - rewrite Hl, Ha. destruct (backend_for_spec factories (host_id h) (capabilities h) w Hc) as (w1 & Eb & _).
    unfold mbind, app_prog_bind, mbind, prog_bind. rewrite Eb. unfold builds in Ht.
    destruct (build_error factories (capabilities h)) as [e|] eqn:Ee; [|done]. by eapply build_error_cut.
  - assert (Hrest : ∀ capable, stuck_at (l' :: pre) l post (scan_hosts factories m capable blocked (pre ++ l :: post) w).1).
    { intros cap. specialize (IH cap). destruct (scan_hosts _ _ _ _ _ _) as [[[]|] ?]; [|done..]. by apply asks_before_cons. }
    destruct (hr_objs (w_registry w) !! l') as [h'|] eqn:E'; [|apply Hrest].
    destruct (allowed_models (capabilities h')) as [models|]; [apply Hrest|].
    destruct (backend_for_spec factories (host_id h') (capabilities h') w Hc) as (w1 & Eb & _).
    unfold mbind, app_prog_bind, mbind, prog_bind. rewrite Eb.
    destruct (build_error factories (capabilities h')) as [e|] eqn:Ee; [by eapply build_error_cut|].
    exists pre. split_and!; [done..|simpl; lia].
Qed.

(** A request that still asks hosts of [pre], or is over without a slot; [n] bounds the
    answers it can still take. *)
Definition refused (pre : list nat) (l : nat) (post : list nat) (n : nat) (s : option chat_state) : Prop :=
  match s with
  | Some (Probing _ _ _ asked rest) => asks_before pre l post n asked rest
  | Some (Finished (Some e)) => cut_short e
  | _ => False
  end.

Lemma asks_before_mono pre' pre l post n n' asked rest :
  pre' `suffix_of` pre → (n' ≤ n)%nat → asks_before pre' l post n' asked rest → asks_before pre l post n asked rest.
Proof. intros Hs Hn (left & -> & Hs' & Hl). exists left. split_and!; [done|by etrans|lia]. Qed.

Lemma refused_mono pre' pre l post n n' s :
  pre' `suffix_of` pre → (n' ≤ n)%nat → refused pre' l post n' s → refused pre l post n s.
Proof. destruct s as [[c capable blocked l' rest| | |[e|]]|]; simpl; try done. apply asks_before_mono. Qed.

Lemma go_on_refused rid c capable blocked pre l post g :
  cache_ok factories (g_world g) → unsupported factories (w_registry (g_world g)) l →
  refused pre l post (length pre)
    (g_requests (step_request rid (go_on factories wait_timeout rid c capable blocked (pre ++ l :: post)) g) !! rid).
Proof.
  intros Hc Hu. pose proof (scan_stuck (model (ch_request c)) capable blocked pre l post _ Hc Hu) as H.
  unfold step_request, go_on, mbind, gw_prog_bind, mbind, prog_bind, in_world.
  destruct (scan_hosts _ _ _ _ _ _) as [[[capable' blocked' l' rest|]|e] w']; simpl in *; [|done|].
  - by rewrite lookup_insert_eq.
  - by rewrite lookup_insert_eq.
Qed.

Lemma answered_refused rid c capable blocked l' pre a l post g :
  cache_ok factories (g_world g) → unsupported factories (w_registry (g_world g)) l →
  refused pre l post (length pre)
    (g_requests (step_request rid (answered factories wait_timeout rid c capable blocked l' (pre ++ l :: post) a) g) !! rid).
Proof.
  intros Hc Hu. destruct (await_cases a g) as [E|[k E]].
  - assert (Ea : answered factories wait_timeout rid c capable blocked l' (pre ++ l :: post) a g =
      go_on factories wait_timeout rid c (take_answer (g_world g) (model (ch_request c)) l' a capable blocked).1
        (take_answer (g_world g) (model (ch_request c)) l' a capable blocked).2 (pre ++ l :: post) g).
    { unfold answered, mbind, gw_prog_bind, mbind, prog_bind. by rewrite E. }
    unfold step_request. rewrite Ea. by apply go_on_refused.
  - assert (Ea : answered factories wait_timeout rid c capable blocked l' (pre ++ l :: post) a g = (Raise (EUnexpected k), g)).
    { unfold answered, mbind, gw_prog_bind, mbind, prog_bind. by rewrite E. }
    unfold step_request. rewrite Ea. simpl. rewrite lookup_insert_eq. right. right. right. by exists k.
Qed.

(** What is kept while a request cannot get past [l]. *)
Record blocked_by (pre : list nat) (l : nat) (post : list nat) (n : nat) (rid : string) (g : Gateway) : Prop := {
  bb_calm : calm g;
  bb_callbacks : callbacks_along (keeps factories) (g_queue g);
  bb_sound : sound factories (g_world g);
  bb_host : unsupported factories (w_registry (g_world g)) l;
  bb_refused : refused pre l post n (g_requests g !! rid);
}.

Lemma unsupported_kept r r' l : objects_kept r r' → unsupported factories r l → unsupported factories r' l.
Proof.
  intros Ho (h & Hl & Ha & Ht). destruct (Ho l h Hl) as (h' & Hl' & _ & Ec). exists h'. by rewrite Ec.
Qed.

Lemma refused_op g o rid pre l post n :
  blocked_by pre l post n rid g →
  refused pre l post (n - (if is_answer rid o then 1 else 0))%nat (g_requests (run_op g o) !! rid).
Proof.
  intros [Hcalm _ [_ Hc] Hu Hr].
  destruct (decide (op_request o = Some rid)) as [E|E].
  - destruct o as [rid' c'|rid' a|rid'|rid'|rid' r|rid' r|o|o|po|now lnow]; try done; injection E as ->;
      cbn [Gateway.run_op is_answer]; rewrite ?bool_decide_true, ?Nat.sub_0_r by done;
      destruct (g_requests g !! rid) as [[c0 capable blocked l' rest| | |[e|]]|] eqn:Es; try done;
      rewrite ?Es; try done.
    + destruct Hr as (left & -> & Hs & Hn). apply (refused_mono left _ l post _ (length left)); [|lia|by apply answered_refused].
      by apply suffix_cons_l in Hs.
    + simpl. rewrite lookup_insert_eq. right. by left.
  - rewrite other_requests by done.
    assert (is_answer rid o = false) as -> by (destruct o; try done; apply bool_decide_false; naive_solver).
    by rewrite Nat.sub_0_r.
Qed.

Lemma blocked_op g o rid pre l post n :
  blocked_by pre l post n rid g → blocked_by pre l post (n - (if is_answer rid o then 1 else 0)) rid (run_op g o).
Proof.
  intros Hb. pose proof (refused_op g o rid pre l post n Hb) as Hr. destruct Hb as [Hcalm Hq Hs Hu _].
  destruct (gkeeps_op factories cfg hc wait_timeout poll_interval g o Hq) as [Hw Hq'].
  destruct (Hw Hs) as [Hs' Ho]. split; [by apply calm_op|done|done|by eapply unsupported_kept|done].
Qed.

Lemma blocked_run ops g rid pre l post n :
  blocked_by pre l post n rid g → blocked_by pre l post (n - answers rid ops) rid (run_gw g ops).
Proof.
  revert g n. induction ops as [|o ops IH]; intros g n Hb; [by rewrite Nat.sub_0_r|].
  pose proof (IH _ _ (blocked_op g o rid pre l post n Hb)) as H. revert H. unfold answers. rewrite filter_cons.
  destruct (is_answer rid o); simpl.
  - by rewrite <-Nat.sub_add_distr.
  - by rewrite Nat.sub_0_r.
Qed.

Lemma pinned_raises c w e : (pinned_lease c w).1 = Raise e → ∃ le, e = ELease le.
Proof.
  unfold pinned_lease. destruct (token_of c) as [t|]; [|done]. unfold mbind, app_prog_bind, mbind, prog_bind, in_book.
  destruct (require t _ _) as [[l|le] b]; [done|]. intros [= <-]. by eexists.
Qed.

Lemma arrive_refused rid c g pre l post :
  sound factories (g_world g) → unsupported factories (w_registry (g_world g)) l →
  hosts (w_registry (g_world g)) = pre ++ l :: post →
  refused pre l post (length pre) (g_requests (step_request rid (arrive factories wait_timeout rid c) g) !! rid).
Proof.
  intros Hs Hu Hl. pose proof (wkeeps_pinned factories c (g_world g) Hs) as [[_ Hc] _].
  pose proof (sc_registry _ _ (wframe_pinned c (g_world g))) as Er. pose proof (pinned_raises c (g_world g)) as He.
  unfold step_request, arrive, mbind, gw_prog_bind, mbind, prog_bind, in_world at 1.
  destruct (pinned_lease c (g_world g)) as [[p|e] w']; simpl in *.
  - rewrite <-Er in *. rewrite Hl. by apply (go_on_refused rid c [] false pre l post (set_world w' g)).
  - rewrite lookup_insert_eq. right. right. left. by apply He.
Qed.

(** A gateway that has just started is sound, and every run keeps that. *)
Lemma run_sound g ops :
  idle_gateway g → w_backends (g_world g) = ∅ →
  callbacks_along (keeps factories) (g_queue (run_gw g ops)) ∧ sound factories (g_world (run_gw g ops)).
Proof.
  intros [_ Hq Hr _] Hb.
  assert (H0 : callbacks_along (keeps factories) (g_queue g) ∧ sound factories (g_world g)).
  { split; [rewrite Hq; apply map_Forall_empty|]. split; [done|]. unfold cache_ok. rewrite Hb. apply map_Forall_empty. }
  clear Hq Hr Hb. revert g H0. induction ops as [|o ops IH]; intros g [Hq Hs]; [done|]. apply IH.
  destruct (gkeeps_op factories cfg hc wait_timeout poll_interval g o Hq) as [Hw Hq']. by destruct (Hw Hs).
Qed.

(** C8. One host whose backend cannot be built stops the gateway, one that started with no
    request and no backend built, at any moment of any run.  While such a host is
    registered (its [backend_type] has no factory, or the factory raises over its capabilities)
    that has no list of allowed models, no chat request that arrives is ever admitted or queued,
    whatever its model, whatever the other hosts answer and whatever else happens meanwhile, the
    removal of that host included.  It asks only hosts listed before that one, in their order
    and each at most once, and ends with the [KeyError] of an unknown type, the exception of a
    factory or of an answer that cannot be read, the client's own disconnect or the refusal of
    its lease token. *)
Theorem unknown_type_stops_gateway g0 before after rid c pre l post h :
  idle_gateway g0 → w_backends (g_world g0) = ∅ →
  let g := run_gw g0 before in
  hosts (w_registry (g_world g)) = pre ++ l :: post → deref (g_world g) l = Some h →
  allowed_models (capabilities h) = None → ¬ builds factories (capabilities h) → g_requests g !! rid = None →
  match g_requests (run_gw (run_op g (GArrive rid c)) after) !! rid with
  | Some (Probing _ _ _ asked rest) =>
      ∃ left, rest = left ++ l :: post ∧ (asked :: left) `suffix_of` pre ∧
        (length left + answers rid after < length pre)%nat
  | Some (Finished (Some e)) => cut_short e
  | _ => False
  end.
Proof.
  intros Hidle Hb g Hh Hd Ha Ht Hrid.
  destruct (run_sound g0 before Hidle Hb) as [Hq Hs]. fold g in Hq, Hs.
  assert (Hcalm : calm g) by (apply calm_run; by destruct Hidle).
  assert (Hu : unsupported factories (w_registry (g_world g)) l) by by exists h.
  assert (Hr : blocked_by pre l post (length pre) rid (run_op g (GArrive rid c))).
  { destruct (gkeeps_op factories cfg hc wait_timeout poll_interval g (GArrive rid c) Hq) as [Hw Hq'].
    destruct (Hw Hs) as [Hs' Hobj]. split; [by apply calm_op|done|done|by eapply unsupported_kept|].
    cbn [Gateway.run_op]. rewrite Hrid. by apply arrive_refused. }
  apply (blocked_run after) in Hr as [_ _ _ _ Hr].
  destruct (g_requests (run_gw _ after) !! rid) as [[c' capable blocked l' rest| | |[e|]]|]; try done.
  destruct Hr as (left & -> & Hsuf & Hn). exists left. split_and!; [done..|lia].
Qed.
End unsupported.

(** ** Probes *)

Lemma begin_probes_raised factories hs w h :
  sound factories w → h ∈ hs → NoDup (host_id <$> hs) → ¬ builds factories (capabilities h) →
  (begin_probes factories hs w).1 !! host_id h = Some ProbeRaised.
Proof.
  intros Hs Hin Hnd Ht. revert w Hs. induction hs as [|h' hs IH]; intros w Hs; [by apply not_elem_of_nil in Hin|].
  cbn [begin_probes]. pose proof (wkeeps_backend_for factories (host_id h') (capabilities h') w Hs) as [Hs1 _].
  destruct (backend_for_spec factories (host_id h') (capabilities h') w (sd_cache _ _ Hs)) as (w1 & Eb & _).
  rewrite Eb in Hs1 |- *. simpl in *. apply NoDup_cons in Hnd as [Hni Hnd].
  apply elem_of_cons in Hin as [<-|Hin].
  - destruct (begin_probes factories hs w1) as [progress w2]. simpl. rewrite lookup_insert_eq. unfold builds in Ht.
    by destruct (build_error factories (capabilities h)).
  - specialize (IH Hin Hnd w1 Hs1). destruct (begin_probes factories hs w1) as [progress w2]. simpl in *.
    rewrite lookup_insert_ne; [done|]. intros E. apply Hni. rewrite E. by apply list_elem_of_fmap_2.
Qed.

Lemma reports_raised r id :
  id ∈ rd_hosts r → rd_progress r !! id = Some ProbeRaised → round_reports r = None.
Proof.
  unfold round_reports. intros Hin Hp. generalize (rd_hosts r) Hin. clear Hin.
  intros ids. induction ids as [|id' ids IH]; intros Hin; [by apply not_elem_of_nil in Hin|].
  cbn [mapM]. apply elem_of_cons in Hin as [<-|Hin]; [by rewrite Hp|]. rewrite IH by done. by destruct (rd_progress r !! id') as [[]|].
Qed.

(** One host whose backend cannot be built blinds the operator.  While it is registered, every round of
    probes raises whatever the hosts answer: readiness is never reported, and the background
    loop never gets to the alert rules. *)
Theorem unknown_type_blinds factories hc w r w1 es r' w' at_ depth sv id h :
  sound factories w → lookup_host (w_registry w) id = Some h → ¬ builds factories (capabilities h) →
  start_round factories w = (r, w1) → run_round hc es (r, w1) = Some (r', w') →
  (health_ready at_ depth r' sv).1 = Raise ProbeExn ∧ poll_tick at_ depth r' sv = (Ret (Some ProbeExn), sv).
Proof.
  intros Hs Hh Ht Er Ers. unfold start_round in Er.
  assert (Hin : h ∈ host_infos (w_registry w)).
  { destruct (wf_lookup _ _ _ (sd_registry _ _ Hs) Hh) as (l & Hl & Ho & _). apply list_elem_of_omap. exists l.
    split; [|done]. apply list_elem_of_fmap. exists (id, l). split; [done|by apply d_get_elem]. }
  pose proof (keeps_prune factories w Hs) as [Hs0 _].
  assert (Hnd : NoDup (host_id <$> host_infos (w_registry w))).
  { rewrite host_ids_infos by apply Hs. apply wf_keys, Hs. }
  pose proof (begin_probes_raised factories _ _ h Hs0 Hin Hnd Ht) as Hp.
  destruct (begin_probes factories _ _) as [progress w2]. injection Er as <- <-. simpl in Hp.
  destruct (run_round_spec hc es _ _ _ _ Ers) as (Ehosts & Hadv & _). specialize (Hadv (host_id h)). simpl in *.
  rewrite Hp in Hadv. destruct Hadv as [Hp' _].
  assert (E : round_reports r' = None).
  { apply (reports_raised r' (host_id h)); [|done]. rewrite Ehosts. by apply list_elem_of_fmap_2. }
  unfold health_ready, poll_tick, finish_round. rewrite E. done.
Qed.

(** ** A concrete run *)

(** A gateway with the host ["a"], and ["b"] of a type it does not know. *)
Definition strange_caps : HostCapabilities :=
  {| backend_type := "ollama"; context_window := 4096; base_url := "http://b"; allowed_models := None;
     memory_budget_gb := None; model_sizes_gb := None; model_aliases := None; position := None |}.

Definition strange_host : list gw_op := [GNode (NRegister "b" strange_caps {| max_concurrent_requests := 1 |})].

Definition failing_request : Gateway :=
  run_sample (run_sample (sample_gateway [("a", 1%Z)]) strange_host)
    [GArrive "r" (sample_chat false); GAnswer "r" (Models (Some ["m"]))].

Lemma unknown_type_stops_gateway_witness :
  g_requests failing_request !! "r" = Some (Finished (Some (EKeyError "ollama"))) ∧ cut_short {["lmstudio"]} (EKeyError "ollama").
Proof.
  assert (E : g_requests failing_request !! "r" = Some (Finished (Some (EKeyError "ollama")))) by by vm_compute.
  split; [exact E|].
  pose proof (unknown_type_stops_gateway {["lmstudio"]} default_lease_settings default_health_config
    default_wait_timeout default_poll_interval (sample_gateway [("a", 1%Z)]) strange_host
    [GAnswer "r" (Models (Some ["m"]))] "r" (sample_chat false) [0] 1 []
    (new_info "b" strange_caps {| max_concurrent_requests := 1 |} 0 None)
    sample_idle eq_refl ltac:(by vm_compute) ltac:(by vm_compute) eq_refl ltac:(vm_decide) ltac:(by vm_compute)) as H.
  change (run_op _ _ _ _ _ _ (GArrive "r" (sample_chat false))) with
    (run_sample (run_sample (sample_gateway [("a", 1%Z)]) strange_host) [GArrive "r" (sample_chat false)]) in H.
  change (run_sample _ [GAnswer "r" (Models (Some ["m"]))]) with failing_request in H.
  rewrite E in H. exact H.
Defined.
