(* ===== verification/Poller.v ===== *)
(** * The background poller ([api/app.py], [_health_poll_loop] and [_lifespan])

    The application starts one task that probes all hosts, sleeps, and begins again, and
    cancels it when it shuts down.  A round whose gathering raises leaves its other probes
    running ([asyncio.gather] does not cancel them), so they may still answer during later
    rounds, and after the shutdown.  The steps are the answers of the probes, the end of a round
    and of a sleep, the start and the shutdown; everything else the gateway does in between is
    a change of the service. *)

From S2P Require Import Prelude.
From S2P Require Import PyFloat.
From S2P Require Import Registry.
From S2P Require Import Health.
From S2P Require Import LoadProbe.
From S2P Require Import Metrics.
From S2P Require Import Alerts.
From S2P Require Import Nodes.
From S2P Require Import Gateway.
From S2P Require Import GatewaySafety.
From S2P Require Import Serving.

#[local] Open Scope list_scope.

(** ** States and steps *)

(** Where the loop stands: in [_probe_all_hosts], in [asyncio.sleep], or nowhere, its task
    having ended with an exception. *)
Inductive loop_state := InRound (r : Round) | Asleep | Died (e : serving_error).

(** The life of the application: before its start, serving, after [task.cancel()], over. *)
Inductive phase := NotStarted | Active | Stopping | Stopped.

(** [po_left] are the rounds whose gathering raised while probes were still running, [po_logged]
    the exceptions the loop has logged. *)
Record Poller := {
  po_service : Service;
  po_phase : phase;
  po_loop : option loop_state;
  po_left : list Round;
  po_logged : list serving_error;
}.

Definition Poller_new (sv : Service) : Poller :=
  {| po_service := sv; po_phase := NotStarted; po_loop := None; po_left := []; po_logged := [] |}.

Inductive poll_event :=
  | AppStarts
  | ProbeAnswers (e : round_event)
  | RoundEnds (at_ : datetime) (depth : nat)
  | SleepEnds
  | LeftAnswers (i : nat) (e : round_event)
  | AppStops
  | LoopCancelled
  | Elsewhere (f : Service → Service).

(** Whether a probe still runs; whether [asyncio.gather] has something to return or to raise. *)
Definition still_running (p : option probe_progress) : bool :=
  match p with Some CheckingHealth | Some (ProbingLoad _ _) => true | _ => false end.

Definition has_raised (p : option probe_progress) : bool := match p with Some ProbeRaised => true | _ => false end.

Definition unfinished (r : Round) : bool := existsb (λ id, still_running (rd_progress r !! id)) (rd_hosts r).

Definition gathered (r : Round) : bool :=
  existsb (λ id, has_raised (rd_progress r !! id)) (rd_hosts r) || negb (unfinished r).

Section poller.
(** [health_poll_interval is not None] *)
Context (factories : Factories) (hc : HealthConfig) (polling : bool).

(** The loop begins a round. *)
Definition begin_round (left : list Round) (logged : list serving_error) (sv : Service) : Poller :=
  let '(r, w) := start_round factories (sv_world sv) in
  {| po_service := with_world w sv; po_phase := Active; po_loop := Some (InRound r); po_left := left;
     po_logged := logged |}.

(** The loop after its [try]: an exception that gets out of it ends the task. *)
Definition tick_over (o : outcome serving_error (option serving_error)) : loop_state * list serving_error :=
  match o with
  | Ret None => (Asleep, [])
  | Ret (Some e) => (Asleep, [e])
  | Raise e => (Died e, [])
  end.

(** [None]: this cannot happen now. *)
Definition poll_step (e : poll_event) (s : Poller) : option Poller :=
  let keep sv loop left :=
    Some {| po_service := sv; po_phase := po_phase s; po_loop := loop; po_left := left; po_logged := po_logged s |} in
  let moved p loop :=
    Some {| po_service := po_service s; po_phase := p; po_loop := loop; po_left := po_left s; po_logged := po_logged s |} in
  match e, po_phase s, po_loop s with
  | AppStarts, NotStarted, _ =>
      if polling then Some (begin_round (po_left s) (po_logged s) (po_service s)) else moved Active (po_loop s)
  | ProbeAnswers e, Active, Some (InRound r) =>
      '(r', w) ← round_step hc e (r, sv_world (po_service s));
      keep (with_world w (po_service s)) (Some (InRound r')) (po_left s)
  | RoundEnds at_ depth, Active, Some (InRound r) =>
      if gathered r
      then let '(o, sv) := poll_tick at_ depth r (po_service s) in
           let '(loop, logged) := tick_over o in
           Some {| po_service := sv; po_phase := po_phase s; po_loop := Some loop;
                   po_left := if unfinished r then po_left s ++ [r] else po_left s;
                   po_logged := po_logged s ++ logged |}
      else None
  | SleepEnds, Active, Some Asleep => Some (begin_round (po_left s) (po_logged s) (po_service s))
  | LeftAnswers i e, _, _ =>
      r ← po_left s !! i;
      '(r', w) ← round_step hc e (r, sv_world (po_service s));
      keep (with_world w (po_service s)) (po_loop s) (<[i := r']> (po_left s))
  | AppStops, Active, Some (Died _) | AppStops, Active, None => moved Stopped None
  | AppStops, Active, Some _ => moved Stopping (po_loop s)
  | LoopCancelled, Stopping, _ => moved Stopped None
  | Elsewhere f, _, _ => keep (f (po_service s)) (po_loop s) (po_left s)
  | _, _, _ => None
  end.

Fixpoint poll_run (es : list poll_event) (s : Poller) : option Poller :=
  match es with [] => Some s | e :: es => poll_step e s ≫= poll_run es end.
End poller.

(** ** A round ends *)

(** The answers a probe still waits for, those of a round. *)
Definition answers_left (p : option probe_progress) : nat :=
  match p with Some CheckingHealth => 2 | Some (ProbingLoad _ _) => 1 | _ => 0 end.

Definition pending (r : Round) : nat := sum_list_with (λ id, answers_left (rd_progress r !! id)) (rd_hosts r).

(** A round has a probe for each of its hosts and no other. *)
Definition round_ok (r : Round) : Prop := ∀ id, is_Some (rd_progress r !! id) ↔ id ∈ rd_hosts r.

Lemma sum_less {A} (f f' : A → nat) l x :
  (∀ y, f' y ≤ f y)%nat → x ∈ l → (f' x < f x)%nat → (sum_list_with f' l < sum_list_with f l)%nat.
Proof.
  intros Hle Hin Hx.
  assert (Hall : ∀ l, (sum_list_with f' l ≤ sum_list_with f l)%nat).
  { intros l0. induction l0 as [|y l0 IH]; simpl; [done|]. specialize (Hle y). lia. }
  induction l as [|y l IH]; [by apply not_elem_of_nil in Hin|]. simpl.
  apply elem_of_cons in Hin as [->|Hin]; [specialize (Hall l); lia|]. specialize (Hle y). specialize (IH Hin). lia.
Qed.

Lemma pending_bound r : (pending r ≤ 2 * length (rd_hosts r))%nat.
Proof.
  unfold pending. induction (rd_hosts r) as [|id ids IH]; simpl; [done|].
  assert (answers_left (rd_progress r !! id) ≤ 2)%nat by (by destruct (rd_progress r !! id) as [[]|]; simpl; lia). lia.
Qed.

(** An answer brings the round forward. *)
Lemma pending_step hc e r w r' w' :
  round_ok r → round_step hc e (r, w) = Some (r', w') → round_ok r' ∧ (pending r' < pending r)%nat.
Proof.
  intros Hok.
  assert (Hset : ∀ id p, (answers_left (Some p) < answers_left (rd_progress r !! id))%nat →
    round_ok (set_progress id p r) ∧ (pending (set_progress id p r) < pending r)%nat).
  { intros id p Hp. assert (Hin : id ∈ rd_hosts r) by (apply Hok; by destruct (rd_progress r !! id); simpl in *; [eexists|lia]).
    split.
    - intros id'. simpl. rewrite lookup_insert. case_decide as E; [subst id'|apply Hok]. split; [done|by eexists].
    - apply (sum_less _ _ _ id); [|done|]; simpl; [|by rewrite lookup_insert_eq].
      intros id'. rewrite lookup_insert. case_decide as E; [subst id'; lia|done]. }
  destruct e as [id healthy detail|id|id load]; simpl;
    destruct (rd_progress r !! id) as [[|h d|h d|]|] eqn:E; try done; intros [= <- <-]; apply Hset; rewrite E; simpl; lia.
Qed.

Lemma begin_probes_dom factories hs w id :
  is_Some ((begin_probes factories hs w).1 !! id) ↔ id ∈ host_id <$> hs.
Proof.
  revert w. induction hs as [|h hs IH]; intros w; cbn [begin_probes].
  - simpl. rewrite lookup_empty. split; [by intros [? ?]|by intros ?%not_elem_of_nil].
  - destruct (backend_for _ _ _ w) as [r w1]. specialize (IH w1). destruct (begin_probes factories hs w1) as [progress w2].
    simpl in *. rewrite lookup_insert, elem_of_cons, <-IH. case_decide as E; [subst id|]; [split; [by left|by eexists]|].
    split; [by right|]. by intros [->|?].
Qed.

Lemma start_round_ok factories w : round_ok (start_round factories w).1.
Proof.
  unfold start_round. pose proof (begin_probes_dom factories (host_infos (w_registry w)) (prune_backend_cache w)) as H.
  by destruct (begin_probes _ _ _) as [progress w'].
Qed.

Lemma start_round_hosts factories w : rd_hosts (start_round factories w).1 = host_id <$> host_infos (w_registry w).
Proof. unfold start_round. by destruct (begin_probes _ _ _). Qed.

(** The end of a round leaves the health as the probes recorded it, and raises nothing that the
    loop does not catch. *)
Lemma finish_round_spec at_ depth r sv :
  w_health (sv_world (finish_round at_ depth r sv).2) = w_health (sv_world sv) ∧
  ∀ e, (finish_round at_ depth r sv).1 = Raise e → is_exception e = true.
Proof.
  unfold finish_round. destruct (round_reports r) as [reports|]; [|by split; [|intros e [= <-]]].
  unfold evaluate_alerts, mbind, prog_bind, take_snapshot.
  destruct (snapshot _ _ _ _) as [[sn|e] m]; simpl; [|by split; [|intros e' [= <-]]].
  unfold in_alerts. destruct (evaluate sn at_ _) as [[evs|e] a]; simpl; by split; [|intros e' [= <-]].
Qed.

Lemma round_end at_ depth r sv :
  w_health (sv_world (poll_tick at_ depth r sv).2) = w_health (sv_world sv) ∧
  tick_over (poll_tick at_ depth r sv).1 =
    (Asleep, match (finish_round at_ depth r sv).1 with Raise e => [e] | Ret _ => [] end).
Proof.
  destruct (finish_round_spec at_ depth r sv) as [Hw He]. unfold poll_tick.
  destruct (finish_round at_ depth r sv) as [[reports|e] sv']; simpl in *; [done|]. by rewrite He.
Qed.

(** ** The loop *)

#[local] Arguments round_step : simpl never.

Section loop.
Context (factories : Factories) (hc : HealthConfig) (polling : bool).

Abbreviation poll_step := (poll_step factories hc polling).
Abbreviation poll_run := (poll_run factories hc polling).

Record poller_ok (s : Poller) : Prop := {
  pk_active : po_phase s = Active → is_Some (po_loop s) ↔ polling = true;
  pk_round r : po_loop s = Some (InRound r) → round_ok r;
  pk_before : po_phase s = NotStarted → po_loop s = None;
  pk_over : po_phase s = Stopped → po_loop s = None;
  pk_lives e : po_loop s ≠ Some (Died e);
}.

Lemma begin_round_ok left logged sv : polling = true → poller_ok (begin_round factories left logged sv).
Proof.
  intros Hp. unfold begin_round. pose proof (start_round_ok factories (sv_world sv)) as H.
  destruct (start_round factories (sv_world sv)) as [r w]. split; simpl; try done. by intros r' [= <-].
Qed.

Lemma poller_ok_loop sv ph l left logged sv' l' left' logged' :
  poller_ok {| po_service := sv; po_phase := ph; po_loop := Some l; po_left := left; po_logged := logged |} →
  (∀ r, l' = InRound r → round_ok r) → (∀ e, l' ≠ Died e) →
  poller_ok {| po_service := sv'; po_phase := ph; po_loop := Some l'; po_left := left'; po_logged := logged' |}.
Proof.
  intros [Ha Hr Hb Ho _] Hl Hd. split; simpl in *.
  - intros Hp. rewrite <-Ha by done. split; by eexists.
  - intros r [= ->]. by apply Hl.
  - intros Hp. by specialize (Hb Hp).
  - intros Hp. by specialize (Ho Hp).
  - intros e [= ->]. by apply (Hd e).
Qed.

Lemma poller_ok_step e s s' : poller_ok s → poll_step e s = Some s' → poller_ok s'.
Proof.
  destruct s as [sv ph loop left logged]. intros Hok. pose proof Hok as [Ha Hr Hb Ho Hd]. simpl in *.
  destruct e as [|e|at_ depth| |i e| | |f]; simpl.
  - destruct ph; try done. specialize (Hb eq_refl). subst loop.
    destruct polling eqn:Hp; intros [= <-]; [by apply begin_round_ok|]. split; simpl; try done.
    intros _. rewrite Hp. by split; [intros [? ?]|].
  - destruct ph; try done. destruct loop as [[r| |]|]; try done.
    destruct (round_step hc e (r, sv_world sv)) as [[r' w]|] eqn:E; simpl; [|done]. intros [= <-].
    eapply poller_ok_loop; [done| |done]. intros r0 [= <-]. by eapply pending_step; [by apply Hr|].
  - destruct ph; try done. destruct loop as [[r| |]|]; try done. destruct (gathered r); [|done].
    pose proof (round_end at_ depth r sv) as [_ Ht]. destruct (poll_tick at_ depth r sv) as [o sv']. simpl in Ht.
    rewrite Ht. intros [= <-]. by eapply poller_ok_loop.
  - destruct ph; try done. destruct loop as [[r| |]|]; try done. intros [= <-]. apply begin_round_ok. by apply Ha.
  - destruct (left !! i) as [r|]; [|done]. simpl. destruct (round_step hc e (r, sv_world sv)) as [[r' w]|]; simpl; [|done].
    intros [= <-]. by split.
  - destruct ph; try done. destruct loop as [[r| |e]|]; intros [= <-]; by split.
  - destruct ph; try done. intros [= <-]. by split.
  - destruct ph; intros [= <-]; by split.
Qed.

Lemma poller_ok_run es s s' : poller_ok s → poll_run es s = Some s' → poller_ok s'.
Proof.
  revert s. induction es as [|e es IH]; intros s Hs; [by intros [= <-]|]. simpl.
  destruct (poll_step e s) as [s1|] eqn:E; [|done]. simpl. apply IH. by eapply poller_ok_step.
Qed.

Lemma poller_ok_new sv : poller_ok (Poller_new sv).
Proof. by split. Qed.

(** A round that is not gathered waits for an answer, and takes whichever comes. *)
Definition waits_for (r : Round) (s : Poller) (id : string) : Prop :=
  (rd_progress r !! id = Some CheckingHealth ∧
   (∀ healthy detail, is_Some (poll_step (ProbeAnswers (HealthChecked id healthy detail)) s)) ∧
   is_Some (poll_step (ProbeAnswers (HealthRaised id)) s)) ∨
  (∃ healthy detail, rd_progress r !! id = Some (ProbingLoad healthy detail)) ∧
   ∀ load, is_Some (poll_step (ProbeAnswers (LoadProbed id load)) s).

Lemma round_waits r s :
  po_phase s = Active → po_loop s = Some (InRound r) → gathered r = false → ∃ id, id ∈ rd_hosts r ∧ waits_for r s id.
Proof.
  intros Ep El. unfold gathered. rewrite orb_false_iff, negb_false_iff. intros [_ Hun].
  unfold unfinished in Hun. apply existsb_exists in Hun as (id & Hin & Hrun). exists id.
  split; [by apply list_elem_of_In|]. unfold waits_for, Poller.poll_step, round_step. rewrite Ep, El.
  destruct (rd_progress r !! id) as [[|h d|h d|]|] eqn:E; try done.
  - left. split; [done|]. split; [intros healthy detail|]; by eexists.
  - right. split; [by eexists _, _|]. intros load. by eexists.
Qed.
End loop.


(** After the shutdown the loop is over: nothing of it can happen any more, except that probes
    left over by a failed round still answer. *)
Theorem shutdown_is_final factories hc polling sv es s :
  poll_run factories hc polling es (Poller_new sv) = Some s →
  match po_phase s with
  | Stopping => ∃ s', poll_step factories hc polling LoopCancelled s = Some s' ∧ po_phase s' = Stopped ∧
                  po_service s' = po_service s
  | Stopped => po_loop s = None
  | _ => True
  end ∧
  ((po_phase s = Stopping ∨ po_phase s = Stopped) → ∀ e s', poll_step factories hc polling e s = Some s' →
   match e with
   | LeftAnswers _ _ | Elsewhere _ => po_phase s' = po_phase s
   | LoopCancelled => po_phase s' = Stopped ∧ po_service s' = po_service s
   | _ => False
   end).
Proof.
  intros Hrun. destruct (poller_ok_run _ _ _ _ _ _ (poller_ok_new _ sv) Hrun) as [_ _ _ Ho _]. split.
  - destruct (po_phase s) eqn:Ep; try done; [|by apply Ho]. unfold poll_step. rewrite Ep. by eexists.
  - intros Hp e s'. unfold poll_step.
    destruct e; destruct Hp as [Hp|Hp]; rewrite Hp; try done; try (by intros [= <-]);
      destruct (po_left s !! i) as [r|]; try done; simpl; destruct (round_step _ _ _) as [[r' w]|]; try done; by intros [= <-].
Qed.

(** ** A concrete run *)

(** The host ["h1"] answers, the probe of ["h2"] raises, and the round ends without it. *)
Definition bad_tick : list poll_event :=
  [AppStarts; ProbeAnswers (HealthChecked "h1" true "ok"); ProbeAnswers (HealthRaised "h2"); RoundEnds 0 0].

Definition sample_poller : Poller := Poller_new (sample_service [("h1", 1%Z); ("h2", 1%Z)] []).

