(* ===== verification/NodeActions.v ===== *)
(** * The node actions of the dashboard ([tui/app.py], [DashboardApp], and [tui/client.py])

    The keys and buttons that edit, register and remove a node: which host they act on, the
    screen they open, and the one request a confirmed screen sends to the gateway, run here by
    the gateway's own handlers.  The state is the dashboard with the screen over it and the
    world behind the gateway; what the table shows is read off the commands sent to it, and
    each of its rows is tied to an entry of the listing that was rendered last ([table_ok]).  A request is answered, refused by the authentication, or lost
    on the way out or back.  Its path is taken to name the host: true of ids without [?], [#]
    and [%]. *)

From S2P Require Import Prelude.
From S2P Require Import PyStr.
From S2P Require Import PyDict.
From S2P Require Import PyJson.
From S2P Require Import PyFloat.
From S2P Require Import Registry.
From S2P Require Import Health.
From S2P Require Import Leases.
From S2P Require Import LoadProbe.
From S2P Require Import Throughput.
From S2P Require Import Metrics.
From S2P Require Import Nodes.
From S2P Require Import Diagnostics.
From S2P Require Import LoadCharts.
From S2P Require Import DashboardView.
From S2P Require Import NodeForm.
From S2P Require Import Dashboard.
From S2P Require Import DashboardSafety.

#[local] Open Scope list_scope.

(** ** Starting the dashboard *)

(** The options of [run]; [None]: no API key, the dashboard exits with 1. *)
Definition dashboard_args (env : gmap string string) (base_url api_key : option string) : option (string * string) :=
  match match api_key with Some k => Some k | None => env !! "ORCHESTRATOR_API_KEY" end with
  | None | Some "" => None
  | Some key => Some (default (default "http://localhost:8080" (env !! "ORCHESTRATOR_BASE_URL")) base_url, key)
  end.

(** The columns [on_mount] gives the table. *)
Definition NODE_COLUMNS : list string :=
  ["host_id"; "status"; "errors"; "tasks/h"; "tasks/h/slot"; "backend_type"; "last_seen"; "reqs"; "reqs/min";
   "avg_lat_ms"; "prompt_tok"; "compl_tok"].

(** ** Opening a screen *)

(** [NodeFormScreen], for a host or ([None]) a new one, and [RemoveNodeConfirmScreen]. *)
Inductive screen :=
  | FormScreen (target : option string) (form : NodeForm)
  | RemoveScreen (host_id : string).

Inductive action_error := ActionIndexError | ActionKeyError (key : string) | FormTypeError.

(** [self._node_row_order[table.cursor_row]], unless the table is empty. *)
Definition cursor_host (t : table_reading) (d : Dash) : outcome action_error (option string) :=
  if bool_decide (row_count t = 0%nat) then Ret None
  else match d_node_row_order d !! cursor_row t with
       | Some id => Ret (Some id)
       | None => Raise ActionIndexError
       end.

Definition action_edit_node (t : table_reading) (d : Dash) : outcome action_error (option screen) :=
  match cursor_host t d with
  | Raise e => Raise e
  | Ret None => Ret None
  | Ret (Some id) =>
      match d_get (d_nodes_by_id d) id with
      | None => Raise (ActionKeyError id)
      | Some node =>
          match open_form FormEdit node with
          | None => Raise FormTypeError
          | Some form => Ret (Some (FormScreen (Some id) form))
          end
      end
  end.

Definition action_new_node : outcome action_error (option screen) :=
  match open_form FormRegister (JObj []) with
  | None => Raise FormTypeError
  | Some form => Ret (Some (FormScreen None form))
  end.

Definition action_remove_node (t : table_reading) (d : Dash) : outcome action_error (option screen) :=
  match cursor_host t d with
  | Raise e => Raise e
  | Ret None => Ret None
  | Ret (Some id) => Ret (Some (RemoveScreen id))
  end.

(** [DashboardApp.on_button_pressed] *)
Definition toolbar_pressed (button_id : string) (t : table_reading) (d : Dash) : outcome action_error (option screen) :=
  if bool_decide (button_id = "new-node-button") then action_new_node
  else if bool_decide (button_id = "remove-node-button") then action_remove_node t d
  else Ret None.

(** ** The client *)

(** What becomes of a request: the gateway handles it and its answer arrives; the
    authentication refuses it with [status]; the transport fails, before or after the gateway
    has handled it. *)
Inductive delivery :=
  | Delivered
  | Denied (status : Z)
  | TransportFailed (e : transport_exc) (handled : bool).

(** [_post], [_patch], [_delete]: the kind of the [DiagnosticsClientError], if one is raised. *)
Definition client_request {A} (m : app_prog A) (how : delivery) (w : World) : option string * World :=
  match how with
  | Delivered => let '(r, w') := m w in (raise_for_error_status (call_status r), w')
  | Denied status => (raise_for_error_status status, w)
  | TransportFailed e handled => (Some (transport_error e), if handled then (m w).2 else w)
  end.

(** The body of a registration. *)
Definition fields_capabilities (f : FormFields) : HostCapabilities :=
  {| backend_type := ff_backend_type f; context_window := ff_context_window f; base_url := ff_base_url f;
     allowed_models := ff_allowed_models f; memory_budget_gb := ff_memory_budget_gb f;
     model_sizes_gb := list_to_map <$> ff_model_sizes_gb f; model_aliases := list_to_map <$> ff_model_aliases f;
     position := None |}.
Definition fields_capacity (f : FormFields) : HostCapacity :=
  {| max_concurrent_requests := ff_max_concurrent_requests f |}.

Definition client_register_node (fields : FormFields) : delivery → World → option string * World :=
  client_request match ff_host_id fields with
                 | Some id => register_node id (fields_capabilities fields) (fields_capacity fields)
                 | None => raise (RequestValidationError "host_id")
                 end.
Definition client_update_node (id : string) (fields : FormFields) : delivery → World → option string * World :=
  client_request (update_node id (fields_update fields)).
Definition client_deregister_node (id : string) : delivery → World → option string * World :=
  client_request (deregister_node id).

(** ** Closing a screen *)

Record Console := { co_dash : Dash; co_screen : option screen; co_world : World }.

(** The end of each [handle_result]: the banner of the error, or a poll. *)
Definition after_request (kind : option string) (d : Dash) : Dash :=
  match kind with
  | Some kind => add_ui (ShowBanner (default kind (d_get BANNER_MESSAGES kind))) d
  | None => default d (poll_begin d)
  end.

Definition close_with (answer : option string * World) (c : Console) : Console :=
  {| co_dash := after_request answer.1 (co_dash c); co_screen := None; co_world := answer.2 |}.

Definition close (c : Console) : Console :=
  {| co_dash := co_dash c; co_screen := None; co_world := co_world c |}.

(** A button of the form, and the [handle_result] of [action_edit_node] or [action_new_node]. *)
Definition form_pressed (b : form_button) (how : delivery) (c : Console) : Console :=
  match co_screen c with
  | Some (FormScreen target form) =>
      match press b form with
      | (form, None) => {| co_dash := co_dash c; co_screen := Some (FormScreen target form); co_world := co_world c |}
      | (_, Some None) => close c
      | (_, Some (Some fields)) =>
          close_with (match target with
                      | Some id => client_update_node id fields
                      | None => client_register_node fields
                      end how (co_world c)) c
      end
  | _ => c
  end.

(** A button of the removal dialog, and the [handle_result] of [action_remove_node]. *)
Definition removal_pressed (button_id : string) (how : delivery) (c : Console) : Console :=
  match co_screen c with
  | Some (RemoveScreen id) =>
      if confirm_removal button_id then close_with (client_deregister_node id how (co_world c)) c else close c
  | _ => c
  end.

(** [action_cancel] of either screen *)
Definition escape_pressed (c : Console) : Console := close c.

(** ** What the table shows *)

(** The rows the dashboard's commands leave in the table. *)
Definition shown_rows (d : Dash) : list (list text) := table_rows (d_ui d).

(** A reading of that table: the cursor is on a row, if there is one. *)
Definition true_reading (t : table_reading) (d : Dash) : Prop :=
  row_count t = length (shown_rows d) ∧ (row_count t ≠ 0 → cursor_row t < row_count t)%nat.

(** The cells are those of the row of an entry. *)
Definition drawn_from (parsed : ParsedMetrics) (rates : dict string (option float)) (entry : string * json)
    (cells : list text) : Prop :=
  node_host_id entry.2 = Ret entry.1 ∧ ∀ d, node_row parsed rates entry.1 entry.2 d = (Ret cells, d).

(** Each row is drawn from an entry of the listing [l]; the dashboard keeps the ids of these
    entries in the order of the rows, and under each id the entry of its last row. *)
Definition drawn (parsed : ParsedMetrics) (rates : dict string (option float)) (l : list json) (d : Dash) : Prop :=
  ∃ entries, Forall2 (drawn_from parsed rates) entries (shown_rows d) ∧ Forall (λ entry, entry.2 ∈ l) entries ∧
    d_node_row_order d = entries.*1 ∧ d_nodes_by_id d = d_of_list entries.

Definition table_ok (l : list json) (d : Dash) : Prop := ∃ parsed rates, drawn parsed rates l d.

(** The hosts of the listing. *)
Definition listing_of (nodes : answer json) : list json :=
  match nodes with
  | Answered j => match nodes_list j with Ret l => l | Raise _ => [] end
  | _ => []
  end.

(** The hosts of the listing a poll has rendered, if it has. *)
Definition polled (e : dash_event) (d : Dash) : option (list json) :=
  match e with
  | PollEnd _ nodes metrics _ =>
      if d_poll_in_progress d && bool_decide (client_errors nodes metrics = []) then Some (listing_of nodes) else None
  | _ => None
  end.

(** The listing the last rendering poll of [es] has got; [l] where there is none. *)
Fixpoint last_listing (es : list dash_event) (d : Dash) (l : list json) : list json :=
  match es with
  | [] => l
  | e :: es => last_listing es (dash_step e d) (default l (polled e d))
  end.

(** ** What a poll leaves in the table *)

Lemma shown_rows_add c d : shown_rows (add_ui c d) = table_step (shown_rows d) c.
Proof. apply table_rows_snoc. Qed.

(** What the invariant looks at. *)
Definition table_of (d : Dash) : list (list text) * list string * dict string json :=
  (shown_rows d, d_node_row_order d, d_nodes_by_id d).

Lemma table_ok_ext l d d' : table_of d' = table_of d → table_ok l d → table_ok l d'.
Proof. unfold table_of, table_ok, drawn. by intros [= -> -> ->]. Qed.

Definition keeps_table (c : ui_command) : bool := match c with ClearTable | AddRow _ => false | _ => true end.

Lemma table_of_add c d : keeps_table c = true → table_of (add_ui c d) = table_of d.
Proof. intros Hc. unfold table_of. rewrite shown_rows_add. by destruct c. Qed.

Lemma preserves_table_emit l c : keeps_table c = true → preserves (table_ok l) (emit c).
Proof. intros Hc d Hd. eapply table_ok_ext; [|exact Hd]. by apply table_of_add. Qed.

Lemma preserves_table_modify l (f : Dash → Dash) :
  (∀ d, table_of (f d) = table_of d) → preserves (E := dash_error) (table_ok l) (modify f).
Proof. intros Hf d Hd. eapply table_ok_ext; [apply Hf|done]. Qed.

(** The programs of a poll, one bind at a time. *)
Ltac preserve_table :=
  repeat match goal with
  | |- preserves _ (_ ≫= _) => apply preserves_dash_bind; [|intros ?]
  | |- preserves _ (lift _) => apply preserves_lift
  | |- preserves _ (dash_arith _) => apply preserves_arith
  | |- preserves _ (emit _) => by apply preserves_table_emit
  | |- preserves _ (modify _) => by apply preserves_table_modify
  | |- preserves _ get => by intros ? ?
  | |- preserves _ (gets _) => by intros ? ?
  | |- preserves _ (mret _) => by intros ? ?
  | |- preserves _ (raise _) => by intros ? ?
  | |- preserves _ (let '(_, _) := ?x in _) => destruct x
  | |- preserves _ (match ?x with _ => _ end) => destruct x
  | |- preserves _ (if decide ?P then _ else _) => destruct (decide P)
  end.

Lemma drawn_nothing parsed rates l d :
  shown_rows d = [] → d_node_row_order d = [] → d_nodes_by_id d = [] → drawn parsed rates l d.
Proof. intros Hs Ho Hn. exists []. rewrite Hs. by split_and!. Qed.

Lemma node_row_pure parsed rates id node d o d' :
  node_row parsed rates id node d = (o, d') → d' = d ∧ ∀ d0, node_row parsed rates id node d0 = (o, d0).
Proof.
  unfold node_row, mbind, dash_prog_bind, mbind, prog_bind, lift, dash_arith.
  repeat (match goal with |- context [match ?x with Ret _ => _ | Raise _ => _ end] => destruct x end; [|by intros [= <- <-]]).
  by intros [= <- <-].
Qed.

(** Every row has one cell for each column, the first with the host's id. *)
Lemma drawn_cells parsed rates entry cells :
  drawn_from parsed rates entry cells → head cells = Some (plain_text entry.1) ∧ length cells = length NODE_COLUMNS.
Proof.
  intros [_ H]. specialize (H Dash_new). revert H. unfold node_row, mbind, dash_prog_bind, mbind, prog_bind, lift, dash_arith.
  repeat (match goal with |- context [match ?x with Ret _ => _ | Raise _ => _ end] => destruct x end; [|done]).
  by intros [= <-].
Qed.

Lemma drawn_row parsed rates l cells id node d :
  node ∈ l → drawn_from parsed rates (id, node) cells → drawn parsed rates l d →
  drawn parsed rates l (set_rows (d_node_row_order d ++ [id]) (d_set (d_nodes_by_id d) id node) (add_ui (AddRow cells) d)).
Proof.
  intros Hin Hr (entries & Hs & Hl & Ho & Hn). exists (entries ++ [(id, node)]).
  change (shown_rows (set_rows ?o ?b ?d')) with (shown_rows d'). rewrite shown_rows_add. split_and!.
  - by apply Forall2_app; [|constructor].
  - apply Forall_app. split; [done|]. by apply Forall_singleton.
  - cbn [d_node_row_order set_rows]. by rewrite Ho, fmap_app.
  - cbn [d_nodes_by_id set_rows]. unfold d_of_list. by rewrite foldl_app, Hn.
Qed.

Lemma preserves_drawn_rows parsed rates l hosts :
  Forall (λ node, node ∈ l) hosts → preserves (drawn parsed rates l) (add_rows parsed rates hosts).
Proof.
  induction 1 as [|node hosts Hin _ IH]; [by intros d Hd|]. intros d Hd. cbn [add_rows].
  unfold mbind, dash_prog_bind, mbind, prog_bind, lift. destruct (node_host_id node) as [id|e] eqn:En; [|done].
  destruct (node_row parsed rates id node d) as [o d'] eqn:Er. apply node_row_pure in Er as [-> Hr].
  destruct o as [cells|e]; [|done]. unfold mbind, dash_prog_bind, mbind, prog_bind, emit, modify.
  refine (IH _ _). exact (drawn_row _ _ _ _ _ _ _ Hin (conj En Hr) Hd).
Qed.

Lemma display_order_elem column descending hosts parsed rates shown :
  display_order column descending hosts parsed rates = Ret shown → Forall (λ node, node ∈ hosts) shown.
Proof.
  unfold display_order. destruct column as [column|]; [|intros [= <-]; by apply Forall_forall].
  destruct (comprehend with_id hosts) as [pairs|] eqn:Ep; [|done]. destruct (comprehend _ (d_of_list pairs)); [|done].
  intros [= <-]. apply Forall_forall. intros node (id & _ & Hg)%list_elem_of_omap.
  apply d_get_elem, d_of_list_elem in Hg. revert pairs Ep Hg. clear. induction hosts as [|h hosts IH]; intros pairs; simpl.
  { intros [= <-] []%not_elem_of_nil. }
  unfold with_id at 1. destruct (node_host_id h) as [id'|]; [|done]. destruct (comprehend with_id hosts) as [pairs'|]; [|done].
  intros [= <-] [[= _ ->]|Hin]%elem_of_cons; [left|]. right. by eapply IH.
Qed.

Lemma bind_state {A B} (P : Dash → Prop) (m : dash_prog A) (k : A → dash_prog B) d :
  match m d with (Ret a, d') => P (k a d').2 | (Raise _, d') => P d' end → P ((m ≫= k) d).2.
Proof. unfold mbind, dash_prog_bind, mbind, prog_bind. by destruct (m d) as [[|] ?]. Qed.

Lemma bind_pure {A B} (P : Dash → Prop) (o : outcome dash_error A) (k : A → dash_prog B) d :
  P d → (∀ a, o = Ret a → P (k a d).2) → P ((lift o ≫= k) d).2.
Proof. intros Hd Hk. apply bind_state. unfold lift. destruct o as [a|e]; [by apply Hk|done]. Qed.

(** Whatever the table was, a poll that renders nodes leaves a table drawn from its listing,
    also where it raises half way. *)
Lemma render_nodes_table t nodes metrics now d : table_ok (listing_of nodes) (render_nodes t nodes metrics now d).2.
Proof.
  unfold render_nodes. apply bind_state. unfold get. cbv beta iota.
  apply bind_state. unfold emit at 1, modify at 1. cbv beta iota.
  apply bind_state. unfold modify at 1. cbv beta iota.
  assert (H0 : ∀ parsed rates, drawn parsed rates (listing_of nodes) (set_rows [] [] (add_ui ClearTable d))).
  { intros parsed rates. apply drawn_nothing; [apply shown_rows_add|done..]. }
  revert H0. generalize (Dashboard.set_rows [] [] (add_ui ClearTable d)) as d0. intros d0 H0.
  assert (Hok : table_ok (listing_of nodes) d0) by (eexists ParsedMetrics_new, []; apply H0).
  apply (bind_state _ (match metrics with Answered s => _ | _ => _ end)).
  destruct metrics as [s| |]; [|exact Hok..]. unfold dash_arith. destruct (parse_metrics_text s) as [parsed|]; [|exact Hok].
  apply bind_state. destruct (compute_token_rates _ _ _ _) as [rates|]; [|exact Hok].
  apply bind_state. unfold modify at 1. cbv beta iota.
  assert (H1 : drawn parsed rates (listing_of nodes) (set_last_total (pm_host_completions_total parsed) now d0)) by apply H0.
  revert H1. generalize (set_last_total (pm_host_completions_total parsed) now d0) as d1. intros d1 H1.
  apply bind_pure; [by exists parsed, rates|]. intros hosts Eh.
  apply bind_pure; [by exists parsed, rates|]. intros shown Es%display_order_elem.
  assert (Hl : listing_of nodes = hosts).
  { unfold listing_of. destruct nodes as [j| |]; [by rewrite Eh|done..]. }
  rewrite <-Hl in Es. pose proof (preserves_drawn_rows parsed rates _ _ Es d1 H1) as H2.
  apply bind_state. destruct (add_rows parsed rates shown d1) as [[u|e] d2]; [|by exists parsed, rates].
  assert (Ht : table_ok (listing_of nodes) d2) by by exists parsed, rates.
  match goal with |- table_ok ?l (?m d2).2 => enough (preserves (table_ok l) m) as Hp by exact (Hp d2 Ht) end.
  preserve_table.
Qed.

Lemma preserves_table_charts l nodes : preserves (table_ok l) (render_load_sparklines nodes).
Proof.
  unfold render_load_sparklines. preserve_table.
  - match goal with |- preserves _ (remove_stale ?l) => generalize l end.
    intros l'. induction l' as [|id l' IH]; cbn [remove_stale]; preserve_table. exact IH.
  - match goal with |- preserves _ (update_groups ?h ?u) => generalize h u end.
    intros h. induction h as [|[id node] h IH]; intros u; cbn [update_groups]; preserve_table; apply IH.
Qed.

Lemma poll_end_rendered t nodes metrics now d :
  client_errors nodes metrics = [] → table_ok (listing_of nodes) (poll_end t nodes metrics now d).
Proof.
  intros E. unfold poll_end. rewrite E.
  assert (Hr : table_ok (listing_of nodes) (render_poll t nodes metrics now d).2).
  { unfold render_poll. apply bind_state. unfold emit at 1, modify at 1. cbv beta iota.
    apply bind_state. pose proof (render_nodes_table t nodes metrics now (add_ui (ShowBanner "") d)) as Hn.
    destruct (render_nodes t nodes metrics now _) as [[u|e] d']; [|exact Hn]. exact (preserves_table_charts _ nodes _ Hn). }
  destruct (render_poll t nodes metrics now d) as [[u|e] d']; [exact Hr|].
  by eapply table_ok_ext; [apply table_of_add|].
Qed.

Definition is_move (e : dash_event) : bool := match e with MoveNode _ _ _ => true | _ => false end.

Lemma dash_step_table e d l :
  is_move e = false → table_ok l d → table_ok (default l (polled e d)) (dash_step e d).
Proof.
  intros He Hd. destruct e as [|t nodes metrics now| | | |t step replies]; cbn [polled default dash_step]; [..|done].
  - unfold poll_begin. by destruct (d_poll_in_progress d).
  - destruct (d_poll_in_progress d); [|done]. cbn [andb]. case_bool_decide as E; [by apply poll_end_rendered|].
    unfold poll_end. destruct (client_errors nodes metrics) as [|first rest]; [done|].
    by eapply table_ok_ext; [apply table_of_add|].
  - unfold cycle_sort. by destruct (d_sort_column d).
  - done.
  - done.
Qed.

Lemma dash_run_app es1 es2 d : dash_run (es1 ++ es2) d = dash_run es2 (dash_run es1 d).
Proof. apply foldl_app. Qed.

Lemma last_listing_app es1 es2 d l :
  last_listing (es1 ++ es2) d l = last_listing es2 (dash_run es1 d) (last_listing es1 d l).
Proof. revert d l. induction es1 as [|e es1 IH]; intros d l; [done|]. apply IH. Qed.

Lemma dash_run_table es d l :
  Forall (λ e, is_move e = false) es → table_ok l d → table_ok (last_listing es d l) (dash_run es d).
Proof.
  intros Hes. revert d l. induction Hes as [|e es He _ IH]; intros d l Hd; [done|]. by apply IH, dash_step_table.
Qed.

(** The last poll with answers came after the last move. *)
Definition settled (es : list dash_event) : Prop :=
  ∃ es1 es2, es = es1 ++ es2 ∧ Forall (λ e, is_move e = false) es2 ∧
    (es1 = [] ∨ ∃ es0 t nodes metrics now, es1 = es0 ++ [PollEnd t nodes metrics now] ∧
       d_poll_in_progress (dash_run es0 Dash_new) = true ∧ client_errors nodes metrics = []).

Lemma settled_table es : settled es → table_ok (last_listing es Dash_new []) (dash_run es Dash_new).
Proof.
  intros (es1 & es2 & -> & H2 & H1). rewrite dash_run_app, last_listing_app. apply dash_run_table; [done|].
  destruct H1 as [->|(es0 & t & nodes & metrics & now & -> & Hp & He)].
  { exists ParsedMetrics_new, []. by apply drawn_nothing. }
  rewrite dash_run_app, last_listing_app. cbn [dash_run foldl dash_step last_listing polled].
  unfold dash_run in Hp |- *. rewrite Hp, bool_decide_eq_true_2 by done. by apply poll_end_rendered.
Qed.

(** What a dict built from pairs keeps under a key: the value of its last pair. *)
Lemma d_of_list_get {V} (ps : list (string * V)) i k v :
  ps !! i = Some (k, v) → ∃ j v', ps !! j = Some (k, v') ∧ d_get (d_of_list ps) k = Some v'.
Proof.
  unfold d_of_list. revert i v. induction ps as [|[k1 v1] ps IH] using rev_ind; intros i v Hi; [done|].
  rewrite foldl_app. cbn [foldl fst snd]. rewrite d_get_set. case_decide as Hk.
  - subst k1. exists (length ps), v1. split; [by rewrite lookup_app_r, Nat.sub_diag by lia|done].
  - apply lookup_app_Some in Hi as [Hi|[_ Hi%list_lookup_singleton_Some]]; [|by destruct Hi as [_ [= ->]]].
    destruct (IH _ _ Hi) as (j & v' & Hj & Hg). exists j, v'. split; [by apply lookup_app_l_Some|done].
Qed.

Lemma selected_row l t d :
  table_ok l d → true_reading t d →
  match shown_rows d !! cursor_row t with
  | None => cursor_host t d = Ret None
  | Some cells => ∃ parsed rates id node kept, drawn_from parsed rates (id, node) cells ∧ node ∈ l ∧
      cursor_host t d = Ret (Some id) ∧ d_get (d_nodes_by_id d) id = Some kept ∧ kept ∈ l ∧
      node_host_id kept = Ret id ∧ ((∀ k, d_node_row_order d !! k = Some id → k = cursor_row t) → kept = node)
  end.
Proof.
  intros (parsed & rates & entries & Hs & Hl & Ho & Hn) [Hc Hr]. unfold cursor_host. rewrite Hc, Ho, Hn.
  pose proof (Forall2_length _ _ _ Hs) as Hlen. rewrite Hc in Hr.
  destruct (shown_rows d !! cursor_row t) as [cells|] eqn:E.
  - destruct (Forall2_lookup_r _ _ _ _ _ Hs E) as ([id node] & Ee & Hd). exists parsed, rates, id, node.
    destruct (d_of_list_get _ _ _ _ Ee) as (j & kept & Ej & Hk). exists kept.
    pose proof (λ i e H, proj1 (Forall_lookup _ _) Hl i e H) as Hin.
    rewrite bool_decide_eq_false_2 by (apply lookup_lt_Some in E; lia). rewrite list_lookup_fmap, Ee.
    destruct (Forall2_lookup_l _ _ _ _ _ Hs Ej) as (cells' & _ & [Hid _]).
    split_and!; [done|exact (Hin _ _ Ee)|done|done|exact (Hin _ _ Ej)|exact Hid|].
    intros Hu. assert (j = cursor_row t) as -> by (apply Hu; by rewrite list_lookup_fmap, Ej). congruence.
  - apply lookup_ge_None in E. rewrite bool_decide_eq_true_2; [done|].
    destruct (decide (length (shown_rows d) = 0%nat)) as [|Hne]; [done|]. specialize (Hr Hne). lia.
Qed.

(** ** Properties *)

(** C38. The keys act on the row under the cursor.  Once a poll has been answered after the last
    move, and whatever the polls before and after it met, the row under the cursor is the
    row of an entry of the last listing that was rendered, with a cell for each of the twelve
    columns; removing opens the dialog of the host of that entry, and editing opens the form
    on that very entry.  Should that listing give the same id twice, editing may open another
    entry of that id.  Where a field of the entry has another type than the form expects, editing
    raises instead of opening the form, but no key or index is ever missing; on an empty
    table both actions do nothing. *)
Theorem actions_hit_the_row es t :
  settled es → true_reading t (dash_run es Dash_new) →
  let d := dash_run es Dash_new in
  match shown_rows d !! cursor_row t with
  | None => action_remove_node t d = Ret None ∧ action_edit_node t d = Ret None
  | Some cells => ∃ parsed rates id node kept,
      node ∈ last_listing es Dash_new [] ∧ drawn_from parsed rates (id, node) cells ∧
      head cells = Some (plain_text id) ∧ length cells = length NODE_COLUMNS ∧
      kept ∈ last_listing es Dash_new [] ∧ node_host_id kept = Ret id ∧
      ((∀ k, d_node_row_order d !! k = Some id → k = cursor_row t) → kept = node) ∧
      action_remove_node t d = Ret (Some (RemoveScreen id)) ∧
      action_edit_node t d = match open_form FormEdit kept with
                             | Some form => Ret (Some (FormScreen (Some id) form))
                             | None => Raise FormTypeError
                             end
  end.
Proof.
  intros Hs Hr d. pose proof (selected_row _ t d (settled_table _ Hs) Hr) as H. unfold action_remove_node, action_edit_node.
  destruct (shown_rows d !! cursor_row t) as [cells|]; [|by rewrite H].
  destruct H as (parsed & rates & id & node & kept & Hd & Hin & Hc & Hk & Hkin & Hkid & Hu).
  destruct (drawn_cells _ _ _ _ Hd) as [Hh Hlen]. exists parsed, rates, id, node, kept. by rewrite Hc, Hk.
Qed.

(** Each row shows the id the dashboard keeps for it. *)
Definition rows_shown (d : Dash) : Prop := head <$> shown_rows d = (Some ∘ plain_text) <$> d_node_row_order d.

Lemma table_ok_shown l d : table_ok l d → rows_shown d.
Proof.
  intros (parsed & rates & entries & Hs & _ & Ho & _). unfold rows_shown. rewrite Ho. clear Ho.
  induction Hs as [|entry cells entries rows He _ IH]; [done|]. cbn. rewrite <-IH. f_equal. apply (drawn_cells _ _ _ _ He).
Qed.

Lemma rows_shown_length d : rows_shown d → length (shown_rows d) = length (d_node_row_order d).
Proof. intros Hs. apply (f_equal length) in Hs. by rewrite !length_fmap in Hs. Qed.

(** Where a move goes. *)
Lemma move_target_bounds t step d target :
  move_target t step d = Some target →
  (row_count t ≠ 0)%nat ∧ (target < length (d_node_row_order d))%nat ∧ Z.of_nat target = (Z.of_nat (cursor_row t) + step)%Z.
Proof.
  unfold move_target. destruct (bool_decide (d_sort_column d ≠ None)); [done|]. cbn [orb].
  case_bool_decide; [done|]. destruct (_ && _) eqn:E; [|done]. intros [= <-]. apply andb_true_iff in E as [E1%Z.leb_le E2%Z.ltb_lt].
  split_and!; lia.
Qed.

Lemma send_updates_accepted updates replies :
  Forall (λ r, r = None) replies → (send_updates next_reply updates replies).1 = None.
Proof.
  revert replies. induction updates as [|[id p] updates IH]; intros replies Hr; [done|]. cbn [send_updates].
  destruct Hr as [|r replies -> Hr]; cbn [next_reply]; by apply IH.
Qed.

Lemma swap_lookup i j (l : list string) x y : l !! i = Some x → l !! j = Some y → i ≠ j → swap i j l !! j = Some x.
Proof.
  intros Hi Hj Hne. unfold swap. rewrite Hi, Hj. rewrite list_lookup_insert_eq; [done|].
  rewrite length_insert. by eapply lookup_lt_Some.
Qed.

(** A move the gateway accepts, and a poll that fails after it. *)
Lemma move_then_failed_poll t step d replies target nodes metrics now :
  move_target t step d = Some target → Forall (λ r, r = None) replies →
  d_poll_in_progress d = false → client_errors nodes metrics ≠ [] →
  let d' := dash_run [MoveNode t step replies; PollBegin; PollEnd t nodes metrics now] d in
  shown_rows d' = shown_rows d ∧ d_node_row_order d' = swap (cursor_row t) target (d_node_row_order d).
Proof.
  intros Hm Hrep Hp Herr. cbn [dash_run foldl dash_step]. unfold move_selected_node. rewrite Hm.
  pose proof (send_updates_accepted (position_updates (d_nodes_by_id d) (swap (cursor_row t) target (d_node_row_order d))) _ Hrep) as Hs.
  destruct (send_updates _ _ _) as [kind w]. simpl in Hs. subst kind. cbn [fst].
  unfold poll_begin. cbn [d_poll_in_progress add_ui Dashboard.set_rows]. rewrite Hp.
  cbn [default from_option d_poll_in_progress set_progress]. unfold id at 1. cbn [d_poll_in_progress set_progress].
  unfold poll_end. destruct (client_errors nodes metrics) as [|first rest]; [done|].
  split; [|done]. set (m := default first _).
  transitivity (shown_rows (add_ui (ShowBanner m) (add_ui (MoveCursor target) d))); [done|]. by rewrite !shown_rows_add.
Qed.

(** After a move whose poll fails the keys act on another host than the one under the
    cursor.  The move reorders the dashboard's own list and moves the cursor at once, but the
    rows stay until a poll succeeds; meanwhile the removal dialog names the host that was
    moved, while the row under the cursor shows the one it was swapped with. *)
Theorem failed_poll_misleads t step d d' target replies nodes metrics now :
  rows_shown d → true_reading t d → NoDup (d_node_row_order d) → d_poll_in_progress d = false →
  (step = 1 ∨ step = -1)%Z →
  move_target t step d = Some target → Forall (λ r, r = None) replies →
  client_errors nodes metrics ≠ [] →
  d' = dash_run [MoveNode t step replies; PollBegin; PollEnd t nodes metrics now] d →
  ∃ moved other cells, moved ≠ other ∧ d_node_row_order d !! cursor_row t = Some moved ∧
    shown_rows d' !! target = Some cells ∧ head cells = Some (plain_text other) ∧
    action_remove_node {| cursor_row := target; row_count := row_count t |} d' = Ret (Some (RemoveScreen moved)).
Proof.
  intros Hs [Hc Hr] Hnd Hp Hstep Hm Hrep Herr ->. pose proof (rows_shown_length _ Hs) as Hlen.
  destruct (move_target_bounds _ _ _ _ Hm) as (Hne & Htl & Ht). specialize (Hr Hne).
  destruct (move_then_failed_poll t step d replies target nodes metrics now Hm Hrep Hp Herr) as [Erows Eorder].
  destruct (lookup_lt_is_Some_2 (d_node_row_order d) target) as [other Hother]; [done|].
  destruct (lookup_lt_is_Some_2 (d_node_row_order d) (cursor_row t)) as [moved Hmoved]; [lia|].
  destruct (lookup_lt_is_Some_2 (shown_rows d) target) as [cells Hcells]; [lia|].
  exists moved, other, cells. rewrite Erows. unfold action_remove_node, cursor_host. cbn [row_count cursor_row].
  rewrite Eorder, bool_decide_eq_false_2 by done. rewrite (swap_lookup _ _ _ _ _ Hmoved Hother) by lia.
  split_and!; [|done|done| |done].
  - intros ->. pose proof (NoDup_lookup _ _ _ _ Hnd Hmoved Hother). lia.
  - assert (Hl : head <$> (shown_rows d !! target) = Some ∘ plain_text <$> (d_node_row_order d !! target))
      by (rewrite <-!list_lookup_fmap; by rewrite Hs).
    rewrite Hcells, Hother in Hl. by injection Hl.
Qed.

(** ** What the gateway makes of a screen *)

(** A host with the fields of a form in place of its own, but at its own place of the order. *)
Definition edited (fields : FormFields) (now : datetime) (h : HostInfo) : HostInfo :=
  {| host_id := host_id h; capabilities := with_position (position (capabilities h)) (fields_capabilities fields);
     capacity := fields_capacity fields; in_flight := in_flight h; last_seen := now |}.

Lemma update_reaches_host id fields w h :
  reg_wf (w_registry w) → lookup_host (w_registry w) id = Some h →
  ∃ w', client_update_node id fields Delivered w = (None, w') ∧ reg_wf (w_registry w') ∧
    host_id <$> listed_hosts w' = host_id <$> listed_hosts w ∧
    ∀ id', lookup_host (w_registry w') id' =
      if decide (id = id') then Some (edited fields (w_now w) h) else lookup_host (w_registry w) id'.
Proof.
  intros Hwf Hh. unfold client_update_node, client_request. rewrite (update_node_known _ _ _ _ Hwf Hh).
  eexists. split; [reflexivity|]. unfold listed_hosts. cbn [w_registry set_registry]. split_and!.
  - by apply register_wf.
  - rewrite listed_after_register; [|done|by rewrite Hh]. by rewrite Hh, app_nil_r.
  - intros id'. rewrite lookup_register by done. case_decide; [|done]. rewrite Hh. f_equal.
    destruct (wf_lookup _ _ _ Hwf Hh) as (_ & _ & _ & <-). done.
Qed.

Lemma press_save form fields : collect_fields form = inr fields → press SaveButton form = (form, Some (Some fields)).
Proof. intros E. unfold press. by rewrite E. Qed.

Definition over (d : Dash) (s : screen) (w : World) : Console := {| co_dash := d; co_screen := Some s; co_world := w |}.

Lemma save_pressed id form fields d w :
  collect_fields form = inr fields →
  form_pressed SaveButton Delivered (over d (FormScreen (Some id) form) w) =
    close_with (client_update_node id fields Delivered w) (over d (FormScreen (Some id) form) w).
Proof. intros E. unfold form_pressed, over. cbn [co_screen co_world]. by rewrite (press_save _ _ E). Qed.

(** A saved form reaches the gateway as it is.  When the form's fields are valid and the
    request arrives, the host has exactly the form's values, whatever it had before,
    except its place in the order and the requests it runs, which stay; no other host
    changes, the listing keeps its order, and the dashboard polls.  If the host has been
    removed since, nothing changes and the banner says so. *)
Theorem saved_form_reaches_gateway id form fields d w :
  reg_wf (w_registry w) → collect_fields form = inr fields →
  let c := form_pressed SaveButton Delivered (over d (FormScreen (Some id) form) w) in
  co_screen c = None ∧
  match lookup_host (w_registry w) id with
  | None => co_world c = w ∧ co_dash c = add_ui (ShowBanner "orchestrator error, retrying") d
  | Some h =>
      co_dash c = default d (poll_begin d) ∧ host_id <$> listed_hosts (co_world c) = host_id <$> listed_hosts w ∧
      ∀ id', lookup_host (w_registry (co_world c)) id' =
        if decide (id = id') then Some (edited fields (w_now w) h) else lookup_host (w_registry w) id'
  end.
Proof.
  intros Hwf Hf c. subst c. rewrite (save_pressed _ _ _ _ _ Hf). split; [done|].
  destruct (lookup_host (w_registry w) id) as [h|] eqn:E.
  - destruct (update_reaches_host id fields w h Hwf E) as (w' & -> & _ & Hl & Hlook). done.
  - unfold client_update_node, client_request. by rewrite update_node_unknown.
Qed.

(** The form is the last writer.  A form opened on what the listing showed and saved
    untouched undoes every change another client has made to that host in between, its
    place in the order apart: the form sends all its fields, not the ones the operator
    changed. *)
Theorem stale_form_undoes_update id h u node form fields d w r w1 :
  reg_wf (w_registry w) → lookup_host (w_registry w) id = Some h →
  shows_capabilities node (capabilities h) (capacity h) → editable (capabilities h) (capacity h) = true →
  open_form FormEdit node = Some form → collect_fields form = inr fields →
  update_node id u w = (r, w1) →
  let c := form_pressed SaveButton Delivered (over d (FormScreen (Some id) form) w1) in
  ∃ h', lookup_host (w_registry (co_world c)) id = Some h' ∧ capacity h' = capacity h ∧
    capabilities h' = with_position (position (replace_capabilities u (capabilities h))) (capabilities h).
Proof.
  intros Hwf Hh Hs He Ho Hf Hu c. subst c. rewrite (save_pressed _ _ _ _ _ Hf).
  rewrite (update_node_known _ _ _ _ Hwf Hh) in Hu. injection Hu as <- <-.
  destruct (untouched_form _ _ _ Hs He) as (form' & fields' & Ho' & Hf' & Hcap & Hn).
  assert (form' = form) as -> by congruence. assert (fields' = fields) as -> by congruence. clear Ho' Hf'.
  set (w1 := set_registry _ w). assert (Hwf1 : reg_wf (w_registry w1)) by by apply register_wf.
  pose proof (lookup_register (w_registry w) id (replace_capabilities u (capabilities h)) (replace_capacity u (capacity h))
    (w_now w) id Hwf) as Hh1. rewrite decide_True in Hh1 by done.
  destruct (update_reaches_host id fields w1 _ Hwf1 Hh1) as (w' & -> & _ & _ & Hlook).
  eexists. split; [rewrite Hlook, decide_True by done; reflexivity|].
  split; [exact (Hn (capacity h))|exact (Hcap (replace_capabilities u (capabilities h)))].
Qed.

Definition handled_by_gateway (how : delivery) : bool :=
  match how with Delivered => true | Denied _ => false | TransportFailed _ handled => handled end.

(** Nothing is removed without a confirmation.  A button other than the confirming one and
    the escape key change nothing at all; the confirming button removes the host of the dialog
    and no other, if the request is handled, and the dashboard then polls or shows the error
    of the request, which for a lost answer leaves the operator to find out by the next poll. *)
Theorem removal_needs_confirmation id button how d w :
  reg_wf (w_registry w) →
  let c := removal_pressed button how (over d (RemoveScreen id) w) in
  co_screen c = None ∧
  (button ≠ "confirm" → c = escape_pressed (over d (RemoveScreen id) w) ∧ co_world c = w ∧ co_dash c = d) ∧
  (button = "confirm" →
     (∀ id', lookup_host (w_registry (co_world c)) id' =
        if decide (id = id' ∧ handled_by_gateway how = true) then None else lookup_host (w_registry w) id') ∧
     co_dash c = after_request match how with
                               | Delivered => None
                               | Denied status => raise_for_error_status status
                               | TransportFailed e _ => Some (transport_error e)
                               end d).
Proof.
  intros Hwf c. subst c. unfold removal_pressed, confirm_removal. cbn [co_screen over].
  case_bool_decide as Hb; (split; [done|]); split; intros H; try done. split; [|by destruct how].
  intros id'. cbn [co_world close_with]. destruct how as [|status|e [|]]; cbn [handled_by_gateway].
  - etransitivity; [exact (lookup_deregister _ _ _ Hwf)|]. destruct (decide (id = id')), (decide (id = id' ∧ true = true)); tauto.
  - by rewrite decide_False by (by intros [_ ?]).
  - etransitivity; [exact (lookup_deregister _ _ _ Hwf)|]. destruct (decide (id = id')), (decide (id = id' ∧ true = true)); tauto.
  - by rewrite decide_False by (by intros [_ ?]).
Qed.

(** ** Concrete runs *)

(** Three rows, the cursor on the last one. *)
Definition last_of_three : table_reading := {| cursor_row := 2; row_count := 3 |}.

Definition three_shown : list dash_event :=
  [PollBegin; PollEnd sample_reading (sample_answer ["a"; "b"; "c"]) (Answered "") 0].

Definition three_dash : Dash := dash_run three_shown Dash_new.

Lemma three_shown_settled : settled three_shown.
Proof.
  exists three_shown, []. split_and!; [done|done|]. right.
  eexists [PollBegin], sample_reading, (sample_answer ["a"; "b"; "c"]), (Answered ""), 0%Z. by split_and!.
Qed.

Lemma three_rows_shown : length (shown_rows three_dash) = 3%nat ∧ d_node_row_order three_dash = ["a"; "b"; "c"].
Proof. by vm_compute. Qed.

Lemma last_reading : true_reading last_of_three three_dash.
Proof. split; [symmetry; apply three_rows_shown|simpl; lia]. Qed.

(** Three different hosts: the row under the cursor, the dialog and the form are of the third entry. *)
Lemma actions_hit_the_row_witness :
  ∃ node, node ∈ last_listing three_shown Dash_new [] ∧ node_host_id node = Ret "c" ∧
    action_remove_node last_of_three three_dash = Ret (Some (RemoveScreen "c")) ∧
    action_edit_node last_of_three three_dash = match open_form FormEdit node with
                                                | Some form => Ret (Some (FormScreen (Some "c") form))
                                                | None => Raise FormTypeError
                                                end.
Proof.
  pose proof (actions_hit_the_row three_shown last_of_three three_shown_settled last_reading) as H.
  fold three_dash in H. cbv zeta in H. destruct (shown_rows three_dash !! cursor_row last_of_three) as [cells|] eqn:E.
  - destruct H as (parsed & rates & id & node & kept & Hin & [Hid _] & _ & _ & _ & _ & Hu & Hr & He).
    assert (id = "c") as -> by (clear -Hr; vm_compute in Hr; by injection Hr).
    assert (Eu : kept = node).
    { apply Hu. intros k. rewrite (proj2 three_rows_shown). clear. intros Hk. destruct k as [|[|[|k]]];
        [discriminate Hk|discriminate Hk|reflexivity|discriminate Hk]. }
    subst kept. exists node. exact (conj Hin (conj Hid (conj Hr He))).
  - exfalso. apply lookup_ge_None in E. rewrite (proj1 three_rows_shown) in E. simpl in E. lia.
Defined.

(** ["c"] is moved above ["b"] and the poll after it times out. *)
Definition timed_out : Dash :=
  dash_run [MoveNode last_of_three (-1) []; PollBegin;
            PollEnd last_of_three (ClientFailed "timeout") (ClientFailed "timeout") 0] three_dash.

Lemma failed_poll_misleads_witness :
  ∃ cells, shown_rows timed_out !! 1%nat = Some cells ∧ head cells ≠ Some (plain_text "c") ∧
    action_remove_node {| cursor_row := 1; row_count := 3 |} timed_out = Ret (Some (RemoveScreen "c")).
Proof.
  destruct (failed_poll_misleads last_of_three (-1) three_dash timed_out 1 [] (ClientFailed "timeout") (ClientFailed "timeout") 0
    (table_ok_shown _ _ (settled_table _ three_shown_settled)) last_reading) as (moved & other & cells & Hne & Hm & Hc & Hh & Hr).
  - rewrite (proj2 three_rows_shown). vm_decide.
  - reflexivity.
  - by right.
  - by vm_compute.
  - done.
  - done.
  - reflexivity.
  - rewrite (proj2 three_rows_shown) in Hm. injection Hm as <-.
    exists cells. split; [exact Hc|]. split; [|exact Hr]. rewrite Hh. intros H. apply Hne. clear -H. by injection H.
Defined.

(** A gateway with one host, and the form opened on it. *)
Definition one_host : World :=
  {| w_registry := register "gpu" sample_capabilities {| max_concurrent_requests := 3 |} 0 empty_registry;
     w_health := HealthMonitor_new; w_book := NodeLeaseBook_new; w_backends := ∅; w_external_loads := ∅;
     w_metrics := MetricsRegistry_new (td_seconds 60);
     w_completions := {| cl_window := td_seconds 60; cl_started_at := 0; cl_completions := ∅ |};
     w_now := 9; w_lease_now := 9 |}.

Lemma one_host_wf : reg_wf (w_registry one_host).
Proof. apply register_wf, empty_registry_wf. Qed.

Definition gpu_entry : json := sample_entry sample_capabilities {| max_concurrent_requests := 3 |}.

Lemma saved_form_reaches_gateway_witness :
  ∃ form fields, open_form FormEdit gpu_entry = Some form ∧ collect_fields form = inr fields ∧
    co_screen (form_pressed SaveButton Delivered (over Dash_new (FormScreen (Some "gone") form) one_host)) = None ∧
    co_world (form_pressed SaveButton Delivered (over Dash_new (FormScreen (Some "gone") form) one_host)) = one_host.
Proof.
  destruct (untouched_form gpu_entry sample_capabilities {| max_concurrent_requests := 3 |}) as (form & fields & Eo & Ec & _);
    [split_and!; reflexivity|by vm_compute|].
  exists form, fields. split; [done|]. split; [done|].
  destruct (saved_form_reaches_gateway "gone" form fields Dash_new one_host one_host_wf Ec) as [Hs Hw].
  split; [exact Hs|]. exact (proj1 Hw).
Defined.

(** Another client takes the allow list away while the form is open. *)
Definition open_to_all : NodeUpdate :=
  {| up_backend_type := None; up_context_window := None; up_base_url := None; up_max_concurrent_requests := None;
     up_allowed_models := Some None; up_memory_budget_gb := None; up_model_sizes_gb := None; up_model_aliases := None;
     up_position := None |}.

Lemma stale_form_undoes_update_witness :
  ∃ form h, open_form FormEdit gpu_entry = Some form ∧
    lookup_host (w_registry (co_world (form_pressed SaveButton Delivered
      (over Dash_new (FormScreen (Some "gpu") form) (update_node "gpu" open_to_all one_host).2)))) "gpu" = Some h ∧
    allowed_models (capabilities h) = Some ["qwen"; "mistral 7b"].
Proof.
  destruct (untouched_form gpu_entry sample_capabilities {| max_concurrent_requests := 3 |}) as (form & fields & Eo & Ec & _);
    [split_and!; reflexivity|by vm_compute|].
  pose (h := new_info "gpu" sample_capabilities {| max_concurrent_requests := 3 |} 0 None).
  assert (Eh : lookup_host (w_registry one_host) "gpu" = Some h) by (vm_compute; reflexivity).
  assert (Hcap : capabilities h = sample_capabilities) by reflexivity.
  assert (Hn : capacity h = {| max_concurrent_requests := 3 |}) by reflexivity. clearbody h.
  assert (Hs : shows_capabilities gpu_entry (capabilities h) (capacity h)) by (rewrite Hcap, Hn; split_and!; reflexivity).
  assert (He : editable (capabilities h) (capacity h) = true) by (rewrite Hcap, Hn; by vm_compute).
  pose proof (stale_form_undoes_update "gpu" h open_to_all gpu_entry form fields Dash_new one_host _ _ one_host_wf Eh
    Hs He Eo Ec (surjective_pairing (update_node "gpu" open_to_all one_host))) as H. cbv zeta in H.
  destruct H as (h' & Hh' & _ & Hc'). exists form, h'. split; [exact Eo|]. split; [exact Hh'|]. by rewrite Hc', Hcap.
Defined.

Lemma removal_needs_confirmation_witness :
  lookup_host (w_registry (co_world (removal_pressed "confirm" (TransportFailed OtherTimeout true)
    (over Dash_new (RemoveScreen "gpu") one_host)))) "gpu" = None.
Proof.
  destruct (removal_needs_confirmation "gpu" "confirm" (TransportFailed OtherTimeout true) Dash_new one_host one_host_wf)
    as (_ & _ & H). destruct (H eq_refl) as [Hl _]. rewrite Hl. by rewrite decide_True.
Defined.
