(* ===== verification/Demo.v ===== *)
(** * The demo workload ([scripts/demo_workload.py])

    A burst of chat requests sent by [--concurrency] workers that share one counter.  A worker
    takes the next index, posts its prompt, retries a lost connection twice after a pause, and
    records the outcome under the backend that answered; the workers interleave at these
    awaits and nowhere else, which the events of [step] say.  What is printed is kept as
    lines of text; the random choices are arguments, and [dm_posts] remembers the requests
    sent, for the theorems. *)

From S2P Require Import Prelude.
From S2P Require Import PyFloat.
From S2P Require Import PyStr.
From S2P Require Import PyNum.
From S2P Require Import PyDict.
From S2P Require Import PyJson.
From S2P Require Import Registry.
From S2P Require Import LoadProbe.
From S2P Require Import Leases.
From S2P Require Import LoadCharts.
From S2P Require Import DashboardView.
From S2P Require Import Nodes.
From S2P Require Import Dashboard.
From S2P Require Import DashboardGateway.

#[local] Open Scope list_scope.

(** ** Constants and text *)

Definition QUESTIONS : list string :=
  ["What's a fun fact about octopuses?"; "In one sentence, why is the sky blue?";
   "What's the tallest mountain in Africa?"; "Give me a quick tip for staying focused while coding.";
   "What year did the Berlin Wall fall?"; "Explain photosynthesis in one sentence.";
   "What's a good substitute for buttermilk in baking?"; "How do bees communicate with each other?";
   "What's the capital of New Zealand?"; "Why do cats purr?"; "What's one benefit of drinking green tea?";
   "How does a jet engine work, briefly?"; "What's the origin of the word 'quarantine'?";
   "Name a famous painting by Vincent van Gogh."; "What causes a volcano to erupt?";
   "What's a simple way to reduce plastic waste at home?"; "How far is the Moon from Earth, roughly?";
   "What's the difference between a crocodile and an alligator?"; "Why do leaves change color in autumn?";
   "What's a common ingredient in Thai green curry?"; "How do airplanes stay in the air?";
   "What's the boiling point of water at sea level?"; "Name one benefit of regular exercise.";
   "What's the largest desert in the world?"; "How do vaccines work, briefly?";
   "What's a fun fact about the Great Wall of China?"; "Why does the ocean look blue?";
   "What's the fastest land animal?"; "How do solar panels generate electricity?"; "What's one tip for better sleep?"].

(** A terminal escape sequence. *)
Definition escape (code : string) : string := String (ascii_of_N 27) ("[" +:+ code +:+ "m").

Definition NODE_COLORS : list string := escape <$> ["36"; "35"; "33"; "32"; "34"; "91"].
Definition RESET : string := escape "0".
Definition DIM : string := escape "2".
Definition BOLD : string := escape "1".
Definition GREEN : string := escape "32".
Definition RED : string := escape "31".
Definition YELLOW : string := escape "33".
Definition STATUS_COLORS : dict string string := [("online", GREEN); ("offline", RED); ("unknown", YELLOW)].

(** [s.split()]: [acc] is the word being read. *)
Fixpoint str_words_from (acc s : string) : list string :=
  let done := if bool_decide (acc = "") then [] else [acc] in
  match s with
  | EmptyString => done
  | String c s => if py_isspace c then done ++ str_words_from "" s else str_words_from (acc +:+ String c "") s
  end.
Definition str_words (s : string) : list string := str_words_from "" s.

Definition truncate (limit : nat) (text : string) : string :=
  let text := str_join " " (str_words text) in
  if (String.length text <=? limit)%nat then text else str_take (limit - 1) text +:+ "…".

Fixpoint spaces (n : nat) : string := match n with O => "" | S n => " " +:+ spaces n end.

(** [f"{s:<w}"] and [f"{s:>w}"] *)
Definition ljust (w : nat) (s : string) : string := s +:+ spaces (w - String.length s).
Definition rjust (w : nat) (s : string) : string := spaces (w - String.length s) +:+ s.

(** ** The workers *)

(** What [client.post] comes back with: [body] is [None] when it is not JSON. *)
Inductive post_reply :=
  | Response (status : Z) (backend_header : option string) (body : option json) (body_text : string)
  | TransportError (detail : string).

Inductive worker :=
  | Waiting
  | Posting (index : Z) (prompt : string) (attempt : nat)
  | BackingOff (index : Z) (prompt : string) (attempt : nat)
  | Done
  | Crashed.

Record Demo := {
  dm_counter : Z;
  dm_per_node : dict string (list bool);
  dm_workers : list worker;
  dm_out : list string;
  dm_posts : list (Z * json);
}.

Definition max_retries : nat := 2.

(** [asyncio.gather(...)] over [range(concurrency)] workers, each before its start delay. *)
Definition start_burst (concurrency : Z) (out : list string) : Demo :=
  {| dm_counter := 0; dm_per_node := []; dm_workers := replicate (Z.to_nat concurrency) Waiting; dm_out := out;
     dm_posts := [] |}.

Definition set_worker (i : nat) (x : worker) (s : Demo) : Demo :=
  {| dm_counter := dm_counter s; dm_per_node := dm_per_node s; dm_workers := <[i := x]> (dm_workers s);
     dm_out := dm_out s; dm_posts := dm_posts s |}.
Definition print (lines : list string) (s : Demo) : Demo :=
  {| dm_counter := dm_counter s; dm_per_node := dm_per_node s; dm_workers := dm_workers s;
     dm_out := dm_out s ++ lines; dm_posts := dm_posts s |}.

(** [per_node.setdefault(backend_id, []).append(success)] *)
Definition record_outcome (backend_id : string) (success : bool) (s : Demo) : Demo :=
  {| dm_counter := dm_counter s;
     dm_per_node := d_set (dm_per_node s) backend_id (default [] (d_get (dm_per_node s) backend_id) ++ [success]);
     dm_workers := dm_workers s; dm_out := dm_out s; dm_posts := dm_posts s |}.

Section burst.
(** The arguments, the shuffled questions, and the question drawn for an index beyond them. *)
Context (model : string) (fixed_prompt : option string) (pool : list string) (choice : Z → string) (total : Z)
  (node_colors : dict string string) (use_color : bool).

(** [_c] *)
Definition paint (text code : string) : string := if use_color then code +:+ text +:+ RESET else text.

(** [_next_prompt], for an index that is not negative *)
Definition next_prompt (index : Z) : string :=
  match fixed_prompt with
  | Some p => p
  | None => match pool !! Z.to_nat index with Some p => p | None => choice index end
  end.

Definition chat_body (prompt : string) : json :=
  JObj [("model", JStr model); ("messages", JList [JObj [("role", JStr "user"); ("content", JStr prompt)]])].

(** [client.post(...)] is sent, and the worker waits for it. *)
Definition post (i : nat) (index : Z) (prompt : string) (attempt : nat) (s : Demo) : Demo :=
  set_worker i (Posting index prompt attempt)
    {| dm_counter := dm_counter s; dm_per_node := dm_per_node s; dm_workers := dm_workers s; dm_out := dm_out s;
       dm_posts := dm_posts s ++ [(index, chat_body prompt)] |}.

(** The head of the loop of [_worker]. *)
Definition next_request (i : nat) (s : Demo) : Demo :=
  if (dm_counter s <? total)%Z then
    let index := dm_counter s in
    post i index (next_prompt index) 0
      {| dm_counter := index + 1; dm_per_node := dm_per_node s; dm_workers := dm_workers s; dm_out := dm_out s;
         dm_posts := dm_posts s |}
  else set_worker i Done s.

(** [response.json()["choices"][0]["message"]["content"]] *)
Definition answer_content (body : json) : option json :=
  choices ← j_get body "choices";
  first ← match choices with JList l => head l | _ => None end;
  message ← j_get first "message";
  j_get message "content".

(** [response.json().get("error", {}).get("code", response.text)] *)
Definition error_detail (body : json) (body_text : string) : option string :=
  match body with
  | JObj o =>
      match default (JObj []) (d_get o "error") with
      | JObj e => Some (match d_get e "code" with Some code => py_str code | None => body_text end)
      | _ => None
      end
  | _ => None
  end.

Definition mark (sign code : string) (index : Z) : string := paint sign code +:+ " #" +:+ pad 3 index +:+ "  ".

(** The rest of [_send_one] after a response: the lines printed, and the outcome, or [None] where
    it raises. *)
Definition read_response (index : Z) (prompt : string) (status : Z) (backend_id : string) (body : option json)
    (body_text : string) (elapsed_ms : float) : list string * option bool :=
  let label := paint (ljust 20 backend_id) (default "" (d_get node_colors backend_id)) in
  let timed sign code := mark sign code index +:+ label +:+ "  " +:+ rjust 6 (format_fixed 0 elapsed_ms) +:+ "ms" in
  if (status =? 200)%Z then
    match body ≫= answer_content with
    | None => ([], None)
    | Some answer =>
        let lines := [timed "✓" GREEN; "    " +:+ paint "Q" DIM +:+ " " +:+ truncate 70 prompt] in
        match answer with
        | JStr text => (lines ++ ["    " +:+ paint "A" DIM +:+ " " +:+ truncate 70 text], Some true)
        | _ => (lines, None)
        end
    end
  else
    match body ≫= λ b, error_detail b body_text with
    | None => ([], None)
    | Some detail =>
        ([timed "✗" RED +:+ "  " +:+ paint ("status=" +:+ str_of_Z status +:+ " (" +:+ detail +:+ ")") RED], Some false)
    end.

Definition connection_line (index : Z) (detail : string) : string :=
  mark "✗" RED index +:+ paint ("connection error: " +:+ detail) RED.

(** What a worker waits for: its start delay, its response, the end of its pause. *)
Inductive event :=
  | Started (i : nat)
  | Replied (i : nat) (reply : post_reply) (elapsed_ms : float)
  | Resumed (i : nat).

(** A worker runs from one [await] to the next; [None]: it does not wait for this. *)
Definition step (e : event) (s : Demo) : option Demo :=
  match e with
  | Started i =>
      match dm_workers s !! i with Some Waiting => Some (next_request i s) | _ => None end
  | Replied i reply elapsed_ms =>
      match dm_workers s !! i with
      | Some (Posting index prompt attempt) =>
          match reply with
          | TransportError detail =>
              if bool_decide (attempt = max_retries)
              then Some (next_request i (record_outcome "?" false (print [connection_line index detail] s)))
              else Some (set_worker i (BackingOff index prompt attempt) s)
          | Response status backend_header body body_text =>
              let backend_id := default "?" backend_header in
              let '(lines, outcome) := read_response index prompt status backend_id body body_text elapsed_ms in
              match outcome with
              | Some success => Some (next_request i (record_outcome backend_id success (print lines s)))
              | None => Some (set_worker i Crashed (print lines s))
              end
          end
      | _ => None
      end
  | Resumed i =>
      match dm_workers s !! i with
      | Some (BackingOff index prompt attempt) => Some (post i index prompt (S attempt) s)
      | _ => None
      end
  end.

Fixpoint run (es : list event) (s : Demo) : option Demo :=
  match es with [] => Some s | e :: es => step e s ≫= run es end.
End burst.

(** ** Before and after the burst *)

(** The options given on the command line; [parse_args] fills in the others. *)
Record Options := {
  op_base_url : option string;
  op_api_key : option string;
  op_model : string;
  op_concurrency : option Z;
  op_count : option Z;
  op_prompt : option string;
}.

Record Args := {
  base_url : string;
  api_key : option string;
  model : string;
  concurrency : Z;
  count : Z;
  prompt : option string;
}.

Definition DEFAULT_BASE_URL : string := "http://localhost:8080".

Definition parse_args (env : gmap string string) (o : Options) : Args :=
  {| base_url := default (default DEFAULT_BASE_URL (env !! "ORCHESTRATOR_BASE_URL")) (op_base_url o);
     api_key := match op_api_key o with Some k => Some k | None => env !! "ORCHESTRATOR_API_KEY" end;
     model := op_model o; concurrency := default 6%Z (op_concurrency o); count := default 30%Z (op_count o);
     prompt := op_prompt o |}.

(** A [GET]: a response with its JSON body, [TransportError], or another [HTTPError]; the text is
    the exception's. *)
Inductive get_reply :=
  | GotResponse (status : Z) (body : option json) (error_text : string)
  | GetTransportError (text : string)
  | GetHTTPError (text : string).

(** [_trigger_health_check]: the [HTTPError] that leaves it. *)
Definition trigger_health_check (r : get_reply) : option string :=
  match r with GetHTTPError text => Some text | _ => None end.

(** What is raised: an [HTTPError], or an exception [run] does not handle. *)
Inductive demo_exn := HTTPError (text : string) | OtherError.

(** [_list_nodes] *)
Definition list_nodes_reply (r : get_reply) : outcome demo_exn (list json) :=
  match r with
  | GetTransportError text | GetHTTPError text => Raise (HTTPError text)
  | GotResponse status body error_text =>
      if negb (status / 100 =? 2)%Z then Raise (HTTPError error_text)
      else match body ≫= λ b, j_get b "nodes" with
           | Some (JList l) => Ret l
           | Some (JStr "") | Some (JObj []) => Ret []
           | _ => Raise OtherError
           end
  end.

(** [str(node[key])] *)
Definition node_str (node : json) (key : string) : option string := py_str <$> j_get node key.

Definition nth_color (i : nat) : string := default "" (NODE_COLORS !! (i mod length NODE_COLORS)).

Section run_demo.
Context (use_color : bool).

(** A line of the list of registered nodes; [None] where a key is missing. *)
Definition node_line (node_colors : dict string string) (node : json) : option string :=
  host_id ← node_str node "host_id";
  status ← node_str node "status";
  max_concurrent ← node_str node "max_concurrent_requests";
  let status_emoji := default "⚪" (d_get [("online", "🟢"); ("offline", "🔴")] status) in
  Some ("  " +:+ status_emoji +:+ " " +:+ paint use_color (ljust 20 host_id) (default "" (d_get node_colors host_id)) +:+ " " +:+
        paint use_color ("status=" +:+ ljust 8 status) (default "" (d_get STATUS_COLORS status)) +:+
        " max_concurrent=" +:+ max_concurrent).

(** How [run] goes up to the burst. *)
Inductive demo_start :=
  | Exited (code : Z) (err : string)
  | Raised
  | Began (node_ids : list string) (node_colors : dict string string) (out : list string).

Definition begin_run (a : Args) (health nodes : get_reply) : demo_start :=
  match api_key a with
  | None | Some "" => Exited 1 "error: no API key. Pass --api-key or set ORCHESTRATOR_API_KEY."
  | Some _ =>
      let unreachable text := Exited 1 ("error: could not reach orchestrator at " +:+ base_url a +:+ ": " +:+ text) in
      match trigger_health_check health with
      | Some text => unreachable text
      | None =>
          match list_nodes_reply nodes with
          | Raise (HTTPError text) => unreachable text
          | Raise OtherError => Raised
          | Ret [] => Exited 1 "error: no nodes registered on the orchestrator"
          | Ret nodes =>
              match mapM (λ node, node_str node "host_id") nodes with
              | None => Raised
              | Some node_ids =>
                  let node_colors := d_of_list (zip node_ids (nth_color <$> seq 0 (length node_ids))) in
                  match mapM (node_line node_colors) nodes with
                  | None => Raised
                  | Some lines =>
                      Began node_ids node_colors
                        (["🚀 Registered nodes (" +:+ str_of_Z (Z.of_nat (length nodes)) +:+ "):"] ++ lines ++
                         ["";
                          "📡 Sending " +:+ str_of_Z (count a) +:+ " requests with " +:+ str_of_Z (concurrency a) +:+
                          " concurrent in flight — watch `llm-home-lab-tui` to see them spill across nodes."; ""])
                  end
              end
          end
      end
  end.

(** [sum(outcomes)] *)
Definition successes (outcomes : list bool) : Z := Z.of_nat (length (filter (λ b, b = true) outcomes)).
Definition requests (outcomes : list bool) : Z := Z.of_nat (length outcomes).

(** The rows of [_print_summary]: the node, its requests and how many succeeded. *)
Definition summary_rows (node_ids : list string) (per_node : dict string (list bool)) : list (string * Z * Z) :=
  omap (λ id, match default [] (d_get per_node id) with
              | [] => None
              | outcomes => Some (id, requests outcomes, successes outcomes)
              end) (node_ids ++ ["?"]).

Definition summary_line (node_colors : dict string string) (row : string * Z * Z) : string :=
  let '(id, n, ok) := row in
  "  " +:+ paint use_color (ljust 20 id) (default "" (d_get node_colors id)) +:+ "  " +:+
  rjust 3 (str_of_Z n) +:+ " requests   " +:+ rjust 3 (str_of_Z ok) +:+ " ok   " +:+ rjust 3 (str_of_Z (n - ok)) +:+ " failed".

Definition total_requests (per_node : dict string (list bool)) : Z :=
  Z.of_nat (sum_list_with length (d_values per_node)).
Definition total_succeeded (per_node : dict string (list bool)) : Z :=
  Z.of_nat (sum_list_with (λ o, length (filter (λ b, b = true) o)) (d_values per_node)).

(** [total / elapsed if elapsed else 0.0]; [None]: the division raises. *)
Definition request_rate (n : Z) (elapsed : float) : option float :=
  if SFeqb elapsed f_zero then Some f_zero
  else match f_of_int n with Ret x => Some (f_div x elapsed) | Raise _ => None end.

(** The rest of [run], when every worker has ended without an exception. *)
Definition end_run (node_ids : list string) (node_colors : dict string string) (elapsed : float) (s : Demo)
    : option (Z * list string) :=
  rate ← request_rate (total_requests (dm_per_node s)) elapsed;
  Some (0%Z, dm_out s ++ [""; paint use_color "Per-node summary:" BOLD] ++
             (summary_line node_colors <$> summary_rows node_ids (dm_per_node s)) ++
             ["";
              "✅ Done: " +:+ str_of_Z (total_succeeded (dm_per_node s)) +:+ "/" +:+
              str_of_Z (total_requests (dm_per_node s)) +:+ " succeeded in " +:+ format_fixed 1 elapsed +:+ "s (" +:+
              format_fixed 1 rate +:+ " req/s)"]).
End run_demo.

(** ** The shared counter *)

(** The index a worker is busy with. *)
Definition flight (x : worker) : option Z :=
  match x with Posting k _ _ | BackingOff k _ _ => Some k | _ => None end.
Definition flights (xs : list worker) : list Z := omap flight xs.

#[export] Instance worker_eq_dec : EqDecision worker.
Proof. solve_decision. Defined.

Definition crashes (xs : list worker) : nat := length (filter (λ x, x = Crashed) xs).

(** How often an index was posted. *)
Definition posts_of (k : Z) (s : Demo) : nat := length (filter (λ p, p.1 = k) (dm_posts s)).

Section counter_lemmas.
Context (model : string) (fixed_prompt : option string) (pool : list string) (choice : Z → string) (total : Z)
  (node_colors : dict string string) (use_color : bool).
Abbreviation prompt_of := (next_prompt fixed_prompt pool choice).
Abbreviation do_post := (post model).
Abbreviation do_next := (next_request model fixed_prompt pool choice total).
Abbreviation do_step := (step model fixed_prompt pool choice total node_colors use_color).
Abbreviation do_run := (run model fixed_prompt pool choice total node_colors use_color).

Definition worker_ok (s : Demo) (x : worker) : Prop :=
  match x with
  | Posting k p a => posts_of k s = S a ∧ (a ≤ max_retries)%nat ∧ p = prompt_of k
  | BackingOff k p a => posts_of k s = S a ∧ (a < max_retries)%nat ∧ p = prompt_of k
  | Done => (total ≤ dm_counter s)%Z
  | Waiting | Crashed => True
  end.

Record demo_wf (s : Demo) : Prop := {
  dw_counter : (0 ≤ dm_counter s ≤ Z.max 0 total)%Z;
  dw_flights : NoDup (flights (dm_workers s));
  dw_claimed : Forall (λ k, 0 ≤ k < dm_counter s)%Z (flights (dm_workers s));
  dw_workers : Forall (worker_ok s) (dm_workers s);
  dw_posts : ∀ k, if decide (0 ≤ k < dm_counter s)%Z then (1 ≤ posts_of k s ≤ S max_retries)%nat else posts_of k s = 0%nat;
  dw_bodies : Forall (λ p, p.2 = chat_body model (prompt_of p.1)) (dm_posts s);
  dw_total : dm_counter s = (total_requests (dm_per_node s) + Z.of_nat (length (flights (dm_workers s))) +
                             Z.of_nat (crashes (dm_workers s)))%Z;
  dw_keys : NoDup (d_keys (dm_per_node s));
}.

Lemma insert_middle {A} (l1 l2 : list A) x y : <[length l1 := y]> (l1 ++ x :: l2) = l1 ++ y :: l2.
Proof. induction l1 as [|z l1 IH]; simpl; [done|]. by rewrite IH. Qed.

Lemma worker_split (xs : list worker) i x :
  xs !! i = Some x → ∃ l1 l2, xs = l1 ++ x :: l2 ∧ ∀ y, <[i := y]> xs = l1 ++ y :: l2.
Proof.
  intros Hx. destruct (list_elem_of_split_length _ _ _ Hx) as (l1 & l2 & -> & ->). exists l1, l2.
  split; [done|]. intros y. apply insert_middle.
Qed.

Lemma flights_middle l1 x l2 :
  flights (l1 ++ x :: l2) ≡ₚ match flight x with Some k => [k] | None => [] end ++ flights l1 ++ flights l2.
Proof.
  unfold flights. rewrite omap_app. cbn [omap list_omap]. destruct (flight x); cbn [app]; [|done].
  symmetry. apply Permutation_middle.
Qed.

Lemma flights_length xs : (length (flights xs) ≤ length xs)%nat.
Proof.
  induction xs as [|x xs IH]; [done|].
  change (flights (x :: xs)) with (match flight x with Some k => k :: flights xs | None => flights xs end).
  destruct (flight x); simpl; lia.
Qed.

Lemma crashes_middle l1 x l2 :
  crashes (l1 ++ x :: l2) = (crashes [x] + (crashes l1 + crashes l2))%nat.
Proof. unfold crashes. rewrite filter_app, length_app, filter_cons, filter_cons. repeat case_decide; simpl; lia. Qed.

Lemma start_wf concurrency out : demo_wf (start_burst concurrency out).
Proof.
  assert (Hf : flights (replicate (Z.to_nat concurrency) Waiting) = []) by (by induction (Z.to_nat concurrency)).
  assert (Hc : crashes (replicate (Z.to_nat concurrency) Waiting) = 0%nat).
  { clear Hf. unfold crashes. induction (Z.to_nat concurrency) as [|n IH]; [done|]. cbn [replicate]. rewrite filter_cons_False by done. exact IH. }
  split; cbn [start_burst dm_counter dm_workers dm_per_node dm_posts]; rewrite ?Hf, ?Hc.
  - lia.
  - constructor.
  - constructor.
  - by apply Forall_replicate.
  - intros k. rewrite decide_False by lia. done.
  - constructor.
  - done.
  - constructor.
Qed.

(** What a worker's own move does to the rest: a state in which worker [i] has become [y]. *)
Lemma worker_ok_ext s s' x :
  (∀ k, flight x = Some k → posts_of k s' = posts_of k s) → (dm_counter s ≤ dm_counter s')%Z → worker_ok s x → worker_ok s' x.
Proof. destruct x; simpl; intros Hp Hc; try done; [by rewrite Hp by done|by rewrite Hp by done|lia]. Qed.

Lemma wf_set_worker s i x y :
  demo_wf s → dm_workers s !! i = Some x → worker_ok s y →
  flight y = flight x → crashes [y] = crashes [x] → demo_wf (set_worker i y s).
Proof.
  intros [Hc Hf Hcl Hw Hp Hb Ht Hk] Hx Hy Efl Ecr. destruct (worker_split _ _ _ Hx) as (l1 & l2 & El & Ei).
  assert (Hperm : flights (dm_workers (set_worker i y s)) ≡ₚ flights (dm_workers s)).
  { cbn [dm_workers set_worker]. rewrite Ei, El, !flights_middle. by rewrite Efl. }
  assert (Hcr : crashes (dm_workers (set_worker i y s)) = crashes (dm_workers s)).
  { cbn [dm_workers set_worker]. rewrite Ei, El, !crashes_middle. by rewrite Ecr. }
  split.
  - done.
  - by rewrite Hperm.
  - by rewrite Hperm.
  - cbn [dm_workers set_worker]. by apply Forall_insert.
  - exact Hp.
  - done.
  - by rewrite Hperm, Hcr.
  - done.
Qed.

Lemma total_requests_record (d : dict string (list bool)) b x :
  total_requests (d_set d b (default [] (d_get d b) ++ [x])) = (total_requests d + 1)%Z.
Proof.
  unfold total_requests. enough (sum_list_with length (d_values (d_set d b (default [] (d_get d b) ++ [x]))) =
    S (sum_list_with length (d_values d))) by lia.
  induction d as [|[b' o] d IH]; [done|]. cbn [d_get d_set]. case_decide.
  - unfold d_values. cbn. rewrite length_app. simpl. lia.
  - unfold d_values in *. cbn in *. rewrite IH. lia.
Qed.

(** A worker that has its answer: the outcome is recorded, and the worker is between requests. *)
Lemma wf_recorded s i k p a backend ok lines :
  demo_wf s → dm_workers s !! i = Some (Posting k p a) →
  demo_wf (set_worker i Waiting (record_outcome backend ok (print lines s))).
Proof.
  intros [Hc Hf Hcl Hw Hp Hb Ht Hk] Hx. destruct (worker_split _ _ _ Hx) as (l1 & l2 & El & Ei).
  assert (Hperm : flights (dm_workers s) ≡ₚ k :: flights (<[i := Waiting]> (dm_workers s))).
  { rewrite Ei, El, !flights_middle. done. }
  assert (Hcr : crashes (<[i := Waiting]> (dm_workers s)) = crashes (dm_workers s)).
  { rewrite Ei, El, !crashes_middle. done. }
  rewrite Hperm in Hf, Hcl, Ht. apply NoDup_cons in Hf as [_ Hf]. apply Forall_cons in Hcl as [_ Hcl].
  split; cbn [set_worker record_outcome print dm_counter dm_workers dm_per_node dm_posts].
  - done.
  - done.
  - done.
  - by apply Forall_insert.
  - exact Hp.
  - done.
  - rewrite total_requests_record, Hcr. simpl in Ht. lia.
  - by apply d_keys_set_NoDup.
Qed.

Lemma wf_crashed s i k p a lines :
  demo_wf s → dm_workers s !! i = Some (Posting k p a) → demo_wf (set_worker i Crashed (print lines s)).
Proof.
  intros [Hc Hf Hcl Hw Hp Hb Ht Hk] Hx. destruct (worker_split _ _ _ Hx) as (l1 & l2 & El & Ei).
  assert (Hperm : flights (dm_workers s) ≡ₚ k :: flights (<[i := Crashed]> (dm_workers s))).
  { rewrite Ei, El, !flights_middle. done. }
  assert (Hcr : crashes (<[i := Crashed]> (dm_workers s)) = S (crashes (dm_workers s))).
  { rewrite Ei, El, !crashes_middle. done. }
  rewrite Hperm in Hf, Hcl, Ht. apply NoDup_cons in Hf as [_ Hf]. apply Forall_cons in Hcl as [_ Hcl].
  split; cbn [set_worker print dm_counter dm_workers dm_per_node dm_posts].
  - done.
  - done.
  - done.
  - by apply Forall_insert.
  - exact Hp.
  - done.
  - rewrite Hcr. simpl in Ht. lia.
  - done.
Qed.

Lemma posts_of_post k i j p a s :
  posts_of k (do_post i j p a s) = ((if decide (j = k) then 1 else 0) + posts_of k s)%nat.
Proof.
  unfold posts_of, post. cbn [dm_posts set_worker]. rewrite filter_app, length_app, filter_cons, filter_nil. cbn [fst].
  case_decide; simpl; lia.
Qed.

(** The workers beside the one that holds index [k] are not at [k]. *)
Lemma others_ok s s' l1 x l2 k y :
  dm_workers s = l1 ++ x :: l2 → Forall (worker_ok s) (dm_workers s) → k ∉ flights l1 ++ flights l2 →
  (∀ k', k' ≠ k → posts_of k' s' = posts_of k' s) → (dm_counter s ≤ dm_counter s')%Z → worker_ok s' y →
  Forall (worker_ok s') (l1 ++ y :: l2).
Proof.
  intros -> Hw Hk Hp Hc Hy. apply Forall_app in Hw as [H1 H2]. apply Forall_cons in H2 as [_ H2].
  assert (Hl : ∀ l, (∀ k', k' ∈ flights l → k' ≠ k) → Forall (worker_ok s) l → Forall (worker_ok s') l).
  { intros l Hl Hf. rewrite !Forall_forall in *. intros z Hz. apply (worker_ok_ext s); [|done|by apply Hf].
    intros k' Hk'. apply Hp, Hl. apply list_elem_of_omap. by exists z. }
  apply Forall_app. split; [|constructor; [done|]]; apply Hl; try done; intros k' Hin ->; apply Hk; set_solver.
Qed.

Lemma wf_resumed s i k p a :
  demo_wf s → dm_workers s !! i = Some (BackingOff k p a) → demo_wf (do_post i k p (S a) s).
Proof.
  intros [Hc Hf Hcl Hw Hp Hb Ht Hk] Hx. destruct (worker_split _ _ _ Hx) as (l1 & l2 & El & Ei).
  assert (Hok : worker_ok s (BackingOff k p a)) by (by eapply Forall_lookup_1). destruct Hok as (Hn & Ha & ->).
  assert (Hperm : flights (<[i := Posting k (prompt_of k) (S a)]> (dm_workers s)) ≡ₚ flights (dm_workers s)).
  { rewrite Ei, El, !flights_middle. done. }
  assert (Hcr : crashes (<[i := Posting k (prompt_of k) (S a)]> (dm_workers s)) = crashes (dm_workers s)).
  { rewrite Ei, El, !crashes_middle. done. }
  assert (Hin : (0 ≤ k < dm_counter s)%Z).
  { rewrite Forall_forall in Hcl. apply Hcl. rewrite El, flights_middle. by left. }
  split; unfold post; cbn [set_worker dm_counter dm_workers dm_per_node dm_posts].
  - done.
  - by rewrite Hperm.
  - by rewrite Hperm.
  - rewrite Ei. rewrite El, flights_middle in Hf. apply NoDup_cons in Hf as [Hnk _].
    eapply (others_ok s _ l1 _ l2 k); [done|done|done| |done|].
    + intros k' Hne. pose proof (posts_of_post k' i k (prompt_of k) (S a) s) as E. rewrite decide_False in E by done. exact E.
    + pose proof (posts_of_post k i k (prompt_of k) (S a) s) as E. rewrite decide_True in E by done. split_and!; [|lia|done].
      etransitivity; [exact E|]. lia.
  - intros k'. specialize (Hp k'). pose proof (posts_of_post k' i k (prompt_of k) (S a) s) as E. unfold post in E. rewrite E.
    destruct (decide (k = k')) as [<-|]; [|exact Hp]. rewrite decide_True in Hp |- * by done. lia.
  - apply Forall_app. split; [done|]. by apply Forall_singleton.
  - by rewrite Hperm, Hcr.
  - done.
Qed.

Lemma wf_next s i : demo_wf s → dm_workers s !! i = Some Waiting → demo_wf (do_next i s).
Proof.
  intros Hwf Hx. unfold next_request. destruct (Z.ltb_spec (dm_counter s) total) as [Hlt|Hge].
  2:{ by eapply wf_set_worker. }
  destruct Hwf as [Hc Hf Hcl Hw Hp Hb Ht Hk]. destruct (worker_split _ _ _ Hx) as (l1 & l2 & El & Ei).
  set (k := dm_counter s). set (s1 := {| dm_counter := k + 1 |}).
  assert (Hperm : flights (<[i := Posting k (prompt_of k) 0]> (dm_workers s)) ≡ₚ k :: flights (dm_workers s)).
  { rewrite Ei, El, !flights_middle. done. }
  assert (Hcr : crashes (<[i := Posting k (prompt_of k) 0]> (dm_workers s)) = crashes (dm_workers s)).
  { rewrite Ei, El, !crashes_middle. done. }
  assert (Hnk : k ∉ flights (dm_workers s)).
  { intros Hin. rewrite Forall_forall in Hcl. specialize (Hcl _ Hin). lia. }
  pose proof (λ k', posts_of_post k' i k (prompt_of k) 0 s1 : _ = (_ + posts_of k' s)%nat) as E. unfold post in E.
  assert (H0 : posts_of k s = 0%nat) by (specialize (Hp k); rewrite decide_False in Hp by lia; done).
  split; unfold post; cbn [set_worker dm_counter dm_workers dm_per_node dm_posts];
    try change (dm_workers s1) with (dm_workers s); try change (dm_counter s1) with (k + 1)%Z.
  - subst k. cbn. lia.
  - rewrite Hperm. by constructor.
  - rewrite Hperm. constructor; [subst k; cbn; lia|]. eapply Forall_impl; [exact Hcl|]. subst k. cbn. lia.
  - rewrite Ei. rewrite El, flights_middle in Hnk. cbn [flight app] in Hnk.
    eapply (others_ok s _ l1 _ l2 k); [done|done|done| |subst k; cbn; lia|].
    + intros k' Hne. rewrite E, decide_False by done. done.
    + split_and!; [|lia|done]. rewrite E, decide_True by done. by rewrite H0.
  - intros k'. rewrite E. specialize (Hp k'). destruct (decide (k = k')) as [<-|Hne].
    + rewrite decide_True by lia. rewrite H0. unfold max_retries. lia.
    + destruct (decide (0 ≤ k' < k + 1)%Z); [rewrite decide_True in Hp by (subst k; lia)|rewrite decide_False in Hp by (subst k; lia)]; lia.
  - apply Forall_app. split; [done|]. by apply Forall_singleton.
  - rewrite Hcr, Hperm. change (dm_per_node s1) with (dm_per_node s). cbn [length]. fold k in Ht. lia.
  - done.
Qed.

Lemma step_wf e s s' : demo_wf s → do_step e s = Some s' → demo_wf s'.
Proof.
  intros Hwf. destruct e as [i|i reply ms|i]; cbn [step]; destruct (dm_workers s !! i) as [[|k p a|k p a| |]|] eqn:Ex; try done.
  - intros [= <-]. by apply wf_next.
  - assert (Hnext : ∀ b ok lines, demo_wf (do_next i (record_outcome b ok (print lines s)))).
    { intros b ok lines. pose proof (wf_recorded s i k p a b ok lines Hwf Ex) as Hr.
      assert (Hi : dm_workers (set_worker i Waiting (record_outcome b ok (print lines s))) !! i = Some Waiting)
        by (cbn; apply list_lookup_insert_eq; by eapply lookup_lt_Some).
      apply (wf_next _ i) in Hr; [|exact Hi].
      revert Hr. unfold next_request, post, set_worker, record_outcome, print.
      cbn [dm_counter dm_workers dm_per_node dm_out dm_posts]. by destruct (_ <? _)%Z; rewrite list_insert_insert_eq. }
    destruct reply as [status hdr body text|detail].
    + destruct (read_response _ _ _ _ _ _ _ _ _) as [lines [ok|]]; intros [= <-]; [apply Hnext|by eapply wf_crashed].
    + case_bool_decide as Ha; intros [= <-]; [apply Hnext|].
      pose proof (Forall_lookup_1 _ _ _ _ (dw_workers _ Hwf) Ex) as (Hn & Hle & Hp).
      eapply wf_set_worker; [done|exact Ex| |done|done]. split_and!; [done|lia|done].
  - intros [= <-]. by apply wf_resumed.
Qed.

Lemma run_wf es s s' : demo_wf s → do_run es s = Some s' → demo_wf s'.
Proof.
  revert s. induction es as [|e es IH]; intros s Hs; cbn [run]; [by intros [= <-]|].
  destruct (do_step e s) as [s1|] eqn:E; [|done]. apply IH. by eapply step_wf.
Qed.

(** ** Progress *)

(** The events a worker can still wait for before it takes another index. *)
Definition weight (x : worker) : nat :=
  match x with
  | Waiting => 1
  | Posting _ _ a => 2 * (max_retries - a) + 1
  | BackingOff _ _ a => 2 * (max_retries - a)
  | Done | Crashed => 0
  end.

Definition events_per_request : nat := 2 * max_retries + 1.

Definition work (s : Demo) : nat :=
  events_per_request * Z.to_nat (total - dm_counter s) + sum_list_with weight (dm_workers s).

Lemma sum_weight_insert xs i x y :
  xs !! i = Some x → (sum_list_with weight (<[i := y]> xs) + weight x = sum_list_with weight xs + weight y)%nat.
Proof.
  intros (l1 & l2 & -> & ->)%worker_split. rewrite !sum_list_with_app. simpl. lia.
Qed.

Lemma work_next s i x :
  (dm_workers s) !! i = Some x → (work (do_next i s) + weight x ≤ work s)%nat.
Proof.
  intros Hx. unfold next_request. destruct (Z.ltb_spec (dm_counter s) total) as [Hlt|Hge].
  - unfold work, post. cbn [dm_counter dm_workers set_worker].
    pose proof (sum_weight_insert _ _ _ (Posting (dm_counter s) (prompt_of (dm_counter s)) 0) Hx) as Hs.
    assert (Z.to_nat (total - dm_counter s) = S (Z.to_nat (total - (dm_counter s + 1)))) as -> by lia.
    unfold events_per_request, max_retries in *. cbn [weight] in Hs. unfold max_retries in Hs. lia.
  - unfold work. cbn [dm_counter dm_workers set_worker].
    pose proof (sum_weight_insert _ _ _ Done Hx) as Hs. cbn [weight] in Hs. lia.
Qed.

Lemma step_work e s s' : demo_wf s → do_step e s = Some s' → (work s' < work s)%nat.
Proof.
  intros Hwf. destruct e as [i|i reply ms|i]; cbn [step]; destruct (dm_workers s !! i) as [[|k p a|k p a| |]|] eqn:Ex; try done.
  - intros [= <-]. pose proof (work_next s i _ Ex) as H. cbn [weight] in H. lia.
  - assert (Hnext : ∀ b ok lines, (work (do_next i (record_outcome b ok (print lines s))) < work s)%nat).
    { intros b ok lines. pose proof (work_next (record_outcome b ok (print lines s)) i _ Ex) as H. cbn [weight] in H.
      change (work (record_outcome b ok (print lines s))) with (work s) in H. lia. }
    pose proof (λ y, sum_weight_insert _ _ _ y Ex) as Hw.
    destruct reply as [status hdr body text|detail].
    + destruct (read_response _ _ _ _ _ _ _ _ _) as [lines [ok|]]; intros [= <-]; [apply Hnext|].
      unfold work. cbn [dm_counter dm_workers set_worker print]. specialize (Hw Crashed). cbn [weight] in Hw. lia.
    + case_bool_decide as Ha; intros [= <-]; [apply Hnext|].
      unfold work. cbn [dm_counter dm_workers set_worker]. specialize (Hw (BackingOff k p a)). cbn [weight] in Hw. lia.
  - intros [= <-]. pose proof (Forall_lookup_1 _ _ _ _ (dw_workers _ Hwf) Ex) as (_ & Ha & _).
    pose proof (sum_weight_insert _ _ _ (Posting k p (S a)) Ex) as H.
    unfold work, post. cbn [dm_counter dm_workers set_worker]. cbn [weight] in H. unfold max_retries in *. lia.
Qed.

Lemma run_work es s s' : demo_wf s → do_run es s = Some s' → (length es + work s' ≤ work s)%nat.
Proof.
  revert s. induction es as [|e es IH]; intros s Hs; cbn [run]; [intros [= <-]; simpl; lia|].
  destruct (do_step e s) as [s1|] eqn:E; [|done]. intros Hr. pose proof (step_work _ _ _ Hs E).
  specialize (IH _ (step_wf _ _ _ Hs E) Hr). simpl. lia.
Qed.

Lemma work_start concurrency out :
  work (start_burst concurrency out) = (events_per_request * Z.to_nat total + Z.to_nat concurrency)%nat.
Proof.
  unfold work, start_burst. cbn [dm_counter dm_workers]. rewrite Z.sub_0_r. f_equal.
  induction (Z.to_nat concurrency) as [|n IH]; [done|]. cbn [replicate sum_list_with weight]. lia.
Qed.

Lemma step_length e s s' : do_step e s = Some s' → length (dm_workers s') = length (dm_workers s).
Proof.
  assert (Hn : ∀ i s, length (dm_workers (do_next i s)) = length (dm_workers s)).
  { intros i s0. unfold next_request, post. destruct (_ <? _)%Z; cbn; by rewrite length_insert. }
  destruct e as [i|i reply ms|i]; cbn [step]; destruct (dm_workers s !! i) as [[|k p a|k p a| |]|]; try done.
  - intros [= <-]. apply Hn.
  - destruct reply as [status hdr body text|detail].
    + destruct (read_response _ _ _ _ _ _ _ _ _) as [lines [ok|]]; intros [= <-]; [by rewrite Hn|cbn; by rewrite length_insert].
    + case_bool_decide; intros [= <-]; [by rewrite Hn|cbn; by rewrite length_insert].
  - intros [= <-]. cbn. by rewrite length_insert.
Qed.

Lemma run_length es s s' : do_run es s = Some s' → length (dm_workers s') = length (dm_workers s).
Proof.
  revert s. induction es as [|e es IH]; intros s; cbn [run]; [by intros [= <-]|].
  destruct (do_step e s) as [s1|] eqn:E; [|done]. intros Hr. by rewrite (IH _ Hr), (step_length _ _ _ E).
Qed.

(** When nothing can happen any more, no worker waits. *)
Lemma stuck_ended s : (∀ e, do_step e s = None) → Forall (λ x, x = Done ∨ x = Crashed) (dm_workers s).
Proof.
  intros H. apply Forall_lookup. intros i x Hx. destruct x as [|k p a|k p a| |]; [exfalso..|by left|by right].
  - specialize (H (Started i)). cbn [step] in H. by rewrite Hx in H.
  - specialize (H (Replied i (TransportError "") f_zero)). cbn [step] in H. rewrite Hx in H. by case_bool_decide.
  - specialize (H (Resumed i)). cbn [step] in H. by rewrite Hx in H.
Qed.

Lemma ended_flights xs : Forall (λ x, x = Done ∨ x = Crashed) xs → flights xs = [].
Proof. by induction 1 as [|x xs [-> | ->] _ IH]. Qed.

Lemma no_crashes xs : Crashed ∉ xs → crashes xs = 0%nat.
Proof.
  intros H. unfold crashes. induction xs as [|x xs IH]; [done|]. rewrite not_elem_of_cons in H. destruct H as [Hx H].
  rewrite filter_cons_False by done. by apply IH.
Qed.
End counter_lemmas.

(** ** The summary *)

Section sums.
Context (f : list bool → nat) (Hf : f [] = 0%nat).

Definition shown_of (per : dict string (list bool)) (ids : list string) : nat :=
  sum_list_with (λ id, f (default [] (d_get per id))) ids.

Lemma shown_of_cons b o per ids :
  NoDup ids → b ∉ d_keys per →
  shown_of ((b, o) :: per) ids = ((if decide (b ∈ ids) then f o else 0) + shown_of per ids)%nat.
Proof.
  intros Hnd Hb. apply d_get_None in Hb. unfold shown_of. induction Hnd as [|id ids Hid _ IH]; [done|].
  cbn [sum_list_with]. rewrite IH. cbn [d_get]. destruct (decide (b = id)) as [<-|Hne].
  - rewrite decide_False by done. rewrite decide_True by left. rewrite Hb. simpl. rewrite Hf. lia.
  - destruct (decide (b ∈ ids)); [rewrite decide_True by by right|rewrite decide_False by (rewrite elem_of_cons; naive_solver)]; lia.
Qed.

(** What is not shown belongs to the other keys. *)
Lemma shown_and_rest per ids :
  NoDup ids → NoDup (d_keys per) →
  (shown_of per ids + sum_list_with f (d_values (filter (λ p, p.1 ∉ ids) per)))%nat = sum_list_with f (d_values per).
Proof.
  intros Hnd. induction per as [|[b o] per IH].
  - intros _. clear Hnd. rewrite filter_nil, Nat.add_0_r. change (shown_of [] ids = 0%nat).
    induction ids as [|id ids IH]; [done|]. unfold shown_of in *. simpl in *. by rewrite IH, Hf.
  - rewrite d_keys_cons. intros [Hb Hk]%NoDup_cons. rewrite shown_of_cons by done. specialize (IH Hk).
    rewrite filter_cons. cbn [fst]. destruct (decide (b ∈ ids)).
    + rewrite decide_False by tauto. cbn [d_values fmap list_fmap sum_list_with snd]. unfold d_values in *. lia.
    + rewrite decide_True by done. unfold d_values in *. cbn [fmap list_fmap sum_list_with snd]. lia.
Qed.
End sums.

Lemma rows_shown_of (f : list bool → nat) g per ids :
  f [] = 0%nat → (∀ id o, g (id, requests o, successes o) = f o) →
  sum_list_with g (omap (λ id, match default [] (d_get per id) with
                               | [] => None
                               | outcomes => Some (id, requests outcomes, successes outcomes)
                               end) ids) = shown_of f per ids.
Proof.
  intros Hf Hg. unfold shown_of. induction ids as [|id ids IH]; [done|]. cbn [omap list_omap sum_list_with].
  destruct (default [] (d_get per id)) as [|b o]; [by rewrite Hf|]. cbn [sum_list_with]. by rewrite Hg, IH.
Qed.

Lemma QUESTIONS_distinct : NoDup QUESTIONS.
Proof. vm_decide. Qed.

(** ** Properties *)

(** C39. Every index is sent once.  However the workers interleave, and whatever the
    orchestrator answers: the indices given out are the first ones of the count, each of them was
    posted at least once and at most three times, always with its own prompt, and no other was;
    no two workers are busy with the same index and at most [--concurrency] are in flight; and every
    index given out has exactly one recorded outcome, or is in flight, or crashed its worker. *)
Theorem each_index_sent_once model fixed_prompt pool choice total colors use_color concurrency out es s :
  run model fixed_prompt pool choice total colors use_color es (start_burst concurrency out) = Some s →
  (0 ≤ dm_counter s ≤ Z.max 0 total)%Z ∧
  (∀ k, let sent := filter (λ p, p.1 = k) (dm_posts s) in
    Forall (λ p, p.2 = chat_body model (next_prompt fixed_prompt pool choice k)) sent ∧
    if decide (0 ≤ k < dm_counter s)%Z then (1 ≤ length sent ≤ 3)%nat else sent = []) ∧
  NoDup (flights (dm_workers s)) ∧ (length (flights (dm_workers s)) ≤ Z.to_nat concurrency)%nat ∧
  dm_counter s = (total_requests (dm_per_node s) + Z.of_nat (length (flights (dm_workers s))) +
                  Z.of_nat (crashes (dm_workers s)))%Z.
Proof.
  intros Hrun. pose proof (run_length _ _ _ _ _ _ _ _ _ _ Hrun) as Hlen.
  cbn [start_burst dm_workers] in Hlen. rewrite length_replicate in Hlen.
  apply run_wf in Hrun as [Hc Hf _ _ Hp Hb Ht _]; [|apply start_wf]. split_and!; [lia|lia| |done| |done].
  - intros k sent. split.
    + apply Forall_forall. intros p [Hk Hin]%list_elem_of_filter. rewrite Forall_forall in Hb. by rewrite (Hb _ Hin), Hk.
    + specialize (Hp k). case_decide; [exact Hp|]. by apply length_zero_iff_nil.
  - rewrite <-Hlen. apply flights_length.
Qed.

(** The burst ends with every request accounted for.  A run has at most five events for each
    request (three attempts, two pauses) and one for each worker's start; when nothing can
    happen any more no worker waits, and unless a reply that is no completion has crashed
    one, exactly [--count] outcomes are recorded (none for a negative count). *)
Theorem burst_completes model fixed_prompt pool choice total colors use_color concurrency out es s :
  run model fixed_prompt pool choice total colors use_color es (start_burst concurrency out) = Some s →
  (length es ≤ 5 * Z.to_nat total + Z.to_nat concurrency)%nat ∧
  ((∀ e, step model fixed_prompt pool choice total colors use_color e s = None) →
   Forall (λ x, x = Done ∨ x = Crashed) (dm_workers s) ∧
   ((0 < concurrency)%Z → Crashed ∉ dm_workers s → total_requests (dm_per_node s) = Z.max 0 total)).
Proof.
  intros Hrun. pose proof (start_wf model fixed_prompt pool choice total concurrency out) as H0.
  pose proof (run_work _ _ _ _ _ _ _ _ _ _ H0 Hrun) as Hw. rewrite work_start in Hw.
  pose proof (run_length _ _ _ _ _ _ _ _ _ _ Hrun) as Hlen. cbn [start_burst dm_workers] in Hlen. rewrite length_replicate in Hlen.
  apply run_wf in Hrun as [Hc _ _ Hok _ _ Ht _]; [|done]. split; [unfold events_per_request, max_retries in Hw; lia|].
  intros Hstuck. apply stuck_ended in Hstuck. split; [done|]. intros Hpos Hcr.
  rewrite (ended_flights _ Hstuck), (no_crashes _ Hcr) in Ht. cbn [length] in Ht.
  destruct (dm_workers s) as [|x xs]; [simpl in Hlen; lia|].
  apply Forall_cons in Hok as [Hx _]. apply Forall_cons in Hstuck as [[-> | ->] _].
  - cbn [worker_ok] in Hx. lia.
  - exfalso. apply Hcr. left.
Qed.

(** The summary adds up, for the hosts it knows.  Its rows show the requests and the
    successes of each host of the first listing and of the requests no host answered; what
    is missing between them and the totals of the last line are exactly the answers of backends
    that were not in that listing, so with none of those the rows add up to the totals. *)
Theorem summary_adds_up model fixed_prompt pool choice total colors use_color concurrency out es s node_ids :
  run model fixed_prompt pool choice total colors use_color es (start_burst concurrency out) = Some s →
  NoDup node_ids → "?" ∉ node_ids →
  let rows := summary_rows node_ids (dm_per_node s) in
  let unlisted := filter (λ p, p.1 ∉ node_ids ++ ["?"]) (dm_per_node s) in
  (total_requests (dm_per_node s) = Z.of_nat (sum_list_with (λ r, Z.to_nat r.1.2) rows) + total_requests unlisted)%Z ∧
  (total_succeeded (dm_per_node s) = Z.of_nat (sum_list_with (λ r, Z.to_nat r.2) rows) + total_succeeded unlisted)%Z ∧
  (Forall (λ b, b ∈ node_ids ++ ["?"]) (d_keys (dm_per_node s)) → unlisted = []).
Proof.
  intros Hrun Hnd Hq rows unlisted. apply run_wf in Hrun as [_ _ _ _ _ _ _ Hk]; [|apply start_wf].
  assert (Hids : NoDup (node_ids ++ ["?"])).
  { apply NoDup_app. split_and!; [done| |by repeat constructor; apply not_elem_of_nil].
    intros x Hx ->%list_elem_of_singleton. done. }
  split_and!.
  - unfold total_requests. rewrite <-(shown_and_rest length eq_refl (dm_per_node s) (node_ids ++ ["?"]) Hids Hk).
    subst rows. unfold summary_rows. rewrite (rows_shown_of length) by (done || (intros; apply Nat2Z.id)). apply Nat2Z.inj_add.
  - unfold total_succeeded. set (f := λ o : list bool, length (filter (λ b, b = true) o)).
    rewrite <-(shown_and_rest f eq_refl (dm_per_node s) (node_ids ++ ["?"]) Hids Hk).
    subst rows. unfold summary_rows. rewrite (rows_shown_of f) by (done || (intros; apply Nat2Z.id)). apply Nat2Z.inj_add.
  - intros Hall. apply elem_of_nil_inv. intros [b o] [Hb Hin]%list_elem_of_filter. cbn in Hb. rewrite Forall_forall in Hall.
    apply Hb, Hall. unfold d_keys. by apply (list_elem_of_fmap_2 fst) in Hin.
Qed.

(** ** Before the burst *)

(** What the workload reads of an entry of the listing. *)
Definition readable (j : json) (h : HostInfo) : Prop :=
  j_get j "host_id" = Some (JStr (host_id h)) ∧ (∃ st, j_get j "status" = Some (JStr st)) ∧
  j_get j "max_concurrent_requests" = Some (JInt (max_concurrent_requests (capacity h))).

Lemma mapM_cons_Some {A B} (f : A → option B) x xs y ys :
  f x = Some y → mapM f xs = Some ys → mapM f (x :: xs) = Some (y :: ys).
Proof. intros Hx Hxs. apply mapM_Some. constructor; [done|]. by apply mapM_Some. Qed.

Lemma node_str_get j key v : j_get j key = Some v → node_str j key = Some (py_str v).
Proof. intros H. unfold node_str. by rewrite H. Qed.

Lemma node_ids_read js hs : Forall2 readable js hs → mapM (λ node, node_str node "host_id") js = Some (host_id <$> hs).
Proof.
  induction 1 as [|j h js hs (Hid & _) _ IH]; [done|]. apply (mapM_cons_Some (λ node, node_str node "host_id")); [|done].
  by rewrite (node_str_get _ _ _ Hid).
Qed.

Lemma node_lines_read use_color colors js hs :
  Forall2 readable js hs → ∃ lines, mapM (node_line use_color colors) js = Some lines ∧ length lines = length hs.
Proof.
  induction 1 as [|j h js hs (Hid & (st & Hst) & Hmax) _ (lines & IH & Hl)]; [by exists []|].
  assert (Hline : ∃ line, node_line use_color colors j = Some line).
  { unfold node_line. rewrite (node_str_get _ _ _ Hid), (node_str_get _ _ _ Hst), (node_str_get _ _ _ Hmax). by eexists. }
  destruct Hline as [line Hline]. exists (line :: lines). split; [by apply mapM_cons_Some|]. simpl. by rewrite Hl.
Qed.

Lemma d_keys_of_list (ps : list (string * string)) id : id ∈ d_keys (d_of_list ps) ↔ id ∈ ps.*1.
Proof.
  induction ps as [|p ps IH] using rev_ind; [done|]. unfold d_of_list in *. rewrite foldl_snoc, d_keys_set, fmap_app, elem_of_app.
  rewrite <-IH. cbn [fmap list_fmap]. rewrite list_elem_of_singleton. case_decide.
  - split; [auto|]. by intros [Hin | ->].
  - by rewrite elem_of_app, list_elem_of_singleton.
Qed.

(** The workload can read whatever the gateway lists.  When the health check and
    [GET /v1/nodes] answer, it stops with exit code 1 if no host is registered, and otherwise
    starts with exactly the listed hosts, in the listing's order, one line and one color for
    each; it never raises on the listing. *)
Theorem demo_reads_listing cfg w js w' use_color a key health text :
  list_nodes cfg w = (Ret js, w') → api_key a = Some key → key ≠ "" → trigger_health_check health = None →
  match listed_hosts w with
  | [] => begin_run use_color a health (GotResponse 200 (Some (nodes_body js)) text) =
            Exited 1 "error: no nodes registered on the orchestrator"
  | hs => ∃ colors out, begin_run use_color a health (GotResponse 200 (Some (nodes_body js)) text) =
            Began (host_id <$> hs) colors out ∧
          length out = (length hs + 4)%nat ∧ (∀ id, id ∈ d_keys colors ↔ id ∈ host_id <$> hs)
  end.
Proof.
  intros Hlist Hkey Hne Hh. unfold list_nodes in Hlist. apply (list_views_Forall2 cfg readable) in Hlist.
  2:{ intros. split_and!; [done|by eexists|done]. }
  unfold begin_run. rewrite Hkey, Hh. destruct key as [|c key]; [done|]. cbn [list_nodes_reply nodes_body mbind option_bind].
  change (negb (200 / 100 =? 2)%Z) with false. cbv iota.
  change (j_get (nodes_body js) "nodes") with (Some (JList js)). cbv iota.
  destruct (listed_hosts w) as [|h hs]; [by apply Forall2_nil_inv_r in Hlist as ->|].
  destruct js as [|j js]; [by apply Forall2_nil_inv_l in Hlist|]. rewrite (node_ids_read _ _ Hlist).
  set (ids := host_id <$> h :: hs). set (colors := d_of_list _).
  destruct (node_lines_read use_color colors _ _ Hlist) as (lines & -> & Hl).
  eexists _, _. split; [reflexivity|]. split; [rewrite !length_app, Hl; simpl; lia|].
  intros id. subst colors. rewrite d_keys_of_list, fst_zip; [done|]. by rewrite length_fmap, length_seq.
Qed.

(** The questions vary.  Without a fixed prompt, whatever order the pool was shuffled into, the
    first thirty indices ask thirty different questions, each from the list. *)
Theorem questions_vary pool choice j k :
  pool ≡ₚ QUESTIONS → (0 ≤ j < 30)%Z → (0 ≤ k < 30)%Z →
  next_prompt None pool choice j ∈ QUESTIONS ∧
  (next_prompt None pool choice j = next_prompt None pool choice k → j = k).
Proof.
  intros Hperm Hj Hk. assert (Hlen : length pool = 30%nat) by (by rewrite Hperm).
  assert (Hnd : NoDup pool) by (rewrite Hperm; apply QUESTIONS_distinct).
  unfold next_prompt. destruct (lookup_lt_is_Some_2 pool (Z.to_nat j)) as [p Hp]; [lia|].
  destruct (lookup_lt_is_Some_2 pool (Z.to_nat k)) as [q Hq]; [lia|]. rewrite Hp, Hq. split.
  - rewrite <-Hperm. by eapply list_elem_of_lookup_2.
  - intros ->. pose proof (NoDup_lookup _ _ _ _ Hnd Hp Hq). lia.
Qed.

(** ** A small burst *)

(** Two workers send three requests; the first one loses its connection once, and one answer
    comes from a host that was registered meanwhile. *)
Definition good_body : json :=
  JObj [("choices", JList [JObj [("message", JObj [("content", JStr "Eight  arms.")])]])].
Definition busy_body : json := JObj [("error", JObj [("code", JStr "no_available_backend")])].

Definition burst_events : list event :=
  [Started 0; Started 1; Replied 0 (TransportError "reset") f_zero;
   Replied 1 (Response 200 (Some "gpu") (Some good_body) "") (f_of_Z 12); Resumed 0;
   Replied 0 (Response 503 None (Some busy_body) "") (f_of_Z 3);
   Replied 1 (Response 200 (Some "new") (Some good_body) "") (f_of_Z 9)].

Abbreviation run_burst := (run "m" None QUESTIONS (λ _, "") 3 [] false).

Definition burst_end : Demo := default (start_burst 0 []) (run_burst burst_events (start_burst 2 [])).

Lemma burst_runs : run_burst burst_events (start_burst 2 []) = Some burst_end.
Proof. vm_compute. reflexivity. Qed.

Lemma each_index_sent_once_witness :
  dm_counter burst_end = 3%Z ∧ length (filter (λ p, p.1 = 0%Z) (dm_posts burst_end)) = 2%nat ∧
  dm_counter burst_end = (total_requests (dm_per_node burst_end) + Z.of_nat (length (flights (dm_workers burst_end))) +
                          Z.of_nat (crashes (dm_workers burst_end)))%Z.
Proof.
  split; [by vm_compute|]. split; [by vm_compute|].
  apply (each_index_sent_once _ _ _ _ _ _ _ _ _ _ _ burst_runs).
Defined.

Lemma burst_completes_witness :
  (length burst_events ≤ 5 * 3 + 2)%nat ∧ total_requests (dm_per_node burst_end) = 3%Z.
Proof.
  destruct (burst_completes _ _ _ _ _ _ _ _ _ _ _ burst_runs) as [Hlen H]. split; [exact Hlen|].
  apply H.
  - assert (Hw : dm_workers burst_end = [Done; Done]) by by vm_compute.
    intros [[|[|i]]|[|[|i]] reply ms|[|[|i]]]; cbn [step]; by rewrite Hw.
  - done.
  - assert (Hw : dm_workers burst_end = [Done; Done]) by by vm_compute. rewrite Hw. vm_decide.
Defined.

Lemma summary_adds_up_witness :
  summary_rows ["gpu"] (dm_per_node burst_end) = [("gpu", 1, 1); ("?", 1, 0)]%Z ∧
  (total_requests (dm_per_node burst_end) = 2 + total_requests [("new", [true])])%Z.
Proof.
  assert (Hnd : NoDup ["gpu"]) by vm_decide. assert (Hq : "?" ∉ ["gpu"]) by vm_decide.
  destruct (summary_adds_up _ _ _ _ _ _ _ _ _ _ _ ["gpu"] burst_runs Hnd Hq) as [H _].
  split; [by vm_compute|]. exact H.
Defined.

Lemma demo_reads_listing_witness :
  ∃ colors out, begin_run false {| base_url := DEFAULT_BASE_URL; api_key := Some "k"; model := "m"; concurrency := 6;
      count := 30; prompt := None |} (GotResponse 503 None "")
      (GotResponse 200 (Some (nodes_body match (list_nodes default_lease_settings three_hosts).1 with
                                         Ret js => js | Raise _ => [] end)) "") =
    Began ["a"; "b"; "c"] colors out ∧ length out = 7%nat.
Proof.
  destruct (list_nodes default_lease_settings three_hosts) as [[js|e] w'] eqn:E; [|exfalso; by vm_compute in E].
  assert (Hids : host_id <$> listed_hosts three_hosts = ["a"; "b"; "c"]) by by vm_compute.
  pose proof (demo_reads_listing default_lease_settings three_hosts js w' false
    {| base_url := DEFAULT_BASE_URL; api_key := Some "k"; model := "m"; concurrency := 6; count := 30; prompt := None |}
    "k" (GotResponse 503 None "") "" E eq_refl ltac:(discriminate) eq_refl) as H.
  destruct (listed_hosts three_hosts) as [|h hs] eqn:El; [discriminate Hids|].
  destruct H as (colors & out & Hb & Hl & _). exists colors, out. cbn [fst]. rewrite <-Hids. split; [exact Hb|].
  rewrite Hl. apply (f_equal length) in Hids. rewrite length_fmap in Hids. by rewrite Hids.
Defined.

Lemma questions_vary_witness :
  next_prompt None QUESTIONS (λ _, "") 4 ∈ QUESTIONS.
Proof. apply (questions_vary QUESTIONS (λ _, "") 4 5); [done|lia|lia]. Defined.
