(* ===== verification/LeaseRun.v ===== *)
(** * The two threads of the reservation wrapper ([leases/runner.py])

    [LeaseRunner] gives the calls of [run_leased] in the order they usually have.  Here its
    two threads interleave: the main thread waits for the command, stops and joins the
    heartbeat thread for at most two seconds, releases the lease and turns the command's
    status into an exit code; the heartbeat thread may still wait for an answer when it is no
    longer joined.  Ctrl-C can arrive at any of the main thread's waits.  An answer of the
    orchestrator is part of the event that delivers it.  [main] and its options are here too. *)

From S2P Require Import Prelude.
From S2P Require Import PyStr.
From S2P Require Import PyNum.
From S2P Require Import PyDict.
From S2P Require Import PyJson.
From S2P Require Import Leases.
From S2P Require Import Nodes.
From S2P Require Import LeasePath.
From S2P Require Import LeaseRunner.

#[local] Open Scope list_scope.

(** ** The command line *)

(** The options given; [parse_args] fills in the others from the environment. *)
Record RunOptions := {
  ro_base_url : option string;
  ro_api_key : option string;
  ro_holder : option string;
  ro_node : option string;
  ro_model : option string;
  ro_ceiling_seconds : option Z;
  ro_command : list string;
}.

Record RunArgs := {
  ra_base_url : string;
  ra_api_key : option string;
  ra_holder : string;
  ra_node : option string;
  ra_model : option string;
  ra_ceiling_seconds : option Z;
  ra_command : list string;
}.

(** [_build_parser]'s defaults, and the [--] that [main] drops. *)
Definition parse_args (env : gmap string string) (pid : Z) (o : RunOptions) : RunArgs :=
  {| ra_base_url := default (default "http://localhost:8080" (env !! "ORCHESTRATOR_BASE_URL")) (ro_base_url o);
     ra_api_key := match ro_api_key o with Some k => Some k | None => env !! "ORCHESTRATOR_API_KEY" end;
     ra_holder := match ro_holder o with
                  | Some h => h
                  | None => match env !! "LLM_HOME_LAB_HOLDER" with
                            | None | Some "" => "pid-" +:+ str_of_Z pid
                            | Some h => h
                            end
                  end;
     ra_node := ro_node o; ra_model := ro_model o; ra_ceiling_seconds := ro_ceiling_seconds o;
     ra_command := match ro_command o with "--" :: command => command | command => command end |}.

(** The headers of [OrchestratorLeaseApi]. *)
Definition api_headers (api_key : option string) : dict string string :=
  match api_key with None | Some "" => [] | Some k => [("Authorization", "Bearer " +:+ k)] end.

(** The body [OrchestratorLeaseApi.reserve] posts. *)
Definition reserve_body (a : RunArgs) : json :=
  JObj ([("holder", JStr (ra_holder a))] ++
        match ra_node a with Some h => [("host_id", JStr h)] | None => [] end ++
        match ra_model a with Some m => [("model", JStr m)] | None => [] end ++
        match ra_ceiling_seconds a with Some c => [("ceiling_s", JInt c)] | None => [] end).

(** [child_environment] *)
Definition child_environment (env : gmap string string) (base_url token host_id : string) : gmap string string :=
  let client_base := leased_client_base base_url token in
  <["LLM_HOME_LAB_NODE_ID" := host_id]>
    (<["LLM_HOME_LAB_LEASE_HEADER" := "X-LLM-Node-Lease"]>
      (<["LLM_HOME_LAB_NODE_LEASE" := token]>
        (<["OPENAI_BASE_URL" := client_base]> (<["ORCHESTRATOR_BASE_URL" := client_base]> env)))).

(** A call of the wrapper, or the close of its client. *)
Inductive main_call := ApiCall (c : call) | ClientClose.

(** [main]: the wrapper, then the client closed however it ended. *)
Definition main (render : json → string) (env : gmap string string) (pid : Z) (o : RunOptions)
    (reserved : http_answer) (popen : popen_result) (heartbeats : list http_answer) (wait : wait_result)
    : run_result * list main_call :=
  let args := parse_args env pid o in
  let '(result, calls) := run_leased render (ra_command args) (ra_base_url args) reserved popen heartbeats wait in
  (result, (ApiCall <$> calls) ++ [ClientClose]).

(** ** The threads *)

(** [_wait_for]: the first [wait], the one after SIGINT, and the one after [kill]. *)
Inductive waiting := FirstWait | GraceWait | KillWait.

(** The main thread; a [wait_result] is how [_wait_for] ended. *)
Inductive main_thread :=
  | Waiting (w : waiting)
  | Joining (r : wait_result)
  | Releasing (r : wait_result)
  | Released (r : wait_result)
  | Ended (r : run_result).

(** The heartbeat thread: in [stop.wait], past it, waiting for an answer, over. *)
Inductive beat_thread := Sleeping | Due | Sending | BeatEnded.

Record LeaseRun := {
  lr_main : main_thread;
  lr_beat : beat_thread;
  lr_stop : bool;
  lr_lost : bool;
  lr_calls : list call;
  lr_log : list string;
}.

Definition log_prefix : string := "llm-home-lab-run: ".

(** [run_leased] once the command has started. *)
Definition command_started (calls : list call) (log : list string) : LeaseRun :=
  {| lr_main := Waiting FirstWait; lr_beat := Sleeping; lr_stop := false; lr_lost := false; lr_calls := calls;
     lr_log := log |}.

Definition set_main (m : main_thread) (s : LeaseRun) : LeaseRun :=
  {| lr_main := m; lr_beat := lr_beat s; lr_stop := lr_stop s; lr_lost := lr_lost s; lr_calls := lr_calls s;
     lr_log := lr_log s |}.
Definition set_beat (b : beat_thread) (s : LeaseRun) : LeaseRun :=
  {| lr_main := lr_main s; lr_beat := b; lr_stop := lr_stop s; lr_lost := lr_lost s; lr_calls := lr_calls s;
     lr_log := lr_log s |}.
Definition do_call (c : call) (s : LeaseRun) : LeaseRun :=
  {| lr_main := lr_main s; lr_beat := lr_beat s; lr_stop := lr_stop s; lr_lost := lr_lost s;
     lr_calls := lr_calls s ++ [c]; lr_log := lr_log s |}.
Definition write_log (line : string) (s : LeaseRun) : LeaseRun :=
  {| lr_main := lr_main s; lr_beat := lr_beat s; lr_stop := lr_stop s; lr_lost := lr_lost s; lr_calls := lr_calls s;
     lr_log := lr_log s ++ [log_prefix +:+ line] |}.
Definition set_lost (s : LeaseRun) : LeaseRun :=
  {| lr_main := lr_main s; lr_beat := lr_beat s; lr_stop := lr_stop s; lr_lost := true; lr_calls := lr_calls s;
     lr_log := lr_log s |}.

(** [_wait_for] has ended: [stop.set()], then the join. *)
Definition stop_and_join (r : wait_result) (s : LeaseRun) : LeaseRun :=
  {| lr_main := Joining r; lr_beat := lr_beat s; lr_stop := true; lr_lost := lr_lost s; lr_calls := lr_calls s;
     lr_log := lr_log s |}.

Inductive event :=
  | ProcessExits (code : Z)
  | CtrlC
  | GraceOver
  | IntervalOver
  | StopSeen
  | SendHeartbeat
  | HeartbeatAnswered (a : http_answer)
  | JoinEnds
  | JoinTimesOut
  | ReleaseAnswered (a : http_answer)
  | Returns.

Section threads.
Context (token host : string).

Definition step (e : event) (s : LeaseRun) : option LeaseRun :=
  match e with
  | ProcessExits code =>
      match lr_main s with Waiting _ => Some (stop_and_join (Exited code) s) | _ => None end
  | CtrlC =>
      match lr_main s with
      | Waiting FirstWait => Some (set_main (Waiting GraceWait) (do_call CInterrupt s))
      | Waiting _ => Some (stop_and_join WaitRaised s)
      | Joining _ | Releasing _ | Released _ => Some (set_main (Ended ReraisedInterrupt) s)
      | Ended _ => None
      end
  | GraceOver =>
      match lr_main s with
      | Waiting GraceWait => Some (set_main (Waiting KillWait) (do_call CKill s))
      | _ => None
      end
  | IntervalOver =>
      match lr_beat s with Sleeping => if lr_stop s then None else Some (set_beat Due s) | _ => None end
  | StopSeen =>
      match lr_beat s with Sleeping => if lr_stop s then Some (set_beat BeatEnded s) else None | _ => None end
  | SendHeartbeat =>
      match lr_beat s with Due => Some (set_beat Sending (do_call (CHeartbeat token) s)) | _ => None end
  | HeartbeatAnswered a =>
      match lr_beat s with
      | Sending =>
          match api_heartbeat a with
          | Ret _ => Some (set_beat Sleeping s)
          | Raise (LeaseLost m) =>
              Some (set_beat BeatEnded (do_call CTerminate (write_log ("lease ended: " +:+ m) (set_lost s))))
          | Raise (OrchestratorUnreachable m) | Raise (ReservationRefused m) =>
              Some (set_beat Sleeping (write_log ("heartbeat failed: " +:+ m) s))
          end
      | _ => None
      end
  | JoinEnds =>
      match lr_main s, lr_beat s with
      | Joining r, BeatEnded => Some (set_main (Releasing r) (do_call (CRelease token) s))
      | _, _ => None
      end
  | JoinTimesOut =>
      match lr_main s, lr_beat s with
      | Joining r, BeatEnded => None
      | Joining r, _ => Some (set_main (Releasing r) (do_call (CRelease token) s))
      | _, _ => None
      end
  | ReleaseAnswered a =>
      match lr_main s with
      | Releasing r =>
          Some (set_main (Released r) (write_log match api_release a with
                                                 | Ret _ => "released " +:+ host
                                                 | Raise (OrchestratorUnreachable m) | Raise (ReservationRefused m)
                                                 | Raise (LeaseLost m) => "release failed: " +:+ m
                                                 end s))
      | _ => None
      end
  | Returns =>
      match lr_main s with
      | Released r => Some (set_main (Ended match r with
                                            | Exited code => ExitCode (exit_of (lr_lost s) code)
                                            | WaitRaised => ReraisedInterrupt
                                            end) s)
      | _ => None
      end
  end.

Fixpoint run (es : list event) (s : LeaseRun) : option LeaseRun :=
  match es with [] => Some s | e :: es => step e s ≫= run es end.
End threads.

(** ** What holds throughout *)

Definition releases (s : LeaseRun) : nat := length (filter (λ c, is_release c = true) (lr_calls s)).

Definition is_waiting (m : main_thread) : bool := match m with Waiting _ => true | _ => false end.

Record run_ok (s : LeaseRun) : Prop := {
  ro_releases : match lr_main s with
                | Waiting _ | Joining _ => releases s = 0%nat
                | Releasing _ | Released _ | Ended (ExitCode _) => releases s = 1%nat
                | Ended ReraisedInterrupt => (releases s ≤ 1)%nat
                | Ended (LeaseKeyError _) => False
                end;
  ro_stop : lr_stop s = negb (is_waiting (lr_main s));
}.

(** [main] closes its client last and once; a command line with no command, or only [--],
    ends with the usage error and no request; otherwise a lease that was granted was released
    before the client was closed. *)
Lemma main_releases_then_closes render env pid o reserved popen hs wait token :
  let '(result, calls) := main render env pid o reserved popen hs wait in
  (ro_command o = [] ∨ ro_command o = ["--"] → result = ExitCode EXIT_REFUSED ∧ calls = [ClientClose]) ∧
  (ra_command (parse_args env pid o) ≠ [] → granted reserved token →
    ∃ before, calls = before ++ [ApiCall (CRelease token); ClientClose] ∧ ClientClose ∉ before).
Proof.
  unfold main. destruct (run_leased _ _ _ _ _ _ _) as [result calls] eqn:E. split.
  - intros Ho. assert (ra_command (parse_args env pid o) = []) as Hc by (unfold parse_args; by destruct Ho as [-> | ->]).
    rewrite Hc in E. by injection E as <- <-.
  - intros Hc Hg. rewrite (run_leased_granted _ _ _ _ _ _ _ token Hc Hg) in E.
    assert (∃ b, calls = b ++ [CRelease token]) as [b ->].
    { destruct popen; injection E as _ <-; [|by exists [CReserve; CStart (leased_client_base (ra_base_url (parse_args env pid o)) token)]].
      eexists (CReserve :: CStart _ :: _). reflexivity. }
    exists (ApiCall <$> b). split; [by rewrite fmap_app, <- app_assoc|].
    by intros (? & ? & _)%list_elem_of_fmap.
Qed.

Lemma releases_call c s : releases (do_call c s) = (releases s + if is_release c then 1 else 0)%nat.
Proof.
  unfold releases. cbn [do_call lr_calls]. rewrite filter_app, length_app, filter_cons, filter_nil.
  by destruct (is_release c).
Qed.

Lemma releases_main m s : releases (set_main m s) = releases s.
Proof. done. Qed.
Lemma releases_beat b s : releases (set_beat b s) = releases s.
Proof. done. Qed.
Lemma releases_log line s : releases (write_log line s) = releases s.
Proof. done. Qed.
Lemma releases_lost s : releases (set_lost s) = releases s.
Proof. done. Qed.
Lemma releases_stop r s : releases (stop_and_join r s) = releases s.
Proof. done. Qed.
Create Rewrite HintDb releases.
#[local] Hint Rewrite releases_call releases_main releases_beat releases_log releases_lost releases_stop : releases.

Lemma started_ok calls log : Forall (λ c, is_release c = false) calls → run_ok (command_started calls log).
Proof.
  intros H. split; [|done]. cbn [command_started lr_main]. unfold releases. cbn [lr_calls command_started].
  rewrite length_zero_iff_nil. apply elem_of_nil_inv. intros c [Hc Hin]%list_elem_of_filter. rewrite Forall_forall in H.
  by rewrite (H _ Hin) in Hc.
Qed.

Section thread_lemmas.
Context (token host : string).

Lemma step_ok e s s' :
  run_ok s → step token host e s = Some s' →
  run_ok s' ∧ (releases s ≤ releases s')%nat ∧ (lr_stop s = true → lr_stop s' = true).
Proof.
  intros [Hr Hs]. destruct e; cbn [step]; repeat case_match; intros; simplify_eq/=;
    (split; [split|]; autorewrite with releases; cbn [lr_main lr_stop set_main set_beat do_call write_log set_lost stop_and_join is_release] in *;
     repeat match goal with H : lr_main _ = _ |- _ => rewrite H in * end; cbn [is_waiting negb] in *; try done; first [lia|split; [lia|done]]).
Qed.

Lemma run_all_ok es s s' :
  run_ok s → run token host es s = Some s' →
  run_ok s' ∧ (releases s ≤ releases s')%nat ∧ (lr_stop s = true → lr_stop s' = true).
Proof.
  revert s. induction es as [|e es IH]; intros s Hs; cbn [run]; [intros [= <-]; auto|].
  destruct (step token host e s) as [s1|] eqn:E; [|done]. intros Hrun.
  destruct (step_ok _ _ _ Hs E) as (H1 & H2 & H3). destruct (IH _ H1 Hrun) as (? & ? & ?). split_and!; [done|lia|auto].
Qed.

(** Only the join can be left without the release. *)
Lemma unreleased_end es s s' r :
  run_ok s → (∀ r, lr_main s ≠ Ended r) → run token host es s = Some s' → lr_main s' = Ended r → releases s' = 0%nat →
  ∃ es1 es2 s1 w, es = es1 ++ CtrlC :: es2 ∧ run token host es1 s = Some s1 ∧ lr_main s1 = Joining w.
Proof.
  revert s. induction es as [|e es IH]; intros s Hs Hne; cbn [run]; [intros [= <-] H; by apply Hne in H|].
  destruct (step token host e s) as [s1|] eqn:E; [|done]. intros Hrun Hend Hzero.
  destruct (step_ok _ _ _ Hs E) as (Hs1 & Hle & _). destruct (run_all_ok _ _ _ Hs1 Hrun) as (_ & Hle1 & _).
  destruct (lr_main s1) as [w|w|w|w|r1] eqn:Em.
  5:{ exists [], es. destruct Hs as [Hr _]. assert (Hz : releases s = 0%nat) by lia. clear IH Hrun Hs1 Hle Hle1.
      destruct e; cbn [step] in E; repeat case_match; simplify_eq/=; by eauto || congruence. }
  all: destruct (IH s1) as (es1 & es2 & s2 & w' & -> & Hr1 & Hj); [done|by rewrite Em|done|done|done|];
    exists (e :: es1), es2, s2, w'; (split_and!; [done| |done]); cbn [run]; by rewrite E.
Qed.

(** The exit code comes from the command's status, or from a heartbeat the orchestrator rejected. *)
Definition rejected (e : event) : Prop := ∃ a m, e = HeartbeatAnswered a ∧ api_heartbeat a = Raise (LeaseLost m).

Definition main_code (es : list event) (m : main_thread) : Prop :=
  match m with
  | Joining (Exited code) | Releasing (Exited code) | Released (Exited code) => ProcessExits code ∈ es
  | Ended (ExitCode c) =>
      ∃ code, ProcessExits code ∈ es ∧ (c = exit_of false code ∨ c = EXIT_LOST ∧ Exists rejected es)
  | _ => True
  end.

Definition code_from (es : list event) (s : LeaseRun) : Prop :=
  (lr_lost s = true → Exists rejected es) ∧ main_code es (lr_main s).

Lemma main_code_snoc es e m : main_code es m → main_code (es ++ [e]) m.
Proof.
  assert (Hin : ∀ x, x ∈ es → x ∈ es ++ [e]) by (intros; apply elem_of_app; by left).
  destruct m as [w|[]|[]|[]|[]]; cbn [main_code]; auto.
  intros (c & Hc & [->|[-> Hx]]); exists c; (split; [by apply Hin|]); [by left|right]. split; [done|].
  apply Exists_app. by left.
Qed.

Lemma step_lost e s s' : step token host e s = Some s' → lr_lost s' = true → lr_lost s = true ∨ rejected e.
Proof.
  intros E Hlost. destruct e; cbn [step] in E; repeat case_match; simplify_eq/=; auto.
  right. by eexists _, _.
Qed.

(** How the main thread moves. *)
Inductive main_moves (e : event) (lost : bool) : main_thread → main_thread → Prop :=
  | moves_stays m : main_moves e lost m m
  | moves_waits m w : main_moves e lost m (Waiting w)
  | moves_interrupted m : main_moves e lost m (Joining WaitRaised)
  | moves_exits m code : e = ProcessExits code → main_moves e lost m (Joining (Exited code))
  | moves_reraises m : main_moves e lost m (Ended ReraisedInterrupt)
  | moves_releases r : main_moves e lost (Joining r) (Releasing r)
  | moves_released r : main_moves e lost (Releasing r) (Released r)
  | moves_returns r : main_moves e lost (Released r)
      (Ended match r with Exited code => ExitCode (exit_of lost code) | WaitRaised => ReraisedInterrupt end).

Lemma step_moves e s s' : step token host e s = Some s' → main_moves e (lr_lost s) (lr_main s) (lr_main s').
Proof.
  intros E. destruct e; cbn [step] in E; repeat case_match; simplify_eq/=; by constructor.
Qed.

Lemma step_code e es s s' : code_from es s → step token host e s = Some s' → code_from (es ++ [e]) s'.
Proof.
  intros [Hl Hm] E. split.
  - intros Hlost. apply Exists_app. destruct (step_lost _ _ _ E Hlost) as [H|H]; [left; auto|right; by apply Exists_cons; left].
  - apply (main_code_snoc _ e) in Hm. pose proof (step_moves _ _ _ E) as Hmv. clear E. revert Hmv Hm.
    destruct 1 as [| | |? code ->| |[]|[]|[code|]]; cbn [main_code]; try done.
    + intros _. apply elem_of_app. right. left.
    + intros Hc. exists code. split; [done|]. unfold exit_of at 1. destruct (lr_lost s); [right|by left].
      split; [done|]. apply Exists_app. left. auto.
Qed.

Lemma run_code es0 es s s' : code_from es0 s → run token host es s = Some s' → code_from (es0 ++ es) s'.
Proof.
  revert es0 s. induction es as [|e es IH]; intros es0 s Hs; cbn [run]; [intros [= <-]; by rewrite app_nil_r|].
  destruct (step token host e s) as [s1|] eqn:E; [|done]. intros Hrun.
  rewrite cons_middle, app_assoc. apply (IH _ s1); [by eapply step_code|done].
Qed.

(** What is left to do once the command is over. *)
Definition steps_left (s : LeaseRun) : nat :=
  match lr_main s with Waiting _ => 4 | Joining _ => 3 | Releasing _ => 2 | Released _ => 1 | Ended _ => 0 end +
  match lr_beat s with Due => 3 | Sending => 2 | Sleeping => 1 | BeatEnded => 0 end.

Lemma step_progress e s s' :
  run_ok s → lr_stop s = true → step token host e s = Some s' → (steps_left s' < steps_left s)%nat.
Proof.
  intros [_ Hs] Hstop. rewrite Hs in Hstop.
  destruct e; cbn [step]; repeat case_match; try discriminate; intros [= <-]; unfold steps_left;
    cbn [lr_main lr_beat set_main set_beat do_call write_log set_lost stop_and_join];
    repeat match goal with H : lr_main _ = _ |- _ => rewrite H in * | H : lr_beat _ = _ |- _ => rewrite H in * end;
    cbn [is_waiting negb] in *; try congruence; try lia.
Qed.
End thread_lemmas.

(** ** The usual order *)

(** Heartbeats answered one after the other, each before the next is due. *)
Fixpoint beats_in_turn (hs : list http_answer) : list event :=
  match hs with
  | [] => []
  | a :: hs =>
      [IntervalOver; SendHeartbeat; HeartbeatAnswered a] ++
      match api_heartbeat a with Raise (LeaseLost _) => [] | _ => beats_in_turn hs end
  end.

Lemma run_app token host es1 es2 s : run token host (es1 ++ es2) s = run token host es1 s ≫= run token host es2.
Proof.
  revert s. induction es1 as [|e es1 IH]; intros s; [done|]. cbn [app run].
  destruct (step token host e s) as [s1|]; [apply IH|done].
Qed.

Lemma beats_run token host hs s :
  lr_main s = Waiting FirstWait → lr_beat s = Sleeping → lr_stop s = false → lr_lost s = false →
  ∃ s', run token host (beats_in_turn hs) s = Some s' ∧ lr_main s' = Waiting FirstWait ∧
    lr_lost s' = (beat token hs).1 ∧ lr_calls s' = lr_calls s ++ (beat token hs).2 ∧
    lr_beat s' = (if (beat token hs).1 then BeatEnded else Sleeping).
Proof.
  revert s. induction hs as [|a hs IH]; intros s Hm Hb Hs Hl; cbn [beats_in_turn beat].
  { exists s. simpl. by rewrite app_nil_r. }
  rewrite run_app. cbn [run step]. rewrite Hb, Hs. cbn [mbind option_bind step set_beat do_call lr_beat].
  assert (Hnext : ∀ s1, lr_main s1 = Waiting FirstWait → lr_beat s1 = Sleeping → lr_stop s1 = false → lr_lost s1 = false →
    lr_calls s1 = lr_calls s ++ [CHeartbeat token] →
    ∃ s', run token host (beats_in_turn hs) s1 = Some s' ∧ lr_main s' = Waiting FirstWait ∧
      lr_lost s' = (beat token hs).1 ∧ lr_calls s' = lr_calls s ++ CHeartbeat token :: (beat token hs).2 ∧
      lr_beat s' = (if (beat token hs).1 then BeatEnded else Sleeping)).
  { intros s1 Hm1 Hb1 Hs1 Hl1 Hc1. destruct (IH s1 Hm1 Hb1 Hs1 Hl1) as (s' & Hr & Hm' & Hl' & Hc' & Hb').
    exists s'. rewrite Hc', Hc1, <-app_assoc. done. }
  destruct (api_heartbeat a) as [u|[m|m|m]]; cbn [mbind option_bind].
  4: { eexists. split; [reflexivity|]. cbn. rewrite <-app_assoc. done. }
  all: destruct (beat token hs) as [lost calls]; by apply Hnext.
Qed.

(** ** Properties *)

(** C23. The lease is released exactly once, whatever the two threads do.  Never twice; always
    before an exit code is returned; and when it is not released at all, a Ctrl-C came while
    the main thread was joining the heartbeat thread, which leaves the [finally] block before its
    release. *)
Theorem released_exactly_once token host es calls log s :
  Forall (λ c, is_release c = false) calls → run token host es (command_started calls log) = Some s →
  (releases s ≤ 1)%nat ∧ (∀ code, lr_main s = Ended (ExitCode code) → releases s = 1%nat) ∧
  (∀ r, lr_main s = Ended r → releases s = 0%nat →
     ∃ es1 es2 s1 w, es = es1 ++ CtrlC :: es2 ∧ run token host es1 (command_started calls log) = Some s1 ∧
       lr_main s1 = Joining w).
Proof.
  intros Hc Hrun. pose proof (started_ok calls log Hc) as H0. destruct (run_all_ok token host _ _ _ H0 Hrun) as ([Hr _] & _ & _).
  split_and!.
  - destruct (lr_main s) as [w|w|w|w|[]]; lia.
  - intros code E. by rewrite E in Hr.
  - intros r E Hz. by eapply unreleased_end.
Qed.

(** The exit code is exact.  An exit code is the status of the command, a signal [n] becoming
    [128 + n], or 4; and it can be 4 instead of the status only if the orchestrator rejected a
    heartbeat: a failed or lost heartbeat alone never changes it. *)
Theorem exit_code_exact token host es calls log s c :
  run token host es (command_started calls log) = Some s → lr_main s = Ended (ExitCode c) →
  ∃ code, ProcessExits code ∈ es ∧
    (c = (if (code <? 0)%Z then 128 - code else code)%Z ∨ c = EXIT_LOST ∧ Exists rejected es).
Proof.
  intros Hrun Hm. assert (H0 : code_from [] (command_started calls log)) by done.
  destruct (run_code token host _ _ _ _ H0 Hrun) as [_ Hc]. by rewrite Hm in Hc.
Qed.

(** The wrapper always ends.  Once the command is over, the two threads together have at most
    six steps left, and when none is left the wrapper has returned or raised, whatever the
    orchestrator answers and even if a heartbeat is never answered. *)
Theorem wrapper_ends token host es1 es2 calls log s s' :
  Forall (λ c, is_release c = false) calls → run token host es1 (command_started calls log) = Some s →
  is_waiting (lr_main s) = false → run token host es2 s = Some s' →
  (length es2 ≤ 6)%nat ∧ ((∀ e, step token host e s' = None) → ∃ r, lr_main s' = Ended r).
Proof.
  intros Hc Hrun1 Hw Hrun2. destruct (run_all_ok _ _ _ _ _ (started_ok calls log Hc) Hrun1) as (Hok & _).
  assert (Hstop : lr_stop s = true) by (rewrite (ro_stop _ Hok), Hw; done).
  assert (Hlen : (length es2 + steps_left s' ≤ steps_left s)%nat).
  { clear Hrun1 Hw. revert s Hok Hstop Hrun2. induction es2 as [|e es IH]; intros s Hok Hstop; cbn [run]; [intros [= <-]; simpl; lia|].
    destruct (step token host e s) as [s1|] eqn:E; [|done]. intros Hrun.
    destruct (step_ok _ _ _ _ _ Hok E) as (Hok1 & _ & Hs1). pose proof (step_progress _ _ _ _ _ Hok Hstop E).
    specialize (IH s1 Hok1 (Hs1 Hstop) Hrun). simpl. lia. }
  split.
  - assert (steps_left s ≤ 6)%nat; [|lia]. unfold steps_left. destruct (lr_main s) as [w|w|w|w|r]; [done|..]; destruct (lr_beat s); lia.
  - intros Hstuck. destruct (run_all_ok _ _ _ _ _ Hok Hrun2) as ([_ Hs'] & _ & Hstop').
    destruct (lr_main s') as [w|w|w|w|r] eqn:Em; [|exfalso..|by exists r].
    + rewrite (Hstop' Hstop) in Hs'; discriminate Hs'.
    + pose proof (Hstuck JoinEnds) as H1. pose proof (Hstuck JoinTimesOut) as H2. cbn [step] in H1, H2. rewrite Em in H1, H2.
      by destruct (lr_beat s').
    + specialize (Hstuck (ReleaseAnswered (HttpFailed ""))). cbn [step] in Hstuck. by rewrite Em in Hstuck.
    + specialize (Hstuck Returns). cbn [step] in Hstuck. by rewrite Em in Hstuck.
Qed.

(** C24. The sequential account of the wrapper is one of these runs: when the heartbeats are
    answered in turn and the command then exits, the threads make exactly the calls of
    [run_leased], in its order, and return its exit code. *)
Theorem threads_refine_run_leased render command base_url reserved hs code token host log answer :
  command ≠ [] → granted reserved token →
  ∃ es s c, run_leased render command base_url reserved LeaseRunner.Started hs (Exited code) = (ExitCode c, lr_calls s) ∧
    run token host es (command_started [CReserve; CStart (leased_client_base base_url token)] log) = Some s ∧
    lr_main s = Ended (ExitCode c) ∧
    es = beats_in_turn hs ++ [ProcessExits code] ++ (if (beat token hs).1 then [] else [StopSeen]) ++
         [JoinEnds; ReleaseAnswered answer; Returns].
Proof.
  intros Hc Hg.
  rewrite (run_leased_granted _ _ _ _ _ _ _ _ Hc Hg).
  destruct (beats_run token host hs (command_started [CReserve; CStart (leased_client_base base_url token)] log))
    as (s & Hrun & Hm & Hl & Hcalls & Hb); [done..|].
  assert (Hend : ∃ s', run token host ([ProcessExits code] ++ (if (beat token hs).1 then [] else [StopSeen]) ++
      [JoinEnds; ReleaseAnswered answer; Returns]) s = Some s' ∧
    lr_main s' = Ended (ExitCode (exit_of (beat token hs).1 code)) ∧ lr_calls s' = lr_calls s ++ [CRelease token]).
  { cbn [app run step]. rewrite Hm. cbn [mbind option_bind]. rewrite <-Hl in Hb |- *.
    destruct (lr_lost s) eqn:El; cbn [app run step stop_and_join lr_beat lr_stop]; rewrite Hb; cbn; rewrite ?El; by eexists. }
  destruct Hend as (s' & Hrun' & Hm' & Hcalls').
  eexists _, s', _. split; [|split; [|split; [exact Hm'|reflexivity]]].
  - by rewrite Hcalls', Hcalls.
  - by rewrite run_app, Hrun.
Qed.

(** What the gateway answers to a call: the status is all the wrapper looks at. *)
Definition gateway_answer {A} (r : outcome app_error A) (a : http_answer) : Prop :=
  ∃ body text, a = HttpAnswer (call_status r) body text.

Lemma released_token_unknown token w w1 :
  book_wf (w_book w) → release_node_lease (Some token) w = (Ret tt, w1) → lb_by_token (w_book w1) !! token = None.
Proof.
  intros Hwf. unfold release_node_lease, mbind, app_prog_bind, mbind, prog_bind, in_book, Leases.release.
  unfold mbind, prog_bind, live_unlocked. cbn [default from_option id].
  destruct (lb_by_token (w_book w) !! token) as [l|] eqn:El; [|done]. destruct (has_ended (w_lease_now w) l); [done|].
  intros [= <-]. cbn. destruct (wf_by_token _ Hwf _ _ El) as [-> _]. apply lookup_delete_eq.
Qed.

Lemma unknown_token_refused cfg token w :
  lb_by_token (w_book w) !! token = None → call_status (heartbeat_node_lease cfg (Some token) w).1 = 403%Z.
Proof.
  intros H. unfold heartbeat_node_lease, mbind, app_prog_bind, mbind, prog_bind, in_book, Leases.heartbeat.
  unfold mbind, prog_bind, live_unlocked. cbn [default from_option id]. by rewrite H.
Qed.

Lemma run_next token host e es s s1 r :
  step token host e s = Some s1 → run token host es s1 = r → run token host (e :: es) s = r.
Proof. intros E. cbn [run]. by rewrite E. Qed.

(** A late heartbeat masks success.  The command exits 0 while a heartbeat waits for its
    answer for longer than the two seconds of the join; the wrapper's own release reaches the
    gateway first, the gateway then refuses the heartbeat of the token it has just dropped, and the
    wrapper returns 4, lease lost, instead of 0. *)
Theorem late_heartbeat_masks_success cfg token host w w1 late released calls log :
  book_wf (w_book w) → release_node_lease (Some token) w = (Ret tt, w1) →
  gateway_answer (Ret tt : outcome app_error unit) released →
  gateway_answer (heartbeat_node_lease cfg (Some token) w1).1 late →
  ∃ s, run token host [IntervalOver; SendHeartbeat; ProcessExits 0; JoinTimesOut; HeartbeatAnswered late;
                       ReleaseAnswered released; Returns] (command_started calls log) = Some s ∧
    lr_main s = Ended (ExitCode EXIT_LOST) ∧ releases s = (releases (command_started calls log) + 1)%nat.
Proof.
  intros Hwf Hrel (rb & rt & ->) (hb & ht & ->).
  rewrite (unknown_token_refused cfg token w1 (released_token_unknown _ _ _ Hwf Hrel)).
  eexists. split; [do 7 (eapply run_next; [cbn; reflexivity|]); reflexivity|]. split; [reflexivity|].
  unfold releases. cbn. rewrite !filter_app, !length_app. simpl. lia.
Qed.

(** A Ctrl-C in the join keeps the lease.  If it arrives while the main thread joins the heartbeat
    thread, the wrapper ends with the interrupt, has not released the lease, and never will,
    whatever its heartbeat thread still does. *)
Theorem interrupted_join_keeps_lease token host es1 es2 calls log s s1 s2 w :
  Forall (λ c, is_release c = false) calls → run token host es1 (command_started calls log) = Some s →
  lr_main s = Joining w → step token host CtrlC s = Some s1 → run token host es2 s1 = Some s2 →
  lr_main s2 = Ended ReraisedInterrupt ∧ releases s2 = 0%nat.
Proof.
  intros Hc Hrun Hj Hstep. destruct (run_all_ok _ _ _ _ _ (started_ok calls log Hc) Hrun) as ([Hr _] & _).
  rewrite Hj in Hr. cbn [step] in Hstep. rewrite Hj in Hstep. injection Hstep as <-.
  assert (H : ∀ e s s', lr_main s = Ended ReraisedInterrupt → step token host e s = Some s' →
    lr_main s' = Ended ReraisedInterrupt ∧ releases s' = releases s).
  { clear. intros e s s' Hm. destruct e; cbn [step]; rewrite ?Hm; repeat case_match; intros; simplify_eq/=;
      autorewrite with releases; cbn [is_release]; rewrite ?Nat.add_0_r; done. }
  assert (Hall : ∀ s s', lr_main s = Ended ReraisedInterrupt → run token host es2 s = Some s' →
    lr_main s' = Ended ReraisedInterrupt ∧ releases s' = releases s).
  { induction es2 as [|e es IH]; intros x x' Hm; cbn [run]; [by intros [= <-]|].
    destruct (step token host e x) as [y|] eqn:E; [|done]. intros Hy. destruct (H _ _ _ Hm E) as [Hy1 Hy2].
    destruct (IH _ _ Hy1 Hy) as [Hz1 Hz2]. split; [done|congruence]. }
  intros Hrun2. destruct (Hall (set_main (Ended ReraisedInterrupt) s) s2 eq_refl Hrun2) as [-> ->].
  split; [done|]. by rewrite releases_main.
Qed.

(** ** The child *)

(** The requests a client makes relative to its base URL. *)
Definition child_requests : list (string * string) := [("POST", "/chat/completions"); ("GET", "/capacity")].

(** The command's requests reach the leased host.  Whatever form the base URL has, the command
    finds a base under which its chat and capacity requests, sent with no lease header, pass
    the gateway as requests for the plain route that carry the token; of its environment
    nothing else changes. *)
Theorem child_requests_are_pinned env base_url token host_id m sub s :
  token ≠ "" → has_slash token = false → (m, sub) ∈ child_requests →
  let path := "/lease/" +:+ token +:+ "/v1" +:+ sub in
  let env' := child_environment env base_url token host_id in
  sc_type s = "http" → sc_method s = Some m → sc_headers s = Some [] → sc_path s = Some path →
  (∃ base, env' !! "OPENAI_BASE_URL" = Some base ∧ env' !! "ORCHESTRATOR_BASE_URL" = Some base ∧
     base +:+ sub = orchestrator_origin base_url +:+ path) ∧
  (∃ s', lease_path_middleware s = Forward s' ∧ sc_path s' = Some ("/v1" +:+ sub) ∧
     lease_header s' = Some (utf8 token)) ∧
  ∀ k, k ∉ ["ORCHESTRATOR_BASE_URL"; "OPENAI_BASE_URL"; "LLM_HOME_LAB_NODE_LEASE"; "LLM_HOME_LAB_LEASE_HEADER";
            "LLM_HOME_LAB_NODE_ID"] → env' !! k = env !! k.
Proof.
  intros Hne Hs Hin path env' Ht Hm Hh Hp. split_and!.
  - exists (leased_client_base base_url token). unfold env', child_environment.
    split_and!; [by rewrite !lookup_insert_ne, lookup_insert_eq by done|by rewrite !lookup_insert_ne, lookup_insert_eq by done|].
    unfold leased_client_base, path. by rewrite !str_app_assoc.
  - assert (Hroute : (m, "/v1" +:+ sub) ∈ lease_routes ∧ canonical_rest ("/v1" +:+ sub) = "/v1" +:+ sub).
    { revert Hin. clear. intros [[= -> ->]|[[= -> ->]|[]%not_elem_of_nil]%elem_of_cons]%elem_of_cons; split; try reflexivity; vm_decide. }
    destruct Hroute as [Hroute Hcan].
    destruct (leased_path_forwarded s token ("/v1" +:+ sub) m Ht Hm Hroute ltac:(by eexists) Hne Hs Hp)
      as (s' & Hf & Hp' & _ & _ & Hl).
    exists s'. split; [done|]. split; [by rewrite Hp', Hcan|]. rewrite Hl. unfold lease_header. by rewrite Hh.
  - intros k Hk. rewrite !not_elem_of_cons in Hk. destruct Hk as (H1 & H2 & H3 & H4 & H5 & _).
    subst env'. unfold child_environment. by rewrite !lookup_insert_ne by done.
Qed.


(** ** Concrete runs *)

Definition sample_start : LeaseRun := command_started [CReserve; CStart "http://lab:8080/lease/tok-1/v1"] [].

(** A heartbeat is answered, the command exits with 3, and the lease is released. *)
Definition usual_run : list event :=
  [IntervalOver; SendHeartbeat; HeartbeatAnswered (HttpAnswer 200 None ""); ProcessExits 3; StopSeen; JoinEnds;
   ReleaseAnswered (HttpAnswer 200 None ""); Returns].

Definition usual_end : LeaseRun := default sample_start (run "tok-1" "a" usual_run sample_start).

Lemma usual_runs : run "tok-1" "a" usual_run sample_start = Some usual_end.
Proof. reflexivity. Qed.

Lemma sample_unreleased : Forall (λ c, is_release c = false) [CReserve; CStart "http://lab:8080/lease/tok-1/v1"].
Proof. by repeat constructor. Qed.

Lemma released_exactly_once_witness :
  lr_main usual_end = Ended (ExitCode 3) ∧ releases usual_end = 1%nat ∧
  lr_log usual_end = ["llm-home-lab-run: released a"].
Proof.
  split; [reflexivity|]. split; [|reflexivity].
  apply (proj1 (proj2 (released_exactly_once "tok-1" "a" usual_run _ [] _ sample_unreleased usual_runs)) 3%Z). reflexivity.
Defined.

Lemma exit_code_exact_witness :
  ∃ code, ProcessExits code ∈ usual_run ∧ (3 = (if (code <? 0)%Z then 128 - code else code))%Z.
Proof.
  destruct (exit_code_exact "tok-1" "a" usual_run _ [] _ 3 usual_runs eq_refl) as (code & Hin & [H|[H _]]); [|discriminate H].
  by exists code.
Defined.

Lemma wrapper_ends_witness :
  ∃ s, run "tok-1" "a" (take 4 usual_run) sample_start = Some s ∧ is_waiting (lr_main s) = false ∧
    ∃ r, lr_main usual_end = Ended r.
Proof.
  eexists. split; [reflexivity|]. split; [reflexivity|].
  eapply (wrapper_ends "tok-1" "a" (take 4 usual_run) (drop 4 usual_run) _ [] _ usual_end sample_unreleased eq_refl eq_refl eq_refl).
  intros e. destruct e; reflexivity.
Defined.

Lemma threads_refine_run_leased_witness :
  ∃ es s, run "tok-1" "a" es sample_start = Some s ∧
    run_leased (λ _, "") ["pytest"] "http://lab:8080/v1" sample_lease_answer LeaseRunner.Started
      [HttpFailed "reset"; HttpAnswer 409 None "ended"] (Exited (-15)) = (ExitCode 4, lr_calls s).
Proof.
  destruct (threads_refine_run_leased (λ _, "") ["pytest"] "http://lab:8080/v1" sample_lease_answer
    [HttpFailed "reset"; HttpAnswer 409 None "ended"] (-15) "tok-1" "a" [] (HttpAnswer 200 None "")) as (es & s & c & Hl & Hr & _).
  - discriminate.
  - eexists. split; [reflexivity|]. split; [reflexivity|]. repeat constructor; by eexists.
  - exists es, s. split; [exact Hr|]. rewrite Hl. f_equal. apply (f_equal fst) in Hl. cbn in Hl. by injection Hl as <-.
Defined.

(** A gateway whose book has one lease. *)
Definition leased_world : World := set_book sample_book sample_nodes.

Lemma sample_book_wf : book_wf sample_book.
Proof. apply store_fresh_wf; [apply book_wf_new|done|done]. Qed.

Lemma late_heartbeat_masks_success_witness :
  ∃ s, run "tok-1" "a" [IntervalOver; SendHeartbeat; ProcessExits 0; JoinTimesOut;
      HeartbeatAnswered (HttpAnswer 403 None "lease token is not valid"); ReleaseAnswered (HttpAnswer 200 None ""); Returns]
    sample_start = Some s ∧ lr_main s = Ended (ExitCode 4).
Proof.
  destruct (late_heartbeat_masks_success default_lease_settings "tok-1" "a" leased_world
    (set_book (drop_unlocked sample_lease sample_book) leased_world)
    (HttpAnswer 403 None "lease token is not valid") (HttpAnswer 200 None "")
    [CReserve; CStart "http://lab:8080/lease/tok-1/v1"] []) as (s & Hr & Hm & _).
  - exact sample_book_wf.
  - vm_compute. reflexivity.
  - by eexists _, _.
  - eexists _, _. by vm_compute.
  - exists s. split; [exact Hr|exact Hm].
Defined.

Lemma interrupted_join_keeps_lease_witness :
  ∃ s, run "tok-1" "a" [IntervalOver; SendHeartbeat; ProcessExits 0; CtrlC; HeartbeatAnswered (HttpFailed "slow")] sample_start = Some s ∧
    lr_main s = Ended ReraisedInterrupt ∧ releases s = 0%nat.
Proof.
  eexists. split; [reflexivity|].
  apply (interrupted_join_keeps_lease "tok-1" "a" [IntervalOver; SendHeartbeat; ProcessExits 0]
    [HeartbeatAnswered (HttpFailed "slow")] _ [] _ _ _ (Exited 0) sample_unreleased eq_refl eq_refl eq_refl eq_refl).
Defined.

Lemma child_requests_are_pinned_witness :
  ∃ s', lease_path_middleware {| sc_type := "http"; sc_method := Some "GET"; sc_path := Some "/lease/tok-1/v1/capacity";
      sc_raw_path := None; sc_headers := Some [] |} = Forward s' ∧ sc_path s' = Some "/v1/capacity" ∧
    lease_header s' = Some "tok-1".
Proof.
  destruct (child_requests_are_pinned ∅ "http://lab:8080/v1" "tok-1" "a" "GET" "/capacity"
    {| sc_type := "http"; sc_method := Some "GET"; sc_path := Some "/lease/tok-1/v1/capacity"; sc_raw_path := None;
       sc_headers := Some [] |}) as (_ & H & _).
  - discriminate.
  - reflexivity.
  - right. left.
  - reflexivity.
  - reflexivity.
  - reflexivity.
  - reflexivity.
  - exact H.
Defined.
