(* ===== verification/Wire.v ===== *)
(** * What goes over the wire ([api/app.py], [security/rotate_keys.py])

    The text the gateway writes and the parts of the package that read such text: the body of
    a completion, which [scripts/demo_workload.py] reads; the events of a stream, which a
    second gateway reads when this one is its backend; the key file, which
    [rotate_keys.main] rewrites and the gateway loads.  JSON is text here, by [JsonText].

    How [httpx] cuts a body into lines is an argument, which splits as [str.splitlines] does
    (its documentation). *)

From S2P Require Import Prelude.
From S2P Require Import PyFloat.
From S2P Require Import PyStr.
From S2P Require Import PyNum.
From S2P Require Import PyRound.
From S2P Require Import PyDict.
From S2P Require Import PyJson.
From S2P Require Import JsonText.
From S2P Require Import ApiModels.
From S2P Require Import Leases.
From S2P Require Import Registry.
From S2P Require Import Startup.
From S2P Require Import Gateway.
From S2P Require Import Backends.
From S2P Require Import Streams.
From S2P Require Import Diagnostics.
From S2P Require Import Security.
From S2P Require Import Demo.

#[local] Open Scope list_scope.

(** ** JSON columns *)

(** Text columns hold [json.dumps] of a value, and are read by [json.loads]. *)
Definition column_text {A} `{JsonCodec A} (a : A) : string := dumps (to_json a).
Definition column_value {A} `{JsonCodec A} (text : string) : option A := loads text ≫= of_json.

(** ** A completion *)

(** The body [chat_completions] returns, for token counts that are integers. *)
Definition completion_body (id : string) (created : Z) (r : BackendResponse) : option json :=
  match br_prompt_tokens r, br_completion_tokens r with
  | JInt p, JInt c =>
      Some (JObj [("id", JStr ("chatcmpl-" +:+ id));
                  ("object", JStr "chat.completion");
                  ("created", JInt created);
                  ("model", JStr (br_model r));
                  ("choices", JList [JObj [("index", JInt 0);
                                           ("message", JObj [("role", JStr "assistant"); ("content", JStr (br_content r))]);
                                           ("finish_reason", br_finish_reason r)]]);
                  ("usage", JObj [("prompt_tokens", JInt p); ("completion_tokens", JInt c);
                                  ("total_tokens", JInt (p + c))])])
  | _, _ => None
  end.

(** ** A stream *)

Section stream.
(** [uuid4().hex], the time of the start, and the model that was asked for. *)
Context (id : string) (created : Z) (m : string).

Definition chunk_payload (c : BackendChunk) : json :=
  JObj [("id", JStr ("chatcmpl-" +:+ id));
        ("object", JStr "chat.completion.chunk");
        ("created", JInt created);
        ("model", JStr m);
        ("choices", JList [JObj [("index", JInt 0);
                                 ("delta", JObj [("role", JStr "assistant"); ("content", ck_content c)]);
                                 ("finish_reason", ck_finish_reason c)]])].

Definition data_event (data : string) : string := "data: " +:+ data +:+ newline +:+ newline.

(** What [_stream_chunks] yields, given how the backend's stream went. *)
Definition stream_events (stream : list BackendChunk * outcome backend_exn unit) : list string :=
  (data_event ∘ dumps ∘ chunk_payload <$> (relay relayed_new stream.1).1) ++
  match relay_result stream f_zero with StreamEnded _ _ _ _ => [data_event "[DONE]"] | StreamAborted _ => [] end.

Definition body_text (events : list string) : string := foldr String.append "" events.
End stream.

(** ** Rotating a key in the file *)

Record rotation := { rt_exit : Z; rt_file : string; rt_out : list string }.

Section rotate.
Context `{IsoFormat} (render : json → string).

(** [load_clients] and [ApiKeyStore.from_file] on the text of the file *)
Definition load_file (text : string) : option (list ClientConfig) := loads text ≫= load_clients render.

(** [save_clients] *)
Definition save_file (clients : list ClientConfig) : string := dumps_with (Some 2) (save_clients clients) +:+ newline.

(** [main] of [rotate_keys.py], on a file that can be read; [None]: it does not parse. *)
Definition rotate_main (cid keys_file new_key : string) (now : datetime) (grace_period : timedelta) (file : string)
    : option rotation :=
  clients ← load_file file;
  Some match rotate_client_key clients cid new_key now grace_period with
       | None => {| rt_exit := 1; rt_file := file;
                    rt_out := ["error: client_id " +:+ str_repr cid +:+ " not found in " +:+ keys_file] |}
       | Some updated => {| rt_exit := 0; rt_file := save_file updated; rt_out := [new_key] |}
       end.
End rotate.

(** ** Columns *)

(** Writing a value into a text column and reading it gives the value. *)
Lemma column_round_trip {A} `{JsonCodec A} (a : A) :
  json_ok (to_json a) = true → column_value (column_text a) = Some a.
Proof. intros Ha. unfold column_value, column_text. rewrite loads_dumps_plain by done. apply of_to_json. Qed.

(** ** Reading a stream *)

Lemma printable_line s : str_all printable_char s = true → no_linebreak s = true.
Proof.
  apply str_all_impl. intros c. unfold printable_char, is_linebreak. rewrite andb_true_iff, !N.leb_le. intros H.
  rewrite negb_true_iff, !orb_false_iff, !andb_false_iff, !N.leb_gt, N.eqb_neq. lia.
Qed.

Lemma lines_of_event d rest :
  str_all printable_char d = true →
  splitlines (data_event d +:+ rest) = ("data: " +:+ d) :: "" :: splitlines rest.
Proof.
  intros Hd. unfold data_event. rewrite !str_app_assoc, <- (str_app_assoc "data: ").
  rewrite splitlines_line; [|by apply printable_line; rewrite str_all_app, Hd].
  by rewrite <- (str_app_nil_l (newline +:+ rest)), splitlines_line.
Qed.

Lemma read_data_line d rest ending :
  d ≠ "[DONE]" →
  read_lines loads (("data: " +:+ d) :: "" :: rest) ending =
    match read_data loads d with
    | LSkip => read_lines loads rest ending
    | LDone => ([], AReturn)
    | LChunk c => let '(cs, e) := read_lines loads rest ending in (c :: cs, e)
    | LRaise e => ([], ARaise e)
    end.
Proof.
  intros Hd. cbn [read_lines]. unfold read_line at 1.
  rewrite (proj2 (str_prefix_spec "data: " ("data: " +:+ d))) by (by exists d). cbn [negb].
  rewrite str_removeprefix_app, bool_decide_eq_false_2 by done. by destruct (read_data loads d).
Qed.

(** What a chunk is to the next gateway: its usage does not go along. *)
Definition without_usage (c : BackendChunk) : BackendChunk :=
  {| ck_content := ck_content c; ck_finish_reason := ck_finish_reason c; ck_usage := JNull |}.

Definition chunk_ok (c : BackendChunk) : bool := json_ok (ck_content c) && json_ok (ck_finish_reason c).

Section chain.
Context (id : string) (created : Z) (m : string) (Hcreated : int_ok created = true).

Lemma payload_ok c : chunk_ok c = true → json_ok (chunk_payload id created m c) = true.
Proof.
  unfold chunk_ok. rewrite andb_true_iff. intros [Hc Hf]. cbn -[bool_decide]. rewrite Hcreated, Hc, Hf.
  by vm_compute.
Qed.

Lemma read_payload c :
  chunk_ok c = true → read_data loads (dumps (chunk_payload id created m c)) = LChunk (without_usage c).
Proof. intros Hc. unfold read_data. by rewrite loads_dumps_plain by by apply payload_ok. Qed.

Lemma payload_not_done c : dumps (chunk_payload id created m c) ≠ "[DONE]".
Proof.
  unfold dumps, dumps_with, chunk_payload. cbn [dumps_at].
  by match goal with |- bracketed _ _ _ _ ?items ≠ _ => destruct (bracketed_head None "{" "}" 0 items) as [t ->] end.
Qed.

Lemma read_events cs rest ending :
  forallb chunk_ok cs = true →
  read_lines loads (splitlines (body_text (data_event ∘ dumps ∘ chunk_payload id created m <$> cs) +:+ rest)) ending =
    (let '(cs', e) := read_lines loads (splitlines rest) ending in ((without_usage <$> cs) ++ cs', e)).
Proof.
  induction cs as [|c cs IH]; intros Hcs.
  - rewrite str_app_nil_l. by destruct (read_lines _ _ _).
  - apply andb_true_iff in Hcs as [Hc Hcs]. rewrite !fmap_cons. cbn [body_text foldr compose]. rewrite str_app_assoc.
    rewrite lines_of_event by by apply dumps_printable, payload_ok.
    rewrite read_data_line, read_payload by (done || apply payload_not_done).
    specialize (IH Hcs). unfold body_text in IH. rewrite IH. by destruct (read_lines loads (splitlines rest) ending).
Qed.

Lemma body_text_app es fs : body_text (es ++ fs) = body_text es +:+ body_text fs.
Proof. induction es as [|e es IH]; [by rewrite str_app_nil_l|]. cbn [body_text foldr app]. unfold body_text in IH. by rewrite IH, str_app_assoc. Qed.

(** The whole body, as the client of the stream reads it. *)
Lemma read_stream stream ending :
  forallb chunk_ok (relay relayed_new stream.1).1 = true →
  read_lines loads (splitlines (body_text (stream_events id created m stream))) ending =
    (without_usage <$> (relay relayed_new stream.1).1,
     match relay_result stream f_zero, ending with
     | StreamAborted _, Some e => ATransport e
     | _, _ => AReturn
     end).
Proof.
  intros Hcs. unfold stream_events. rewrite body_text_app, read_events by done.
  destruct (relay_result stream f_zero) as [u saw last lat|e].
  - cbn [body_text foldr]. rewrite (lines_of_event "[DONE]" "") by done. cbn [read_lines]. unfold read_line.
    rewrite (proj2 (str_prefix_spec "data: " ("data: " +:+ "[DONE]"))) by (by exists "[DONE]"). cbn [negb].
    rewrite str_removeprefix_app, bool_decide_eq_true_2 by done. by rewrite app_nil_r.
  - cbn. by rewrite app_nil_r.
Qed.
End chain.

Lemma forwarded_texts chunks texts :
  ck_content <$> chunks = JStr <$> texts →
  ∃ texts', ck_content <$> filter (λ c, accounting_only c = false) chunks = JStr <$> texts' ∧
            foldr String.append "" texts' = foldr String.append "" texts.
Proof.
  revert texts. induction chunks as [|c chunks IH]; intros texts Et; [destruct texts; [by exists []|done]|].
  destruct texts as [|t texts]; [done|]. injection Et as Ec Et. destruct (IH texts Et) as (ts & Ets & Hts).
  rewrite filter_cons. destruct (decide (accounting_only c = false)) as [|Hn].
  - exists (t :: ts). rewrite !fmap_cons, Ec, Ets. simpl. by rewrite Hts.
  - exists ts. split; [done|]. unfold accounting_only in Hn. rewrite Ec in Hn. by destruct t.
Qed.

Lemma forwarded_reasons d chunks :
  last_given d (ck_finish_reason <$> filter (λ c, accounting_only c = false) chunks) =
  last_given d (ck_finish_reason <$> chunks).
Proof.
  unfold last_given. do 2 f_equal. induction chunks as [|c chunks IH]; [done|].
  rewrite filter_cons. destruct (decide (accounting_only c = false)) as [|Hn]; rewrite !fmap_cons, !filter_cons, IH; [done|].
  unfold accounting_only in Hn. rewrite andb_false_iff in Hn. destruct (is_null (ck_finish_reason c)) eqn:E; [done|].
  exfalso. apply Hn. by right.
Qed.

Lemma no_usage (cs : list BackendChunk) : last_given JNull (ck_usage <$> (without_usage <$> cs)) = JNull.
Proof. unfold last_given. rewrite Prelude.filter_false; [done|]. intros j. rewrite <- list_fmap_compose. by intros (c & -> & _)%list_elem_of_fmap. Qed.

Lemma chunk_ok_forwarded chunks texts :
  ck_content <$> chunks = JStr <$> texts → forallb (λ c, json_ok (ck_finish_reason c)) chunks = true →
  forallb chunk_ok (relay relayed_new chunks).1 = true.
Proof.
  intros Et Hf. rewrite (relay_texts _ _ _ Et). cbn [fst]. rewrite forallb_forall in Hf |- *. intros c Hc.
  apply list_elem_of_In, list_elem_of_filter in Hc as [_ Hc]. unfold chunk_ok. rewrite Hf by by apply list_elem_of_In.
  assert (Hin : ck_content c ∈ (JStr <$> texts)) by (rewrite <- Et; by apply list_elem_of_fmap_2).
  apply list_elem_of_fmap in Hin as (t & -> & _). done.
Qed.

(** ** The key file *)

Lemma all_strings_ok (l : list string) : forallb json_ok (JStr <$> l) = true.
Proof. by induction l as [|s l IH]. Qed.

Lemma api_key_ok `{IsoFormat} k : json_ok (api_key_to_dict k) = true.
Proof. unfold api_key_to_dict. by destruct (expires_at k); vm_compute. Qed.

Lemma all_ok {A} (f : A → json) (l : list A) : (∀ x, json_ok (f x) = true) → forallb json_ok (f <$> l) = true.
Proof. intros Hf. induction l as [|x l IH]; [done|]. rewrite fmap_cons. cbn [forallb]. by rewrite Hf. Qed.

Lemma client_ok `{IsoFormat} c : json_ok (client_config_to_dict c) = true.
Proof.
  unfold client_config_to_dict. cbn -[bool_decide d_keys]. rewrite all_strings_ok, (all_ok _ _ api_key_ok).
  by vm_compute.
Qed.

Lemma save_ok `{IsoFormat} clients : json_ok (save_clients clients) = true.
Proof. unfold save_clients. cbn -[bool_decide d_keys]. rewrite (all_ok _ _ client_ok). by vm_compute. Qed.

(** ** Properties *)

(** C25. A stream of the gateway is one the package itself can read.  When a gateway has another
    one as its backend, the client of the second one gets, of the chunks the first one got
    from its own backend, exactly those it forwarded, with the text and the finish reason to the
    letter, in order and without their usage; the stream counts as complete when it ended with
    [[DONE]] or no error cut it short. *)
Theorem stream_survives_gateway aiter_lines id created m stream ending :
  (∀ s, aiter_lines s = splitlines s) → int_ok created = true →
  forallb chunk_ok (relay relayed_new stream.1).1 = true →
  let body := body_text (stream_events id created m stream) in
  run_attempt loads (Backends.Response 200 body (aiter_lines body) ending) =
    (without_usage <$> (relay relayed_new stream.1).1,
     match relay_result stream f_zero, ending with
     | StreamAborted _, Some e => ATransport e
     | _, _ => AReturn
     end).
Proof. intros Hl Hc Hok. cbv zeta. cbn [run_attempt]. rewrite Hl. by apply read_stream. Qed.

(** A completion through two gateways has the text and the finish reason of the backend
    behind them, but no tokens: the first gateway keeps the usage to itself, so the second one
    counts zero prompt and zero completion tokens, whatever the backend counted. *)
Theorem chained_completion_counts_nothing aiter_lines id created m m1 m2 chunks texts r :
  (∀ s, aiter_lines s = splitlines s) → int_ok created = true →
  ck_content <$> chunks = JStr <$> texts → forallb (λ c, json_ok (ck_finish_reason c)) chunks = true →
  backend_complete m1 (chunks, Ret tt) = Ret r →
  let body := body_text (stream_events id created m (chunks, Ret tt)) in
  let '(read, e) := run_attempt loads (Backends.Response 200 body (aiter_lines body) None) in
  e = AReturn ∧
  backend_complete m2 (read, Ret tt) =
    Ret {| br_model := m2; br_content := br_content r; br_finish_reason := br_finish_reason r;
           br_prompt_tokens := JInt 0; br_completion_tokens := JInt 0 |}.
Proof.
  intros Hl Hc Et Hf Hr. cbv zeta. cbn [run_attempt]. rewrite Hl.
  change (negb (200 / 100 =? 2)%Z) with false. cbv iota.
  rewrite read_stream by (done || by apply (chunk_ok_forwarded _ texts)). cbn [fst].
  split; [by destruct (relay_result _ _)|]. rewrite (relay_texts _ _ _ Et). cbn [fst].
  destruct (forwarded_texts chunks texts Et) as (ts & Ets & Hts).
  revert Hr. unfold backend_complete. cbn [fst snd]. rewrite !accumulate_all, no_usage. unfold response_of. simpl.
  rewrite <- !list_fmap_compose. change (ck_content ∘ without_usage) with ck_content.
  change (ck_finish_reason ∘ without_usage) with ck_finish_reason.
  rewrite Et, Ets, !join_parts_texts, forwarded_reasons, Hts.
  destruct (usage_field _ "prompt_tokens"); [|done]. destruct (usage_field _ "completion_tokens"); [|done].
  by intros [= <-].
Qed.

(** The load generator reads what the gateway answers: for every completion it prints the
    question and the answer, cut to 70 characters, and counts a success. *)
Theorem demo_reads_answer use_color node_colors id created r body index prompt backend_id text elapsed :
  completion_body id created r = Some body →
  let '(lines, outcome) := read_response node_colors use_color index prompt 200 backend_id (Some body) text elapsed in
  outcome = Some true ∧ length lines = 3 ∧
  lines !! 1 = Some ("    " +:+ paint use_color "Q" DIM +:+ " " +:+ truncate 70 prompt) ∧
  lines !! 2 = Some ("    " +:+ paint use_color "A" DIM +:+ " " +:+ truncate 70 (br_content r)).
Proof.
  unfold completion_body. destruct (br_prompt_tokens r); try done. destruct (br_completion_tokens r); try done.
  by intros [= <-].
Qed.

(** A rotation of a key reaches the gateway through the file: rotating writes a file that
    loads as exactly the rotated clients, and prints the new key; for a client the file does
    not have it exits with 1 and writes nothing. *)
Theorem rotation_reaches_gateway `{IsoFormat} render cid keys_file new_key now grace file clients :
  load_file render file = Some clients →
  match rotate_client_key clients cid new_key now grace with
  | Some updated => ∃ file', rotate_main render cid keys_file new_key now grace file =
                               Some {| rt_exit := 0; rt_file := file'; rt_out := [new_key] |} ∧
                             load_file render file' = Some updated
  | None => ∃ out, rotate_main render cid keys_file new_key now grace file =
                     Some {| rt_exit := 1; rt_file := file; rt_out := out |}
  end.
Proof.
  intros Hf. unfold rotate_main. rewrite Hf. cbn [mbind option_bind].
  destruct (rotate_client_key clients cid new_key now grace) as [updated|]; [|by eexists].
  eexists. split; [done|]. unfold load_file, save_file. rewrite loads_dumps_ws by (apply save_ok || done).
  apply clients_roundtrip.
Qed.

(** ** Witnesses *)

Definition sample_stream : list BackendChunk :=
  [text_chunk "Hi "; {| ck_content := JStr "there"; ck_finish_reason := JStr "stop"; ck_usage := JNull |};
   {| ck_content := JStr ""; ck_finish_reason := JNull;
      ck_usage := JObj [("prompt_tokens", JInt 3); ("completion_tokens", JInt 2)] |}].

Lemma stream_survives_gateway_witness :
  let body := body_text (stream_events "ab" 1700000000 "m" (sample_stream, Ret tt)) in
  run_attempt loads (Backends.Response 200 body (splitlines body) None) =
    ([text_chunk "Hi "; {| ck_content := JStr "there"; ck_finish_reason := JStr "stop"; ck_usage := JNull |}], AReturn).
Proof.
  cbv zeta. rewrite (stream_survives_gateway splitlines "ab" 1700000000 "m" (sample_stream, Ret tt) None);
    [reflexivity|done|by vm_compute|by vm_compute].
Defined.

Lemma chained_completion_counts_nothing_witness :
  let body := body_text (stream_events "ab" 1700000000 "m" (sample_stream, Ret tt)) in
  backend_complete "m" (sample_stream, Ret tt) =
    Ret {| br_model := "m"; br_content := "Hi there"; br_finish_reason := JStr "stop";
           br_prompt_tokens := JInt 3; br_completion_tokens := JInt 2 |} ∧
  backend_complete "m" ((run_attempt loads (Backends.Response 200 body (splitlines body) None)).1, Ret tt) =
    Ret {| br_model := "m"; br_content := "Hi there"; br_finish_reason := JStr "stop";
           br_prompt_tokens := JInt 0; br_completion_tokens := JInt 0 |}.
Proof.
  cbv zeta. split; [reflexivity|].
  pose proof (chained_completion_counts_nothing splitlines "ab" 1700000000 "m" "m" "m" sample_stream ["Hi "; "there"; ""]
    {| br_model := "m"; br_content := "Hi there"; br_finish_reason := JStr "stop";
       br_prompt_tokens := JInt 3; br_completion_tokens := JInt 2 |} (λ _, eq_refl) ltac:(by vm_compute) eq_refl eq_refl eq_refl) as H.
  cbv zeta in H. destruct (run_attempt loads _) as [read e]. exact (proj2 H).
Defined.

Definition sample_answer : BackendResponse :=
  {| br_model := "m"; br_content := "  Nairobi   is in
     Kenya"; br_finish_reason := JStr "stop"; br_prompt_tokens := JInt 5; br_completion_tokens := JInt 4 |}.

Lemma demo_reads_answer_witness :
  ∃ body, completion_body "ab" 1700000000 sample_answer = Some body ∧
    (read_response [] false 7 "Where is Nairobi?" 200 "lab" (Some body) "" f_zero).1 !! 2
      = Some "    A Nairobi is in Kenya".
Proof.
  eexists. split; [reflexivity|].
  pose proof (demo_reads_answer false [] "ab" 1700000000 sample_answer _ 7 "Where is Nairobi?" "lab" "" f_zero eq_refl) as H.
  destruct (read_response _ _ _ _ _ _ _ _ _) as [lines outcome]. exact (proj2 (proj2 (proj2 H))).
Defined.

#[local] Existing Instance number_format.

Lemma rotation_reaches_gateway_witness :
  let file := save_file sample_clients in
  ∃ updated file',
    rotate_client_key sample_clients "ci" "new" 100 50 = Some updated ∧
    rotate_main dumps "ci" "keys.json" "new" 100 50 file = Some {| rt_exit := 0; rt_file := file'; rt_out := ["new"] |} ∧
    load_file dumps file' = Some updated ∧ authenticate updated "new" 7 ≠ None.
Proof.
  cbv zeta. pose proof (rotation_reaches_gateway dumps "ci" "keys.json" "new" 100 50 (save_file sample_clients)
    sample_clients ltac:(by vm_compute)) as H.
  destruct (rotate_client_key sample_clients "ci" "new" 100 50) as [updated|] eqn:E; [|by vm_compute in E].
  destruct H as (file' & Hmain & Hload). exists updated, file'. split_and!; [done|exact Hmain|exact Hload|].
  injection E as <-. by vm_compute.
Defined.
